(* ===== verification/_CoqProject ===== *)
-Q . S2P
Prelude.v
Raii.v
FlowKey.v
PortPool.v
NetTypes.v
BackendPool.v
NatTable.v
NatTableFacts.v
NatTableSpec.v
Ipc.v
PacketMeta.v
LbNode.v
LbFacts.v
LbSpec.v
Graph.v
GraphFacts.v
GraphSpec.v
GraphTyped.v
Packet.v
Nodes.v
NodeFacts.v
Dataplane.v
Io.v
IoSpec.v
DataplaneSpec.v
SampleDevice.v
DataplaneSamples.v
Control.v
ControlPlane.v
ControlSpec.v
System.v
DeviceUse.v
TableKeys.v
SystemSpec.v
FairRun.v
FineSteps.v
Drain.v
SystemRefine.v
SystemSamples.v
Sharding.v
ShardingSamples.v
ControlPlaneSpec.v
Accounting.v
AccountingSamples.v
HealthThread.v
HealthThreadSpec.v
ControlSamples.v
HealthThreadSamples.v
Rcu.v
SeqLock.v
WeakMem.v
SeqLockWeak.v
RelaxedUse.v
PacketSpec.v
PacketSamples.v
Shm.v
Launch.v
LaunchSpec.v
LaunchSamples.v
Monitor.v
MonitorSpec.v
MonitorSamples.v
ControlMain.v
UnitTests.v
