(* ===== verification/Prelude.v ===== *)
(** * Cerebellum, an L4 load balancer: a verification library

    The program has two processes. The dataplane ([src/dataplane]) takes TCP and UDP
    packets for a virtual address from a NIC, picks a backend per connection, rewrites
    addresses and ports in both directions (full NAT) and sends them on; it is a graph
    of packet nodes run in bursts on each lcore. The control plane
    ([src/controlplane]) probes the backends and publishes which of them are up. They
    share two memory segments ([src/libs/ipc]): statistics, written by the dataplane,
    and the backend set, written under a sequence lock by the control plane. The
    configuration comes from [src/libs/common].

    ** Files

    - [Prelude] (this file): unsigned machine integers as [Z] with explicit
      wrap-around ([u8] to [u64]), [outcome] for code that may throw, be undefined or
      run out of fuel, with its notation, vectors as lists, tactics, generic lemmas.
    - [Raii]: programs with an outside state, exceptions and scoped objects; when such
      a program gives back what it takes, and when it comes to an end.
    - [FlowKey] ([net/flow_key.hpp]): the connection key, its bytes, the hash (FNV-1a
      or CRC32, by build), [SteerWorker].
    - [PortPool], [BackendPool] ([lb/port_pool.hpp], [lb/backend_pool.hpp],
      [lb/atomic_rcu.hpp]): SNAT ports of a worker; slots and active backends.
    - [NetTypes] ([net_types.cpp], [config_loader.cpp]): addresses, [sscanf]
      conversions, the configuration loader over an abstract YAML document.
    - [NatTable], [NatTableFacts], [NatTableSpec] ([lb/nat_table.hpp]): the connection
      table (open addressing, expiry, reverse index), its invariants, and the map from
      keys to current flows that it implements.
    - [Ipc] ([shm_header.hpp], [lcore_stats.hpp], [control_view.hpp]): shared layouts.
    - [PacketMeta], [LbNode], [LbFacts], [LbSpec] ([packet_meta.hpp], [lb_node.cpp]):
      [HandlePacket], [CreateFlow], [MaybeTeardown]; [lb_reach] are the states of a
      worker after any packets.
    - [Graph], [GraphFacts], [GraphSpec] ([graph/]): frames, the frame pool, wiring,
      the dispatcher. [World] and [Node_ok] are the contract between the engine and
      its nodes; the engine's theorems are proved against it.
    - [GraphTyped]: predicates on the packets in front of each node, which hold through a
      burst when every node keeps them.
    - [Packet], [Nodes], [NodeFacts] ([nodes/], [lb/steering.hpp]): packet bytes and
      wire formats, DPDK as the class [Dpdk], every node; each satisfies [Node_ok].
    - [PacketSpec], [PacketSamples]: what classifying, rewriting, steering and ARP do
      to the bytes; a connection there and back.
    - [Dataplane], [DataplaneSpec], [SampleDevice], [DataplaneSamples]
      ([dataplane/src/main.cpp]): graphs, lcore loops, roles; a concrete device.
    - [System], [SystemSpec], [SystemRefine], [SystemSamples] ([main.cpp]): the lcores,
      the NIC, the signal, the control loop and the control plane as one step relation,
      a step of an lcore being one drained node; [sys_ok] is its invariant.
    - [FairRun]: endless runs of that process in which every launched lcore goes on.
    - [DeviceUse]: which nodes the graphs of an lcore have, and that a relation every
      node keeps is kept by every step; which calls on the device the steps make.
    - [TableKeys]: the keys and backends of the entries that a table can have.
    - [FineSteps], [Drain] ([lb_node.cpp]): the lcores frame by frame, with the load of the
      pool as a step of its own; on these steps a backend taken out of service, from the
      publication to the tables of the lcores.
    - [Sharding], [ShardingSamples] ([lb/steering.hpp], [nodes/]): rings as queues, the
      class [RingFifo]; what is steered to a worker, through the rings and its graph.
    - [Accounting], [AccountingSamples] ([lcore_stats.hpp], [stats_aggregator.cpp]): the
      device calls of each lcore, as the class [DeviceLog], against its counters.
    - [Io], [IoSpec] ([io/eal.hpp], [io/ring.hpp], [io/dpdk_port.cpp]): the wrappers over
      the set-up calls of DPDK, the class [EalApi].
    - [Launch], [LaunchSpec], [LaunchSamples] ([main.cpp]): [RunDataplane] and [main] from
      the command line to the exit code, with what they print, create, launch and give
      back, over what the main lcore finds in the rest of the process at each turn.
    - [Control], [ControlSpec] ([control_view.hpp], [main.cpp]): publishing and reading
      the backend set, building pools, the control loop.
    - [SeqLock]: the same two calls interleaved access by access.
    - [Rcu] ([lb/atomic_rcu.hpp]): the shared pointer to the pool with reference counts
      and a heap, and bursts that use it packet by packet.
    - [WeakMem], [SeqLockWeak], [RelaxedUse]: memory with the orders of [std::atomic], as
      views of the threads, with a small logic for a thread that stores and one that
      loads; the sequence lock and the pool pointer on it.
    - [ControlPlane], [ControlPlaneSpec], [ControlSamples] ([controlplane/]): health
      checks over the class [Sockets], statistics, monitor, HTTP bodies.
    - [HealthThread], [HealthThreadSpec], [HealthThreadSamples] ([health_checker.cpp]):
      the checker's thread, its mutex, [States], [Start] and [Stop] interleaved.
    - [Shm] ([shm_provider.cpp], [monitor_component.cpp]): segments over the class
      [Posix].
    - [Monitor], [MonitorSpec], [MonitorSamples] ([monitor_component.cpp], [api/]): the
      component from its constructor to its destructor, and the handlers that read it.
    - [ControlMain] ([controlplane/src/main.cpp]): the component list, what the
      constructors find, the section of the monitor in the static configuration.
    - [UnitTests] ([dataplane/tests]): the repository's unit tests on the definitions.

    ** What is proved

    - Connection table: in every reachable state the size is honest and keys are
      unique; lookup, insert and close implement lookup, insertion and deletion in the
      abstract map; every current flow is found by its reverse tuple as long as at
      most [kCapacity] flows were inserted.
    - Load balancer: ports are conserved, connections keep their backend and answers find
      their client whatever traffic there is in between, flows open and close as the flags
      say, from either side.
    - Graph: bursts end, lose no packet and return every frame; with the nodes, every
      lcore of every role runs without undefined behaviour and returns every mbuf.
    - Process: in every interleaving of the lcores no step is undefined, a buffer has
      exactly one owner, no two flows share an SNAT port of a backend, and after the signal
      every lcore comes back; the steps of one lcore compute what [LcoreMain] computes. No two
      lcores have the same connection, and its packets and answers reach the one that has
      it. Counters and reported rates are what the device calls add up to.
      [RunDataplane] ends in every fair run of the process once the signal has arrived, and
      gives back what it took, whichever call fails; the flags of the rings are true of
      their users, who use no other ring or port; [main] reports what happened.
    - Configuration: a file that says a configuration is loaded as exactly that.
    - Packets: the two classifiers agree; a packet leaves with the right addresses,
      ports, MACs and checksums and is otherwise untouched; a backend's answer comes
      back to the worker of its connection and leaves to the client.
    - Control: what is published is read as a whole, under any interleaving and on
      memory that keeps no more order than the source asks for; a reader returns when no
      publish is under way; health reaches the pool, and a backend that is down gets no
      new connections from an lcore once it has finished the frame it is in; no pool is
      used after it is freed or leaked; nothing leaks.
      [States] returns whole passes, [Stop] joins the thread without deadlock, and the
      monitor puts whole passes into the segment, touches only memory it has mapped, and
      implements on shared memory the poll of the control theorems.
    - Behaviour that is not as intended is stated as such: stale entries that exhaust
      the reverse index, the wrap of the millisecond clock, constructors that do not
      end, a control plane whose first poll comes too early and disables all backends, a
      control plane that stays detached, a port whose constructor leaks its pool and whose
      destructor frees it under a port that was not closed, a segment left in the middle of
      a publish that keeps a dataplane from starting, plain accesses that race, freed
      packets that no counter tells.

    ** Modelling

    Loops over a container are structural; other loops take fuel, which is a bound on
    the iterations: 255 for the [uint8_t] loops, 65536 for ports, [9 ^ R] for a graph of
    depth [R]; the two loops of the main lcore that wait for others take turns, of which
    [dataplane_ends] shows that finitely many are enough. The theorems show that this is
    enough; [OutOfFuel] is then a loop that does not end. The table and the load
    balancer are followed while the 32-bit millisecond clock does not come round
    ([nat_reach], [lb_reach]); what happens when it does is [expired_flow_revives]. An
    index out of range, a failed assertion and a division by zero are [Undef]. Stateful
    code passes its state; pointers to frames and mbufs are numbers into a store.
    Interfaces to code outside of the repository (DPDK, sockets, POSIX shared memory,
    yaml-cpp, the CRC instruction) are class parameters with the laws their
    documentation gives, and each has a concrete instance. Interleaving is that of
    sequential consistency, but for [WeakMem] and what is built on it; a step is one
    drained node for an lcore in [System], the load of the pool or one frame in
    [FineSteps], one packet in [Rcu]; one access for the sequence lock, one copied or
    probed backend for the health checker, one poll for the monitor. What happens beside
    the lcores may change the device as long as it keeps its mbufs; for [Sharding] it
    also leaves the rings alone. A tick of the statistics reads the segment at one
    moment. In [WeakMem] locations have one writer, threads execute their accesses in
    order, and plain accesses behave as relaxed ones; that C++ calls the plain accesses
    of the sequence lock a race is [seqlock_races].

    ** Not modelled

    Interleaving inside a node, but for the load balancer and the pool; weak memory for
    the mutex and the rings, which are those of the standard library and of DPDK;
    prefetches; the command line parser, which is a parameter; the userver framework
    (tasks, HTTP, JSON printing; the construction of components by [DaemonMain] is a
    class with its documented contract); the user interface and deployment files. Of the
    source lines that no definition is mapped to nearly all are includes, namespaces,
    declarations and comments. *)

From stdpp Require Export base tactics numbers list option gmap strings.
From Stdlib Require Export ZArith Lia.

Declare Scope uint_scope.
Delimit Scope uint_scope with uint.
Open Scope Z_scope.

(** ** Machine integers: a [w]-bit unsigned value is a [Z]; every C++ operation
    that can leave the range is followed by an explicit wrap. *)

Definition u8 (z : Z) : Z := z mod 2 ^ 8.

Definition u16 (z : Z) : Z := z mod 2 ^ 16.

Definition u32 (z : Z) : Z := z mod 2 ^ 32.

Definition u64 (z : Z) : Z := z mod 2 ^ 64.

Notation "a ⊞ b" := (u32 (a + b)) (at level 50, left associativity) : uint_scope.
Notation "a ⊟ b" := (u32 (a - b)) (at level 50, left associativity) : uint_scope.
Open Scope uint_scope.

(** [le_bytes n v]: the [n] bytes of [v] in memory on a little-endian host. *)
Fixpoint le_bytes (n : nat) (v : Z) : list Z :=
  match n with
  | O => []
  | S n => u8 v :: le_bytes n (v / 2 ^ 8)
  end.

(** ** Results of code that may fail.

    [Throw] is a C++ exception, [Undef] an access or an operation the language
    leaves undefined (an index out of range, a failed [assert], a division by
    zero), [OutOfFuel] a loop that has not finished in the steps given. *)

Inductive exn : Type :=
  | invalid_argument (what : string)
  | out_of_range (what : string)
  | length_error (what : string)
  | runtime_error (what : string).

Inductive outcome (A : Type) : Type :=
  | Ret (x : A)
  | Throw (e : exn)
  | Undef
  | OutOfFuel.

Arguments Ret {A} _.
Arguments Throw {A} _.
Arguments Undef {A}.
Arguments OutOfFuel {A}.

Definition obind {A B} (m : outcome A) (f : A -> outcome B) : outcome B :=
  match m with
  | Ret x => f x
  | Throw e => Throw e
  | Undef => Undef
  | OutOfFuel => OutOfFuel
  end.

Declare Scope outcome_scope.
Delimit Scope outcome_scope with outcome.
Notation "'let!' x ':=' m 'in' k" := (obind m (fun x => k))
  (at level 10, x binder, m at level 200, k at level 200) : outcome_scope.
Notation "m ';;;' k" := (obind m (fun _ => k))
  (at level 100, k at level 200, right associativity) : outcome_scope.
Open Scope outcome_scope.

(** [v[i]] on a [std::vector], a [std::array] or a C array: out of range is
    undefined. *)
Definition at_ {A} (l : list A) (i : nat) : outcome A :=
  match l !! i with
  | Some x => Ret x
  | None => Undef
  end.

(** [v[i] = x]. *)
Definition set_at {A} (l : list A) (i : nat) (x : A) : outcome (list A) :=
  match l !! i with
  | Some _ => Ret (<[i := x]> l)
  | None => Undef
  end.

(** ** [std::vector] seen as a list whose last element is [back()]. *)

Definition push_back {A} (v : list A) (x : A) : list A := v ++ [x].

Definition pop_back {A} (v : list A) : list A := take (pred (length v)) v.

Definition back {A} (v : list A) : option A := last v.

(** ** Automation *)

Create HintDb cere.
Create Rewrite HintDb cere_len.

#[export] Hint Resolve Z.mod_pos_bound : cere.
#[export] Hint Rewrite @length_insert @length_app @length_fmap @length_replicate : cere_len.

Ltac len := autorewrite with cere_len in *; simpl in *; try lia.

(** Turn boolean tests of the code into propositions. *)
Ltac bool_prop :=
  repeat match goal with
  | H : negb _ = true |- _ => apply negb_true_iff in H
  | H : negb _ = false |- _ => apply negb_false_iff in H
  | H : (_ && _)%bool = true |- _ => apply andb_true_iff in H as [? ?]
  | H : (_ || _)%bool = false |- _ => apply orb_false_iff in H as [? ?]
  | H : (_ =? _) = true |- _ => apply Z.eqb_eq in H
  | H : (_ =? _) = false |- _ => apply Z.eqb_neq in H
  | H : (_ <? _) = true |- _ => apply Z.ltb_lt in H
  | H : (_ <? _) = false |- _ => apply Z.ltb_ge in H
  | H : (_ <=? _) = true |- _ => apply Z.leb_le in H
  | H : (_ <=? _) = false |- _ => apply Z.leb_gt in H
  | H : bool_decide _ = true |- _ => apply bool_decide_eq_true in H
  | H : bool_decide _ = false |- _ => apply bool_decide_eq_false in H
  end.

(** ** Lemmas on machine integers *)

Lemma u8_range z : 0 <= u8 z < 256.
Proof. apply Z.mod_pos_bound. lia. Qed.

Lemma u16_range z : 0 <= u16 z < 65536.
Proof. apply Z.mod_pos_bound. lia. Qed.

Lemma u32_range z : 0 <= u32 z < 4294967296.
Proof. apply Z.mod_pos_bound. lia. Qed.

Lemma u32_small z : 0 <= z < 4294967296 -> u32 z = z.
Proof. intros; apply Z.mod_small; lia. Qed.

Lemma u16_small z : 0 <= z < 65536 -> u16 z = z.
Proof. intros; apply Z.mod_small; lia. Qed.

Lemma u8_small z : 0 <= z < 256 -> u8 z = z.
Proof. intros; apply Z.mod_small; lia. Qed.

#[export] Hint Resolve u8_range u16_range u32_range : cere.

Lemma length_le_bytes n v : length (le_bytes n v) = n.
Proof. revert v; induction n; intros; simpl; auto. Qed.

#[export] Hint Rewrite length_le_bytes : cere_len.

(** A value in range is determined by its bytes in memory. *)
Lemma le_bytes_inj n v w :
  0 <= v < 2 ^ (8 * Z.of_nat n) -> 0 <= w < 2 ^ (8 * Z.of_nat n) ->
  le_bytes n v = le_bytes n w -> v = w.
Proof.
  revert v w; induction n as [|n IH]; intros v w Hv Hw Heq.
  - simpl in *; lia.
  - simpl in Heq; injection Heq as Hb Hr.
    replace (2 ^ (8 * Z.of_nat (S n))) with (2 ^ 8 * 2 ^ (8 * Z.of_nat n)) in *
      by (rewrite <- Z.pow_add_r by lia; f_equal; lia).
    apply IH in Hr; [| split; [apply Z.div_pos; lia | apply Z.div_lt_upper_bound; lia] ..].
    unfold u8 in Hb.
    rewrite (Z.div_mod v (2 ^ 8)), (Z.div_mod w (2 ^ 8)) by lia.
    now rewrite Hr, Hb.
Qed.

Lemma le_bytes_byte n v : Forall (fun b => 0 <= b < 256) (le_bytes n v).
Proof. revert v; induction n; intros; simpl; constructor; auto with cere. Qed.

(** ** Lemmas on vectors and lists *)

Lemma back_pop_back {A} (v : list A) x : back v = Some x -> v = pop_back v ++ [x].
Proof.
  unfold back, pop_back; intros H.
  destruct v as [|y v'] using rev_ind; [discriminate|clear IHv'].
  rewrite last_snoc in H; injection H as ->.
  rewrite length_app, Nat.add_1_r; simpl.
  now rewrite take_app_length.
Qed.

Lemma back_None {A} (v : list A) : back v = None <-> v = [].
Proof. apply last_None. Qed.

(** Replacing one element of a list changes an [omap] of it by that element. *)
Lemma omap_insert_split {A B} (g : A -> option B) (l : list A) s x :
  l !! s = Some x ->
  exists rest, omap g l ≡ₚ option_list (g x) ++ rest /\
    forall y, omap g (<[s := y]> l) ≡ₚ option_list (g y) ++ rest.
Proof.
  intros Hs. assert (Hlt : (s < length l)%nat) by (eapply lookup_lt_Some; eauto).
  assert (Hmid : forall y, omap g (take s l ++ y :: drop (S s) l) ≡ₚ
    option_list (g y) ++ (omap g (take s l) ++ omap g (drop (S s) l))).
  { intros y. rewrite omap_app. simpl. destruct (g y); simpl; [|done].
    symmetry. apply Permutation_middle. }
  exists (omap g (take s l) ++ omap g (drop (S s) l)). split.
  - rewrite <- (take_drop_middle l s x Hs) at 1. apply Hmid.
  - intros y. rewrite insert_take_drop by done. apply Hmid.
Qed.

Lemma omap_Forall2 {A B} (g : A -> option B) (l l' : list A) :
  Forall2 (fun x y => g x = g y) l l' -> omap g l = omap g l'.
Proof. induction 1 as [|x y l l' E _ IH]; simpl; [done|]. rewrite E. destruct (g y); [f_equal|]; exact IH. Qed.

Lemma filter_insert_length {A} (P : A -> bool) (l : list A) s x y :
  l !! s = Some x ->
  (length (List.filter P (<[s := y]> l)) + (if P x then 1 else 0)
   = length (List.filter P l) + (if P y then 1 else 0))%nat.
Proof.
  intros Hs.
  assert (Hlt : (s < length l)%nat) by (eapply lookup_lt_Some; eauto).
  rewrite insert_take_drop by done.
  rewrite <- (take_drop_middle l s x Hs) at 3.
  rewrite !List.filter_app, !length_app; simpl.
  destruct (P x), (P y); simpl; lia.
Qed.

Lemma NoDup_reverse {A} (l : list A) : NoDup l -> NoDup (reverse l).
Proof. intros H. now rewrite reverse_Permutation. Qed.

(** ** Lemmas on [outcome] *)

Lemma bind_Ret {A B} (m : outcome A) (f : A -> outcome B) y :
  obind m f = Ret y -> exists x, m = Ret x /\ f x = Ret y.
Proof. destruct m; simpl; try discriminate. eauto. Qed.

(** Split a successful sequence of calls into its successful steps. *)
Ltac ret_inv :=
  repeat match goal with
  | H : obind _ _ = Ret _ |- _ =>
      let x := fresh "x" in let E := fresh "E" in
      apply bind_Ret in H as (x & E & H)
  | H : Ret _ = Ret _ |- _ => injection H as H; subst
  end.

Lemma at_Ret {A} (l : list A) i x : at_ l i = Ret x <-> l !! i = Some x.
Proof. unfold at_. destruct (l !! i); naive_solver. Qed.

Lemma set_at_Ret {A} (l : list A) i x l' :
  set_at l i x = Ret l' <-> (i < length l)%nat /\ l' = <[i := x]> l.
Proof.
  unfold set_at. destruct (l !! i) as [y|] eqn:E.
  - apply lookup_lt_Some in E. naive_solver.
  - apply lookup_ge_None in E. split; [discriminate|lia].
Qed.

(** The keys of an [omap] are distinct when no two positions give the same key. *)
Lemma NoDup_omap_fst {A K V} (g : A -> option (K * V)) (l : list A) :
  (forall i j x y k v w, l !! i = Some x -> l !! j = Some y ->
     g x = Some (k, v) -> g y = Some (k, w) -> i = j) ->
  NoDup (omap g l).*1.
Proof.
  induction l as [|a l IH]; intros Hu; simpl; [constructor|].
  assert (Htl : NoDup (omap g l).*1).
  { apply IH. intros i j x y k v w Hi Hj Hx Hy.
    specialize (Hu (S i) (S j) x y k v w Hi Hj Hx Hy). lia. }
  destruct (g a) as [[k v]|] eqn:Ha; [|done]. simpl. constructor; [|done].
  intros Hin. apply list_elem_of_fmap in Hin as ([k' w] & Hk & Hin). simpl in Hk. subst k'.
  apply list_elem_of_omap in Hin as (y & Hy & Hgy). apply list_elem_of_lookup in Hy as [j Hj].
  specialize (Hu 0%nat (S j) a y k v w eq_refl Hj Ha Hgy). lia.
Qed.

Lemma length_omap_all {A B} (g : A -> option B) (l : list A) :
  (forall x, x ∈ l -> is_Some (g x)) -> length (omap g l) = length l.
Proof.
  induction l as [|a l IH]; intros Hall; simpl; [done|].
  destruct (Hall a) as [b ->]; [apply list_elem_of_here|]. simpl. f_equal. apply IH.
  intros x Hx. apply Hall. now apply list_elem_of_further.
Qed.

Lemma Ret_inj {A} (x y : A) : Ret x = Ret y -> x = y.
Proof. congruence. Qed.

(** Elements that give the same value of a duplicate-free [omap] are the same. *)
Lemma NoDup_omap_inj {A B} (f : A -> option B) (l : list A) i j x y v :
  NoDup (omap f l : list B) -> l !! i = Some x -> l !! j = Some y -> f x = Some v -> f y = Some v -> i = j.
Proof.
  assert (Hin : forall (l : list A) x v k, l !! k = Some x -> f x = Some v -> v ∈ (omap f l : list B)).
  { intros l' x' v' k Hk Hf. apply list_elem_of_omap. exists x'. split; [|done]. eapply list_elem_of_lookup_2; eauto. }
  revert i j. induction l as [|a l IH]; intros i j Hnd Hi Hj Hx Hy; [done|]. simpl in Hnd.
  destruct i as [|i], j as [|j]; simpl in Hi, Hj; [done|..].
  - injection Hi as ->. rewrite Hx in Hnd. apply NoDup_cons in Hnd as [Hni _]. exfalso. eauto.
  - injection Hj as ->. rewrite Hy in Hnd. apply NoDup_cons in Hnd as [Hni _]. exfalso. eauto.
  - f_equal. eapply IH; eauto. destruct (f a); [now apply NoDup_cons in Hnd as [_ ?]|done].
Qed.

(** Replacing one element of a list of lists. *)
Lemma concat_insert_split {A} (l : list (list A)) i x :
  l !! i = Some x ->
  exists rest, concat l ≡ₚ x ++ rest /\ forall y, concat (<[i := y]> l) ≡ₚ y ++ rest.
Proof.
  intros Hi. exists (concat (take i l) ++ concat (drop (S i) l)). split.
  - rewrite <- (take_drop_middle l i x Hi) at 1. rewrite concat_app. simpl. apply Permutation_app_swap_app.
  - intros y. rewrite insert_take_drop by (now apply lookup_lt_Some in Hi).
    rewrite concat_app. simpl. apply Permutation_app_swap_app.
Qed.

Lemma elem_of_concat_lookup {A} (l : list (list A)) k x m : l !! k = Some x -> m ∈ x -> m ∈ concat l.
Proof.
  revert k. induction l as [|y l IH]; intros k Hk Hm; [done|]. simpl. apply elem_of_app.
  destruct k as [|k]; simpl in Hk; [left; congruence|right; eauto].
Qed.

Lemma elem_of_concat_lookup_1 {A} (l : list (list A)) m : m ∈ concat l -> exists k x, l !! k = Some x /\ m ∈ x.
Proof.
  induction l as [|y l IH]; simpl; [intros []%elem_of_nil|]. intros [Hm|Hm]%elem_of_app; [exists 0%nat, y; eauto|].
  destruct (IH Hm) as (k & x & ? & ?). exists (S k), x. eauto.
Qed.

Lemma NoDup_concat_elem {A} (l : list (list A)) k x : NoDup (concat l) -> l !! k = Some x -> NoDup x.
Proof.
  revert k. induction l as [|y l IH]; intros k Hnd Hk; [done|]. simpl in Hnd. apply NoDup_app in Hnd as (Hy & _ & Hl).
  destruct k as [|k]; simpl in Hk; [congruence|eauto].
Qed.

(** Lists whose concatenation has no duplicates share no element. *)
Lemma NoDup_concat_lookup {A} (l : list (list A)) i j x y m :
  NoDup (concat l) -> l !! i = Some x -> l !! j = Some y -> m ∈ x -> m ∈ y -> i = j.
Proof.
  revert i j. induction l as [|z l IH]; intros i j Hnd Hi Hj Hx Hy; [done|]. simpl in Hnd.
  apply NoDup_app in Hnd as (_ & Hdis & Hnd).
  destruct i as [|i], j as [|j]; simpl in *; simplify_eq; [done| | |f_equal; eauto];
    exfalso; eapply Hdis; eauto using elem_of_concat_lookup.
Qed.
