(* ===== verification/Raii.v ===== *)
(** * Code with a state, exceptions and destructors

    [prog S A] is a call that takes the state of the outside world and gives a result
    or an exception, and the state it leaves. [scoped] is an object with automatic
    storage: its destructor runs when the scope is left, also by an exception. The
    lemmas say when a program gives back what it takes. *)

From S2P Require Import Prelude.

Definition prog (S A : Type) : Type := S -> outcome A * S.

Section Prog.
Context {S : Type}.

Definition pret {A} (x : A) : prog S A := fun s => (Ret x, s).

Definition pthrow {A} (e : exn) : prog S A := fun s => (Throw e, s).

(** A computation that does not touch the state. *)
Definition lift {A} (m : outcome A) : prog S A := fun s => (m, s).

Definition pbind {A B} (m : prog S A) (k : A -> prog S B) : prog S B := fun s =>
  match m s with
  | (Ret x, s) => k x s
  | (Throw e, s) => (Throw e, s)
  | (Undef, s) => (Undef, s)
  | (OutOfFuel, s) => (OutOfFuel, s)
  end.

(** Destructors run when a scope is left by a return or an exception. *)
Definition left {A} (r : outcome A) : bool :=
  match r with
  | Ret _ | Throw _ => true
  | _ => false
  end.

Definition scoped {R A} (ctor : prog S R) (dtor : R -> S -> S) (body : R -> prog S A) : prog S A :=
  pbind ctor (fun r s => let '(res, s) := body r s in (res, if left res then dtor r s else s)).

(** [try { m } catch (const std::exception& e) { handler }]. *)
Definition try_catch {A} (m : prog S A) (handler : exn -> prog S A) : prog S A := fun s =>
  match m s with
  | (Throw e, s) => handler e s
  | r => r
  end.

Lemma pbind_Ret {A B} (m : prog S A) (k : A -> prog S B) s y s' :
  pbind m k s = (Ret y, s') -> exists x s1, m s = (Ret x, s1) /\ k x s1 = (Ret y, s').
Proof. unfold pbind. destruct (m s) as [[x|e| |] s1]; try done. eauto. Qed.

Lemma lift_Ret {A} (m : outcome A) s x s' : lift m s = (Ret x, s') -> m = Ret x /\ s' = s.
Proof. now intros [= -> ->]. Qed.

Lemma scoped_Ret {R A} (ctor : prog S R) dtor (body : R -> prog S A) s y s' :
  scoped ctor dtor body s = (Ret y, s') ->
  exists r s1 s2, ctor s = (Ret r, s1) /\ body r s1 = (Ret y, s2) /\ s' = dtor r s2.
Proof.
  intros (r & s1 & Hc & Hb)%pbind_Ret. destruct (body r s1) as [res s2] eqn:E. injection Hb as -> <-. eauto 6.
Qed.

End Prog.

Declare Scope prog_scope.
Delimit Scope prog_scope with prog.
Notation "'do!' x ':=' m 'in' k" := (pbind m (fun x => k))
  (at level 10, x binder, m at level 200, k at level 200) : prog_scope.
Notation "m '>>>' k" := (pbind m (fun _ => k))
  (at level 100, k at level 200, right associativity) : prog_scope.
Open Scope prog_scope.

(** A program on a part of the state. *)
Definition zoom {S T A} (get : T -> S) (put : T -> S -> T) (m : prog S A) : prog T A := fun t =>
  let '(r, s) := m (get t) in (r, put t s).

(** ** What a program gives back

    [same s s'] relates states with the same resources. With [thrown] the statements
    are about exceptions too, else about normal returns only. *)
Section Keeps.
Context {S : Type} (same : S -> S -> Prop) `{!PreOrder same} (thrown : bool).

Definition settled {A} (r : outcome A) : Prop :=
  match r with
  | Ret _ => True
  | Throw _ => thrown = true
  | _ => False
  end.

(** The program leaves the resources as they were. *)
Definition keeps {A} (m : prog S A) : Prop := forall s r s', m s = (r, s') -> settled r -> same s s'.

(** A constructor whose destructor takes back what it took; if it throws it has
    taken nothing. *)
Definition acquires {R} (ctor : prog S R) (dtor : R -> S -> S) : Prop :=
  forall s r s', ctor s = (r, s') ->
  match r with
  | Ret x => forall s2, same s' s2 -> same s (dtor x s2)
  | Throw _ => thrown = true -> same s s'
  | _ => True
  end.

Lemma keeps_pret {A} (x : A) : keeps (pret x).
Proof. intros s r s' [= _ <-] _. reflexivity. Qed.

Lemma keeps_lift {A} (m : outcome A) : keeps (lift m).
Proof. intros s r s' [= _ <-] _. reflexivity. Qed.

Lemma keeps_pthrow {A} e : keeps (pthrow (A:=A) e).
Proof. intros s r s' [= _ <-] _. reflexivity. Qed.

Lemma keeps_bind {A B} (m : prog S A) (k : A -> prog S B) : keeps m -> (forall x, keeps (k x)) -> keeps (pbind m k).
Proof.
  intros Hm Hk s r s' E Hr. unfold pbind in E. destruct (m s) as [[x|e| |] s1] eqn:Em; simplify_eq; try done.
  - etransitivity; [exact (Hm _ _ _ Em I)|exact (Hk x _ _ _ E Hr)].
  - exact (Hm _ _ _ Em Hr).
Qed.

Lemma keeps_scoped {R A} (ctor : prog S R) dtor (body : R -> prog S A) :
  acquires ctor dtor -> (forall x, keeps (body x)) -> keeps (scoped ctor dtor body).
Proof.
  intros Hc Hb s r s' E Hr. unfold scoped, pbind in E. destruct (ctor s) as [[x|e| |] s1] eqn:Ec; simplify_eq; try done.
  - destruct (body x s1) as [res s2] eqn:Eb. injection E as <- <-.
    assert (Hl : left res = true) by (destruct res; done). rewrite Hl.
    exact (Hc _ _ _ Ec s2 (Hb x _ _ _ Eb Hr)).
  - exact (Hc _ _ _ Ec Hr).
Qed.

Lemma keeps_try {A} (m : prog S A) (handler : exn -> prog S A) :
  thrown = true -> keeps m -> (forall e, keeps (handler e)) -> keeps (try_catch m handler).
Proof.
  intros Ht Hm Hh s r s' E Hr. unfold try_catch in E. destruct (m s) as [[x|e| |] s1] eqn:Em; simplify_eq; try done.
  - exact (Hm _ _ _ Em I).
  - etransitivity; [exact (Hm _ _ _ Em Ht)|exact (Hh e _ _ _ E Hr)].
Qed.

End Keeps.

Arguments settled thrown {A} r.

(** Zooming into a part of the state. *)
Section Zoom.
Context {S T : Type} (get : T -> S) (put : T -> S -> T) (sameS : S -> S -> Prop) (sameT : T -> T -> Prop).
Context (put_same : forall t s, sameS (get t) s -> sameT t (put t s)).

Lemma keeps_zoom thrown {A} (m : prog S A) : keeps sameS thrown m -> keeps sameT thrown (zoom get put m).
Proof.
  intros Hm t r t' E Hr. unfold zoom in E. destruct (m (get t)) as [r0 s] eqn:Em. injection E as <- <-.
  apply put_same. exact (Hm _ _ _ Em Hr).
Qed.

End Zoom.

(** ** Programs that end

    In every state the program returns a value with [Q] or throws. *)
Section Ends.
Context {S : Type}.

Definition ends {A} (m : prog S A) (Q : A -> Prop) : Prop :=
  forall s, match (m s).1 with
            | Ret x => Q x
            | Throw _ => True
            | _ => False
            end.

Lemma ends_lift {A} (x : A) (m : outcome A) (Q : A -> Prop) : m = Ret x -> Q x -> ends (lift m) Q.
Proof. intros -> Hx s. exact Hx. Qed.

Lemma ends_bind {A B} (m : prog S A) (k : A -> prog S B) (P : A -> Prop) (Q : B -> Prop) :
  ends m P -> (forall x, P x -> ends (k x) Q) -> ends (pbind m k) Q.
Proof. intros Hm Hk s. specialize (Hm s). unfold pbind. destruct (m s) as [[x|e| |] s1]; try done. now apply Hk. Qed.

Lemma ends_scoped {R A} (ctor : prog S R) dtor (body : R -> prog S A) (P : R -> Prop) (Q : A -> Prop) :
  ends ctor P -> (forall x, P x -> ends (body x) Q) -> ends (scoped ctor dtor body) Q.
Proof.
  intros Hc Hb. eapply ends_bind; [exact Hc|]. intros x Hx s. specialize (Hb x Hx s). now destruct (body x s) as [r s1].
Qed.

Lemma ends_left {A} (m : prog S A) Q s : ends m Q -> left (m s).1 = true.
Proof. intros Hm. specialize (Hm s). now destruct ((m s).1). Qed.

(** From state [s], the program whose loops may take [n] turns comes to an end that is
    the same for every [n] that is large enough. *)
Definition settles {A} (m : nat -> prog S A) (s : S) : Prop :=
  exists N r s', left r = true /\ forall n, (N <= n)%nat -> m n s = (r, s').

Lemma settles_bind {A B} (m : prog S A) (k : nat -> A -> prog S B) s :
  left (m s).1 = true -> (forall x s1, m s = (Ret x, s1) -> settles (fun n => k n x) s1) -> settles (fun n => pbind m (k n)) s.
Proof.
  intros Hm Hk. unfold settles, pbind. destruct (m s) as [[x|e| |] s1]; try done; [by apply Hk|].
  exists 0%nat, (Throw e), s1. done.
Qed.

Lemma settles_scoped {R A} (ctor : prog S R) dtor (body : nat -> R -> prog S A) s :
  left (ctor s).1 = true -> (forall x s1, ctor s = (Ret x, s1) -> settles (fun n => body n x) s1) ->
  settles (fun n => scoped ctor dtor (body n)) s.
Proof.
  intros Hc Hb. apply (settles_bind ctor (fun n r s => let '(res, s) := body n r s in (res, if left res then dtor r s else s)) s Hc).
  intros x s1 E. destruct (Hb x s1 E) as (N & r & s' & Hl & Hn). exists N, r, (dtor x s'). split; [done|].
  intros n Hle. by rewrite (Hn n Hle), Hl.
Qed.

End Ends.

Create HintDb raii.
#[export] Hint Resolve keeps_pret keeps_lift keeps_pthrow keeps_bind keeps_scoped : raii.
