(* ===== verification/FlowKey.v ===== *)
(** * Flow keys and their hash ([dataplane/include/net/flow_key.hpp])

    The 16-byte 5-tuple key, its byte-wise equality ([memcmp]), the two bodies
    of [Hash] selected by the preprocessor, and [SteerWorker].

    Bytes are those of the object in memory on a little-endian host, the only
    hosts DPDK's AF_XDP driver and the CRC32 builtin are used on. *)

From S2P Require Import Prelude.

(** What the build fixes: whether the compiler defines [__SSE4_2__], and the
    logarithm of the connection table's capacity ([kNatCapacityBits], a template
    argument of [NatTable]; a [uint32_t] power of two has at most 31 bits). *)
Class BuildParams := {
  sse42 : bool;
  kNatCapacityBits : nat;
  kNatCapacityBits_le : (kNatCapacityBits <= 31)%nat;
}.

Definition kFlowKeySize : nat := 16.

Definition kFlowKeyPad : nat := 3.

Record FlowKey := mkFlowKey {
  fk_src_ip : Z;
  fk_dst_ip : Z;
  fk_src_port : Z;
  fk_dst_port : Z;
  fk_proto : Z;
  fk_pad : list Z;
}.

(** [FlowKey{src_ip, dst_ip, src_port, dst_port, proto}]: aggregate
    initialisation leaves the padding zero. *)
Definition flow_key (src dst sport dport proto : Z) : FlowKey :=
  mkFlowKey src dst sport dport proto (replicate kFlowKeyPad 0).

(** The object representation. *)
Definition fk_bytes (k : FlowKey) : list Z :=
  le_bytes 4 (fk_src_ip k) ++ le_bytes 4 (fk_dst_ip k) ++
  le_bytes 2 (fk_src_port k) ++ le_bytes 2 (fk_dst_port k) ++
  le_bytes 1 (fk_proto k) ++ fk_pad k.

(** [operator==]: [memcmp(&lhs, &rhs, sizeof(FlowKey)) == 0]. *)
Definition FlowKey_eqb (lhs rhs : FlowKey) : bool :=
  bool_decide (fk_bytes lhs = fk_bytes rhs).

(** ** [Hash], the portable body: 32-bit FNV-1a over the object's bytes. *)

Definition kFnvOffsetBasis : Z := 2166136261.

Definition kFnvPrime : Z := 16777619.

Definition fnv_step (hash byte : Z) : Z := u32 (Z.lxor hash byte * kFnvPrime).

Definition Hash_fnv (k : FlowKey) : Z :=
  foldl fnv_step kFnvOffsetBasis (fk_bytes k).

(** ** [Hash], the SSE4.2 body: two [__builtin_ia32_crc32di], the CRC32
    instruction on a 64-bit operand: CRC-32C (reflected polynomial
    [0x82F63B78]) of its eight bytes, lowest first. *)

Definition kCrcSeed : Z := 3735928559.

Definition crc32c_poly : Z := 2197175160.

Definition crc32c_bit (crc : Z) : Z :=
  if Z.odd crc then Z.lxor (Z.shiftr crc 1) crc32c_poly else Z.shiftr crc 1.

Definition crc32c_byte (crc byte : Z) : Z :=
  Nat.iter 8 crc32c_bit (Z.lxor crc byte).

Definition crc32di (crc : Z) (word : list Z) : Z := foldl crc32c_byte crc word.

Definition Hash_crc (k : FlowKey) : Z :=
  let lo_word := take 8 (fk_bytes k) in
  let hi_word := drop 8 (fk_bytes k) in
  u32 (crc32di (u32 (crc32di kCrcSeed lo_word)) hi_word).

Definition Hash `{BuildParams} (k : FlowKey) : Z :=
  if sse42 then Hash_crc k else Hash_fnv k.

(** [SteerWorker]: [Hash(key) % n_workers]. *)
Definition SteerWorker `{BuildParams} (k : FlowKey) (n_workers : Z) : Z :=
  Hash k mod n_workers.

(** A key all of whose members are in range. *)
Definition fk_wf (k : FlowKey) : Prop :=
  0 <= fk_src_ip k < 2 ^ 32 /\ 0 <= fk_dst_ip k < 2 ^ 32 /\
  0 <= fk_src_port k < 2 ^ 16 /\ 0 <= fk_dst_port k < 2 ^ 16 /\
  0 <= fk_proto k < 2 ^ 8 /\ length (fk_pad k) = kFlowKeyPad.

(** ** Lemmas *)

Lemma Hash_range `{BuildParams} k : 0 <= Hash k < 4294967296.
Proof.
  unfold Hash, Hash_crc; destruct sse42; [apply u32_range|].
  unfold Hash_fnv. destruct (fk_bytes k) as [|b l] using rev_ind; [done|].
  rewrite foldl_snoc. apply u32_range.
Qed.
#[export] Hint Resolve Hash_range : cere.

(** The hash is a function of the bytes compared by [operator==]. *)
Lemma Hash_bytes `{BuildParams} k1 k2 : fk_bytes k1 = fk_bytes k2 -> Hash k1 = Hash k2.
Proof. unfold Hash, Hash_crc, Hash_fnv. now intros ->. Qed.

Lemma FlowKey_eqb_bytes k1 k2 : FlowKey_eqb k1 k2 = true <-> fk_bytes k1 = fk_bytes k2.
Proof. unfold FlowKey_eqb. now rewrite bool_decide_eq_true. Qed.

Lemma FlowKey_eqb_refl k : FlowKey_eqb k k = true.
Proof. now apply FlowKey_eqb_bytes. Qed.

Lemma length_fk_bytes k : fk_wf k -> length (fk_bytes k) = kFlowKeySize.
Proof. intros (_&_&_&_&_&Hp). unfold fk_bytes. len. unfold kFlowKeySize, kFlowKeyPad in *. lia. Qed.

Lemma flow_key_wf src dst sp dp p :
  0 <= src < 2 ^ 32 -> 0 <= dst < 2 ^ 32 -> 0 <= sp < 2 ^ 16 -> 0 <= dp < 2 ^ 16 ->
  0 <= p < 2 ^ 8 -> fk_wf (flow_key src dst sp dp p).
Proof. intros; repeat split; simpl; lia. Qed.

Lemma fk_bytes_inj k1 k2 : fk_wf k1 -> fk_wf k2 -> fk_bytes k1 = fk_bytes k2 -> k1 = k2.
Proof.
  destruct k1, k2; intros (?&?&?&?&?&?) (?&?&?&?&?&?); unfold fk_bytes; cbn [fk_src_ip fk_dst_ip fk_src_port fk_dst_port fk_proto fk_pad] in *.
  intros E.
  repeat (apply app_inj_1 in E as [?E E]; [|now rewrite !length_le_bytes]).
  f_equal; try assumption;
    match goal with H : le_bytes ?n ?x = le_bytes ?n ?y |- ?x = ?y => apply (le_bytes_inj n); auto end.
Qed.

(** ** FNV-1a: one step is injective in each argument *)

Definition kFnvPrimeInv : Z := 899433627.

Lemma kFnvPrime_inverse : u32 (kFnvPrime * kFnvPrimeInv) = 1.
Proof. reflexivity. Qed.

Lemma lxor_u32_range a b : 0 <= a < 2 ^ 32 -> 0 <= b < 2 ^ 32 -> 0 <= Z.lxor a b < 2 ^ 32.
Proof.
  intros Ha Hb. split; [apply Z.lxor_nonneg; lia|].
  destruct (Z.eq_dec (Z.lxor a b) 0) as [->|Hn]; [lia|].
  assert (0 <= Z.lxor a b) by (apply Z.lxor_nonneg; lia).
  apply Z.log2_lt_pow2; [lia|].
  eapply Z.le_lt_trans; [apply Z.log2_lxor; lia|].
  apply Z.max_lub_lt.
  - destruct (Z.eq_dec a 0) as [->|]; [simpl; lia|]. apply Z.log2_lt_pow2; lia.
  - destruct (Z.eq_dec b 0) as [->|]; [simpl; lia|]. apply Z.log2_lt_pow2; lia.
Qed.

Lemma fnv_mul_inj x y :
  0 <= x < 2 ^ 32 -> 0 <= y < 2 ^ 32 ->
  u32 (x * kFnvPrime) = u32 (y * kFnvPrime) -> x = y.
Proof.
  intros Hx Hy E.
  assert (Hinv : forall z, 0 <= z < 2 ^ 32 -> u32 (u32 (z * kFnvPrime) * kFnvPrimeInv) = z).
  { intros z Hz. unfold u32. rewrite Z.mul_mod_idemp_l by lia.
    rewrite <- Z.mul_assoc, <- Z.mul_mod_idemp_r by lia.
    replace ((kFnvPrime * kFnvPrimeInv) mod 2 ^ 32) with 1 by reflexivity.
    rewrite Z.mul_1_r. now apply Z.mod_small. }
  rewrite <- (Hinv x Hx), <- (Hinv y Hy). now rewrite E.
Qed.

Lemma lxor_cancel_l a b c : Z.lxor a b = Z.lxor a c -> b = c.
Proof.
  intros E. rewrite <- (Z.lxor_0_l b), <- (Z.lxor_0_l c), <- (Z.lxor_nilpotent a).
  now rewrite !Z.lxor_assoc, E.
Qed.

Lemma fnv_step_range h b : 0 <= fnv_step h b < 2 ^ 32.
Proof. apply u32_range. Qed.

Lemma fnv_step_inj_hash h1 h2 b :
  0 <= h1 < 2 ^ 32 -> 0 <= h2 < 2 ^ 32 -> 0 <= b < 256 ->
  fnv_step h1 b = fnv_step h2 b -> h1 = h2.
Proof.
  intros ??? E. apply fnv_mul_inj in E; [|apply lxor_u32_range; lia ..].
  rewrite !(Z.lxor_comm _ b) in E. now apply lxor_cancel_l in E.
Qed.

Lemma fnv_step_inj_byte h b1 b2 :
  0 <= h < 2 ^ 32 -> 0 <= b1 < 256 -> 0 <= b2 < 256 ->
  fnv_step h b1 = fnv_step h b2 -> b1 = b2.
Proof.
  intros ??? E. apply fnv_mul_inj in E; [|apply lxor_u32_range; lia ..].
  now apply lxor_cancel_l in E.
Qed.

Lemma foldl_fnv_range h l : 0 <= h < 2 ^ 32 -> 0 <= foldl fnv_step h l < 2 ^ 32.
Proof. revert h; induction l; simpl; auto using fnv_step_range. Qed.

Lemma foldl_fnv_inj h1 h2 l :
  Forall (fun b => 0 <= b < 256) l -> 0 <= h1 < 2 ^ 32 -> 0 <= h2 < 2 ^ 32 ->
  foldl fnv_step h1 l = foldl fnv_step h2 l -> h1 = h2.
Proof.
  intros Hl; revert h1 h2; induction Hl as [|b l Hb Hl IH]; simpl; [auto|].
  intros h1 h2 ?? E. apply IH in E; auto using fnv_step_range.
  now apply fnv_step_inj_hash in E.
Qed.
