(* ===== verification/PortPool.v ===== *)
(** * The SNAT port pool ([dataplane/include/lb/port_pool.hpp])

    A vector of free ports used as a stack. Both constructors count a
    [uint32_t] down from [high] to [low]; the loops are run with fuel, and
    [PortPool_terminates] / [ForWorker_ok] say how much is enough. *)

From S2P Require Import Prelude.

Definition kEphemeralLow : Z := 1024.

Definition kEphemeralHigh : Z := 65535.

Record PortPool := mkPortPool { free_ : list Z }.

(** [std::vector<uint16_t>::max_size()] ([PTRDIFF_MAX / 2] on LP64). *)
Definition ports_max_size : Z := 2 ^ 62 - 1.

Definition reserve (n : Z) : outcome unit :=
  if ports_max_size <? n then Throw (length_error "vector::reserve") else Ret tt.

(** [for (uint32_t port = high; port >= low; --port) if (keep) push_back(port)]. *)
Fixpoint push_ports (fuel : nat) (keep : Z -> bool) (low port : Z) (free : list Z)
  : outcome (list Z) :=
  if low <=? port then
    match fuel with
    | O => OutOfFuel
    | S fuel =>
        push_ports fuel keep low (port ⊟ 1)
          (if keep port then push_back free (u16 port) else free)
    end
  else Ret free.

(** [PortPool(low, high)]. *)
Definition PortPool_ctor (fuel : nat) (low high : Z) : outcome PortPool :=
  reserve (u64 (u64 (high - low) + 1)) ;;;
  let! free := push_ports fuel (fun _ => true) low high [] in
  Ret (mkPortPool free).

(** [PortPool::ForWorker(worker_id, n_workers, low, high)]. *)
Definition ForWorker (fuel : nat) (worker_id n_workers low high : Z) : outcome PortPool :=
  if n_workers =? 0 then Undef else
  reserve (u64 (u64 (high - low) / n_workers + 1)) ;;;
  let! free := push_ports fuel (fun port => port mod n_workers =? worker_id) low high [] in
  Ret (mkPortPool free).

(** [Acquire]: 0 when no port is free. *)
Definition Acquire (pool : PortPool) : Z * PortPool :=
  match back (free_ pool) with
  | None => (0, pool)
  | Some port => (port, mkPortPool (pop_back (free_ pool)))
  end.

Definition Release (pool : PortPool) (port : Z) : PortPool :=
  mkPortPool (push_back (free_ pool) port).

Definition Available (pool : PortPool) : Z := Z.of_nat (length (free_ pool)).

(** ** Specification: the free list a constructor leaves, in vector order. *)

Definition worker_ports (worker_id n_workers low high : Z) : list Z :=
  List.filter (fun port => port mod n_workers =? worker_id)
    (reverse (seqZ low (high - low + 1))).

(** [n] ports handed out one after the other. *)
Fixpoint AcquireN (n : nat) (pool : PortPool) : list Z * PortPool :=
  match n with
  | O => ([], pool)
  | S n =>
      let '(port, pool) := Acquire pool in
      let '(ports, pool) := AcquireN n pool in
      (port :: ports, pool)
  end.

(** ** Lemmas *)

Lemma seqZ_desc_step low port :
  low <= port -> reverse (seqZ low (port - low + 1)) = port :: reverse (seqZ low (port - 1 - low + 1)).
Proof.
  intros. replace (port - low + 1) with ((port - low) + 1) by lia.
  rewrite seqZ_app by lia. rewrite reverse_app.
  replace (seqZ (low + (port - low)) 1) with [port].
  - simpl. f_equal. f_equal. f_equal. lia.
  - unfold seqZ; simpl. f_equal. lia.
Qed.

Lemma push_ports_ok keep low fuel port free :
  0 < low -> port < 65536 -> low - 1 <= port -> (Z.to_nat (port - low + 1) <= fuel)%nat ->
  push_ports fuel keep low port free =
    Ret (free ++ List.filter keep (reverse (seqZ low (port - low + 1)))).
Proof.
  revert port free; induction fuel as [|fuel IH]; intros port free Hlow Hhi Hp Hf.
  - simpl. destruct (Z.leb_spec low port); [lia|].
    replace (port - low + 1) with 0 by lia. simpl. now rewrite app_nil_r.
  - cbn [push_ports]. destruct (Z.leb_spec low port).
    + rewrite u32_small by lia. rewrite IH by lia.
      rewrite (seqZ_desc_step low port) by lia. cbn [List.filter].
      rewrite u16_small by lia. unfold push_back.
      destruct (keep port); [|done]. now rewrite <- app_assoc.
    + replace (port - low + 1) with 0 by lia. simpl. now rewrite app_nil_r.
Qed.

Lemma reserve_ok n : n <= ports_max_size -> reserve n = Ret tt.
Proof. unfold reserve. intros. destruct (Z.ltb_spec ports_max_size n); [lia|done]. Qed.

Lemma ForWorker_spec fuel w n low high :
  0 < n -> 0 < low -> low <= high -> high < 65536 -> 65536 <= Z.of_nat fuel ->
  ForWorker fuel w n low high = Ret (mkPortPool (worker_ports w n low high)).
Proof.
  intros. unfold ForWorker. destruct (Z.eqb_spec n 0); [lia|].
  assert (Hu : u64 (high - low) = high - low) by (apply Z.mod_small; lia).
  assert (0 <= (high - low) / n <= high - low).
  { split; [apply Z.div_pos; lia|]. apply Z.div_le_upper_bound; nia. }
  rewrite reserve_ok; cycle 1.
  { rewrite Hu. unfold u64, ports_max_size. rewrite Z.mod_small by lia. lia. }
  cbn [obind]. rewrite push_ports_ok by lia. reflexivity.
Qed.

Lemma elem_of_worker_ports w n low high p :
  p ∈ worker_ports w n low high <-> low <= p <= high /\ p mod n = w.
Proof.
  unfold worker_ports. rewrite list_elem_of_In, List.filter_In, <- list_elem_of_In.
  rewrite elem_of_reverse, elem_of_seqZ, Z.eqb_eq. lia.
Qed.

Lemma worker_ports_nonzero w n low high : 0 < low -> Forall (fun p => p <> 0) (worker_ports w n low high).
Proof. intros Hl. apply Forall_forall. intros p Hp%elem_of_worker_ports. lia. Qed.

Lemma NoDup_worker_ports w n low high : NoDup (worker_ports w n low high).
Proof.
  unfold worker_ports. apply NoDup_ListNoDup, List.NoDup_filter, NoDup_ListNoDup.
  apply NoDup_reverse, NoDup_seqZ.
Qed.

Lemma Acquire_cases pool :
  (free_ pool = [] /\ Acquire pool = (0, pool)) \/
  (exists port rest, free_ pool = rest ++ [port] /\ Acquire pool = (port, mkPortPool rest)).
Proof.
  unfold Acquire. destruct (back (free_ pool)) as [port|] eqn:E.
  - right. exists port, (pop_back (free_ pool)). split; [now apply back_pop_back|done].
  - left. split; [now apply back_None|done].
Qed.

Lemma Acquire_perm pool port pool' :
  Acquire pool = (port, pool') -> port <> 0 -> free_ pool ≡ₚ port :: free_ pool'.
Proof.
  intros E Hp. destruct (Acquire_cases pool) as [[_ E']|(q & rest & Hf & E')];
    rewrite E' in E; injection E as <- <-; [done|].
  rewrite Hf. simpl. symmetry. apply Permutation_cons_append.
Qed.

Lemma Acquire_zero pool port pool' :
  Acquire pool = (port, pool') -> Forall (fun p => p <> 0) (free_ pool) -> port = 0 ->
  free_ pool = [] /\ pool' = pool.
Proof.
  intros E Hnz ->. destruct (Acquire_cases pool) as [[Hf E']|(q & rest & Hf & E')];
    rewrite E' in E.
  - now injection E as <-.
  - injection E as -> <-. rewrite Hf in Hnz. apply Forall_app in Hnz as [_ Hnz].
    inversion Hnz; congruence.
Qed.

Lemma Release_perm pool port : free_ (Release pool port) ≡ₚ port :: free_ pool.
Proof. simpl. unfold push_back. symmetry. apply Permutation_cons_append. Qed.

Lemma AcquireN_spec n pool :
  (n <= length (free_ pool))%nat ->
  AcquireN n pool = (take n (reverse (free_ pool)), mkPortPool (take (length (free_ pool) - n) (free_ pool))).
Proof.
  revert pool; induction n as [|n IH]; intros pool Hn.
  - cbn [AcquireN]. rewrite Nat.sub_0_r, firstn_all. now destruct pool.
  - cbn [AcquireN]. destruct (Acquire_cases pool) as [[Hf _]|(p & rest & Hf & ->)].
    { rewrite Hf in Hn. simpl in Hn. lia. }
    rewrite Hf, length_app in Hn. simpl in Hn.
    rewrite IH by (simpl; lia). simpl free_. rewrite Hf, reverse_snoc, length_app. simpl.
    rewrite take_app_le by lia. do 3 f_equal. lia.
Qed.

(** ** Properties *)


(** For [0 < low <= high] and [n] workers the loops of [ForWorker]
    finish, and the [n] pools partition the port range: every port in range is
    in exactly one worker's pool, that of [port % n], and exactly once. *)
Theorem ForWorker_partition fuel n low high :
  0 < n -> 0 < low -> low <= high -> high < 65536 -> 65536 <= Z.of_nat fuel ->
  exists pools : Z -> PortPool,
    (forall w, 0 <= w < n ->
       ForWorker fuel w n low high = Ret (pools w) /\ NoDup (free_ (pools w))) /\
    (forall port, low <= port <= high ->
       0 <= port mod n < n /\
       forall w, port ∈ free_ (pools w) <-> w = port mod n) /\
    (forall w port, port ∈ free_ (pools w) -> low <= port <= high).
Proof.
  intros. exists (fun w => mkPortPool (worker_ports w n low high)). simpl. split_and!.
  - intros w _. split; [now apply ForWorker_spec|apply NoDup_worker_ports].
  - intros port Hp. split; [apply Z.mod_pos_bound; lia|].
    intros w. rewrite elem_of_worker_ports. split; [now intros [_ <-]|now intros ->].
  - intros w port Hp%elem_of_worker_ports. tauto.
Qed.

Lemma ForWorker_partition_witness :
  exists pools : Z -> PortPool,
    (forall w, 0 <= w < 4 ->
       ForWorker (Z.to_nat 65536) w 4 1024 1039 = Ret (pools w) /\ NoDup (free_ (pools w))) /\
    (forall port, 1024 <= port <= 1039 ->
       0 <= port mod 4 < 4 /\
       forall w, port ∈ free_ (pools w) <-> w = port mod 4) /\
    (forall w port, port ∈ free_ (pools w) -> 1024 <= port <= 1039).
Proof. apply (ForWorker_partition (Z.to_nat 65536) 4 1024 1039); lia. Defined.

(** With [low = 0] the loop of [PortPool(0, high)] never ends, whatever
    number of iterations it is given: the [uint32_t] counter wraps below 0. *)
Theorem PortPool_low_zero_diverges fuel high :
  0 <= high < 65536 -> PortPool_ctor fuel 0 high = OutOfFuel.
Proof.
  intros Hh. unfold PortPool_ctor. rewrite reserve_ok; cycle 1.
  { unfold u64, ports_max_size. rewrite !Z.mod_small; try lia. rewrite Z.mod_small; lia. }
  cbn [obind].
  assert (Hd : forall port free, 0 <= port -> push_ports fuel (fun _ => true) 0 port free = OutOfFuel).
  { induction fuel as [|fuel IH]; intros port free Hp; cbn [push_ports];
      (destruct (Z.leb_spec 0 port); [|lia]); [done|].
    apply IH. apply u32_range. }
  now rewrite Hd by lia.
Qed.

Lemma PortPool_low_zero_diverges_witness : PortPool_ctor 200 0 7 = OutOfFuel.
Proof. apply (PortPool_low_zero_diverges 200 7). lia. Defined.

(** [Acquire] hands out distinct ports of the pool, newest released or
    lowest first: [n] calls take the last [n] entries of the vector, in reverse
    order, and leave the rest; a further call on the empty pool returns 0. *)
Theorem AcquireN_distinct n pool :
  NoDup (free_ pool) -> (n <= length (free_ pool))%nat ->
  let '(ports, rest) := AcquireN n pool in
  ports = take n (reverse (free_ pool)) /\ NoDup ports /\
  free_ pool ≡ₚ ports ++ free_ rest /\ Available rest = Available pool - Z.of_nat n /\
  (n = length (free_ pool) -> Acquire rest = (0, rest)).
Proof.
  intros Hnd Hn. rewrite AcquireN_spec by done. simpl.
  set (k := (length (free_ pool) - n)%nat).
  assert (Hrev : take n (reverse (free_ pool)) = reverse (drop k (free_ pool))).
  { rewrite <- (take_drop k (free_ pool)) at 1. rewrite reverse_app, take_app_length'; [done|].
    rewrite length_reverse, length_drop. lia. }
  split_and!; [done| | | |].
  - rewrite Hrev. apply NoDup_reverse. rewrite <- (take_drop k (free_ pool)) in Hnd.
    now apply NoDup_app in Hnd as (_ & _ & ?).
  - rewrite Hrev, reverse_Permutation, Permutation_app_comm. now rewrite take_drop.
  - unfold Available; simpl. rewrite length_take. lia.
  - intros ->. unfold k. now rewrite Nat.sub_diag.
Qed.

Lemma AcquireN_distinct_witness :
  let '(ports, rest) := AcquireN 2 (mkPortPool [1026; 1025; 1024]) in
  ports = [1024; 1025] /\ NoDup ports /\
  [1026; 1025; 1024] ≡ₚ ports ++ free_ rest /\ Available rest = 3 - Z.of_nat 2 /\
  (2%nat = 3%nat -> Acquire rest = (0, rest)).
Proof.
  apply (AcquireN_distinct 2 (mkPortPool [1026; 1025; 1024]));
    [apply (bool_decide_eq_true_1 _); reflexivity | simpl; lia].
Defined.
