(* ===== verification/NetTypes.v ===== *)
(** * Addresses, configuration records and their parsers
    ([libs/common]: [net_types.hpp/.cpp], [config.hpp], [ParseMac] and
    [LoadConfig] of [config_loader.cpp])

    Text is a [string]; [sscanf] is modelled for the two conversions the code
    uses, [%u] and [%x], as the GNU C library performs them on a 64-bit host:
    optional white space and sign, the value of [strtoul] (saturating at
    [ULONG_MAX], negated modulo [2^64] after a minus sign), of which the low 32
    bits are stored. yaml-cpp is a parameter ([Yaml]). *)

From S2P Require Import Prelude.
From Stdlib Require Import Ascii String.

Local Open Scope string_scope.
Local Open Scope Z_scope.

Record IPv4Addr := mkIPv4Addr { value : Z }.

Definition kOctet0Shift : Z := 24.

Definition kOctet1Shift : Z := 16.

Definition kOctet2Shift : Z := 8.

Definition kOctetMask : Z := 255.

Definition kOctetCount : Z := 4.

Definition kMacLen : nat := 6.

Record MacAddr := mkMacAddr { bytes : list Z }.

Definition MacAddr_zero : MacAddr := mkMacAddr (replicate kMacLen 0).

Record BackendInfo := mkBackendInfo {
  be_ip : IPv4Addr;
  be_mac : MacAddr;
  be_port : Z;
  be_probe_port : Z;
}.

Definition kDefaultHealthIntervalMs : Z := 3000.

Definition kDefaultConntrackTimeoutMs : Z := 30000.

Record Config := mkConfig {
  vip : IPv4Addr;
  vip_port : Z;
  self_ip : IPv4Addr;
  self_mac : MacAddr;
  backends : list BackendInfo;
  health_interval_ms : Z;
  conntrack_timeout_ms : Z;
}.

(** ** [sscanf] conversions *)

Definition char_code (c : ascii) : Z := Z.of_N (N_of_ascii c).

Definition is_space (c : ascii) : bool :=
  (char_code c =? 32) || ((9 <=? char_code c) && (char_code c <=? 13)).

Fixpoint skip_space (s : string) : string :=
  match s with
  | String c s' => if is_space c then skip_space s' else s
  | EmptyString => s
  end.

Definition dec_digit (c : ascii) : option Z :=
  let n := char_code c in
  if (48 <=? n) && (n <=? 57) then Some (n - 48) else None.

Definition hex_digit (c : ascii) : option Z :=
  let n := char_code c in
  if (48 <=? n) && (n <=? 57) then Some (n - 48)
  else if (97 <=? n) && (n <=? 102) then Some (n - 87)
  else if (65 <=? n) && (n <=? 70) then Some (n - 55)
  else None.

(** The longest run of digits: its value, whether it is non-empty, the rest. *)
Fixpoint scan_digits (digit : ascii -> option Z) (base acc : Z) (seen : bool) (s : string)
  : option (Z * string) :=
  match s with
  | String c s' =>
      match digit c with
      | Some d => scan_digits digit base (acc * base + d) true s'
      | None => if seen then Some (acc, s) else None
      end
  | EmptyString => if seen then Some (acc, s) else None
  end.

Definition scan_sign (s : string) : bool * string :=
  match s with
  | String "-" s' => (true, s')
  | String "+" s' => (false, s')
  | _ => (false, s)
  end.

(** An optional [0x] before a [%x] number. *)
Definition scan_0x (s : string) : string :=
  match s with
  | String "0" (String "x" s') => s'
  | String "0" (String "X" s') => s'
  | _ => s
  end.

(** [strtoul]'s result stored into an [unsigned]. *)
Definition store_unsigned (negative : bool) (v : Z) : Z :=
  let sat := Z.min v (2 ^ 64 - 1) in
  u32 (if negative && (v <? 2 ^ 64) then u64 (- sat) else sat).

Definition scan_u (s : string) : option (Z * string) :=
  let '(neg, s) := scan_sign (skip_space s) in
  match scan_digits dec_digit 10 0 false s with
  | Some (v, rest) => Some (store_unsigned neg v, rest)
  | None => None
  end.

Definition scan_x (s : string) : option (Z * string) :=
  let '(neg, s) := scan_sign (skip_space s) in
  match scan_digits hex_digit 16 0 false (scan_0x s) with
  | Some (v, rest) => Some (store_unsigned neg v, rest)
  | None => None
  end.

Definition scan_char (c : ascii) (s : string) : option string :=
  match s with
  | String c' s' => if Ascii.eqb c c' then Some s' else None
  | EmptyString => None
  end.

(** [n] conversions separated by the literal [sep], as in "%u.%u.%u.%u":
    the values stored by the conversions that matched. *)
Fixpoint scan_list (conv : string -> option (Z * string)) (sep : ascii) (n : nat) (s : string)
  : list Z :=
  match n with
  | O => []
  | S n =>
      match conv s with
      | None => []
      | Some (v, rest) =>
          v :: match n with
               | O => []
               | S _ => match scan_char sep rest with
                        | Some rest => scan_list conv sep n rest
                        | None => []
                        end
               end
      end
  end.

(** ** [std::format("{}", n)] of an unsigned value *)

Definition digit_char (d : Z) : ascii := ascii_of_N (Z.to_N (48 + d)).

Fixpoint dec_digits (fuel : nat) (n : Z) : list Z :=
  match fuel with
  | O => []
  | S fuel => if n <? 10 then [n] else (dec_digits fuel (n / 10) ++ [n mod 10])%list
  end.

Definition digits_string (l : list Z) : string :=
  foldr (fun d s => String (digit_char d) s) EmptyString l.

(** Twenty digits hold every 64-bit value. *)
Definition format_unsigned (n : Z) : string := digits_string (dec_digits 20 n).

(** ** [IPv4Addr::FromString] and [ToString] *)

Definition FromString (str : string) : outcome IPv4Addr :=
  match scan_list scan_u "." 4 str with
  | [oct0; oct1; oct2; oct3] =>
      if (kOctetMask <? oct0) || (kOctetMask <? oct1) || (kOctetMask <? oct2) ||
         (kOctetMask <? oct3)
      then Throw (invalid_argument ("IPv4 octet out of range: " ++ str))
      else Ret (mkIPv4Addr
                  (Z.lor (Z.lor (Z.lor (u32 (Z.shiftl oct0 kOctet0Shift))
                                       (u32 (Z.shiftl oct1 kOctet1Shift)))
                                (u32 (Z.shiftl oct2 kOctet2Shift)))
                         (Z.land oct3 kOctetMask)))
  | _ => Throw (invalid_argument ("bad IPv4: " ++ str))
  end.

Definition ToString (ip : IPv4Addr) : string :=
  format_unsigned (Z.land (Z.shiftr (value ip) kOctet0Shift) kOctetMask) ++ "." ++
  format_unsigned (Z.land (Z.shiftr (value ip) kOctet1Shift) kOctetMask) ++ "." ++
  format_unsigned (Z.land (Z.shiftr (value ip) kOctet2Shift) kOctetMask) ++ "." ++
  format_unsigned (Z.land (value ip) kOctetMask).

(** ** [ParseMac] *)

Definition kMaxOctetValue : Z := 255.

Definition ParseMac (text : string) : outcome MacAddr :=
  let octets := scan_list scan_x ":" 6 text in
  if (List.length octets =? 6)%nat then
    if forallb (fun o => o <=? kMaxOctetValue) octets
    then Ret (mkMacAddr (u8 <$> octets))
    else Throw (invalid_argument ("MAC octet out of range: " ++ text))
  else Throw (invalid_argument ("bad MAC: " ++ text)).

(** ** [ParseBackend] and [LoadConfig], over yaml-cpp's node interface *)

Class Yaml := {
  node : Type;
  LoadFile : string -> outcome node;
  index : node -> string -> node;           (** [node["key"]] *)
  defined : node -> bool;                   (** [if (node["key"])] *)
  as_string : node -> outcome string;       (** [.as<std::string>()] *)
  as_uint16 : node -> outcome Z;            (** [.as<uint16_t>()] *)
  as_uint32 : node -> outcome Z;            (** [.as<uint32_t>()] *)
  items : node -> list node;                (** iteration over a sequence *)
}.

Definition ParseBackend `{Yaml} (n : node) : outcome BackendInfo :=
  let! ip_text := as_string (index n "ip") in
  let! ip := FromString ip_text in
  let! port := as_uint16 (index n "port") in
  let! probe_port := as_uint16 (index n "probe_port") in
  let! mac_text := as_string (index n "mac") in
  let! mac := ParseMac mac_text in
  Ret (mkBackendInfo ip mac port probe_port).

Fixpoint ParseBackends `{Yaml} (nodes : list node) : outcome (list BackendInfo) :=
  match nodes with
  | [] => Ret []
  | n :: nodes =>
      let! b := ParseBackend n in
      let! bs := ParseBackends nodes in
      Ret (b :: bs)
  end.

Definition LoadConfig `{Yaml} (path : string) : outcome Config :=
  let! root := LoadFile path in
  let! vip_text := as_string (index root "vip") in
  let! vip := FromString vip_text in
  let! vip_port := as_uint16 (index root "vip_port") in
  let! self_ip_text := as_string (index root "self_ip") in
  let! self_ip := FromString self_ip_text in
  let! self_mac_text := as_string (index root "self_mac") in
  let! self_mac := ParseMac self_mac_text in
  let! health := (if defined (index root "health_interval_ms")
            then as_uint32 (index root "health_interval_ms")
            else Ret kDefaultHealthIntervalMs) in
  let! timeout := (if defined (index root "conntrack_timeout_ms")
             then as_uint32 (index root "conntrack_timeout_ms")
             else Ret kDefaultConntrackTimeoutMs) in
  let! bs := ParseBackends (items (index root "backends")) in
  Ret (mkConfig vip vip_port self_ip self_mac bs health timeout).

(** Members of a loaded configuration are in the range of their C++ types. *)
Definition MacAddr_wf (m : MacAddr) : Prop :=
  List.length (bytes m) = kMacLen /\ Forall (fun b => 0 <= b < 256) (bytes m).

Definition BackendInfo_wf (b : BackendInfo) : Prop :=
  0 <= value (be_ip b) < 2 ^ 32 /\ MacAddr_wf (be_mac b) /\
  0 <= be_port b < 2 ^ 16 /\ 0 <= be_probe_port b < 2 ^ 16.

Definition Config_wf (c : Config) : Prop :=
  0 <= value (vip c) < 2 ^ 32 /\ 0 <= vip_port c < 2 ^ 16 /\
  0 <= value (self_ip c) < 2 ^ 32 /\ MacAddr_wf (self_mac c) /\
  Forall BackendInfo_wf (backends c) /\
  0 <= health_interval_ms c < 2 ^ 32 /\ 0 <= conntrack_timeout_ms c < 2 ^ 32.

(** Four numbers as [std::format("{}.{}.{}.{}")] prints them. *)
Definition dotted (o0 o1 o2 o3 : Z) : string :=
  format_unsigned o0 ++ "." ++ format_unsigned o1 ++ "." ++
  format_unsigned o2 ++ "." ++ format_unsigned o3.

(** ** Lemmas: decimal printing and scanning *)

Ltac digit_cases d :=
  let H := fresh in
  assert (H : d = 0 \/ d = 1 \/ d = 2 \/ d = 3 \/ d = 4 \/ d = 5 \/ d = 6 \/ d = 7 \/ d = 8 \/ d = 9)
    by lia;
  repeat (destruct H as [->|H]); [..|rewrite H].

Lemma dec_digit_char d : 0 <= d < 10 -> dec_digit (digit_char d) = Some d.
Proof.
  intros. digit_cases d; repeat split.
Qed.

Lemma dec_digits_range fuel n :
  0 <= n -> Forall (fun d => 0 <= d < 10) (dec_digits fuel n).
Proof.
  revert n; induction fuel as [|fuel IH]; intros n Hn; simpl; [constructor|].
  destruct (Z.ltb_spec n 10); [repeat constructor; lia|].
  apply Forall_app; split; [apply IH, Z.div_pos; lia|].
  repeat constructor; apply Z.mod_pos_bound; lia.
Qed.

Lemma dec_digits_value fuel n :
  0 <= n < 10 ^ Z.of_nat fuel ->
  foldl (fun a d => a * 10 + d) 0 (dec_digits fuel n) = n.
Proof.
  revert n; induction fuel as [|fuel IH]; intros n Hn; [simpl in *; lia|].
  cbn [dec_digits]. destruct (Z.ltb_spec n 10); [simpl; lia|].
  rewrite foldl_snoc, IH.
  - rewrite Z.mul_comm. symmetry. apply Z.div_mod. lia.
  - split; [apply Z.div_pos; lia|]. apply Z.div_lt_upper_bound; [lia|].
    replace (10 * 10 ^ Z.of_nat fuel) with (10 ^ Z.of_nat (S fuel)); [lia|].
    rewrite Nat2Z.inj_succ, Z.pow_succ_r; lia.
Qed.

Lemma dec_digits_cons fuel n : (0 < fuel)%nat -> exists d l, dec_digits fuel n = d :: l.
Proof.
  destruct fuel; [lia|]. intros _. simpl. destruct (n <? 10); [eauto|].
  destruct (dec_digits fuel (n / 10)); simpl; eauto.
Qed.

Lemma scan_digits_app l acc rest :
  Forall (fun d => 0 <= d < 10) l ->
  scan_digits dec_digit 10 acc true (digits_string l ++ rest) =
  scan_digits dec_digit 10 (foldl (fun a d => a * 10 + d) acc l) true rest.
Proof.
  intros Hl; revert acc; induction Hl as [|d l Hd Hl IH]; intros acc; simpl; [done|].
  now rewrite dec_digit_char, IH by done.
Qed.

Lemma digit_char_plain d :
  0 <= d < 10 -> is_space (digit_char d) = false /\
  forall s, scan_sign (String (digit_char d) s) = (false, String (digit_char d) s).
Proof.
  intros. digit_cases d; repeat split.
Qed.

Lemma scan_u_format n rest :
  0 <= n < 2 ^ 32 -> scan_digits dec_digit 10 n true rest = Some (n, rest) ->
  scan_u (format_unsigned n ++ rest) = Some (n, rest).
Proof.
  intros Hn Hrest. unfold scan_u, format_unsigned.
  pose proof (dec_digits_range 20 n ltac:(lia)) as Hr.
  pose proof (dec_digits_value 20 n ltac:(lia)) as Hv.
  destruct (dec_digits_cons 20 n ltac:(lia)) as (d & l & E). rewrite E in *.
  apply Forall_cons in Hr as Hdl; destruct Hdl as [Hd _].
  destruct (digit_char_plain d Hd) as [Hsp Hsg].
  assert (Hs : skip_space (digits_string (d :: l) ++ rest) = digits_string (d :: l) ++ rest).
  { change (digits_string (d :: l) ++ rest) with (String (digit_char d) (digits_string l ++ rest)).
    cbn [skip_space]. now rewrite Hsp. }
  rewrite Hs. change (scan_sign (digits_string (d :: l) ++ rest))
    with (scan_sign (String (digit_char d) (digits_string l ++ rest))).
  rewrite Hsg. cbn [scan_digits]. rewrite dec_digit_char by done.
  apply Forall_cons in Hr as [_ Hr]. rewrite scan_digits_app by done.
  change (foldl (fun a d => a * 10 + d) (0 * 10 + d) l)
    with (foldl (fun a d => a * 10 + d) 0 (d :: l)). rewrite Hv.
  rewrite Hrest. unfold store_unsigned. simpl andb.
  rewrite Z.min_l by lia. now rewrite u32_small by lia.
Qed.

Lemma scan_list_octets o0 o1 o2 o3 :
  0 <= o0 < 2 ^ 32 -> 0 <= o1 < 2 ^ 32 -> 0 <= o2 < 2 ^ 32 -> 0 <= o3 < 2 ^ 32 ->
  scan_list scan_u "." 4 (dotted o0 o1 o2 o3) = [o0; o1; o2; o3].
Proof.
  intros. unfold dotted.
  assert (Hdot : forall s, scan_char "." ("." ++ s) = Some s) by done.
  assert (Hstop : forall n s, scan_digits dec_digit 10 n true ("." ++ s) = Some (n, "." ++ s)) by done.
  assert (Hend : forall s, s ++ "" = s) by (intros s; induction s as [|c s IH]; [done|exact (f_equal (String c) IH)]).
  rewrite <- (Hend (format_unsigned o3)). unfold scan_list.
  do 3 (rewrite scan_u_format, Hdot by (apply Hstop || lia)).
  now rewrite scan_u_format by (done || lia).
Qed.

Lemma octet_range v k : 0 <= Z.land (Z.shiftr v k) kOctetMask < 256.
Proof.
  unfold kOctetMask. change 255 with (Z.ones 8). rewrite Z.land_ones by lia.
  apply Z.mod_pos_bound; lia.
Qed.

Lemma octet_testbit v k n :
  0 <= k -> 0 <= n ->
  Z.testbit (Z.shiftl (Z.land (Z.shiftr v k) 255) k) n =
  Z.testbit v n && (k <=? n) && (n <? k + 8).
Proof.
  intros Hk Hn. rewrite Z.shiftl_spec by lia.
  destruct (Z.leb_spec k n); cycle 1.
  { rewrite Z.testbit_neg_r by lia. now rewrite andb_false_r. }
  change 255 with (Z.ones 8). rewrite Z.land_spec, Z.shiftr_spec, Z.testbit_ones_nonneg by lia.
  replace (n - k + k) with n by lia. rewrite andb_true_r. f_equal.
  destruct (Z.ltb_spec (n - k) 8), (Z.ltb_spec n (k + 8)); lia.
Qed.

Lemma shiftl_octet_u32 o k :
  0 <= o < 256 -> 0 <= k <= 24 -> u32 (Z.shiftl o k) = Z.shiftl o k.
Proof.
  intros Ho Hk. rewrite Z.shiftl_mul_pow2 by lia. apply u32_small.
  assert (0 < 2 ^ k <= 2 ^ 24) by (split; [lia|apply Z.pow_le_mono_r; lia]). nia.
Qed.

Lemma octets_join v :
  0 <= v < 2 ^ 32 ->
  Z.lor (Z.lor (Z.lor (u32 (Z.shiftl (Z.land (Z.shiftr v 24) 255) 24))
                      (u32 (Z.shiftl (Z.land (Z.shiftr v 16) 255) 16)))
               (u32 (Z.shiftl (Z.land (Z.shiftr v 8) 255) 8)))
        (Z.land (Z.land v 255) 255) = v.
Proof.
  intros Hv. rewrite !shiftl_octet_u32 by (apply octet_range || lia).
  replace (Z.land (Z.land v 255) 255) with (Z.shiftl (Z.land (Z.shiftr v 0) 255) 0)
    by (rewrite Z.shiftl_0_r, Z.shiftr_0_r, <- Z.land_assoc; done).
  apply Z.bits_inj'; intros n Hn. rewrite !Z.lor_spec, !octet_testbit by lia.
  assert (Hhi : 32 <= n -> Z.testbit v n = false).
  { intros. rewrite <- (Z.mod_small v (2 ^ 32)) by lia. apply Z.mod_pow2_bits_high; lia. }
  destruct (Z_lt_le_dec n 32); [|rewrite Hhi by lia; done].
  destruct (Z.testbit v n); [|done]. simpl.
  repeat match goal with |- context [?a <? ?b] => destruct (Z.ltb_spec a b) end;
  repeat match goal with |- context [?a <=? ?b] => destruct (Z.leb_spec a b) end; simpl; lia.
Qed.

(** Printing the address assembled from four octets prints the octets. *)
Lemma octet_of_join o0 o1 o2 o3 k o :
  0 <= o0 < 256 -> 0 <= o1 < 256 -> 0 <= o2 < 256 -> 0 <= o3 < 256 ->
  (k, o) = (24, o0) \/ (k, o) = (16, o1) \/ (k, o) = (8, o2) \/ (k, o) = (0, o3) ->
  Z.land (Z.shiftr (o0 * 2 ^ 24 + o1 * 2 ^ 16 + o2 * 2 ^ 8 + o3) k) 255 = o.
Proof.
  intros ???? Hk. change 255 with (Z.ones 8).
  destruct Hk as [[= -> ->]|[[= -> ->]|[[= -> ->]|[= -> ->]]]];
    rewrite Z.shiftr_div_pow2, Z.land_ones by lia; Z.div_mod_to_equations; lia.
Qed.

Lemma lor_octet_add a b k :
  0 <= a -> 0 <= k -> 0 <= b < 2 ^ k -> Z.lor (a * 2 ^ k) b = a * 2 ^ k + b.
Proof.
  intros. rewrite <- Z.shiftl_mul_pow2 by lia. apply Z.bits_inj'; intros n Hn.
  rewrite Z.lor_spec, Z.shiftl_spec by lia.
  destruct (Z_lt_le_dec n k).
  - rewrite Z.testbit_neg_r by lia. simpl.
    rewrite <- (Z.mod_pow2_bits_low (Z.shiftl a k + b) k) by lia.
    rewrite Z.shiftl_mul_pow2, Z.add_comm, Z.mod_add, Z.mod_small by lia. done.
  - assert (Hb : Z.testbit b n = false).
    { rewrite <- (Z.mod_small b (2 ^ k)) by lia. apply Z.mod_pow2_bits_high; lia. }
    rewrite Hb, orb_false_r.
    replace n with (n - k + k) at 2 by lia.
    rewrite <- (Z.div_pow2_bits (Z.shiftl a k + b) k (n - k)) by lia.
    rewrite Z.shiftl_mul_pow2, Z.div_add_l, Z.div_small, Z.add_0_r by lia. done.
Qed.

Lemma octets_join_add o0 o1 o2 o3 :
  0 <= o0 < 256 -> 0 <= o1 < 256 -> 0 <= o2 < 256 -> 0 <= o3 < 256 ->
  Z.lor (Z.lor (Z.lor (u32 (Z.shiftl o0 24)) (u32 (Z.shiftl o1 16))) (u32 (Z.shiftl o2 8)))
        (Z.land o3 255) = o0 * 2 ^ 24 + o1 * 2 ^ 16 + o2 * 2 ^ 8 + o3.
Proof.
  intros. rewrite !shiftl_octet_u32 by lia.
  change 255 with (Z.ones 8). rewrite Z.land_ones, (Z.mod_small o3) by lia.
  rewrite !Z.shiftl_mul_pow2 by lia.
  rewrite (lor_octet_add o0 (o1 * 2 ^ 16) 24) by lia.
  replace (o0 * 2 ^ 24 + o1 * 2 ^ 16) with ((o0 * 2 ^ 8 + o1) * 2 ^ 16) by lia.
  rewrite (lor_octet_add _ (o2 * 2 ^ 8) 16) by lia.
  replace ((o0 * 2 ^ 8 + o1) * 2 ^ 16 + o2 * 2 ^ 8) with ((o0 * 2 ^ 16 + o1 * 2 ^ 8 + o2) * 2 ^ 8) by lia.
  rewrite (lor_octet_add _ o3 8) by lia. lia.
Qed.

Lemma dotted_join o0 o1 o2 o3 :
  0 <= o0 < 256 -> 0 <= o1 < 256 -> 0 <= o2 < 256 -> 0 <= o3 < 256 ->
  ToString (mkIPv4Addr
    (Z.lor (Z.lor (Z.lor (u32 (Z.shiftl o0 kOctet0Shift)) (u32 (Z.shiftl o1 kOctet1Shift)))
                  (u32 (Z.shiftl o2 kOctet2Shift)))
           (Z.land o3 kOctetMask))) = dotted o0 o1 o2 o3.
Proof.
  intros. unfold ToString, kOctet0Shift, kOctet1Shift, kOctet2Shift, kOctetMask; simpl value.
  rewrite octets_join_add by lia.
  rewrite (octet_of_join o0 o1 o2 o3 24 o0) by (lia || auto).
  rewrite (octet_of_join o0 o1 o2 o3 16 o1) by (lia || auto).
  rewrite (octet_of_join o0 o1 o2 o3 8 o2) by (lia || auto).
  rewrite <- (Z.shiftr_0_r (o0 * 2 ^ 24 + _ + _ + _)).
  now rewrite (octet_of_join o0 o1 o2 o3 0 o3) by (lia || auto).
Qed.

Lemma FromString_inv str ip :
  FromString str = Ret ip ->
  exists o0 o1 o2 o3,
    scan_list scan_u "." 4 str = [o0; o1; o2; o3] /\
    o0 <= 255 /\ o1 <= 255 /\ o2 <= 255 /\ o3 <= 255.
Proof.
  unfold FromString. intros H. repeat (case_match; try discriminate).
  unfold kOctetMask in *. bool_prop. eauto 10.
Qed.

Lemma scan_list_nonneg conv sep n s :
  (forall s v r, conv s = Some (v, r) -> 0 <= v) -> Forall (fun v => 0 <= v) (scan_list conv sep n s).
Proof.
  intros Hc; revert s; induction n as [|n IH]; intros s; cbn [scan_list]; [constructor|].
  destruct (conv s) as [[v r]|] eqn:E; [|constructor].
  constructor; [eauto|]. destruct n; [constructor|]. destruct (scan_char sep r); [apply IH|constructor].
Qed.

Lemma store_unsigned_range b v : 0 <= store_unsigned b v.
Proof. apply u32_range. Qed.

Lemma scan_u_nonneg s v r : scan_u s = Some (v, r) -> 0 <= v.
Proof.
  unfold scan_u. destruct (scan_sign _) as [neg s']. destruct (scan_digits _ _ _ _ _) as [[w q]|]; [|done].
  intros [= <- _]. apply store_unsigned_range.
Qed.

Lemma scan_x_nonneg s v r : scan_x s = Some (v, r) -> 0 <= v.
Proof.
  unfold scan_x. destruct (scan_sign _) as [neg s']. destruct (scan_digits _ _ _ _ _) as [[w q]|]; [|done].
  intros [= <- _]. apply store_unsigned_range.
Qed.

Lemma FromString_range str ip : FromString str = Ret ip -> 0 <= value ip < 2 ^ 32.
Proof.
  intros H. destruct (FromString_inv _ _ H) as (o0&o1&o2&o3&E&?&?&?&?).
  pose proof (scan_list_nonneg scan_u "." 4 str scan_u_nonneg) as Hn. rewrite E in Hn.
  rewrite !Forall_cons in Hn. destruct Hn as (?&?&?&?&_).
  unfold FromString in H. rewrite E in H. unfold kOctetMask in H.
  repeat case_match; try discriminate. injection H as <-. simpl.
  rewrite !shiftl_octet_u32 by (unfold kOctet0Shift, kOctet1Shift, kOctet2Shift; lia).
  assert (Hb : forall o k, 0 <= o < 256 -> 0 <= k <= 24 -> 0 <= Z.shiftl o k < 2 ^ 32).
  { intros o k Ho Hk. rewrite Z.shiftl_mul_pow2 by lia.
    assert (0 < 2 ^ k <= 2 ^ 24) by (split; [lia|apply Z.pow_le_mono_r; lia]). nia. }
  assert (Hl : forall a b, 0 <= a < 2 ^ 32 -> 0 <= b < 2 ^ 32 -> 0 <= Z.lor a b < 2 ^ 32).
  { intros a b Ha Hb'. split; [apply Z.lor_nonneg; lia|].
    rewrite <- (Z.mod_small a (2 ^ 32)), <- (Z.mod_small b (2 ^ 32)), <- !Z.land_ones by lia.
    rewrite <- Z.land_lor_distr_l, Z.land_ones by lia. apply Z.mod_pos_bound; lia. }
  unfold kOctet0Shift, kOctet1Shift, kOctet2Shift.
  repeat apply Hl; try (apply Hb; lia).
  change 255 with (Z.ones 8). rewrite Z.land_ones by lia.
  pose proof (Z.mod_pos_bound o3 (2 ^ 8)). lia.
Qed.

Lemma ParseMac_wf text mac : ParseMac text = Ret mac -> MacAddr_wf mac.
Proof.
  unfold ParseMac. intros H. case_match eqn:El; [|discriminate]. case_match; [|discriminate].
  injection H as <-. apply Nat.eqb_eq in El. split; simpl.
  - now rewrite length_fmap.
  - apply Forall_fmap, Forall_true. intros x. apply u8_range.
Qed.

(** ** Properties *)

(** What yaml-cpp documents of [as<uint16_t>()] and [as<uint32_t>()]: a value
    of that type, or an exception. *)
Class YamlLaws (Y : Yaml) : Prop := {
  as_uint16_range : forall n v, as_uint16 n = Ret v -> 0 <= v < 2 ^ 16;
  as_uint32_range : forall n v, as_uint32 n = Ret v -> 0 <= v < 2 ^ 32;
}.

Lemma optional_uint32_range `{Y : Yaml} `{!YamlLaws Y} (b : bool) n d v :
  (if b then as_uint32 n else Ret d) = Ret v -> 0 <= d < 2 ^ 32 -> 0 <= v < 2 ^ 32.
Proof. destruct b; intros H Hd; [now apply as_uint32_range in H|]. injection H as <-. done. Qed.

Lemma ParseBackend_wf `{Y : Yaml} `{!YamlLaws Y} n b : ParseBackend n = Ret b -> BackendInfo_wf b.
Proof.
  unfold ParseBackend. intros H. ret_inv.
  repeat split; simpl; eauto using FromString_range.
  all: first [ eapply FromString_range; eassumption
             | eapply as_uint16_range; eassumption
             | eapply ParseMac_wf; eassumption ].
Qed.

Lemma ParseBackends_wf `{Y : Yaml} `{!YamlLaws Y} ns bs :
  ParseBackends ns = Ret bs -> Forall2 (fun n b => ParseBackend n = Ret b /\ BackendInfo_wf b) ns bs.
Proof.
  revert bs; induction ns as [|n ns IH]; intros bs H; simpl in H.
  - ret_inv. constructor.
  - ret_inv. constructor; [split; [done|eapply ParseBackend_wf; eassumption]|]. now apply IH.
Qed.

(** An address survives printing and parsing. *)
Lemma ToString_FromString_id ip : 0 <= value ip < 2 ^ 32 -> FromString (ToString ip) = Ret ip.
Proof.
  intros Hv. unfold FromString, ToString.
  pose proof (octet_range (value ip) kOctet0Shift). pose proof (octet_range (value ip) kOctet1Shift).
  pose proof (octet_range (value ip) kOctet2Shift). pose proof (octet_range (value ip) 0) as Ho3.
  rewrite Z.shiftr_0_r in Ho3.
  match goal with |- context [scan_list _ _ _ ?s] =>
    change s with (dotted (Z.land (Z.shiftr (value ip) kOctet0Shift) kOctetMask)
                          (Z.land (Z.shiftr (value ip) kOctet1Shift) kOctetMask)
                          (Z.land (Z.shiftr (value ip) kOctet2Shift) kOctetMask)
                          (Z.land (value ip) kOctetMask)) end.
  rewrite scan_list_octets by lia.
  repeat match goal with |- context [kOctetMask <? ?o] =>
    replace (kOctetMask <? o) with false by (symmetry; apply Z.ltb_ge; unfold kOctetMask in *; lia) end.
  simpl. destruct ip as [v]. simpl in *. do 2 f_equal. now apply octets_join.
Qed.

(** C38: every 32-bit address survives printing and parsing:
    [FromString(ip.ToString()) == ip]. *)
Theorem ToString_FromString ip :
  0 <= value ip < 2 ^ 32 -> FromString (ToString ip) = Ret ip.
Proof. apply ToString_FromString_id. Qed.

Lemma ToString_FromString_witness : FromString (ToString (mkIPv4Addr 167772671)) = Ret (mkIPv4Addr 167772671).
Proof. apply ToString_FromString. simpl. lia. Defined.

(** On a dotted quad of decimal numbers below [2^32], [FromString] returns
    the address when all four are at most 255 and throws otherwise. *)
Theorem FromString_dotted o0 o1 o2 o3 :
  0 <= o0 < 2 ^ 32 -> 0 <= o1 < 2 ^ 32 -> 0 <= o2 < 2 ^ 32 -> 0 <= o3 < 2 ^ 32 ->
  (o0 <= 255 /\ o1 <= 255 /\ o2 <= 255 /\ o3 <= 255 ->
     exists ip, FromString (dotted o0 o1 o2 o3) = Ret ip /\
       ToString ip = dotted o0 o1 o2 o3) /\
  (255 < o0 \/ 255 < o1 \/ 255 < o2 \/ 255 < o3 ->
     FromString (dotted o0 o1 o2 o3) = Throw (invalid_argument ("IPv4 octet out of range: " ++ dotted o0 o1 o2 o3))).
Proof.
  intros H0 H1 H2 H3. unfold FromString. rewrite scan_list_octets by done. unfold kOctetMask. split.
  - intros (L0 & L1 & L2 & L3).
    replace ((255 <? o0) || (255 <? o1) || (255 <? o2) || (255 <? o3)) with false
      by (symmetry; rewrite !orb_false_iff, !Z.ltb_ge; lia).
    eexists; split; [done|]. rewrite <- dotted_join by lia. reflexivity.
  - intros Hbig.
    replace ((255 <? o0) || (255 <? o1) || (255 <? o2) || (255 <? o3)) with true; [done|].
    symmetry. rewrite !orb_true_iff, !Z.ltb_lt. lia.
Qed.

Lemma FromString_dotted_witness :
  (10 <= 255 /\ 0 <= 255 /\ 1 <= 255 /\ 256 <= 255 ->
     exists ip, FromString (dotted 10 0 1 256) = Ret ip /\ ToString ip = dotted 10 0 1 256) /\
  (255 < 10 \/ 255 < 0 \/ 255 < 1 \/ 255 < 256 ->
     FromString (dotted 10 0 1 256) = Throw (invalid_argument ("IPv4 octet out of range: " ++ dotted 10 0 1 256))).
Proof. apply (FromString_dotted 10 0 1 256); lia. Defined.

(** A number that does not fit [unsigned] wraps in [sscanf]: the address
    "4294967306.0.0.1" is accepted and read as 10.0.0.1, although its first
    octet is out of range. *)
Theorem FromString_wraps_octet :
  FromString "4294967306.0.0.1" = FromString "10.0.0.1" /\
  FromString "4294967306.0.0.1" = Ret (mkIPv4Addr 167772161).
Proof. split; reflexivity. Qed.

(** Loaded configurations are in the range of their types. *)
Lemma LoadConfig_wf `{Y : Yaml} `{!YamlLaws Y} path cfg :
  LoadConfig path = Ret cfg ->
  Config_wf cfg /\
  exists root, LoadFile path = Ret root /\
    Forall2 (fun n b => ParseBackend n = Ret b) (items (index root "backends")) (backends cfg).
Proof.
  unfold LoadConfig. intros H. ret_inv.
  match goal with E : ParseBackends _ = Ret _ |- _ => apply ParseBackends_wf in E as Hbs end.
  split.
  - refine (conj _ (conj _ (conj _ (conj _ (conj _ (conj _ _)))))); simpl;
      try (eapply FromString_range; eassumption);
      try (eapply as_uint16_range; eassumption); try (eapply ParseMac_wf; eassumption).
    + apply Forall_forall. intros b Hb. apply list_elem_of_lookup in Hb as [i Hi].
      destruct (Forall2_lookup_r _ _ _ _ _ Hbs Hi) as (n & _ & _ & Hw). exact Hw.
    + eapply optional_uint32_range; [eassumption|]. unfold kDefaultHealthIntervalMs. lia.
    + eapply optional_uint32_range; [eassumption|]. unfold kDefaultConntrackTimeoutMs. lia.
  - eexists; split; [eassumption|]. eapply Forall2_impl; [exact Hbs|]. simpl. tauto.
Qed.

(** *** A configuration as a file says it *)

(** Two hexadecimal digits per byte, as in "52:54:00:11:22:33". *)
Definition hex_char (d : Z) : ascii := ascii_of_N (Z.to_N (if d <? 10 then 48 + d else 87 + d)).

Definition hex2 (b : Z) : string := String (hex_char (b / 16)) (String (hex_char (b mod 16)) EmptyString).

Fixpoint join_hex (l : list Z) : string :=
  match l with
  | [] => EmptyString
  | [b] => hex2 b
  | b :: l => hex2 b ++ ":" ++ join_hex l
  end.

Definition mac_text (m : MacAddr) : string := join_hex (bytes m).

(** A byte and what comes after it: the end or a colon. *)
Lemma scan_x_hex2 b :
  0 <= b < 256 -> scan_x (hex2 b) = Some (b, EmptyString) /\ forall rest, scan_x (hex2 b ++ ":" ++ rest) = Some (b, ":" ++ rest).
Proof.
  intros Hb. assert (Hin : b ∈ seqZ 0 256) by (apply elem_of_seqZ; lia). clear Hb. revert b Hin. apply Forall_forall.
  repeat (apply Forall_cons; split; [split; [reflexivity|intros rest; reflexivity]|]). apply Forall_nil_2.
Qed.

Lemma scan_join_hex l : Forall (fun b => 0 <= b < 256) l -> scan_list scan_x ":" (List.length l) (join_hex l) = l.
Proof.
  induction l as [|b l IH]; intros Hl; [done|]. apply Forall_cons in Hl as [Hb Hl]. destruct (scan_x_hex2 b Hb) as [H1 H2].
  destruct l as [|c l]; cbn [List.length scan_list join_hex]; [now rewrite H1|]. rewrite H2. cbn [scan_char append Ascii.eqb].
  change (scan_char ":" (":" ++ join_hex (c :: l))) with (Some (join_hex (c :: l))). f_equal. exact (IH Hl).
Qed.

Lemma ParseMac_text m : MacAddr_wf m -> ParseMac (mac_text m) = Ret m.
Proof.
  destruct m as [l]. intros [Hlen Hb]. cbn in Hlen, Hb. unfold ParseMac, mac_text. cbn [bytes].
  pose proof (scan_join_hex l Hb) as Hs. rewrite Hlen in Hs. change 6%nat with kMacLen. rewrite Hs, Hlen. cbn [Nat.eqb].
  assert (Hall : forallb (fun o => o <=? kMaxOctetValue) l = true).
  { apply List.forallb_forall. intros b Hin%list_elem_of_In. rewrite Forall_forall in Hb. specialize (Hb b Hin).
    apply Z.leb_le. unfold kMaxOctetValue. lia. }
  change (kMacLen =? kMacLen)%nat with true. rewrite Hall. do 2 f_equal. clear -Hb.
  induction Hb as [|b l Hb _ IH]; [done|]. cbn. now rewrite u8_small, IH by lia.
Qed.

Section Shows.
Context `{Yaml}.

(** The node has the members of [b] under their keys. *)
Record shows_backend (n : node) (b : BackendInfo) : Prop := {
  sb_ip : as_string (index n "ip") = Ret (ToString (be_ip b));
  sb_port : as_uint16 (index n "port") = Ret (be_port b);
  sb_probe_port : as_uint16 (index n "probe_port") = Ret (be_probe_port b);
  sb_mac : as_string (index n "mac") = Ret (mac_text (be_mac b));
}.

(** A number under a key that may be missing. *)
Definition shows_optional (n : node) (v missing : Z) : Prop :=
  if defined n then as_uint32 n = Ret v else v = missing.

Record shows (root : node) (cfg : Config) : Prop := {
  sh_vip : as_string (index root "vip") = Ret (ToString (vip cfg));
  sh_vip_port : as_uint16 (index root "vip_port") = Ret (vip_port cfg);
  sh_self_ip : as_string (index root "self_ip") = Ret (ToString (self_ip cfg));
  sh_self_mac : as_string (index root "self_mac") = Ret (mac_text (self_mac cfg));
  sh_health : shows_optional (index root "health_interval_ms") (health_interval_ms cfg) 3000;
  sh_conntrack : shows_optional (index root "conntrack_timeout_ms") (conntrack_timeout_ms cfg) 30000;
  sh_backends : Forall2 shows_backend (items (index root "backends")) (backends cfg);
}.

Lemma ParseBackend_shows n b : BackendInfo_wf b -> shows_backend n b -> ParseBackend n = Ret b.
Proof.
  intros (Hip & Hmac & _) [Ei Ep Epp Em]. unfold ParseBackend. rewrite Ei. cbn [obind]. rewrite ToString_FromString_id by done.
  cbn [obind]; rewrite Ep; cbn [obind]; rewrite Epp; cbn [obind]; rewrite Em; cbn [obind]. rewrite ParseMac_text by done. now destruct b.
Qed.

Lemma ParseBackends_shows ns bs : Forall BackendInfo_wf bs -> Forall2 shows_backend ns bs -> ParseBackends ns = Ret bs.
Proof.
  intros Hwf Hall. induction Hall as [|n b ns bs Hn _ IH]; [done|]. apply Forall_cons in Hwf as [Hb Hwf].
  cbn [ParseBackends]. rewrite (ParseBackend_shows n b Hb Hn), (IH Hwf). done.
Qed.

Lemma optional_shows n v missing : shows_optional n v missing -> (if defined n then as_uint32 n else Ret missing) = Ret v.
Proof. unfold shows_optional. destruct (defined n); congruence. Qed.

End Shows.

(** C39: a configuration file that says a configuration, the addresses dotted, the MACs as
    hexadecimal bytes, each member under its key and the backends in order, is loaded as
    exactly that configuration; an interval or a timeout that is missing is 3000 or 30000
    milliseconds. And whatever a file says, what is loaded from it is well formed: numbers
    in the range of their types, MACs of six bytes, a backend for every entry. *)
Theorem LoadConfig_reads `{Y : Yaml} `{!YamlLaws Y} path root :
  LoadFile path = Ret root ->
  (forall cfg, Config_wf cfg -> shows root cfg -> LoadConfig path = Ret cfg) /\
  (forall cfg, LoadConfig path = Ret cfg ->
    Config_wf cfg /\ List.length (backends cfg) = List.length (items (index root "backends"))).
Proof.
  intros Hroot. split.
  - intros cfg (Hv & _ & Hs & Hm & Hb & _) [Ev Evp Es Esm Eh Ec Eb]. unfold LoadConfig. apply optional_shows in Eh, Ec.
    rewrite Hroot; cbn [obind]; rewrite Ev; cbn [obind]; rewrite ToString_FromString_id by done; cbn [obind]; rewrite Evp; cbn [obind].
    rewrite Es; cbn [obind]; rewrite ToString_FromString_id by done; cbn [obind]; rewrite Esm; cbn [obind].
    rewrite ParseMac_text by done. cbn [obind]. unfold kDefaultHealthIntervalMs, kDefaultConntrackTimeoutMs.
    rewrite Eh; cbn [obind]; rewrite Ec; cbn [obind]. rewrite (ParseBackends_shows _ _ Hb Eb). now destruct cfg.
  - intros cfg E. destruct (LoadConfig_wf path cfg E) as (Hwf & root' & Hroot' & Hall). rewrite Hroot in Hroot'. injection Hroot' as <-.
    split; [done|]. symmetry. exact (Forall2_length _ _ _ Hall).
Qed.

(** A YAML document as plain data, to run [LoadConfig] on. *)
Inductive ynode :=
  | YNone
  | YStr (s : string)
  | YNum (n : Z)
  | YSeq (l : list ynode)
  | YMap (m : list (string * ynode)).

Definition ynode_index (n : ynode) (key : string) : ynode :=
  match n with
  | YMap m => match List.find (fun p => String.eqb (fst p) key) m with
              | Some (_, v) => v
              | None => YNone
              end
  | _ => YNone
  end.

Definition ynode_num (bound : Z) (n : ynode) : outcome Z :=
  match n with
  | YNum v => if (0 <=? v) && (v <? bound) then Ret v else Throw (runtime_error "bad conversion")
  | _ => Throw (runtime_error "bad conversion")
  end.

Definition plain_yaml (doc : ynode) : Yaml := {|
  node := ynode;
  LoadFile _ := Ret doc;
  index := ynode_index;
  defined n := match n with YNone => false | _ => true end;
  as_string n := match n with YStr s => Ret s | _ => Throw (runtime_error "bad conversion") end;
  as_uint16 := ynode_num (2 ^ 16);
  as_uint32 := ynode_num (2 ^ 32);
  items n := match n with YSeq l => l | _ => [] end;
|}.

Lemma ynode_num_range bound n v : ynode_num bound n = Ret v -> 0 <= v < bound.
Proof. destruct n; simpl; intros H; repeat case_match; try discriminate. bool_prop. ret_inv. lia. Qed.

#[export] Instance plain_yaml_laws doc : YamlLaws (plain_yaml doc).
Proof. split; intros n v; apply ynode_num_range. Qed.

Definition sample_doc : ynode :=
  YMap [("vip", YStr "10.0.1.253"); ("vip_port", YNum 80); ("self_ip", YStr "10.0.1.254");
        ("self_mac", YStr "aa:bb:cc:dd:ee:ff"); ("health_interval_ms", YNum 3000);
        ("backends", YSeq [YMap [("ip", YStr "10.0.1.1"); ("port", YNum 8080);
                                 ("probe_port", YNum 8080); ("mac", YStr "52:54:00:11:22:33")]])].

Definition sample_config : Config :=
  mkConfig (mkIPv4Addr 167772669) 80 (mkIPv4Addr 167772670) (mkMacAddr [170; 187; 204; 221; 238; 255])
    [mkBackendInfo (mkIPv4Addr 167772417) (mkMacAddr [82; 84; 0; 17; 34; 51]) 8080 8080] 3000 30000.

Lemma sample_config_ok : Config_wf sample_config.
Proof. unfold Config_wf, BackendInfo_wf, MacAddr_wf. cbn. split_and!; try lia; repeat constructor; cbn; try lia. Qed.

Lemma sample_doc_shows : @shows (plain_yaml sample_doc) sample_doc sample_config.
Proof. split; try reflexivity. cbn. repeat constructor. Qed.

(** The timeout is missing in the sample. *)
Lemma LoadConfig_reads_witness :
  @LoadConfig (plain_yaml sample_doc) "config.yaml" = Ret sample_config /\ Config_wf sample_config /\
  List.length (backends sample_config) = 1%nat.
Proof.
  destruct (@LoadConfig_reads (plain_yaml sample_doc) _ "config.yaml" sample_doc eq_refl) as [Hr Hw].
  pose proof (Hr sample_config sample_config_ok sample_doc_shows) as E. split; [exact E|]. exact (Hw sample_config E).
Defined.
