(* ===== verification/BackendPool.v ===== *)
(** * The backend pool and its RCU cell
    ([dataplane/include/lb/backend_pool.hpp], [atomic_rcu.hpp])

    A pool keeps every configured slot and the indices of the enabled ones.
    Both constructors count with a [uint8_t]; the loops are run with fuel. *)

From S2P Require Import Prelude FlowKey NetTypes.

Record BackendPool := mkBackendPool {
  bp_slots : list BackendInfo;
  bp_active : list Z;
}.

(** [for (uint8_t i = 0; i < slots_.size(); ++i) if (enabled[i] != 0) push_back(i)];
    [enabled = None] is the constructor that takes every slot. *)
Definition test_enabled (enabled : option (list Z)) (i : Z) : outcome bool :=
  match enabled with
  | None => Ret true
  | Some e => let! x := at_ e (Z.to_nat i) in Ret (negb (x =? 0))
  end.

Fixpoint collect_active (fuel : nat) (enabled : option (list Z)) (n i : Z) (active : list Z)
  : outcome (list Z) :=
  if i <? n then
    match fuel with
    | O => OutOfFuel
    | S fuel =>
        let! keep := test_enabled enabled i in
        collect_active fuel enabled n (u8 (i + 1))
          (if keep then push_back active i else active)
    end
  else Ret active.

(** [BackendPool(slots)]. *)
Definition BackendPool_all (fuel : nat) (slots : list BackendInfo) : outcome BackendPool :=
  let! active := collect_active fuel None (Z.of_nat (length slots)) 0 [] in
  Ret (mkBackendPool slots active).

(** [BackendPool(slots, enabled)]; the sizes are asserted equal. *)
Definition BackendPool_enabled (fuel : nat) (slots : list BackendInfo) (enabled : list Z)
  : outcome BackendPool :=
  if (length enabled =? length slots)%nat then
    let! active := collect_active fuel (Some enabled) (Z.of_nat (length slots)) 0 [] in
    Ret (mkBackendPool slots active)
  else Undef.

(** [Select]: asserts that some slot is active. *)
Definition Select `{BuildParams} (pool : BackendPool) (key : FlowKey) : outcome Z :=
  if (length (bp_active pool) =? 0)%nat then Undef
  else at_ (bp_active pool) (Z.to_nat (Hash key mod Z.of_nat (length (bp_active pool)))).

Definition At (pool : BackendPool) (idx : Z) : outcome BackendInfo :=
  at_ (bp_slots pool) (Z.to_nat idx).

Definition ActiveCount (pool : BackendPool) : Z := u16 (Z.of_nat (length (bp_active pool))).

Definition All (pool : BackendPool) : list BackendInfo := bp_slots pool.

(** [AtomicRcu<T>]: an atomic shared pointer, null until the first [Store]. *)
Record AtomicRcu (T : Type) := mkAtomicRcu { ptr_ : option T }.

Arguments mkAtomicRcu {T} _.
Arguments ptr_ {T} _.

Definition AtomicRcu_new {T} (initial : option T) : AtomicRcu T := mkAtomicRcu initial.

Definition Load {T} (rcu : AtomicRcu T) : option T := ptr_ rcu.

Definition Store {T} (rcu : AtomicRcu T) (p : option T) : AtomicRcu T := mkAtomicRcu p.

(** ** Specification: the indices of the enabled slots, in order. *)

Definition enabled_at (enabled : option (list Z)) (i : Z) : bool :=
  match enabled with
  | None => true
  | Some e => match e !! Z.to_nat i with Some x => negb (x =? 0) | None => false end
  end.

Definition active_spec (enabled : option (list Z)) (n : Z) : list Z :=
  List.filter (enabled_at enabled) (seqZ 0 n).

(** Every pool the dataplane builds: the active indices are the enabled slots. *)
Definition BackendPool_wf (pool : BackendPool) : Prop :=
  (length (bp_slots pool) <= 255)%nat /\ NoDup (bp_active pool) /\
  Forall (fun i => 0 <= i < Z.of_nat (length (bp_slots pool))) (bp_active pool).

(** ** Lemmas *)

Lemma collect_active_ok enabled n fuel i active :
  match enabled with None => True | Some e => Z.of_nat (length e) = n end ->
  0 <= i <= n -> n <= 255 -> (Z.to_nat (n - i) <= fuel)%nat ->
  collect_active fuel enabled n i active =
    Ret (active ++ List.filter (enabled_at enabled) (seqZ i (n - i))).
Proof.
  intros He; revert i active; induction fuel as [|fuel IH]; intros i active Hi Hn Hf.
  - cbn [collect_active]. destruct (Z.ltb_spec i n); [lia|].
    replace (n - i) with 0 by lia. simpl. now rewrite app_nil_r.
  - cbn [collect_active]. destruct (Z.ltb_spec i n); cycle 1.
    { replace (n - i) with 0 by lia. simpl. now rewrite app_nil_r. }
    assert (Hk : test_enabled enabled i = Ret (enabled_at enabled i)).
    { destruct enabled as [e|]; [|done]. unfold test_enabled, at_; simpl.
      destruct (e !! Z.to_nat i) eqn:E; [done|]. apply lookup_ge_None in E. lia. }
    rewrite Hk. cbn [obind]. rewrite u8_small by lia. rewrite IH by lia.
    rewrite (seqZ_cons i (n - i)) by lia. replace (Z.pred (n - i)) with (n - (i + 1)) by lia.
    cbn [List.filter]. unfold push_back, Z.succ. destruct (enabled_at enabled i); [|done].
    now rewrite <- app_assoc.
Qed.

Lemma elem_of_active enabled n i :
  i ∈ active_spec enabled n <-> 0 <= i < n /\ enabled_at enabled i = true.
Proof.
  unfold active_spec. rewrite list_elem_of_In, List.filter_In, <- list_elem_of_In, elem_of_seqZ.
  intuition lia.
Qed.

Lemma active_spec_wf slots enabled :
  (length slots <= 255)%nat ->
  BackendPool_wf (mkBackendPool slots (active_spec enabled (Z.of_nat (length slots)))).
Proof.
  intros Hs. split; [done|]. split; simpl.
  - apply NoDup_ListNoDup, List.NoDup_filter, NoDup_ListNoDup, NoDup_seqZ.
  - apply Forall_forall. intros i Hi. apply elem_of_active in Hi. tauto.
Qed.

Lemma BackendPool_enabled_ok fuel slots enabled :
  length enabled = length slots -> (length slots <= 255)%nat -> (255 <= fuel)%nat ->
  BackendPool_enabled fuel slots enabled =
    Ret (mkBackendPool slots (active_spec (Some enabled) (Z.of_nat (length slots)))).
Proof.
  intros Hl Hs Hf. unfold BackendPool_enabled. rewrite Hl, Nat.eqb_refl.
  rewrite collect_active_ok by (simpl; lia). cbn [obind app]. unfold active_spec. now rewrite Z.sub_0_r.
Qed.

Lemma Select_wf `{BuildParams} pool key :
  BackendPool_wf pool -> bp_active pool <> [] ->
  exists i, Select pool key = Ret i /\ i ∈ bp_active pool /\
    0 <= i < Z.of_nat (length (bp_slots pool)).
Proof.
  intros (_ & _ & Hr) Hne. unfold Select.
  assert (Hlen : (0 < length (bp_active pool))%nat) by (destruct (bp_active pool); simpl; [done|lia]).
  destruct (Nat.eqb_spec (length (bp_active pool)) 0); [lia|].
  pose proof (Z.mod_pos_bound (Hash key) (Z.of_nat (length (bp_active pool)))).
  destruct (lookup_lt_is_Some_2 (bp_active pool)
              (Z.to_nat (Hash key mod Z.of_nat (length (bp_active pool))))) as [i Hi]; [lia|].
  exists i. rewrite at_Ret. split; [done|]. split; [eapply list_elem_of_lookup_2; eauto|].
  eapply Forall_lookup_1 in Hr; eauto.
Qed.

Lemma At_wf pool i :
  0 <= i < Z.of_nat (length (bp_slots pool)) -> exists b, At pool i = Ret b /\ bp_slots pool !! Z.to_nat i = Some b.
Proof.
  intros Hi. destruct (lookup_lt_is_Some_2 (bp_slots pool) (Z.to_nat i)) as [b Hb]; [lia|].
  exists b. split; [|done]. now apply at_Ret.
Qed.

Lemma ActiveCount_zero pool :
  BackendPool_wf pool -> (ActiveCount pool = 0 <-> bp_active pool = []).
Proof.
  intros (Hs & Hnd & Hr). unfold ActiveCount.
  assert (Hle : (length (bp_active pool) <= length (bp_slots pool))%nat).
  { rewrite <- (Nat2Z.id (length (bp_slots pool))), <- (length_seqZ 0 (Z.of_nat _)).
    apply submseteq_length, NoDup_submseteq; [done|].
    intros i Hi. rewrite Forall_forall in Hr. apply Hr in Hi. apply elem_of_seqZ. lia. }
  rewrite u16_small by lia. destruct (bp_active pool); simpl; split; try done; lia.
Qed.

(** ** Properties *)

(** On a table of at most 255 slots the constructor finishes; [Select] then
    returns only enabled slots, whatever the key, [At] returns the configured
    backend of that slot (disabling a slot does not renumber the others), and
    the pool is empty exactly when every slot is disabled. *)
Theorem BackendPool_select_enabled `{BuildParams} slots enabled :
  length enabled = length slots -> (length slots <= 255)%nat ->
  exists pool,
    BackendPool_enabled 255 slots enabled = Ret pool /\
    (ActiveCount pool = 0 <-> Forall (fun e => e = 0) enabled) /\
    (ActiveCount pool <> 0 -> forall key, exists i e b,
       Select pool key = Ret i /\ 0 <= i /\ enabled !! Z.to_nat i = Some e /\ e <> 0 /\
       At pool i = Ret b /\ slots !! Z.to_nat i = Some b).
Proof.
  intros Hl Hs. eexists. split; [now apply BackendPool_enabled_ok|].
  pose proof (active_spec_wf slots (Some enabled) Hs) as Hwf.
  set (pool := mkBackendPool _ _) in *. rewrite (ActiveCount_zero pool Hwf). split.
  - rewrite Forall_forall. split.
    + intros He x Hx. apply list_elem_of_lookup in Hx as [i Hi].
      destruct (Z.eq_dec x 0) as [|Hn]; [done|exfalso].
      assert (Z.of_nat i ∈ bp_active pool) as Hin; [|rewrite He in Hin; now apply elem_of_nil in Hin].
      apply elem_of_active. apply lookup_lt_Some in Hi as ?. split; [lia|].
      simpl. rewrite Nat2Z.id, Hi. destruct (Z.eqb_spec x 0); done.
    + intros He. apply elem_of_nil_inv. intros i Hi. apply elem_of_active in Hi as [_ Hi].
      simpl in Hi. case_match eqn:E; [|done]. apply list_elem_of_lookup_2, He in E. subst. done.
  - intros Hne key. destruct (Select_wf pool key Hwf Hne) as (i & E & Hin & Hr).
    destruct (At_wf pool i Hr) as (b & Eb & Hb).
    apply elem_of_active in Hin as [_ Hen]. simpl in Hen.
    destruct (enabled !! Z.to_nat i) as [e|] eqn:Ee; [|done]. bool_prop.
    exists i, e, b. split_and!; try done; lia.
Qed.

(** A pool of 256 slots or more cannot be built: the [uint8_t] counter
    wraps before it reaches the size, whatever the number of iterations. *)
Theorem BackendPool_256_diverges fuel slots :
  (256 <= length slots)%nat -> BackendPool_all fuel slots = OutOfFuel.
Proof.
  intros Hs. unfold BackendPool_all.
  assert (Hd : forall i active, 0 <= i < 256 ->
    collect_active fuel None (Z.of_nat (length slots)) i active = OutOfFuel).
  { induction fuel as [|fuel IH]; intros i active Hi; cbn [collect_active];
      (destruct (Z.ltb_spec i (Z.of_nat (length slots))); [|lia]); [done|].
    apply IH, u8_range. }
  now rewrite Hd by lia.
Qed.

Definition sample_backend (n : Z) : BackendInfo :=
  mkBackendInfo (mkIPv4Addr (167772416 + n)) (mkMacAddr [82; 84; 0; 17; 34; n]) 8080 8080.

Definition test_build : BuildParams := {|
  sse42 := false; kNatCapacityBits := 2; kNatCapacityBits_le := ltac:(lia) |}.

Lemma BackendPool_256_diverges_witness : BackendPool_all 300 (sample_backend <$> seqZ 0 256) = OutOfFuel.
Proof. apply (BackendPool_256_diverges 300). vm_compute. lia. Defined.

Lemma BackendPool_select_enabled_witness :
  exists pool,
    BackendPool_enabled 255 (sample_backend <$> [1; 2; 3]) [1; 0; 1] = Ret pool /\
    (ActiveCount pool = 0 <-> Forall (fun e => e = 0) [1; 0; 1]) /\
    (ActiveCount pool <> 0 -> forall key, exists i e b,
       @Select test_build pool key = Ret i /\ 0 <= i /\ [1; 0; 1] !! Z.to_nat i = Some e /\ e <> 0 /\
       At pool i = Ret b /\ (sample_backend <$> [1; 2; 3]) !! Z.to_nat i = Some b).
Proof.
  apply (@BackendPool_select_enabled test_build (sample_backend <$> [1; 2; 3]) [1; 0; 1]); simpl; lia.
Defined.
