(* ===== verification/NatTable.v ===== *)
(** * The connection table ([dataplane/include/lb/nat_table.hpp])

    An open-addressing table of flows ([slots_]), probed linearly from the hash
    of the forward key, and a second array ([rev_]) of slot numbers plus one,
    probed from the hash of the reverse tuple. Pointers to flows are slot
    numbers, so a flow found and then modified is modified in the table. *)

From S2P Require Import Prelude FlowKey NetTypes.

Record NatFlow := mkNatFlow {
  nf_fwd_key : FlowKey;
  nf_client_mac : MacAddr;
  nf_backend_ip : Z;
  nf_backend_mac : MacAddr;
  nf_backend_port : Z;
  nf_snat_port : Z;
  nf_backend_idx : Z;
  nf_last_seen_ms : Z;
  nf_fin_seen : Z;
  nf_reaped : bool;
  nf_occupied : bool;
}.

(** A value-initialised [NatFlow]. *)
Definition NatFlow_init : NatFlow :=
  mkNatFlow (flow_key 0 0 0 0 0) MacAddr_zero 0 MacAddr_zero 0 0 0 0 0 false false.

#[export] Instance NatFlow_inhabited : Inhabited NatFlow := populate NatFlow_init.

(** Assignments to one member. *)

Definition set_last_seen (f : NatFlow) (now : Z) : NatFlow :=
  mkNatFlow (nf_fwd_key f) (nf_client_mac f) (nf_backend_ip f) (nf_backend_mac f)
    (nf_backend_port f) (nf_snat_port f) (nf_backend_idx f) now (nf_fin_seen f)
    (nf_reaped f) (nf_occupied f).

Definition set_fin_seen (f : NatFlow) (fin : Z) : NatFlow :=
  mkNatFlow (nf_fwd_key f) (nf_client_mac f) (nf_backend_ip f) (nf_backend_mac f)
    (nf_backend_port f) (nf_snat_port f) (nf_backend_idx f) (nf_last_seen_ms f) fin
    (nf_reaped f) (nf_occupied f).

Definition set_reaped (f : NatFlow) : NatFlow :=
  mkNatFlow (nf_fwd_key f) (nf_client_mac f) (nf_backend_ip f) (nf_backend_mac f)
    (nf_backend_port f) (nf_snat_port f) (nf_backend_idx f) (nf_last_seen_ms f)
    (nf_fin_seen f) true (nf_occupied f).

Definition set_snat_port (f : NatFlow) (port : Z) : NatFlow :=
  mkNatFlow (nf_fwd_key f) (nf_client_mac f) (nf_backend_ip f) (nf_backend_mac f)
    (nf_backend_port f) port (nf_backend_idx f) (nf_last_seen_ms f) (nf_fin_seen f)
    (nf_reaped f) (nf_occupied f).

Definition set_occupied (f : NatFlow) : NatFlow :=
  mkNatFlow (nf_fwd_key f) (nf_client_mac f) (nf_backend_ip f) (nf_backend_mac f)
    (nf_backend_port f) (nf_snat_port f) (nf_backend_idx f) (nf_last_seen_ms f)
    (nf_fin_seen f) (nf_reaped f) true.

Definition kDefaultTimeoutMs : Z := 30000.

Record NatTable := mkNatTable {
  slots_ : list NatFlow;
  rev_ : list Z;
  size_ : Z;
  timeout_ms_ : Z;
}.

Section NatTable.
Context `{BuildParams}.

Definition kCapacity : Z := 2 ^ Z.of_nat kNatCapacityBits.

Definition kMask : Z := kCapacity - 1.

(** [NatTable(timeout_ms)]. *)
Definition NatTable_new (timeout_ms : Z) : NatTable :=
  mkNatTable (replicate (Z.to_nat kCapacity) NatFlow_init)
             (replicate (Z.to_nat kCapacity) 0) 0 timeout_ms.

Definition SetTimeoutMs (t : NatTable) (timeout_ms : Z) : NatTable :=
  mkNatTable (slots_ t) (rev_ t) (size_ t) timeout_ms.

Definition Size (t : NatTable) : Z := size_ t.

(** [slots_[i] = f]. *)
Definition set_slot (t : NatTable) (i : nat) (f : NatFlow) : NatTable :=
  mkNatTable (<[i := f]> (slots_ t)) (rev_ t) (size_ t) (timeout_ms_ t).

Definition set_size (t : NatTable) (n : Z) : NatTable :=
  mkNatTable (slots_ t) (rev_ t) n (timeout_ms_ t).

Definition set_rev (t : NatTable) (c : nat) (p : Z) : NatTable :=
  mkNatTable (slots_ t) (<[c := p]> (rev_ t)) (size_ t) (timeout_ms_ t).

(** [(start + i) & kMask], as an array index. *)
Definition probe (start : Z) (i : nat) : nat :=
  Z.to_nat (Z.land (start ⊞ Z.of_nat i) kMask).

Definition Expired (t : NatTable) (flow : NatFlow) (now_ms : Z) : bool :=
  nf_occupied flow &&
  (nf_reaped flow || (timeout_ms_ t <? (now_ms ⊟ nf_last_seen_ms flow))).

(** [Reap(slots_[s])]. *)
Definition Reap (t : NatTable) (s : nat) : NatTable :=
  let flow := slots_ t !!! s in
  if negb (nf_reaped flow) then
    let t := set_slot t s (set_reaped flow) in
    if 0 <? size_ t then set_size t (size_ t ⊟ 1) else t
  else t.

(** [Close(slots_[s], released_port, backend_idx)]. *)
Definition Close (t : NatTable) (s : nat) : NatTable * Z * Z :=
  let flow := slots_ t !!! s in
  if negb (nf_occupied flow) || nf_reaped flow then (t, 0, 0)
  else
    let t := Reap t s in
    let flow := slots_ t !!! s in
    (set_slot t s (set_snat_port flow 0), nf_snat_port flow, nf_backend_idx flow).

Definition RevHash (backend_ip backend_port snat_port proto : Z) : Z :=
  Hash (flow_key backend_ip 0 backend_port snat_port proto).

(** The [for] loop of [LookupForward]: [n] iterations left, the next index [i]. *)
Fixpoint LookupForward_loop (n i : nat) (start : Z) (key : FlowKey) (now_ms : Z) (t : NatTable)
  : option nat * NatTable :=
  match n with
  | O => (None, t)
  | S n =>
      let s := probe start i in
      let flow := slots_ t !!! s in
      if negb (nf_occupied flow) then (None, t)
      else if Expired t flow now_ms then
        LookupForward_loop n (S i) start key now_ms (Reap t s)
      else if FlowKey_eqb (nf_fwd_key flow) key then
        (Some s, set_slot t s (set_last_seen flow now_ms))
      else LookupForward_loop n (S i) start key now_ms t
  end.

Definition LookupForward (t : NatTable) (key : FlowKey) (now_ms : Z) : option nat * NatTable :=
  LookupForward_loop (Z.to_nat kCapacity) 0 (Z.land (Hash key) kMask) key now_ms t.

(** The [for] loop of [IndexReverse]. *)
Fixpoint IndexReverse_loop (n i : nat) (start : Z) (slot : nat) (now_ms : Z) (t : NatTable)
  : NatTable :=
  match n with
  | O => t
  | S n =>
      let cell := probe start i in
      let ptr := rev_ t !!! cell in
      let target := slots_ t !!! Z.to_nat (ptr - 1) in
      if (ptr =? 0) || negb (nf_occupied target) || Expired t target now_ms
      then set_rev t cell (Z.of_nat slot ⊞ 1)
      else IndexReverse_loop n (S i) start slot now_ms t
  end.

Definition rev_start (flow : NatFlow) : Z :=
  Z.land (RevHash (nf_backend_ip flow) (nf_backend_port flow) (nf_snat_port flow)
            (fk_proto (nf_fwd_key flow))) kMask.

Definition IndexReverse (t : NatTable) (slot : nat) (now_ms : Z) : NatTable :=
  IndexReverse_loop (Z.to_nat kCapacity) 0 (rev_start (slots_ t !!! slot)) slot now_ms t.

(** The rest of [Insert]'s body once a slot is chosen: [victim = flow], ... *)
Definition Insert_at (t : NatTable) (slot : nat) (flow : NatFlow) (now_ms : Z) : NatTable :=
  IndexReverse (set_slot t slot (set_last_seen (set_occupied flow) now_ms)) slot now_ms.

(** The [for] loop of [Insert]: the slot, the evicted port and backend, the table. *)
Fixpoint Insert_loop (n i : nat) (start : Z) (flow : NatFlow) (now_ms : Z) (t : NatTable)
  : option nat * Z * Z * NatTable :=
  match n with
  | O => (None, 0, 0, t)
  | S n =>
      let slot := probe start i in
      let victim := slots_ t !!! slot in
      if negb (nf_occupied victim) then
        (Some slot, 0, 0, Insert_at (set_size t (size_ t ⊞ 1)) slot flow now_ms)
      else if Expired t victim now_ms then
        let t := if nf_reaped victim then set_size t (size_ t ⊞ 1) else t in
        (Some slot, nf_snat_port victim, nf_backend_idx victim, Insert_at t slot flow now_ms)
      else Insert_loop n (S i) start flow now_ms t
  end.

Definition Insert (t : NatTable) (flow : NatFlow) (now_ms : Z) : option nat * Z * Z * NatTable :=
  Insert_loop (Z.to_nat kCapacity) 0 (Z.land (Hash (nf_fwd_key flow)) kMask) flow now_ms t.

Definition rev_match (flow : NatFlow) (backend_ip backend_port snat_port proto : Z) : bool :=
  nf_occupied flow && (nf_backend_ip flow =? backend_ip) &&
  (nf_backend_port flow =? backend_port) && (nf_snat_port flow =? snat_port) &&
  (fk_proto (nf_fwd_key flow) =? proto).

(** The [for] loop of [LookupReverse]. *)
Fixpoint LookupReverse_loop (n i : nat) (start backend_ip backend_port snat_port proto now_ms : Z)
    (t : NatTable) : option nat * NatTable :=
  match n with
  | O => (None, t)
  | S n =>
      let ptr := rev_ t !!! probe start i in
      if ptr =? 0 then (None, t)
      else
        let s := Z.to_nat (ptr - 1) in
        let flow := slots_ t !!! s in
        if nf_occupied flow && Expired t flow now_ms then
          LookupReverse_loop n (S i) start backend_ip backend_port snat_port proto now_ms (Reap t s)
        else if rev_match flow backend_ip backend_port snat_port proto then
          (Some s, set_slot t s (set_last_seen flow now_ms))
        else LookupReverse_loop n (S i) start backend_ip backend_port snat_port proto now_ms t
  end.

Definition LookupReverse (t : NatTable) (backend_ip backend_port snat_port proto now_ms : Z)
  : option nat * NatTable :=
  LookupReverse_loop (Z.to_nat kCapacity) 0
    (Z.land (RevHash backend_ip backend_port snat_port proto) kMask)
    backend_ip backend_port snat_port proto now_ms t.

End NatTable.
