(* ===== verification/NatTableFacts.v ===== *)
(** * The connection table: invariant, lookups, insertion

    [NatInv] is the table's representation invariant; every operation keeps it.
    [view] is the abstract connection map a table stands for at a given time,
    and the operations refine lookup, insertion and deletion in that map. *)

From S2P Require Import Prelude FlowKey NetTypes NatTable.

Section Facts.
Context `{BuildParams}.

Implicit Types (t : NatTable) (f g : NatFlow) (s i d c : nat).

(** ** The capacity and the probe sequence *)

Lemma kCapacity_bounds : 1 <= kCapacity <= 2 ^ 31.
Proof.
  unfold kCapacity. pose proof kNatCapacityBits_le. split.
  - change 1 with (2 ^ 0). apply Z.pow_le_mono_r; lia.
  - apply Z.pow_le_mono_r; lia.
Qed.

Local Abbreviation cap := (Z.to_nat kCapacity).

Lemma land_kMask z : Z.land z kMask = z mod kCapacity.
Proof.
  unfold kMask, kCapacity. rewrite <- Z.land_ones by lia. f_equal.
  rewrite Z.ones_equiv. lia.
Qed.

Lemma probe_mod start i :
  0 <= start < kCapacity -> (i < cap)%nat -> probe start i = Z.to_nat ((start + Z.of_nat i) mod kCapacity).
Proof.
  intros. unfold probe. rewrite land_kMask. pose proof kCapacity_bounds.
  rewrite u32_small by lia. done.
Qed.

Lemma probe_lt start i : (probe start i < cap)%nat.
Proof.
  unfold probe. rewrite land_kMask. pose proof kCapacity_bounds.
  pose proof (Z.mod_pos_bound (start ⊞ Z.of_nat i) kCapacity). lia.
Qed.

(** Every slot is on the probe sequence of every key. *)
Lemma probe_surj start s :
  0 <= start < kCapacity -> (s < cap)%nat -> exists i, (i < cap)%nat /\ probe start i = s.
Proof.
  intros Hst Hs. pose proof kCapacity_bounds.
  assert (0 <= (Z.of_nat s - start) mod kCapacity < kCapacity) by (apply Z.mod_pos_bound; lia).
  exists (Z.to_nat ((Z.of_nat s - start) mod kCapacity)). split; [lia|].
  rewrite probe_mod by lia.
  rewrite (Z2Nat.id ((Z.of_nat s - start) mod kCapacity)) by lia. rewrite Z.add_mod_idemp_r by lia.
  replace (start + (Z.of_nat s - start)) with (Z.of_nat s) by lia.
  rewrite Z.mod_small by lia. lia.
Qed.

Definition fwd_start (k : FlowKey) : Z := Z.land (Hash k) kMask.

Lemma start_range z : 0 <= Z.land z kMask < kCapacity.
Proof. rewrite land_kMask. pose proof kCapacity_bounds. apply Z.mod_pos_bound. lia. Qed.

(** ** The representation invariant *)

(** A flow in use: counted by [size_], and the only one of its key. *)
Definition live f : bool := nf_occupied f && negb (nf_reaped f).

(** A flow a lookup at [now] can return. *)
Definition current t (now : Z) f : bool := nf_occupied f && negb (Expired t f now).

Record NatInv t : Prop := {
  inv_len : length (slots_ t) = cap;
  inv_rlen : length (rev_ t) = cap;
  inv_timeout : 0 <= timeout_ms_ t;
  inv_size : size_ t = Z.of_nat (length (List.filter live (slots_ t)));
  (** probing from a flow's hash meets no hole before the flow *)
  inv_chain : forall s f, slots_ t !! s = Some f -> nf_occupied f = true ->
    exists d, (d < cap)%nat /\ probe (fwd_start (nf_fwd_key f)) d = s /\
      forall i, (i < d)%nat -> nf_occupied (slots_ t !!! probe (fwd_start (nf_fwd_key f)) i) = true;
  (** at most one live flow per key *)
  inv_uniq : forall s1 s2 f1 f2, slots_ t !! s1 = Some f1 -> slots_ t !! s2 = Some f2 ->
    live f1 = true -> live f2 = true ->
    fk_bytes (nf_fwd_key f1) = fk_bytes (nf_fwd_key f2) -> s1 = s2;
  (** every pointer of the reverse index is in range and to a used slot *)
  inv_rev : forall c p, rev_ t !! c = Some p -> p <> 0 ->
    1 <= p <= kCapacity /\ nf_occupied (slots_ t !!! Z.to_nat (p - 1)) = true;
}.

Lemma slot_lookup t s : NatInv t -> (s < cap)%nat -> slots_ t !! s = Some (slots_ t !!! s).
Proof. intros Hi Hs. apply list_lookup_lookup_total_lt. now rewrite (inv_len t Hi). Qed.

Lemma slot_total t s f : slots_ t !! s = Some f -> slots_ t !!! s = f.
Proof. apply list_lookup_total_correct. Qed.

Lemma slot_probe t start i :
  NatInv t -> slots_ t !! probe start i = Some (slots_ t !!! probe start i).
Proof. intros. apply slot_lookup; auto using probe_lt. Qed.

Lemma slot_lt t s f : NatInv t -> slots_ t !! s = Some f -> (s < cap)%nat.
Proof. intros Hi Hs%lookup_lt_Some. now rewrite (inv_len t Hi) in Hs. Qed.

Lemma rev_cell t c : NatInv t -> (c < cap)%nat -> rev_ t !! c = Some (rev_ t !!! c).
Proof. intros Hi Hc. apply list_lookup_lookup_total_lt. now rewrite (inv_rlen t Hi). Qed.

Lemma rev_ptr_slot t c :
  NatInv t -> (c < cap)%nat -> rev_ t !!! c <> 0 ->
  slots_ t !! Z.to_nat (rev_ t !!! c - 1) = Some (slots_ t !!! Z.to_nat (rev_ t !!! c - 1)) /\
  nf_occupied (slots_ t !!! Z.to_nat (rev_ t !!! c - 1)) = true.
Proof.
  intros Hi Hc Hp. destruct (inv_rev t Hi c _ (rev_cell t c Hi Hc) Hp) as [Hr Ho].
  split; [|done]. apply slot_lookup; [done|lia].
Qed.

(** Updates of one slot that keep the key and the occupied bit, and do not
    bring a flow back to life, keep the invariant. *)
Lemma NatInv_update t s f g n :
  NatInv t -> slots_ t !! s = Some f ->
  nf_fwd_key g = nf_fwd_key f -> nf_occupied g = nf_occupied f ->
  (live g = true -> live f = true) ->
  n = size_ t - (if live f then 1 else 0) + (if live g then 1 else 0) ->
  NatInv (mkNatTable (<[s := g]> (slots_ t)) (rev_ t) n (timeout_ms_ t)).
Proof.
  intros Hi Hs Hk Ho Hl Hn. pose proof (slot_lt t s f Hi Hs) as Hlt.
  assert (Hls : (s < length (slots_ t))%nat) by (rewrite (inv_len t Hi); done).
  assert (Hocc : forall j, nf_occupied (<[s := g]> (slots_ t) !!! j) = nf_occupied (slots_ t !!! j)).
  { intros j. destruct (decide (j = s)) as [->|Hne].
    - rewrite list_lookup_total_insert_eq by done. rewrite Ho. f_equal. symmetry. now apply slot_total.
    - now rewrite list_lookup_total_insert_ne. }
  split; simpl.
  - rewrite length_insert. apply (inv_len t Hi).
  - apply (inv_rlen t Hi).
  - apply (inv_timeout t Hi).
  - pose proof (filter_insert_length live (slots_ t) s f g Hs) as Hf.
    pose proof (inv_size t Hi) as Hsz. rewrite Hn.
    destruct (live f), (live g); lia.
  - intros j f' Hj Hoj. destruct (decide (j = s)) as [->|Hne].
    + rewrite list_lookup_insert_eq in Hj by done. injection Hj as <-. rewrite Hk.
      rewrite Ho in Hoj. destruct (inv_chain t Hi s f Hs Hoj) as (d & Hd & Hp & Hc).
      exists d. split_and!; try done. intros i Hid. rewrite Hocc. auto.
    + rewrite list_lookup_insert_ne in Hj by done.
      destruct (inv_chain t Hi j f' Hj Hoj) as (d & Hd & Hp & Hc).
      exists d. split_and!; try done. intros i Hid. rewrite Hocc. auto.
  - assert (Hback : forall j f', <[s := g]> (slots_ t) !! j = Some f' -> live f' = true ->
      exists f0, slots_ t !! j = Some f0 /\ live f0 = true /\ nf_fwd_key f0 = nf_fwd_key f').
    { intros j f' Hj Hlj. destruct (decide (j = s)) as [->|Hne].
      - rewrite list_lookup_insert_eq in Hj by done. injection Hj as <-. eauto.
      - rewrite list_lookup_insert_ne in Hj by done. eauto. }
    intros s1 s2 f1 f2 H1 H2 L1 L2 Hkey.
    destruct (Hback _ _ H1 L1) as (g1 & ? & ? & E1). destruct (Hback _ _ H2 L2) as (g2 & ? & ? & E2).
    eapply (inv_uniq t Hi); eauto. now rewrite E1, E2.
  - intros c p Hc Hp. rewrite Hocc. now apply (inv_rev t Hi c).
Qed.

Lemma size_nonneg t : NatInv t -> 0 <= size_ t <= kCapacity.
Proof.
  intros Hi. rewrite (inv_size t Hi). pose proof kCapacity_bounds.
  pose proof (List.filter_length_le live (slots_ t)) as Hle. rewrite (inv_len t Hi) in Hle. lia.
Qed.

Lemma live_size_pos t s f : NatInv t -> slots_ t !! s = Some f -> live f = true -> 0 < size_ t.
Proof.
  intros Hi Hs Hl. rewrite (inv_size t Hi).
  assert (In f (List.filter live (slots_ t))) as Hin.
  { apply List.filter_In. split; [|done]. apply list_elem_of_In. eapply list_elem_of_lookup_2; eauto. }
  destruct (List.filter live (slots_ t)); simpl in *; [done|lia].
Qed.

(** ** [Reap] and assignments through a flow pointer *)

Lemma Reap_unfold t s f :
  NatInv t -> slots_ t !! s = Some f -> nf_occupied f = true ->
  Reap t s = mkNatTable (<[s := set_reaped f]> (slots_ t)) (rev_ t)
               (size_ t - (if live f then 1 else 0)) (timeout_ms_ t).
Proof.
  intros Hi Hs Ho. unfold Reap. rewrite (slot_total t s f Hs).
  pose proof (live_size_pos t s f Hi Hs) as Hpos. pose proof (size_nonneg t Hi).
  pose proof kCapacity_bounds. unfold live in *. rewrite Ho in *. simpl in *.
  destruct (nf_reaped f) eqn:Hr; simpl in *.
  - rewrite Z.sub_0_r. destruct t; simpl in *. f_equal. symmetry.
    replace (set_reaped f) with f; [now apply list_insert_id|].
    destruct f; simpl in *; now subst.
  - destruct (Z.ltb_spec 0 (size_ t)); [|specialize (Hpos eq_refl); lia].
    unfold set_size, set_slot; simpl. rewrite u32_small by lia. done.
Qed.

Lemma Reap_inv t s f :
  NatInv t -> slots_ t !! s = Some f -> nf_occupied f = true -> NatInv (Reap t s).
Proof.
  intros Hi Hs Ho. rewrite (Reap_unfold t s f) by done.
  apply (NatInv_update t s f); try done.
  - unfold live. simpl. now rewrite andb_false_r.
  - assert (Hd : live (set_reaped f) = false) by (unfold live; simpl; apply andb_false_r).
    rewrite Hd. lia.
Qed.

Lemma set_slot_inv t s f g :
  NatInv t -> slots_ t !! s = Some f -> nf_fwd_key g = nf_fwd_key f ->
  nf_occupied g = nf_occupied f -> nf_reaped g = nf_reaped f -> NatInv (set_slot t s g).
Proof.
  intros Hi Hs Hk Ho Hr. assert (live g = live f) as Hl by (unfold live; now rewrite Ho, Hr).
  apply (NatInv_update t s f); rewrite ?Hl; try done. lia.
Qed.

(** ** Lazy reaping: what the walk of a lookup does to the flows it passes *)

(** [reap_rel now t t']: [t'] is [t] with some flows expired at [now] marked. *)
Record reap_rel (now : Z) t t' : Prop := {
  rr_rev : rev_ t' = rev_ t;
  rr_timeout : timeout_ms_ t' = timeout_ms_ t;
  rr_len : length (slots_ t') = length (slots_ t);
  rr_slots : forall s f, slots_ t !! s = Some f ->
    slots_ t' !! s = Some f \/
    (nf_occupied f = true /\ Expired t f now = true /\ slots_ t' !! s = Some (set_reaped f));
}.

Lemma Expired_timeout t t' f now :
  timeout_ms_ t' = timeout_ms_ t -> Expired t' f now = Expired t f now.
Proof. unfold Expired. now intros ->. Qed.

Lemma reap_rel_refl now t : reap_rel now t t.
Proof. split; auto. Qed.

Lemma reap_rel_trans now t1 t2 t3 : reap_rel now t1 t2 -> reap_rel now t2 t3 -> reap_rel now t1 t3.
Proof.
  intros [R1 T1 L1 S1] [R2 T2 L2 S2]. split; try congruence.
  intros s f Hs. destruct (S1 s f Hs) as [H1|(Ho & He & H1)]; destruct (S2 s _ H1) as [H2|(Ho2 & He2 & H2)]; auto.
  rewrite (Expired_timeout t1 t2) in He2 by done. auto.
Qed.

Lemma Reap_rel now t s f :
  NatInv t -> slots_ t !! s = Some f -> nf_occupied f = true -> Expired t f now = true ->
  reap_rel now t (Reap t s).
Proof.
  intros Hi Hs Ho He. rewrite (Reap_unfold t s f) by done. split; simpl; try done.
  - apply length_insert.
  - intros j g Hj. destruct (decide (j = s)) as [->|Hne].
    + right. rewrite Hs in Hj. injection Hj as <-. split_and!; try done.
      apply list_lookup_insert_eq. now apply lookup_lt_Some in Hs.
    + left. now rewrite list_lookup_insert_ne.
Qed.

Lemma reap_rel_occupied now t t' s :
  reap_rel now t t' -> (s < length (slots_ t))%nat ->
  nf_occupied (slots_ t' !!! s) = nf_occupied (slots_ t !!! s).
Proof.
  intros [_ _ _ S] Hs. apply list_lookup_lookup_total_lt in Hs.
  destruct (S s _ Hs) as [E|(_ & _ & E)]; now rewrite (list_lookup_total_correct _ _ _ E).
Qed.

(** Flows that are not expired are not touched by reaping. *)
Lemma reap_rel_current now t t' s f :
  reap_rel now t t' -> slots_ t !! s = Some f -> Expired t f now = false -> slots_ t' !! s = Some f.
Proof. intros [_ _ _ S] Hs He. destruct (S s f Hs) as [E|(_ & E & _)]; [done|congruence]. Qed.

Lemma current_spec t now f :
  current t now f = true <-> nf_occupied f = true /\ Expired t f now = false.
Proof. unfold current. rewrite andb_true_iff, negb_true_iff. tauto. Qed.

Lemma current_live t now f : current t now f = true -> live f = true.
Proof.
  rewrite current_spec. unfold Expired, live. intros [Ho He]. rewrite Ho in *. simpl in *.
  apply orb_false_iff in He as [-> _]. done.
Qed.

Lemma reap_rel_current_back now t t' s f :
  reap_rel now t t' -> slots_ t' !! s = Some f -> current t' now f = true ->
  slots_ t !! s = Some f /\ current t now f = true.
Proof.
  intros R Hs Hc. destruct (lookup_lt_is_Some_2 (slots_ t) s) as [g Hg].
  { rewrite <- (rr_len _ _ _ R). now apply lookup_lt_Some in Hs. }
  destruct (rr_slots _ _ _ R s g Hg) as [E|(_ & _ & E)]; rewrite E in Hs; injection Hs as <-.
  - split; [done|]. unfold current in *. now rewrite <- (Expired_timeout t t') by apply R.
  - apply current_live in Hc. unfold live in Hc. simpl in Hc. now rewrite andb_false_r in Hc.
Qed.

(** ** [LookupForward] *)

Lemma LookupForward_loop_step n i start key now t r t' :
  NatInv t -> LookupForward_loop n i start key now t = (r, t') ->
  exists t1, reap_rel now t t1 /\ NatInv t1 /\ NatInv t' /\
  match r with
  | None => t' = t1
  | Some s => exists f, slots_ t1 !! s = Some f /\ current t1 now f = true /\
      fk_bytes (nf_fwd_key f) = fk_bytes key /\ t' = set_slot t1 s (set_last_seen f now)
  end.
Proof.
  revert i t; induction n as [|n IH]; intros i t Hi E; cbn [LookupForward_loop] in E.
  { injection E as <- <-. exists t. auto using reap_rel_refl. }
  pose proof (slot_probe t start i Hi) as Hs.
  destruct (nf_occupied (slots_ t !!! probe start i)) eqn:Ho; simpl in E; cycle 1.
  { injection E as <- <-. exists t. auto using reap_rel_refl. }
  destruct (Expired t (slots_ t !!! probe start i) now) eqn:He.
  - apply IH in E; [|eapply Reap_inv; eauto]. destruct E as (t1 & R & Hrest).
    exists t1. split; [|done]. eapply reap_rel_trans; [|exact R]. eapply Reap_rel; eauto.
  - destruct (FlowKey_eqb _ key) eqn:Hk; [|now apply IH in E].
    injection E as <- <-. exists t. apply FlowKey_eqb_bytes in Hk.
    split_and!; auto using reap_rel_refl.
    + eapply set_slot_inv; eauto.
    + eexists. split_and!; eauto. now apply current_spec.
Qed.

(** A flow of the key before which the walk meets no hole is either returned,
    or left marked as reaped. *)
Lemma LookupForward_loop_none n i start key now t t' d f :
  NatInv t -> LookupForward_loop n i start key now t = (None, t') ->
  (i <= d < i + n)%nat ->
  (forall j, (i <= j < d)%nat -> nf_occupied (slots_ t !!! probe start j) = true) ->
  slots_ t !! probe start d = Some f -> nf_occupied f = true ->
  fk_bytes (nf_fwd_key f) = fk_bytes key ->
  exists g, slots_ t' !! probe start d = Some g /\ nf_reaped g = true.
Proof.
  revert i t f; induction n as [|n IH]; intros i t f Hi E Hd Hchain Hs Ho Hk; [lia|].
  cbn [LookupForward_loop] in E. pose proof (slot_probe t start i Hi) as Hsi.
  assert (Hoi : nf_occupied (slots_ t !!! probe start i) = true).
  { destruct (decide (i = d)) as [->|]; [now rewrite (slot_total _ _ _ Hs)|apply Hchain; lia]. }
  rewrite Hoi in E. simpl in E.
  destruct (Expired t (slots_ t !!! probe start i) now) eqn:He; cycle 1.
  { destruct (FlowKey_eqb _ key) eqn:Hq; [discriminate|].
    destruct (decide (i = d)) as [->|Hne].
    - rewrite (slot_total _ _ _ Hs) in Hq. apply FlowKey_eqb_bytes in Hk. congruence.
    - eapply IH; eauto; [lia|]. intros j Hj. apply Hchain. lia. }
  assert (Hi' : NatInv (Reap t (probe start i))) by (eapply Reap_inv; eauto).
  pose proof (Reap_rel now t _ _ Hi Hsi Hoi He) as R.
  destruct (rr_slots _ _ _ R _ f Hs) as [Hs'|(_ & _ & Hs')].
  - destruct (decide (i = d)) as [->|Hne].
    + rewrite (Reap_unfold t _ _ Hi Hsi Hoi) in Hs'. simpl in Hs'.
      rewrite list_lookup_insert_eq in Hs' by (rewrite (inv_len t Hi); apply probe_lt).
      destruct (LookupForward_loop_step _ _ _ _ _ _ _ _ Hi' E) as (t1 & R1 & _ & _ & ->).
      rewrite (Reap_unfold t _ _ Hi Hsi Hoi) in R1.
      destruct (rr_slots _ _ _ R1 (probe start d) f) as [E1|(_ & _ & E1)].
      * simpl. rewrite list_lookup_insert_eq by (rewrite (inv_len t Hi); apply probe_lt). done.
      * eexists; split; [exact E1|]. injection Hs' as <-. done.
      * eexists; split; [exact E1|]. done.
    + eapply IH; eauto; [lia|]. intros j Hj.
      rewrite (reap_rel_occupied now t) by (done || (rewrite (inv_len t Hi); apply probe_lt)).
      apply Hchain. lia.
  - destruct (decide (i = d)) as [->|Hne].
    + destruct (LookupForward_loop_step _ _ _ _ _ _ _ _ Hi' E) as (t1 & R1 & _ & _ & ->).
      destruct (rr_slots _ _ _ R1 _ _ Hs') as [E1|(_ & _ & E1)]; eexists; (split; [exact E1|done]).
    + eapply (IH _ _ (set_reaped f)); eauto; [lia|]. intros j Hj.
      rewrite (reap_rel_occupied now t) by (done || (rewrite (inv_len t Hi); apply probe_lt)).
      apply Hchain. lia.
Qed.

Lemma reap_rel_live_back now t t' s f :
  reap_rel now t t' -> slots_ t' !! s = Some f -> live f = true -> slots_ t !! s = Some f.
Proof.
  intros R Hs Hl. destruct (lookup_lt_is_Some_2 (slots_ t) s) as [g Hg].
  { rewrite <- (rr_len _ _ _ R). now apply lookup_lt_Some in Hs. }
  destruct (rr_slots _ _ _ R s g Hg) as [E|(_ & _ & E)]; rewrite E in Hs; injection Hs as <-; [done|].
  unfold live in Hl. simpl in Hl. now rewrite andb_false_r in Hl.
Qed.

(** The result of [LookupForward]. *)
Lemma LookupForward_spec t key now r t' :
  NatInv t -> LookupForward t key now = (r, t') ->
  exists t1, reap_rel now t t1 /\ NatInv t1 /\ NatInv t' /\
  match r with
  | None => t' = t1 /\ forall s f, slots_ t' !! s = Some f -> live f = true ->
      fk_bytes (nf_fwd_key f) <> fk_bytes key
  | Some s => exists f, slots_ t1 !! s = Some f /\ slots_ t !! s = Some f /\
      current t now f = true /\ fk_bytes (nf_fwd_key f) = fk_bytes key /\
      t' = set_slot t1 s (set_last_seen f now)
  end.
Proof.
  intros Hi E. pose proof E as E0. unfold LookupForward in E.
  destruct (LookupForward_loop_step _ _ _ _ _ _ _ _ Hi E) as (t1 & R & Hi1 & Hi' & Hr).
  exists t1. split_and!; try done. destruct r as [s|].
  - destruct Hr as (f & Hs & Hc & Hk & ->).
    destruct (reap_rel_current_back _ _ _ _ _ R Hs Hc) as [Hs0 Hc0]. eauto 10.
  - subst t1. split; [done|]. intros s f Hs Hl Hk.
    pose proof (reap_rel_live_back _ _ _ _ _ R Hs Hl) as Hs0.
    assert (Ho : nf_occupied f = true) by (unfold live in Hl; bool_prop; done).
    destruct (inv_chain t Hi s f Hs0 Ho) as (d & Hd & Hp & Hc).
    assert (Hst : fwd_start (nf_fwd_key f) = Z.land (Hash key) kMask)
      by (unfold fwd_start; now rewrite (Hash_bytes _ _ Hk)).
    rewrite Hst in *. subst s.
    edestruct (LookupForward_loop_none cap 0 (Z.land (Hash key) kMask) key now t t' d f)
      as (g & Hg & Hrg); eauto; [lia| |].
    { intros j Hj. apply Hc. lia. }
    rewrite Hs in Hg. injection Hg as <-. unfold live in Hl. rewrite Hrg, andb_false_r in Hl. done.
Qed.

(** ** [LookupReverse] *)

(** The reverse tuple of a flow. *)
Definition rev_tuple f : Z * Z * Z * Z :=
  (nf_backend_ip f, nf_backend_port f, nf_snat_port f, fk_proto (nf_fwd_key f)).

Lemma rev_match_spec f ip port snat proto :
  rev_match f ip port snat proto = true <->
  nf_occupied f = true /\ rev_tuple f = (ip, port, snat, proto).
Proof.
  unfold rev_match, rev_tuple. rewrite !andb_true_iff, !Z.eqb_eq. split.
  - intros ((((?&?)&?)&?)&?). subst. done.
  - intros [? [= <- <- <- <-]]. tauto.
Qed.

Lemma LookupReverse_loop_step n i start ip port snat proto now t r t' :
  NatInv t -> LookupReverse_loop n i start ip port snat proto now t = (r, t') ->
  exists t1, reap_rel now t t1 /\ NatInv t1 /\ NatInv t' /\
  match r with
  | None => t' = t1
  | Some s => exists f, slots_ t1 !! s = Some f /\ current t1 now f = true /\
      rev_tuple f = (ip, port, snat, proto) /\ t' = set_slot t1 s (set_last_seen f now)
  end.
Proof.
  revert i t; induction n as [|n IH]; intros i t Hi E; cbn [LookupReverse_loop] in E.
  { injection E as <- <-. exists t. auto using reap_rel_refl. }
  destruct (Z.eqb_spec (rev_ t !!! probe start i) 0) as [_|Hp].
  { injection E as <- <-. exists t. auto using reap_rel_refl. }
  destruct (rev_ptr_slot t (probe start i) Hi (probe_lt _ _) Hp) as [Hs Ho].
  rewrite Ho in E. simpl in E.
  set (s := Z.to_nat (rev_ t !!! probe start i - 1)) in *.
  destruct (Expired t (slots_ t !!! s) now) eqn:He.
  - apply IH in E; [|eapply Reap_inv; eauto]. destruct E as (t1 & R & Hrest).
    exists t1. split; [|done]. eapply reap_rel_trans; [|exact R]. eapply Reap_rel; eauto.
  - destruct (rev_match _ ip port snat proto) eqn:Hk; [|now apply IH in E].
    injection E as <- <-. exists t. apply rev_match_spec in Hk as [_ Hk].
    split_and!; auto using reap_rel_refl.
    + eapply set_slot_inv; eauto.
    + eexists. split_and!; eauto. now apply current_spec.
Qed.

(** A current flow of the tuple reachable in the index makes the walk succeed. *)
Lemma LookupReverse_loop_found n i start ip port snat proto now t d s f :
  NatInv t -> (i <= d < i + n)%nat ->
  (forall j, (i <= j < d)%nat -> rev_ t !!! probe start j <> 0) ->
  rev_ t !!! probe start d = Z.of_nat s + 1 ->
  slots_ t !! s = Some f -> current t now f = true -> rev_tuple f = (ip, port, snat, proto) ->
  fst (LookupReverse_loop n i start ip port snat proto now t) <> None.
Proof.
  revert i t; induction n as [|n IH]; intros i t Hi Hd Hnz Hptr Hs Hc Hk; [lia|].
  cbn [LookupReverse_loop].
  assert (Hp : rev_ t !!! probe start i <> 0).
  { destruct (decide (i = d)) as [->|]; [lia|apply Hnz; lia]. }
  destruct (Z.eqb_spec (rev_ t !!! probe start i) 0) as [|_]; [done|].
  destruct (rev_ptr_slot t (probe start i) Hi (probe_lt _ _) Hp) as [Hsi Hoi].
  rewrite Hoi. simpl.
  destruct (Expired t (slots_ t !!! Z.to_nat (rev_ t !!! probe start i - 1)) now) eqn:He.
  - apply current_spec in Hc as Hc'. destruct Hc' as [_ Hce].
    pose proof (Reap_rel now t _ _ Hi Hsi Hoi He) as R.
    destruct (decide (i = d)) as [->|Hne].
    + exfalso. rewrite Hptr in He. replace (Z.to_nat (Z.of_nat s + 1 - 1)) with s in He by lia.
      rewrite (slot_total _ _ _ Hs) in He. congruence.
    + apply IH; try done; try lia.
      * eapply Reap_inv; eauto.
      * intros j Hj. rewrite (rr_rev _ _ _ R). apply Hnz. lia.
      * now rewrite (rr_rev _ _ _ R).
      * eapply reap_rel_current; eauto.
      * unfold current in *. now rewrite (Expired_timeout t) by apply R.
  - destruct (rev_match _ ip port snat proto) eqn:Hm; [done|].
    destruct (decide (i = d)) as [->|Hne].
    + exfalso. rewrite Hptr in Hm. replace (Z.to_nat (Z.of_nat s + 1 - 1)) with s in Hm by lia.
      rewrite (slot_total _ _ _ Hs) in Hm. apply current_spec in Hc as [Ho _].
      assert (rev_match f ip port snat proto = true) by now apply rev_match_spec. congruence.
    + apply IH; try done; try lia. intros j Hj. apply Hnz. lia.
Qed.

(** The reverse index is complete at [now]: each current flow can be reached in
    it from the hash of its reverse tuple. *)
Definition RevInv t (now : Z) : Prop :=
  forall s f, slots_ t !! s = Some f -> current t now f = true ->
  exists d, (d < cap)%nat /\ rev_ t !!! probe (rev_start f) d = Z.of_nat s + 1 /\
    forall i, (i < d)%nat -> rev_ t !!! probe (rev_start f) i <> 0.

Lemma LookupReverse_spec t ip port snat proto now r t' :
  NatInv t -> LookupReverse t ip port snat proto now = (r, t') ->
  exists t1, reap_rel now t t1 /\ NatInv t1 /\ NatInv t' /\
  match r with
  | None => t' = t1 /\ (RevInv t now -> forall s f, slots_ t !! s = Some f ->
      current t now f = true -> rev_tuple f <> (ip, port, snat, proto))
  | Some s => exists f, slots_ t1 !! s = Some f /\ slots_ t !! s = Some f /\
      current t now f = true /\ rev_tuple f = (ip, port, snat, proto) /\
      t' = set_slot t1 s (set_last_seen f now)
  end.
Proof.
  intros Hi E. unfold LookupReverse in E.
  destruct (LookupReverse_loop_step _ _ _ _ _ _ _ _ _ _ _ Hi E) as (t1 & R & Hi1 & Hi' & Hr).
  exists t1. split_and!; try done. destruct r as [s|].
  - destruct Hr as (f & Hs & Hc & Hk & ->).
    destruct (reap_rel_current_back _ _ _ _ _ R Hs Hc) as [Hs0 Hc0]. eauto 10.
  - split; [done|]. intros HR s f Hs Hc Hk.
    destruct (HR s f Hs Hc) as (d & Hd & Hptr & Hnz).
    assert (Hst : rev_start f = Z.land (RevHash ip port snat proto) kMask)
      by (unfold rev_start; unfold rev_tuple in Hk; injection Hk as -> -> -> ->; done).
    rewrite Hst in *.
    eapply (LookupReverse_loop_found cap 0 _ ip port snat proto now t d s f); eauto; [lia|..].
    { intros j Hj. apply Hnz. lia. }
    now rewrite E.
Qed.

(** ** [Close] *)

Lemma Close_spec t s f t' port idx :
  NatInv t -> slots_ t !! s = Some f -> live f = true -> Close t s = (t', port, idx) ->
  NatInv t' /\ port = nf_snat_port f /\ idx = nf_backend_idx f /\
  t' = mkNatTable (<[s := set_snat_port (set_reaped f) 0]> (slots_ t)) (rev_ t)
         (size_ t - 1) (timeout_ms_ t).
Proof.
  intros Hi Hs Hl E. assert (Ho : nf_occupied f = true /\ nf_reaped f = false).
  { unfold live in Hl. bool_prop. done. }
  destruct Ho as [Ho Hr]. unfold Close in E. rewrite (slot_total _ _ _ Hs), Ho, Hr in E. simpl in E.
  rewrite (Reap_unfold t s f) in E by done. rewrite Hl in E. simpl in E.
  assert (Hlt : (s < length (slots_ t))%nat) by now apply lookup_lt_Some in Hs.
  rewrite list_lookup_total_insert_eq in E by done. unfold set_slot in E. simpl in E.
  injection E as <- <- <-. rewrite list_insert_insert_eq. split_and!; try done.
  apply (NatInv_update t s f); try done. rewrite Hl. unfold live. simpl.
  rewrite Ho. simpl. lia.
Qed.

(** ** [Insert] *)

(** A cell of the reverse index [IndexReverse] may take. *)
Definition rev_free t (now : Z) c : Prop :=
  rev_ t !!! c = 0 \/
  nf_occupied (slots_ t !!! Z.to_nat (rev_ t !!! c - 1)) = false \/
  Expired t (slots_ t !!! Z.to_nat (rev_ t !!! c - 1)) now = true.

(** The walk takes the first free cell, and gives up when there is none. *)
Lemma IndexReverse_loop_cases n i start slot now t :
  (IndexReverse_loop n i start slot now t = t /\
   forall j, (i <= j < i + n)%nat -> ~ rev_free t now (probe start j)) \/
  exists d, (i <= d < i + n)%nat /\
    IndexReverse_loop n i start slot now t = set_rev t (probe start d) (Z.of_nat slot ⊞ 1) /\
    rev_free t now (probe start d) /\
    forall j, (i <= j < d)%nat -> ~ rev_free t now (probe start j).
Proof.
  revert i; induction n as [|n IH]; intros i; cbn [IndexReverse_loop].
  { left. split; [done|]. lia. }
  destruct (_ || _ || _) eqn:Hfree.
  - right. exists i. split; [lia|]. split; [done|]. split; [|lia].
    rewrite !orb_true_iff, negb_true_iff, Z.eqb_eq in Hfree. unfold rev_free. tauto.
  - assert (Hi : ~ rev_free t now (probe start i)).
    { rewrite !orb_false_iff, Z.eqb_neq, negb_false_iff in Hfree. destruct Hfree as [[Hz Ho] He].
      intros [?|[?|?]]; congruence. }
    destruct (IH (S i)) as [[E Hnf]|(d & Hd & E & Hf & Hnf)].
    + left. split; [done|]. intros j Hj. destruct (decide (j = i)) as [->|]; [done|apply Hnf; lia].
    + right. exists d. split_and!; try done; try lia.
      intros j Hj. destruct (decide (j = i)) as [->|]; [done|apply Hnf; lia].
Qed.

Lemma IndexReverse_inv t slot now :
  NatInv t -> (slot < cap)%nat -> nf_occupied (slots_ t !!! slot) = true ->
  NatInv (IndexReverse t slot now).
Proof.
  intros Hi Hs Ho. unfold IndexReverse.
  destruct (IndexReverse_loop_cases cap 0 (rev_start (slots_ t !!! slot)) slot now t)
    as [[-> _]|(d & _ & -> & _)]; [done|].
  pose proof kCapacity_bounds. unfold set_rev. rewrite u32_small by lia.
  destruct Hi as [L RL T Sz Ch U Rv]. split; simpl; try done.
  - now rewrite length_insert.
  - intros c p Hc Hp. destruct (decide (c = probe (rev_start (slots_ t !!! slot)) d)) as [->|Hne].
    + rewrite list_lookup_insert_eq in Hc by (rewrite RL; apply probe_lt). injection Hc as <-.
      split; [lia|]. replace (Z.to_nat (Z.of_nat slot + 1 - 1)) with slot by lia. done.
    + rewrite list_lookup_insert_ne in Hc by done. eauto.
Qed.

Lemma IndexReverse_slots t slot now :
  slots_ (IndexReverse t slot now) = slots_ t /\ size_ (IndexReverse t slot now) = size_ t /\
  timeout_ms_ (IndexReverse t slot now) = timeout_ms_ t.
Proof.
  unfold IndexReverse.
  destruct (IndexReverse_loop_cases cap 0 (rev_start (slots_ t !!! slot)) slot now t)
    as [[-> _]|(d & _ & -> & _)]; done.
Qed.

(** The flow [Insert] writes. *)
Definition stored f (now : Z) : NatFlow := set_last_seen (set_occupied f) now.

(** A slot [Insert] may take. *)
Definition evictable t (now : Z) f : bool := negb (nf_occupied f) || Expired t f now.

Lemma evictable_spec t now f : evictable t now f = negb (current t now f).
Proof. unfold evictable, current. now destruct (nf_occupied f), (Expired t f now). Qed.

Lemma Insert_loop_cases n i start flow now t r port idx t' :
  Insert_loop n i start flow now t = (r, port, idx, t') ->
  match r with
  | None => t' = t /\ port = 0 /\ idx = 0 /\
      forall j, (i <= j < i + n)%nat -> evictable t now (slots_ t !!! probe start j) = false
  | Some slot => exists d, (i <= d < i + n)%nat /\ slot = probe start d /\
      (forall j, (i <= j < d)%nat -> evictable t now (slots_ t !!! probe start j) = false) /\
      evictable t now (slots_ t !!! slot) = true /\
      port = (if nf_occupied (slots_ t !!! slot) then nf_snat_port (slots_ t !!! slot) else 0) /\
      idx = (if nf_occupied (slots_ t !!! slot) then nf_backend_idx (slots_ t !!! slot) else 0) /\
      t' = Insert_at (if live (slots_ t !!! slot) then t else set_size t (size_ t ⊞ 1)) slot flow now
  end.
Proof.
  revert i; induction n as [|n IH]; intros i E; cbn [Insert_loop] in E.
  { injection E as <- <- <- <-. split_and!; try done. lia. }
  destruct (evictable t now (slots_ t !!! probe start i)) eqn:Hev.
  - unfold evictable in Hev.
    assert (Hr : r = Some (probe start i)) by (repeat case_match; simplify_eq/=; done).
    subst r. exists i. split; [lia|]. split; [done|]. split; [lia|].
    unfold live. destruct (nf_occupied (slots_ t !!! probe start i)) eqn:Ho; simpl in *.
    + rewrite Hev in E. unfold evictable. rewrite Ho, Hev.
      destruct (nf_reaped (slots_ t !!! probe start i)); injection E as <- <- <-; done.
    + injection E as <- <- <-. unfold evictable. rewrite Ho. done.
  - assert (Hnext : Insert_loop n (S i) start flow now t = (r, port, idx, t')).
    { unfold evictable in Hev. apply orb_false_iff in Hev as [Ho He].
      rewrite Ho, He in E. done. }
    apply IH in Hnext. destruct r as [slot|].
    + destruct Hnext as (d & Hd & Hs & Hj & Hrest). exists d. split_and!; try done; try lia; try tauto.
      intros j Hj'. destruct (decide (j = i)) as [->|]; [done|apply Hj; lia].
    + destruct Hnext as (-> & -> & -> & Hj). split_and!; try done.
      intros j Hj'. destruct (decide (j = i)) as [->|]; [done|apply Hj; lia].
Qed.

Lemma Insert_at_slots t slot flow now :
  slots_ (Insert_at t slot flow now) = <[slot := stored flow now]> (slots_ t) /\
  size_ (Insert_at t slot flow now) = size_ t /\ timeout_ms_ (Insert_at t slot flow now) = timeout_ms_ t.
Proof. unfold Insert_at. apply (IndexReverse_slots (set_slot t slot (stored flow now))). Qed.

Lemma NatInv_set_new t d flow now :
  NatInv t -> nf_reaped flow = false ->
  (forall s f, slots_ t !! s = Some f -> live f = true ->
     fk_bytes (nf_fwd_key f) <> fk_bytes (nf_fwd_key flow)) ->
  (d < cap)%nat ->
  (forall j, (j < d)%nat -> nf_occupied (slots_ t !!! probe (fwd_start (nf_fwd_key flow)) j) = true) ->
  let s := probe (fwd_start (nf_fwd_key flow)) d in
  NatInv (mkNatTable (<[s := stored flow now]> (slots_ t)) (rev_ t)
            (size_ t + (if live (slots_ t !!! s) then 0 else 1)) (timeout_ms_ t)).
Proof.
  intros Hi Hr Hnew Hd Hch s. assert (Hs : slots_ t !! s = Some (slots_ t !!! s)) by now apply slot_probe.
  assert (Hlt : (s < length (slots_ t))%nat) by now apply lookup_lt_Some in Hs.
  assert (Hlive : live (stored flow now) = true) by (unfold live; simpl; now rewrite Hr).
  assert (Hocc : forall j, nf_occupied (slots_ t !!! j) = true ->
    nf_occupied (<[s := stored flow now]> (slots_ t) !!! j) = true).
  { intros j Hj. destruct (decide (j = s)) as [->|]; [now rewrite list_lookup_total_insert_eq|].
    now rewrite list_lookup_total_insert_ne. }
  split; simpl.
  - rewrite length_insert. apply (inv_len t Hi).
  - apply (inv_rlen t Hi).
  - apply (inv_timeout t Hi).
  - pose proof (filter_insert_length live (slots_ t) s _ (stored flow now) Hs) as Hf.
    rewrite Hlive in Hf. pose proof (inv_size t Hi). destruct (live (slots_ t !!! s)); lia.
  - intros j f Hj Ho. destruct (decide (j = s)) as [->|Hne].
    + rewrite list_lookup_insert_eq in Hj by done. injection Hj as <-. simpl.
      exists d. split_and!; try done. intros i Hid. apply Hocc. auto.
    + rewrite list_lookup_insert_ne in Hj by done.
      destruct (inv_chain t Hi j f Hj Ho) as (e & He & Hp & Hc).
      exists e. split_and!; try done. intros i Hie. apply Hocc. auto.
  - intros s1 s2 f1 f2 H1 H2 L1 L2 Hk.
    destruct (decide (s1 = s)) as [->|N1], (decide (s2 = s)) as [->|N2]; try done.
    + rewrite list_lookup_insert_eq in H1 by done. rewrite list_lookup_insert_ne in H2 by done.
      injection H1 as <-. exfalso. by eapply Hnew.
    + rewrite list_lookup_insert_eq in H2 by done. rewrite list_lookup_insert_ne in H1 by done.
      injection H2 as <-. exfalso. by eapply Hnew.
    + rewrite list_lookup_insert_ne in H1, H2 by done. eapply (inv_uniq t Hi); eauto.
  - intros c p Hc Hp. destruct (inv_rev t Hi c p Hc Hp) as [? ?]. auto.
Qed.

(** The result of [Insert] for a key that has no live flow. *)
Lemma Insert_spec t flow now r port idx t' :
  NatInv t -> nf_reaped flow = false ->
  (forall s f, slots_ t !! s = Some f -> live f = true ->
     fk_bytes (nf_fwd_key f) <> fk_bytes (nf_fwd_key flow)) ->
  Insert t flow now = (r, port, idx, t') ->
  NatInv t' /\
  match r with
  | None => t' = t /\ port = 0 /\ idx = 0 /\
      forall s, (s < cap)%nat -> current t now (slots_ t !!! s) = true
  | Some s => exists victim, slots_ t !! s = Some victim /\ current t now victim = false /\
      slots_ t' = <[s := stored flow now]> (slots_ t) /\
      size_ t' = size_ t + (if live victim then 0 else 1) /\ timeout_ms_ t' = timeout_ms_ t /\
      port = (if nf_occupied victim then nf_snat_port victim else 0) /\
      idx = (if nf_occupied victim then nf_backend_idx victim else 0) /\
      t' = IndexReverse (mkNatTable (<[s := stored flow now]> (slots_ t)) (rev_ t)
             (size_ t + (if live victim then 0 else 1)) (timeout_ms_ t)) s now
  end.
Proof.
  intros Hi Hr Hnew E. unfold Insert in E. apply Insert_loop_cases in E. destruct r as [s|].
  - destruct E as (d & Hd & Hs & Hbefore & Hev & -> & -> & E).
    pose proof (slot_probe t (Z.land (Hash (nf_fwd_key flow)) kMask) d Hi) as Hlk. rewrite <- Hs in Hlk.
    rewrite evictable_spec, negb_true_iff in Hev.
    assert (Hocc : forall j, (j < d)%nat ->
      nf_occupied (slots_ t !!! probe (fwd_start (nf_fwd_key flow)) j) = true).
    { intros j Hj. specialize (Hbefore j ltac:(lia)).
      rewrite evictable_spec, negb_false_iff in Hbefore. apply current_spec in Hbefore. apply Hbefore. }
    pose proof (NatInv_set_new t d flow now Hi Hr Hnew ltac:(lia) Hocc) as Hi2. simpl in Hi2.
    unfold fwd_start in Hi2. rewrite <- Hs in Hi2.
    assert (Hsz : (if live (slots_ t !!! s) then t else set_size t (size_ t ⊞ 1)) =
      set_size t (size_ t + (if live (slots_ t !!! s) then 0 else 1))).
    { pose proof (size_nonneg t Hi). pose proof kCapacity_bounds.
      destruct (live (slots_ t !!! s)); unfold set_size;
        [rewrite Z.add_0_r; now destruct t|rewrite u32_small by lia; done]. }
    rewrite Hsz in E. unfold Insert_at, set_slot, set_size in E. simpl in E.
    match type of E with _ = IndexReverse ?u _ _ => destruct (IndexReverse_slots u s now) as (Esl & Esz & Eto) end.
    split.
    + rewrite E. apply IndexReverse_inv; [done|now apply (slot_lt t _ _ Hi Hlk)|].
      simpl. rewrite list_lookup_total_insert_eq by now apply lookup_lt_Some in Hlk. done.
    + exists (slots_ t !!! s). rewrite E, Esl, Esz, Eto. done.
  - destruct E as (-> & -> & -> & Hall). split_and!; try done.
    intros s Hs. destruct (probe_surj _ s (start_range (Hash (nf_fwd_key flow))) Hs) as (j & Hj & <-).
    specialize (Hall j ltac:(lia)). now rewrite evictable_spec, negb_false_iff in Hall.
Qed.

(** A fresh or touched flow is current. *)
Lemma stored_current t flow now :
  0 <= timeout_ms_ t -> nf_reaped flow = false -> current t now (stored flow now) = true.
Proof.
  intros Ht Hr. apply current_spec. unfold Expired. simpl. rewrite Hr, Z.sub_diag. simpl.
  split; [done|]. apply Z.ltb_ge. done.
Qed.

Lemma touched_current t f now :
  0 <= timeout_ms_ t -> current t now f = true -> current t now (set_last_seen f now) = true.
Proof.
  intros Ht Hc%current_live. unfold live in Hc. bool_prop. apply current_spec. unfold Expired. simpl.
  rewrite H0, H1, Z.sub_diag. simpl. split; [done|]. apply Z.ltb_ge. done.
Qed.

(** ** The initial table *)

Lemma NatTable_new_inv timeout : 0 <= timeout -> NatInv (NatTable_new timeout).
Proof.
  intros Ht. unfold NatTable_new. split; simpl; try done; try apply length_replicate.
  - assert (Hf : forall n, List.filter live (replicate n NatFlow_init) = []) by (induction n; done).
    rewrite Hf. done.
  - intros s f Hs Ho. apply lookup_replicate in Hs as [-> _]. done.
  - intros s1 s2 f1 f2 H1 _ L1. apply lookup_replicate in H1 as [-> _]. done.
  - intros c p Hc Hp. apply lookup_replicate in Hc as [-> _]. done.
Qed.
End Facts.
