(* ===== verification/NatTableSpec.v ===== *)
(** * The connection table against its specification

    [view t now] is the map from forward keys to flows that a table stands for
    at time [now]: the flows neither closed nor timed out. Lookup, insertion and
    close refine the operations of that map. [nat_reach] are the tables the
    program can build, with the number of insertions made. *)

From S2P Require Import Prelude FlowKey NetTypes BackendPool NatTable NatTableFacts.

Section Spec.
Context `{BuildParams}.

Implicit Types (t : NatTable) (f g : NatFlow) (s i d c : nat).

Local Abbreviation cap := (Z.to_nat kCapacity).

(** A table as a map from the 16 bytes of a key to the flow. *)
Definition view_entry t (now : Z) f : option (list Z * NatFlow) :=
  if current t now f then Some (fk_bytes (nf_fwd_key f), f) else None.

Definition view t (now : Z) : gmap (list Z) NatFlow :=
  list_to_map (omap (view_entry t now) (slots_ t)).

Lemma view_entry_Some t now f k g :
  view_entry t now f = Some (k, g) <-> current t now f = true /\ k = fk_bytes (nf_fwd_key f) /\ g = f.
Proof.
  unfold view_entry. destruct (current t now f); [|intuition discriminate].
  split; [now intros [= <- <-]|now intros (_ & -> & ->)].
Qed.

Lemma view_lookup t now k f :
  NatInv t ->
  view t now !! k = Some f <->
  exists s, slots_ t !! s = Some f /\ current t now f = true /\ fk_bytes (nf_fwd_key f) = k.
Proof.
  intros Hi. unfold view. rewrite <- elem_of_list_to_map.
  - rewrite list_elem_of_omap. setoid_rewrite view_entry_Some. split.
    + intros (x & Hx & Hc & -> & ->). apply list_elem_of_lookup in Hx as [s Hs]. eauto.
    + intros (s & Hs & Hc & <-). exists f. split_and!; try done. eapply list_elem_of_lookup_2; eauto.
  - apply NoDup_omap_fst. intros i j x y k' v w Hx Hy Ex Ey.
    apply view_entry_Some in Ex as (Cx & -> & _). apply view_entry_Some in Ey as (Cy & Hk & _).
    eapply (inv_uniq t Hi); eauto using current_live.
Qed.

Lemma view_lookup_None t now k :
  NatInv t -> (forall s f, slots_ t !! s = Some f -> current t now f = true -> fk_bytes (nf_fwd_key f) <> k) ->
  view t now !! k = None.
Proof.
  intros Hi Hn. destruct (view t now !! k) as [f|] eqn:E; [|done].
  apply view_lookup in E as (s & Hs & Hc & Hk); [|done]. exfalso. by eapply Hn.
Qed.

(** Reaping does not change the map. *)
Lemma view_reap t t' now : NatInv t -> NatInv t' -> reap_rel now t t' -> view t' now = view t now.
Proof.
  intros Hi Hi' R. apply map_eq. intros k. apply option_eq. intros f.
  rewrite !view_lookup by done. split; intros (s & Hs & Hc & Hk).
  - destruct (reap_rel_current_back _ _ _ _ _ R Hs Hc). eauto.
  - apply current_spec in Hc as Hc'. destruct Hc' as [_ He].
    exists s. split_and!; try done; [eapply reap_rel_current; eauto|].
    unfold current in *. now rewrite (Expired_timeout t) by apply R.
Qed.

(** Writing a flow into a slot changes the map at its key only, when the slot's
    old flow is not current or has the same key. *)
Lemma view_set t t' now s f g :
  NatInv t -> NatInv t' -> slots_ t !! s = Some f -> slots_ t' = <[s := g]> (slots_ t) ->
  timeout_ms_ t' = timeout_ms_ t -> current t now g = true ->
  (current t now f = true -> fk_bytes (nf_fwd_key f) = fk_bytes (nf_fwd_key g)) ->
  view t' now = <[fk_bytes (nf_fwd_key g) := g]> (view t now).
Proof.
  intros Hi Hi' Hs Hsl Hto Hg Hf.
  assert (Hlt : (s < length (slots_ t))%nat) by now apply lookup_lt_Some in Hs.
  assert (Hcur : forall h, current t' now h = current t now h)
    by (intros h; unfold current; now rewrite (Expired_timeout t t')).
  assert (Hin : view t' now !! fk_bytes (nf_fwd_key g) = Some g).
  { apply view_lookup; [done|]. exists s. rewrite Hsl, list_lookup_insert_eq, Hcur by done. done. }
  apply map_eq. intros k. destruct (decide (fk_bytes (nf_fwd_key g) = k)) as [<-|Hne].
  { now rewrite lookup_insert_eq. }
  rewrite lookup_insert_ne by done. apply option_eq. intros h.
  rewrite !view_lookup by done. split; intros (j & Hj & Hc & Hk); exists j.
  - destruct (decide (j = s)) as [->|Hjs].
    + rewrite Hsl, list_lookup_insert_eq in Hj by done. injection Hj as <-. done.
    + rewrite Hsl, list_lookup_insert_ne in Hj by done. rewrite Hcur in Hc. done.
  - destruct (decide (j = s)) as [->|Hjs].
    + rewrite Hs in Hj. injection Hj as <-. specialize (Hf Hc). congruence.
    + rewrite Hsl, list_lookup_insert_ne, Hcur by done. done.
Qed.

Lemma LookupForward_view t key now r t' :
  NatInv t -> LookupForward t key now = (r, t') ->
  match r with
  | None => view t now !! fk_bytes key = None /\ view t' now = view t now
  | Some s => exists f, view t now !! fk_bytes key = Some f /\
      slots_ t' !! s = Some (set_last_seen f now) /\
      view t' now = <[fk_bytes key := set_last_seen f now]> (view t now)
  end.
Proof.
  intros Hi E. destruct (LookupForward_spec _ _ _ _ _ Hi E) as (t1 & R & Hi1 & Hi' & Hr).
  destruct r as [s|].
  - destruct Hr as (f & Hs1 & Hs & Hc & Hk & ->). exists f. split_and!.
    + apply view_lookup; eauto.
    + simpl. rewrite list_lookup_insert_eq; [done|]. now apply lookup_lt_Some in Hs1.
    + rewrite <- (view_reap t t1) by done. rewrite <- Hk.
      assert (Hc1 : current t1 now f = true) by (unfold current in *; now rewrite (Expired_timeout t) by apply R).
      apply (view_set t1 _ now s f (set_last_seen f now)); try done.
      apply touched_current; [apply (inv_timeout t1 Hi1)|done].
  - destruct Hr as [-> Hn]. split; [|now apply view_reap].
    rewrite <- (view_reap t t1) by done. apply view_lookup_None; [done|].
    intros s f Hs Hc. eauto using current_live.
Qed.

(** ** The reverse index over time *)

(** No flow has been seen after [now]. *)
Definition seen_le t (now : Z) : Prop :=
  forall s f, slots_ t !! s = Some f -> 0 <= nf_last_seen_ms f <= now.

Lemma current_mono t f now now' :
  0 <= nf_last_seen_ms f <= now -> now <= now' -> now' < 2 ^ 32 ->
  current t now' f = true -> current t now f = true.
Proof.
  intros Hl Hn Hb. rewrite !current_spec. unfold Expired. intros [Ho He]. rewrite Ho in *. simpl in *.
  split; [done|]. apply orb_false_iff in He as [Hr Ht]. rewrite Hr. simpl.
  apply Z.ltb_ge. apply Z.ltb_ge in Ht. rewrite u32_small in * by lia. lia.
Qed.

Lemma RevInv_later t now now' :
  seen_le t now -> now <= now' -> now' < 2 ^ 32 -> RevInv t now -> RevInv t now'.
Proof. intros Hs Hn Hb HR s f Hf Hc. apply HR; [done|]. eapply current_mono; eauto. Qed.

(** Updates of a slot that keep the reverse tuple keep the index complete. *)
Lemma RevInv_update t t' now :
  RevInv t now -> rev_ t' = rev_ t ->
  (forall s g, slots_ t' !! s = Some g -> current t' now g = true ->
     exists f, slots_ t !! s = Some f /\ current t now f = true /\ rev_tuple f = rev_tuple g) ->
  RevInv t' now.
Proof.
  intros HR Hrev Hback s g Hs Hc. destruct (Hback s g Hs Hc) as (f & Hf & Hcf & Hk).
  destruct (HR s f Hf Hcf) as (d & Hd & Hp & Hnz). exists d.
  assert (rev_start g = rev_start f) as ->
    by (unfold rev_start; unfold rev_tuple in Hk; injection Hk as -> -> -> ->; done).
  rewrite Hrev. done.
Qed.

Lemma RevInv_reap t t' now : reap_rel now t t' -> RevInv t now -> RevInv t' now.
Proof.
  intros R HR. eapply RevInv_update; eauto; [apply R|].
  intros s g Hs Hc. destruct (reap_rel_current_back _ _ _ _ _ R Hs Hc). eauto.
Qed.

(** A slot rewritten with the same tuple, from a current flow. *)
Lemma RevInv_set t s f g now :
  slots_ t !! s = Some f -> current t now f = true -> rev_tuple g = rev_tuple f ->
  RevInv t now -> RevInv (set_slot t s g) now.
Proof.
  intros Hs Hc Hk HR. eapply RevInv_update; eauto. intros j h Hj Hch. simpl in Hj.
  destruct (decide (j = s)) as [->|Hne].
  - rewrite list_lookup_insert_eq in Hj by (now apply lookup_lt_Some in Hs). injection Hj as <-. eauto.
  - rewrite list_lookup_insert_ne in Hj by done. eauto.
Qed.

(** Inserting with a free cell in the index keeps it complete. *)
Lemma RevInv_index t s now c :
  NatInv t -> (s < cap)%nat -> (c < cap)%nat -> rev_free t now c ->
  (forall j f, j <> s -> slots_ t !! j = Some f -> current t now f = true ->
     exists d, (d < cap)%nat /\ rev_ t !!! probe (rev_start f) d = Z.of_nat j + 1 /\
       forall i, (i < d)%nat -> rev_ t !!! probe (rev_start f) i <> 0) ->
  RevInv (IndexReverse t s now) now.
Proof.
  intros Hi Hs Hc Hfree Hothers. unfold IndexReverse. set (st := rev_start (slots_ t !!! s)).
  pose proof kCapacity_bounds as Hb.
  destruct (IndexReverse_loop_cases cap 0 st s now t) as [[_ Hnone]|(d & Hd & -> & Hf & Hbefore)].
  { exfalso. destruct (probe_surj st c (start_range _) Hc) as (j & Hj & <-).
    by apply (Hnone j); [lia|]. }
  rewrite u32_small by lia.
  assert (Hcell : forall e, rev_ (set_rev t (probe st d) (Z.of_nat s + 1)) !!! e =
    if decide (e = probe st d) then Z.of_nat s + 1 else rev_ t !!! e).
  { intros e. simpl. case_decide as He; [subst; apply list_lookup_total_insert_eq; rewrite (inv_rlen t Hi); apply probe_lt|].
    now rewrite list_lookup_total_insert_ne. }
  intros j f Hj Hcur. change (slots_ t !! j = Some f) in Hj.
  destruct (decide (j = s)) as [->|Hne].
  - assert (rev_start f = st) as ->.
    { unfold st. now rewrite (slot_total _ _ _ Hj). }
    exists d. split; [lia|]. rewrite Hcell, decide_True by done. split; [done|].
    intros i Hid. rewrite Hcell. case_decide; [lia|].
    intros Hz. apply (Hbefore i); [lia|]. by left.
  - destruct (Hothers j f Hne Hj Hcur) as (e & He & Hp & Hnz). exists e. split; [done|].
    rewrite Hcell. case_decide as Heq.
    + exfalso. rewrite Heq in Hp. unfold rev_free in Hf. rewrite Hp in Hf.
      replace (Z.to_nat (Z.of_nat j + 1 - 1)) with j in Hf by lia.
      rewrite (slot_total _ _ _ Hj) in Hf. apply current_spec in Hcur as [Ho Hx].
      change (Expired t f now = false) in Hx. destruct Hf as [?|[?|?]]; [lia|congruence..].
    + split; [done|]. intros i Hie. rewrite Hcell. case_decide; [lia|auto].
Qed.

Lemma Insert_RevInv t flow now r port idx t' :
  NatInv t -> nf_reaped flow = false ->
  (forall s f, slots_ t !! s = Some f -> live f = true ->
     fk_bytes (nf_fwd_key f) <> fk_bytes (nf_fwd_key flow)) ->
  Insert t flow now = (r, port, idx, t') ->
  RevInv t now -> 0 ∈ rev_ t -> RevInv t' now.
Proof.
  intros Hi Hr Hnew E HR Hz. destruct (Insert_spec _ _ _ _ _ _ _ Hi Hr Hnew E) as (Hi' & Hcase).
  destruct r as [s|]; [|now destruct Hcase as (-> & _)].
  destruct Hcase as (v & Hv & Hnc & Hsl & Hsz & Hto & _ & _ & Et).
  apply list_elem_of_lookup in Hz as [c Hc].
  assert (Hi2 : NatInv (mkNatTable (<[s := stored flow now]> (slots_ t)) (rev_ t) (size_ t') (timeout_ms_ t))).
  { (* the table just before the index is updated *)
    destruct Hi' as [L RL T S Ch U Rv]. rewrite Hsl in *. split; simpl; try done.
    - apply (inv_rlen t Hi).
    - now rewrite <- Hto.
    - intros c0 p Hc0 Hp. destruct (inv_rev t Hi c0 p Hc0 Hp) as [Hr0 Ho]. split; [done|].
      destruct (decide (Z.to_nat (p - 1) = s)) as [->|].
      + rewrite list_lookup_total_insert_eq by now apply lookup_lt_Some in Hv. done.
      + now rewrite list_lookup_total_insert_ne. }
  rewrite Hsz in Hi2. rewrite Et.
  apply (RevInv_index _ s now c Hi2).
  - now apply (slot_lt t s v Hi).
  - simpl in *. rewrite <- (inv_rlen t Hi). now apply lookup_lt_Some in Hc.
  - left. simpl. now apply list_lookup_total_correct.
  - intros j f Hne Hj Hcur. simpl in Hj. rewrite list_lookup_insert_ne in Hj by done.
    destruct (HR j f Hj) as (d & Hd & Hp & Hnz); [|by exists d].
    unfold current in *. exact Hcur.
Qed.

(** ** The tables the program builds *)

(** Number of cells of the reverse index never written. *)
Definition rev_zeros t : nat := length (List.filter (Z.eqb 0) (rev_ t)).

(** [nat_reach n now t]: [t] is reached at time [now], after [n] calls of
    [Insert], by the calls [LbNode] makes: lookups, [Insert] of a flow whose key
    was just looked up in vain, [Close] of a live flow, and writes of [fin_seen]. *)
Inductive nat_reach : nat -> Z -> NatTable -> Prop :=
  | reach_new timeout now : 0 <= timeout -> 0 <= now < 2 ^ 32 ->
      nat_reach 0 now (NatTable_new timeout)
  | reach_later n now now' t : nat_reach n now t -> now <= now' -> now' < 2 ^ 32 ->
      nat_reach n now' t
  | reach_forward n now t key r t' : nat_reach n now t ->
      LookupForward t key now = (r, t') -> nat_reach n now t'
  | reach_reverse n now t ip port snat proto r t' : nat_reach n now t ->
      LookupReverse t ip port snat proto now = (r, t') -> nat_reach n now t'
  | reach_insert n now t flow t1 r port idx t' : nat_reach n now t ->
      LookupForward t (nf_fwd_key flow) now = (None, t1) -> nf_reaped flow = false ->
      Insert t1 flow now = (r, port, idx, t') -> nat_reach (S n) now t'
  | reach_close n now t s f t' port idx : nat_reach n now t ->
      slots_ t !! s = Some f -> live f = true -> Close t s = (t', port, idx) ->
      nat_reach n now t'
  | reach_fin n now t s f fin : nat_reach n now t ->
      slots_ t !! s = Some f -> live f = true -> nat_reach n now (set_slot t s (set_fin_seen f fin)).

Lemma reach_NatInv n now t : nat_reach n now t -> NatInv t.
Proof.
  induction 1 as [|n now now' t _ IH|n now t key r t' _ IH E|n now t ip port snat proto r t' _ IH E
    |n now t flow t1 r port idx t' _ IH El Hr E|n now t s f t' port idx _ IH Hs Hl E|n now t s f fin _ IH Hs Hl];
    auto using NatTable_new_inv.
  - destruct (LookupForward_spec _ _ _ _ _ IH E) as (? & ? & ? & ? & ?). done.
  - destruct (LookupReverse_spec _ _ _ _ _ _ _ _ IH E) as (? & ? & ? & ? & ?). done.
  - destruct (LookupForward_spec _ _ _ _ _ IH El) as (t2 & _ & _ & Hi1 & -> & Hn).
    eapply Insert_spec; eauto.
  - eapply Close_spec; eauto.
  - eapply set_slot_inv; eauto.
Qed.

Lemma seen_le_reap t t' now : reap_rel now t t' -> seen_le t now -> seen_le t' now.
Proof.
  intros R Hse s f Hs. destruct (lookup_lt_is_Some_2 (slots_ t) s) as [g Hg].
  { rewrite <- (rr_len _ _ _ R). now apply lookup_lt_Some in Hs. }
  destruct (rr_slots _ _ _ R s g Hg) as [E|(_ & _ & E)]; rewrite E in Hs; injection Hs as <-; simpl; eauto.
Qed.

Lemma seen_le_set (l : list NatFlow) t s g now :
  seen_le t now -> l = <[s := g]> (slots_ t) -> 0 <= nf_last_seen_ms g <= now ->
  forall j f, l !! j = Some f -> 0 <= nf_last_seen_ms f <= now.
Proof.
  intros Hse -> Hg j f Hj. destruct (decide (j = s)) as [->|Hne].
  - apply list_lookup_insert_Some in Hj as [(_ & <- & _)|(? & _)]; done.
  - rewrite list_lookup_insert_ne in Hj by done. eauto.
Qed.

Lemma IndexReverse_zeros t s now :
  (rev_zeros t <= S (rev_zeros (IndexReverse t s now)))%nat.
Proof.
  unfold IndexReverse.
  destruct (IndexReverse_loop_cases cap 0 (rev_start (slots_ t !!! s)) s now t)
    as [[-> _]|(d & _ & -> & _)]; [lia|]. unfold rev_zeros, set_rev. simpl.
  set (c := probe _ _). destruct (rev_ t !! c) as [p|] eqn:Hc.
  - pose proof (filter_insert_length (Z.eqb 0) (rev_ t) c p (Z.of_nat s ⊞ 1) Hc). repeat case_match; lia.
  - rewrite list_insert_ge; [lia|]. now apply lookup_ge_None.
Qed.

Lemma rev_zeros_pos t : (0 < rev_zeros t)%nat -> 0 ∈ rev_ t.
Proof.
  unfold rev_zeros. intros Hz. destruct (List.filter (Z.eqb 0) (rev_ t)) as [|z l] eqn:E; [simpl in Hz; lia|].
  assert (In z (List.filter (Z.eqb 0) (rev_ t))) as Hin by (rewrite E; now left).
  apply List.filter_In in Hin as [Hin Hz0]. apply Z.eqb_eq in Hz0. subst. now apply list_elem_of_In.
Qed.

(** What holds of a reachable table besides [NatInv]; the index is complete as
    long as no more than [kCapacity] insertions were made. *)
Record reach_facts (n : nat) (now : Z) t : Prop := {
  rf_now : 0 <= now < 2 ^ 32;
  rf_seen : seen_le t now;
  rf_zeros : (cap <= rev_zeros t + n)%nat;
  rf_rev : (n <= cap)%nat -> RevInv t now;
}.

Lemma facts_new timeout now : 0 <= now < 2 ^ 32 -> reach_facts 0 now (NatTable_new timeout).
Proof.
  intros Hn. split; [done|..].
  - intros s f Hs. simpl in Hs. apply lookup_replicate in Hs as [-> _]. simpl. lia.
  - unfold rev_zeros. simpl.
    assert (Hf : forall m, length (List.filter (Z.eqb 0) (replicate m 0)) = m) by (induction m; simpl; auto).
    rewrite Hf. lia.
  - intros _ s f Hs Hc. simpl in Hs. apply lookup_replicate in Hs as [-> _]. done.
Qed.

(** A lookup: reaping, then possibly the touch of a current flow. *)
Lemma facts_lookup n now t t1 t' :
  reach_facts n now t -> reap_rel now t t1 ->
  t' = t1 \/ (exists s f, slots_ t1 !! s = Some f /\ current t1 now f = true /\
                t' = set_slot t1 s (set_last_seen f now)) ->
  reach_facts n now t'.
Proof.
  intros [Hn Hse Hz HR] R Hcase.
  assert (Hf1 : reach_facts n now t1).
  { split; [done|eapply seen_le_reap; eauto| |intros; eapply RevInv_reap; eauto].
    unfold rev_zeros in *. now rewrite (rr_rev _ _ _ R). }
  destruct Hcase as [->|(s & f & Hs & Hc & ->)]; [done|]. destruct Hf1 as [_ Hse1 Hz1 HR1].
  split; [done| |done|].
  - intros j g Hj. eapply (seen_le_set _ t1 s (set_last_seen f now) now Hse1 eq_refl); simpl; [lia|exact Hj].
  - intros Hle. apply (RevInv_set t1 s f); auto.
Qed.

Lemma facts_insert n now t1 flow r port idx t' :
  NatInv t1 -> nf_reaped flow = false ->
  (forall s f, slots_ t1 !! s = Some f -> live f = true ->
     fk_bytes (nf_fwd_key f) <> fk_bytes (nf_fwd_key flow)) ->
  reach_facts n now t1 -> Insert t1 flow now = (r, port, idx, t') -> reach_facts (S n) now t'.
Proof.
  intros Hi Hr Hnew [Hn Hse Hz HR] E.
  pose proof (Insert_spec _ _ _ _ _ _ _ Hi Hr Hnew E) as [Hi' Hcase].
  split; [done|..].
  - destruct r as [s|]; [|now destruct Hcase as (-> & _)].
    destruct Hcase as (v & Hv & _ & Hsl & _). intros j g Hj.
    eapply (seen_le_set _ t1 s (stored flow now) now Hse Hsl); simpl; [lia|exact Hj].
  - destruct r as [s|]; [|destruct Hcase as (-> & _); lia].
    destruct Hcase as (v & _ & _ & _ & _ & _ & _ & _ & ->).
    match goal with |- context [IndexReverse ?u s now] => pose proof (IndexReverse_zeros u s now) as Hz1 end.
    unfold rev_zeros in *. simpl in *. lia.
  - intros Hle. apply (Insert_RevInv t1 flow now r port idx t'); try done.
    + apply HR. lia.
    + apply rev_zeros_pos. lia.
Qed.

(** Dropping or relabelling a live flow: the slot keeps its tuple or stops being current. *)
Lemma facts_relabel n now t s f g m :
  reach_facts n now t -> slots_ t !! s = Some f ->
  nf_last_seen_ms g = nf_last_seen_ms f ->
  (current t now g = true -> current t now f = true /\ rev_tuple f = rev_tuple g) ->
  reach_facts n now (mkNatTable (<[s := g]> (slots_ t)) (rev_ t) m (timeout_ms_ t)).
Proof.
  intros [Hn Hse Hz HR] Hs Hl Hg. split; [done| |done|].
  - intros j h Hj. eapply (seen_le_set _ t s g now Hse eq_refl); [rewrite Hl; eauto|exact Hj].
  - intros Hle. eapply RevInv_update; eauto. intros j h Hj Hc. simpl in Hj.
    change (current t now h = true) in Hc. destruct (decide (j = s)) as [->|Hne].
    + rewrite list_lookup_insert_eq in Hj by (now apply lookup_lt_Some in Hs). injection Hj as <-.
      destruct (Hg Hc). eauto.
    + rewrite list_lookup_insert_ne in Hj by done. eauto.
Qed.

Lemma reach_reach_facts n now t : nat_reach n now t -> reach_facts n now t.
Proof.
  induction 1 as [|n now now' t Hr IH|n now t key r t' Hr IH E|n now t ip port snat proto r t' Hr IH E
    |n now t flow t1 r port idx t' Hr IH El Hfr E|n now t s f t' port idx Hr IH Hs Hl E|n now t s f fin Hr IH Hs Hl].
  - now apply facts_new.
  - destruct IH as [Hn Hse Hz HR]. split; try done; [lia| |].
    + intros s f Hs. specialize (Hse s f Hs). lia.
    + intros Hle. eapply RevInv_later; eauto.
  - apply reach_NatInv in Hr. destruct (LookupForward_spec _ _ _ _ _ Hr E) as (t1 & R & Hi1 & _ & Hc).
    eapply facts_lookup; eauto. destruct r as [s|]; [|left; apply Hc].
    right. destruct Hc as (f & Hs1 & Hs & Hcur & _ & ->). exists s, f. split_and!; try done.
    unfold current in *. now rewrite (Expired_timeout t) by apply R.
  - apply reach_NatInv in Hr. destruct (LookupReverse_spec _ _ _ _ _ _ _ _ Hr E) as (t1 & R & Hi1 & _ & Hc).
    eapply facts_lookup; eauto. destruct r as [s|]; [|left; apply Hc].
    right. destruct Hc as (f & Hs1 & Hs & Hcur & _ & ->). exists s, f. split_and!; try done.
    unfold current in *. now rewrite (Expired_timeout t) by apply R.
  - apply reach_NatInv in Hr. destruct (LookupForward_spec _ _ _ _ _ Hr El) as (t2 & R & _ & Hi1 & -> & Hnew).
    eapply facts_insert; eauto. eapply facts_lookup; eauto.
  - pose proof (reach_NatInv _ _ _ Hr) as Hi. destruct (Close_spec _ _ _ _ _ _ Hi Hs Hl E) as (_ & _ & _ & ->).
    eapply facts_relabel; eauto. intros Hc%current_live. unfold live in Hc. simpl in Hc.
    now rewrite andb_false_r in Hc.
  - unfold set_slot. eapply facts_relabel; eauto.
Qed.

Lemma Close_view t s f t' port idx now :
  NatInv t -> slots_ t !! s = Some f -> live f = true -> Close t s = (t', port, idx) ->
  view t' now = delete (fk_bytes (nf_fwd_key f)) (view t now).
Proof.
  intros Hi Hs Hl E. destruct (Close_spec _ _ _ _ _ _ Hi Hs Hl E) as (Hi' & _ & _ & ->).
  assert (Hlt : (s < length (slots_ t))%nat) by now apply lookup_lt_Some in Hs.
  apply map_eq. intros k. apply option_eq. intros g. rewrite lookup_delete_Some, !view_lookup by done.
  simpl. split.
  - intros (j & Hj & Hc & Hk). destruct (decide (j = s)) as [->|Hne].
    + rewrite list_lookup_insert_eq in Hj by done. injection Hj as <-.
      apply current_live in Hc. unfold live in Hc. simpl in Hc. now rewrite andb_false_r in Hc.
    + rewrite list_lookup_insert_ne in Hj by done. split; [|eauto].
      intros Hk'. apply Hne. eapply (inv_uniq t Hi); eauto using current_live. congruence.
  - intros (Hk' & j & Hj & Hc & Hk). exists j. split_and!; try done.
    rewrite list_lookup_insert_ne; [done|]. intros ->. rewrite Hs in Hj. injection Hj as <-. done.
Qed.

(** A map entry is a slot: a full table has as many entries as slots. *)
Lemma view_full t now :
  NatInv t -> (forall s, (s < cap)%nat -> current t now (slots_ t !!! s) = true) ->
  size (view t now) = cap.
Proof.
  intros Hi Hall. unfold view. rewrite map_size_list_to_map.
  - rewrite length_omap_all; [apply (inv_len t Hi)|].
    intros f Hf. apply list_elem_of_lookup in Hf as [s Hs].
    specialize (Hall s (slot_lt t s f Hi Hs)). rewrite (slot_total _ _ _ Hs) in Hall.
    unfold view_entry. rewrite Hall. eauto.
  - apply NoDup_omap_fst. intros i j x y k' v w Hx Hy Ex Ey.
    apply view_entry_Some in Ex as (Cx & -> & _). apply view_entry_Some in Ey as (Cy & Hk & _).
    eapply (inv_uniq t Hi); eauto using current_live.
Qed.

(** ** Properties *)

(** C16: in every reachable table [Size()] is the number of flows in use (stored
    and neither closed nor reaped), between 0 and the capacity, and no two of
    those flows have the same key. *)
Theorem nat_size_honest n now t :
  nat_reach n now t ->
  Size t = Z.of_nat (length (List.filter live (slots_ t))) /\ 0 <= Size t <= kCapacity /\
  forall s1 s2 f1 f2, slots_ t !! s1 = Some f1 -> slots_ t !! s2 = Some f2 ->
    live f1 = true -> live f2 = true -> nf_fwd_key f1 = nf_fwd_key f2 -> s1 = s2.
Proof.
  intros Hi%reach_NatInv. split; [apply (inv_size t Hi)|]. split; [now apply size_nonneg|].
  intros s1 s2 f1 f2 H1 H2 L1 L2 Hk. eapply (inv_uniq t Hi); eauto. now rewrite Hk.
Qed.

(** Every slot number [LookupReverse] and [IndexReverse] follow is in range
    and designates a used slot: no access of [slots_] through [rev_] is out of
    bounds in a reachable table. *)
Theorem nat_rev_in_bounds n now t c ptr :
  nat_reach n now t -> rev_ t !! c = Some ptr -> ptr <> 0 ->
  1 <= ptr <= kCapacity /\
  exists f, slots_ t !! Z.to_nat (ptr - 1) = Some f /\ nf_occupied f = true.
Proof.
  intros Hi%reach_NatInv Hc Hp. destruct (inv_rev t Hi c ptr Hc Hp) as [Hr Ho].
  split; [done|]. eexists. split; [apply slot_lookup; [done|lia]|done].
Qed.

(** C7: [LookupForward] is the lookup of the abstract connection map: it
    returns a flow exactly when the map has one for the key, that flow with its
    time stamp renewed is what the table then holds, and nothing else of the map
    changes although expired flows met on the way are reaped. *)
Theorem LookupForward_refines_map n now t key r t' :
  nat_reach n now t -> LookupForward t key now = (r, t') ->
  match r with
  | None => view t now !! fk_bytes key = None /\ view t' now = view t now
  | Some s => exists f, view t now !! fk_bytes key = Some f /\
      slots_ t' !! s = Some (set_last_seen f now) /\
      view t' now = <[fk_bytes key := set_last_seen f now]> (view t now)
  end.
Proof. intros Hi%reach_NatInv. now apply LookupForward_view. Qed.

(** C8: [Insert], called as [CreateFlow] does after a failed lookup, adds the
    flow to the abstract map and changes nothing else of it; it fails only when
    the map already has [kCapacity] entries, and then changes nothing. *)
Theorem Insert_refines_map n now t flow t1 r port idx t' :
  nat_reach n now t -> nf_reaped flow = false ->
  LookupForward t (nf_fwd_key flow) now = (None, t1) -> Insert t1 flow now = (r, port, idx, t') ->
  match r with
  | Some s => slots_ t' !! s = Some (stored flow now) /\
      view t' now = <[fk_bytes (nf_fwd_key flow) := stored flow now]> (view t now)
  | None => view t' now = view t now /\ size (view t now) = cap
  end.
Proof.
  intros Hi%reach_NatInv Hr El E.
  destruct (LookupForward_view _ _ _ _ _ Hi El) as [_ Hv].
  destruct (LookupForward_spec _ _ _ _ _ Hi El) as (t2 & R & _ & Hi1 & -> & Hnew).
  destruct (Insert_spec _ _ _ _ _ _ _ Hi1 Hr Hnew E) as [Hi' Hcase]. rewrite <- Hv.
  destruct r as [s|].
  - destruct Hcase as (v & Hs & Hnc & Hsl & _ & Hto & _). split.
    + rewrite Hsl, list_lookup_insert_eq; [done|]. now apply lookup_lt_Some in Hs.
    + apply (view_set t2 t' now s v (stored flow now)); try done.
      * apply stored_current; [apply (inv_timeout t2 Hi1)|done].
      * rewrite Hnc. done.
  - destruct Hcase as (-> & _ & _ & Hall). split; [done|]. now apply view_full.
Qed.

(** C9: [Close] of a flow in use removes its key from the abstract map, at any
    time, and hands back the flow's port and backend. *)
Theorem Close_refines_map n now t s f t' port idx at_ms :
  nat_reach n now t -> slots_ t !! s = Some f -> live f = true -> Close t s = (t', port, idx) ->
  view t' at_ms = delete (fk_bytes (nf_fwd_key f)) (view t at_ms) /\
  port = nf_snat_port f /\ idx = nf_backend_idx f /\ Size t' = Size t - 1 /\
  Close t' s = (t', 0, 0).
Proof.
  intros Hi%reach_NatInv Hs Hl E. split; [eapply Close_view; eauto|].
  destruct (Close_spec _ _ _ _ _ _ Hi Hs Hl E) as (_ & -> & -> & ->). split_and!; try done.
  unfold Close. simpl.
  rewrite list_lookup_total_insert_eq by now apply lookup_lt_Some in Hs. simpl.
  now rewrite orb_true_r.
Qed.

(** C10: as long as at most [kCapacity] insertions were made, [LookupReverse]
    finds every current flow by its reverse tuple; a flow it returns is current
    and has the tuple asked for. *)
Theorem LookupReverse_complete n now t ip port snat proto r t' :
  nat_reach n now t -> (n <= cap)%nat ->
  LookupReverse t ip port snat proto now = (r, t') ->
  match r with
  | None => forall s f, slots_ t !! s = Some f -> current t now f = true ->
      rev_tuple f <> (ip, port, snat, proto)
  | Some s => exists f, slots_ t !! s = Some f /\ current t now f = true /\
      rev_tuple f = (ip, port, snat, proto) /\ slots_ t' !! s = Some (set_last_seen f now)
  end.
Proof.
  intros Hre Hle E. pose proof (rf_rev _ _ _ (reach_reach_facts _ _ _ Hre) Hle) as HR.
  destruct (LookupReverse_spec _ _ _ _ _ _ _ _ (reach_NatInv _ _ _ Hre) E) as (t1 & R & _ & _ & Hr).
  destruct r as [s|]; [|now apply Hr].
  destruct Hr as (f & Hs1 & Hs & Hc & Hk & ->). exists f. split_and!; try done.
  simpl. rewrite list_lookup_insert_eq; [done|]. now apply lookup_lt_Some in Hs1.
Qed.

(** The 32-bit millisecond clock wraps: a flow in use that has timed out
    is taken for a fresh one again 2^32 ms after it was last seen. *)
Theorem expired_flow_revives t f :
  live f = true -> 0 <= timeout_ms_ t < 2 ^ 32 - 1 ->
  Expired t f (u32 (nf_last_seen_ms f + timeout_ms_ t + 1)) = true /\
  Expired t f (u32 (nf_last_seen_ms f + 2 ^ 32)) = false.
Proof.
  unfold live. intros Hl Ht. bool_prop. unfold Expired. rewrite H0, H1. simpl.
  unfold u32. rewrite !Zminus_mod_idemp_l.
  replace (nf_last_seen_ms f + timeout_ms_ t + 1 - nf_last_seen_ms f) with (timeout_ms_ t + 1) by lia.
  replace (nf_last_seen_ms f + 2 ^ 32 - nf_last_seen_ms f) with (2 ^ 32) by lia.
  rewrite Z.mod_small, Z.mod_same by lia. split; [apply Z.ltb_lt|apply Z.ltb_ge]; lia.
Qed.

End Spec.

(** ** Runs on a table of four slots *)

Module NatSamples.

#[local] Existing Instance BackendPool.test_build.

(** A TCP flow from client port [cport], translated to port [snat]. *)
Definition sample_flow (cport snat : Z) : NatFlow :=
  mkNatFlow (flow_key 3232235525 167772161 cport 80 6) MacAddr_zero 167772417 MacAddr_zero
    8080 snat 1 0 0 false false.

Definition insert1 (t : NatTable) (f : NatFlow) (now : Z) : NatTable :=
  (Insert (LookupForward t (nf_fwd_key f) now).2 f now).2.

(** Look a flow's key up and close the flow found. *)
Definition close1 (t : NatTable) (f : NatFlow) (now : Z) : NatTable :=
  match LookupForward t (nf_fwd_key f) now with
  | (Some s, t') => (Close t' s).1.1
  | (None, t') => t'
  end.

Definition t0 : NatTable := NatTable_new 1000.

Definition f1 : NatFlow := sample_flow 40000 50000.

Definition t1 : NatTable := insert1 t0 f1 1000.

Lemma insert1_reach n now t f :
  nat_reach n now t -> (LookupForward t (nf_fwd_key f) now).1 = None -> nf_reaped f = false ->
  nat_reach (S n) now (insert1 t f now).
Proof.
  intros Hre Hl Hr. unfold insert1.
  destruct (LookupForward t (nf_fwd_key f) now) as [r t'] eqn:E. simpl in *. subst r.
  destruct (Insert t' f now) as [[[r port] idx] t''] eqn:Ei. simpl. eapply reach_insert; eauto.
Qed.

Lemma close1_reach n now t f : nat_reach n now t -> nat_reach n now (close1 t f now).
Proof.
  intros Hre. unfold close1.
  destruct (LookupForward t (nf_fwd_key f) now) as [[s|] t'] eqn:E; [|eapply reach_forward; eauto].
  pose proof (reach_forward _ _ _ _ _ _ Hre E) as Hre'.
  destruct (LookupForward_spec _ _ _ _ _ (reach_NatInv _ _ _ Hre) E) as (t1' & _ & Hi1 & _ & g & Hs1 & _ & Hc & _ & ->).
  destruct (Close (set_slot t1' s (set_last_seen g now)) s) as [[t'' port] idx] eqn:Ec. simpl.
  apply current_live in Hc. eapply (reach_close _ _ _ _ (set_last_seen g now)); [exact Hre'| |exact Hc|exact Ec].
  simpl. rewrite list_lookup_insert_eq; [done|]. now apply lookup_lt_Some in Hs1.
Qed.

Lemma t0_reach : nat_reach 0 1000 t0.
Proof. apply reach_new; lia. Qed.

Lemma t1_reach : nat_reach 1 1000 t1.
Proof. apply insert1_reach; [apply t0_reach|reflexivity|reflexivity]. Qed.

(** Three connections of one client port opened and closed, a fourth left open,
    then one from another client port. *)
Definition reused : NatTable :=
  let step t k := close1 (insert1 t (sample_flow 40000 k) 1000) (sample_flow 40000 k) 1000 in
  insert1 (step (step (step t0 50000) 50001) 50002) (sample_flow 40000 50003) 1000.

Lemma reused_reach : nat_reach 4 1000 reused.
Proof.
  unfold reused. repeat (apply insert1_reach; [|reflexivity|reflexivity]; try apply close1_reach).
  apply t0_reach.
Qed.

End NatSamples.

Import NatSamples.

Lemma nat_size_honest_witness :
  Size t1 = Z.of_nat (length (List.filter live (slots_ t1))) /\ 0 <= Size t1 <= @kCapacity test_build /\
  forall s1 s2 f1 f2, slots_ t1 !! s1 = Some f1 -> slots_ t1 !! s2 = Some f2 ->
    live f1 = true -> live f2 = true -> nf_fwd_key f1 = nf_fwd_key f2 -> s1 = s2.
Proof. apply (@nat_size_honest test_build 1 1000 t1). apply t1_reach. Defined.

Lemma nat_rev_in_bounds_witness :
  1 <= 2 <= @kCapacity test_build /\
  exists f, slots_ t1 !! Z.to_nat (2 - 1) = Some f /\ nf_occupied f = true.
Proof. apply (@nat_rev_in_bounds test_build 1 1000 t1 3 2); [apply t1_reach|reflexivity|lia]. Defined.

Lemma LookupForward_refines_map_witness :
  exists f, view t1 1500 !! fk_bytes (nf_fwd_key f1) = Some f /\
    slots_ (@LookupForward test_build t1 (nf_fwd_key f1) 1500).2 !! 1%nat = Some (set_last_seen f 1500) /\
    view (@LookupForward test_build t1 (nf_fwd_key f1) 1500).2 1500 =
      <[fk_bytes (nf_fwd_key f1) := set_last_seen f 1500]> (view t1 1500).
Proof.
  apply (@LookupForward_refines_map test_build 1 1500 t1 (nf_fwd_key f1) (Some 1%nat)).
  - eapply reach_later; [apply t1_reach|lia|lia].
  - vm_compute. reflexivity.
Defined.

Lemma Insert_refines_map_witness :
  slots_ t1 !! 1%nat = Some (stored f1 1000) /\
  view t1 1000 = <[fk_bytes (nf_fwd_key f1) := stored f1 1000]> (view t0 1000).
Proof.
  apply (@Insert_refines_map test_build 0 1000 t0 f1 t0 (Some 1%nat) 0 0 t1).
  - apply t0_reach.
  - reflexivity.
  - vm_compute. reflexivity.
  - vm_compute. reflexivity.
Defined.

Lemma Close_refines_map_witness :
  view (Close t1 1).1.1 9 =
    delete (fk_bytes (nf_fwd_key (stored f1 1000))) (view t1 9) /\
  50000 = nf_snat_port (stored f1 1000) /\ 1 = nf_backend_idx (stored f1 1000) /\
  Size (Close t1 1).1.1 = Size t1 - 1 /\
  Close (Close t1 1).1.1 1 = ((Close t1 1).1.1, 0, 0).
Proof.
  apply (@Close_refines_map test_build 1 1000 t1 1 (stored f1 1000)).
  - apply t1_reach.
  - vm_compute. reflexivity.
  - reflexivity.
  - vm_compute. reflexivity.
Defined.

Lemma LookupReverse_complete_witness :
  exists f, slots_ t1 !! 1%nat = Some f /\ current t1 1500 f = true /\
    rev_tuple f = (167772417, 8080, 50000, 6) /\
    slots_ (@LookupReverse test_build t1 167772417 8080 50000 6 1500).2 !! 1%nat = Some (set_last_seen f 1500).
Proof.
  apply (@LookupReverse_complete test_build 1 1500 t1 167772417 8080 50000 6 (Some 1%nat)).
  - eapply reach_later; [apply t1_reach|lia|lia].
  - vm_compute. lia.
  - vm_compute. reflexivity.
Defined.

Lemma expired_flow_revives_witness :
  Expired t0 (stored f1 1000) (u32 (nf_last_seen_ms (stored f1 1000) + timeout_ms_ t0 + 1)) = true /\
  Expired t0 (stored f1 1000) (u32 (nf_last_seen_ms (stored f1 1000) + 2 ^ 32)) = false.
Proof. apply (expired_flow_revives t0 (stored f1 1000)); [reflexivity|simpl; lia]. Defined.

(** Entries of the reverse index are never removed when a slot is reused,
    so they run out: on a table of four slots, after four connections from one
    client port (three of them closed), [Insert] stores a fifth connection while
    two slots are free, but the flow is not in the index: [LookupForward] finds
    it and [LookupReverse] does not. *)
Theorem reverse_index_exhausted :
  exists n now t flow s t',
    @nat_reach test_build n now t /\ @kCapacity test_build = 4 /\ Size t' = 2 /\
    @Insert test_build t flow now = (Some s, 0, 0, t') /\
    (@LookupForward test_build t' (nf_fwd_key flow) now).1 = Some s /\
    (@LookupReverse test_build t' (nf_backend_ip flow) (nf_backend_port flow) (nf_snat_port flow)
       (fk_proto (nf_fwd_key flow)) now).1 = None.
Proof.
  exists 4%nat, 1000, reused, (sample_flow 40001 60000), 0%nat,
    (@Insert test_build reused (sample_flow 40001 60000) 1000).2.
  split; [apply reused_reach|]. repeat split; vm_compute; reflexivity.
Qed.
