(* ===== verification/Ipc.v ===== *)
(** * Shared-memory layouts ([libs/ipc]: [shm_header.hpp], [lcore_stats.hpp],
    the records of [control_view.hpp]) *)

From S2P Require Import Prelude NetTypes.

Definition kMaxLcores : nat := 32.

Definition kMaxBackends : nat := 64.

(** ** [ShmHeader] *)

Definition kShmMagic : Z := 1128616514.

Definition kShmVersion : Z := 1.

Record ShmHeader := mkShmHeader { magic : Z; version : Z }.

Definition InitShmHeader (header : ShmHeader) : ShmHeader := mkShmHeader kShmMagic kShmVersion.

Definition CheckShmHeader (header : ShmHeader) : bool :=
  (magic header =? kShmMagic) && (version header =? kShmVersion).

(** ** [LcoreStats]: [std::atomic<uint64_t>] counters of one lcore *)

Record LcoreStats := mkLcoreStats {
  rx_packets : Z;
  tx_packets : Z;
  dropped : Z;
  new_flows : Z;
  active_flows : Z;
  backend_flows : list Z;
}.

Definition LcoreStats_zero : LcoreStats := mkLcoreStats 0 0 0 0 0 (replicate kMaxBackends 0).

Record StatsView := mkStatsView { sv_header : ShmHeader; lcores : list LcoreStats }.

(** [fetch_add] on each counter. *)

Definition add_rx (s : LcoreStats) (n : Z) : LcoreStats :=
  mkLcoreStats (u64 (rx_packets s + n)) (tx_packets s) (dropped s) (new_flows s) (active_flows s) (backend_flows s).

Definition add_tx (s : LcoreStats) (n : Z) : LcoreStats :=
  mkLcoreStats (rx_packets s) (u64 (tx_packets s + n)) (dropped s) (new_flows s) (active_flows s) (backend_flows s).

Definition add_dropped (s : LcoreStats) (n : Z) : LcoreStats :=
  mkLcoreStats (rx_packets s) (tx_packets s) (u64 (dropped s + n)) (new_flows s) (active_flows s) (backend_flows s).

Definition add_new_flows (s : LcoreStats) (n : Z) : LcoreStats :=
  mkLcoreStats (rx_packets s) (tx_packets s) (dropped s) (u64 (new_flows s + n)) (active_flows s) (backend_flows s).

Definition store_active (s : LcoreStats) (n : Z) : LcoreStats :=
  mkLcoreStats (rx_packets s) (tx_packets s) (dropped s) (new_flows s) n (backend_flows s).

Definition add_backend_flows (s : LcoreStats) (i : nat) (n : Z) : outcome LcoreStats :=
  let! x := at_ (backend_flows s) i in
  Ret (mkLcoreStats (rx_packets s) (tx_packets s) (dropped s) (new_flows s) (active_flows s)
         (<[i := u64 (x + n)]> (backend_flows s))).

(** ** [ControlView]: the backend set, published under a sequence lock *)

Record ControlBackend := mkControlBackend {
  cb_ip : Z;
  cb_port : Z;
  cb_mac : list Z;
  cb_enabled : Z;
}.

Definition ControlBackend_zero : ControlBackend := mkControlBackend 0 0 (replicate 6 0) 0.

#[export] Instance ControlBackend_inhabited : Inhabited ControlBackend := populate ControlBackend_zero.

Record ControlView := mkControlView {
  cv_header : ShmHeader;
  cv_seq : Z;
  cv_count : Z;
  cv_backends : list ControlBackend;
}.

(** ** Sizes and offsets

    A [CacheAligned] counter is aligned to, and so fills, a cache line; the header of
    [StatsView] is padded to one. A [ControlBackend] ends at byte 13 and is aligned to
    4; the members of [ControlView] follow each other without padding. *)

Definition kCacheLineSize : Z := 64.

Definition sizeof_CacheAligned : Z := kCacheLineSize.

Definition kPlainCounters : Z := 5.

Definition sizeof_LcoreStats : Z := (kPlainCounters + Z.of_nat kMaxBackends) * sizeof_CacheAligned.

Definition sizeof_StatsView : Z := kCacheLineSize + Z.of_nat kMaxLcores * sizeof_LcoreStats.

Definition sizeof_ControlBackend : Z := 16.

Definition sizeof_ControlView : Z := 8 + 4 + 4 + Z.of_nat kMaxBackends * sizeof_ControlBackend.

(** The counter [k] of lcore [i]: the five plain ones, then those of the backends. *)
Definition counter_offset (i k : Z) : Z := kCacheLineSize + i * sizeof_LcoreStats + k * sizeof_CacheAligned.

(** Counters of different lcores, or different counters of one, are in different
    cache lines, and all lie in the segment. *)
Theorem counters_own_cache_lines i k j l :
  0 <= i < Z.of_nat kMaxLcores -> 0 <= j < Z.of_nat kMaxLcores ->
  0 <= k < kPlainCounters + Z.of_nat kMaxBackends -> 0 <= l < kPlainCounters + Z.of_nat kMaxBackends ->
  counter_offset i k + sizeof_CacheAligned <= sizeof_StatsView /\ counter_offset i k mod kCacheLineSize = 0 /\
  (counter_offset i k / kCacheLineSize = counter_offset j l / kCacheLineSize -> i = j /\ k = l).
Proof.
  intros Hi Hj Hk Hl. unfold kPlainCounters, kMaxLcores, kMaxBackends in *.
  assert (E : forall a b, counter_offset a b = (1 + a * 69 + b) * kCacheLineSize)
    by (intros a b; unfold counter_offset, sizeof_LcoreStats, sizeof_CacheAligned, kCacheLineSize, kPlainCounters, kMaxBackends; lia).
  rewrite !E. unfold kCacheLineSize. rewrite Z.mod_mul, !Z.div_mul by lia.
  unfold sizeof_StatsView, sizeof_LcoreStats, sizeof_CacheAligned, kCacheLineSize, kPlainCounters, kMaxBackends, kMaxLcores.
  split; [lia|]. split; [done|]. lia.
Qed.
