(* ===== verification/PacketMeta.v ===== *)
(** * Per-packet metadata ([dataplane/include/graph/packet_meta.hpp]) *)

From S2P Require Import Prelude NetTypes.

Inductive Direction := kForward | kReverse.

#[export] Instance Direction_eq_dec : EqDecision Direction.
Proof. solve_decision. Defined.

Record PacketMeta := mkPacketMeta {
  m_src_ip : Z;
  m_dst_ip : Z;
  m_src_port : Z;
  m_dst_port : Z;
  m_proto : Z;
  m_dir : Direction;
  m_backend_ip : IPv4Addr;
  m_backend_mac : MacAddr;
  m_backend_port : Z;
  m_snat_port : Z;
  m_client_ip : IPv4Addr;
  m_client_mac : MacAddr;
  m_client_port : Z;
  m_tcp_flags : Z;
}.

(** [PacketMeta{src_ip, dst_ip, src_port, dst_port, proto, dir}]: the other
    members keep their initialisers. *)
Definition packet_meta (src_ip dst_ip src_port dst_port proto : Z) (dir : Direction) : PacketMeta :=
  mkPacketMeta src_ip dst_ip src_port dst_port proto dir
    (mkIPv4Addr 0) MacAddr_zero 0 0 (mkIPv4Addr 0) MacAddr_zero 0 0.

(** The assignments of [HandlePacket] for a forward and a reverse packet. *)

Definition set_backend (m : PacketMeta) (ip : IPv4Addr) (mac : MacAddr) (port snat : Z) : PacketMeta :=
  mkPacketMeta (m_src_ip m) (m_dst_ip m) (m_src_port m) (m_dst_port m) (m_proto m) (m_dir m)
    ip mac port snat (m_client_ip m) (m_client_mac m) (m_client_port m) (m_tcp_flags m).

Definition set_client (m : PacketMeta) (ip : IPv4Addr) (port : Z) (mac : MacAddr) : PacketMeta :=
  mkPacketMeta (m_src_ip m) (m_dst_ip m) (m_src_port m) (m_dst_port m) (m_proto m) (m_dir m)
    (m_backend_ip m) (m_backend_mac m) (m_backend_port m) (m_snat_port m)
    ip mac port (m_tcp_flags m).

(** The assignments of [ClassifyIpv4] after the aggregate. *)

Definition set_flags (m : PacketMeta) (flags : Z) : PacketMeta :=
  mkPacketMeta (m_src_ip m) (m_dst_ip m) (m_src_port m) (m_dst_port m) (m_proto m) (m_dir m)
    (m_backend_ip m) (m_backend_mac m) (m_backend_port m) (m_snat_port m)
    (m_client_ip m) (m_client_mac m) (m_client_port m) flags.

Definition set_client_mac (m : PacketMeta) (mac : MacAddr) : PacketMeta :=
  mkPacketMeta (m_src_ip m) (m_dst_ip m) (m_src_port m) (m_dst_port m) (m_proto m) (m_dir m)
    (m_backend_ip m) (m_backend_mac m) (m_backend_port m) (m_snat_port m)
    (m_client_ip m) mac (m_client_port m) (m_tcp_flags m).

Definition set_dir (m : PacketMeta) (dir : Direction) : PacketMeta :=
  mkPacketMeta (m_src_ip m) (m_dst_ip m) (m_src_port m) (m_dst_port m) (m_proto m) dir
    (m_backend_ip m) (m_backend_mac m) (m_backend_port m) (m_snat_port m)
    (m_client_ip m) (m_client_mac m) (m_client_port m) (m_tcp_flags m).

(** The fields a packet brings are in the range of their C++ types. *)
Definition meta_wf (m : PacketMeta) : Prop :=
  0 <= m_src_ip m < 2 ^ 32 /\ 0 <= m_dst_ip m < 2 ^ 32 /\ 0 <= m_src_port m < 2 ^ 16 /\
  0 <= m_dst_port m < 2 ^ 16 /\ 0 <= m_proto m < 2 ^ 8 /\ 0 <= m_tcp_flags m < 2 ^ 8 /\ MacAddr_wf (m_client_mac m).
