(* ===== verification/LbNode.v ===== *)
(** * The load-balancing node ([nodes/lb_node.hpp], [lb_node.cpp])

    The state one worker owns: the connection table, one port pool per backend
    slot, and its counters. [HandlePacket] and the functions it calls are
    translated whole; a pointer to a flow is its slot number. *)

From S2P Require Import Prelude FlowKey NetTypes PortPool BackendPool NatTable Ipc PacketMeta.

Record LbNode := mkLbNode {
  nat_ : NatTable;
  port_pools_ : list PortPool;
  stats_ : LcoreStats;
}.

Definition kMsPerSec : Z := 1000.

Definition kProtoTcp : Z := 6.

Definition kTcpFin : Z := 1.

Definition kTcpSyn : Z := 2.

Definition kTcpRst : Z := 4.

Definition kFinForward : Z := 1.

Definition kFinReverse : Z := 2.

Definition set_nat (lb : LbNode) (t : NatTable) : LbNode := mkLbNode t (port_pools_ lb) (stats_ lb).

Definition set_pools (lb : LbNode) (p : list PortPool) : LbNode := mkLbNode (nat_ lb) p (stats_ lb).

Definition set_stats (lb : LbNode) (s : LcoreStats) : LbNode := mkLbNode (nat_ lb) (port_pools_ lb) s.

(** [port_pools_[i].Release(port)]. *)
Definition release_port (lb : LbNode) (i port : Z) : outcome LbNode :=
  let! pool := at_ (port_pools_ lb) (Z.to_nat i) in
  Ret (set_pools lb (<[Z.to_nat i := Release pool port]> (port_pools_ lb))).

(** [NowMs]: the timer's cycles and frequency are DPDK's. *)
Definition NowMs (timer_cycles timer_hz : Z) : outcome Z :=
  if timer_hz / kMsPerSec =? 0 then Undef
  else Ret (u32 (timer_cycles / (timer_hz / kMsPerSec))).

Section LbNode.
Context `{BuildParams}.

(** The constructor: a pool [ForWorker(worker_id, n_workers)] per backend slot. *)
Definition LbNode_new (fuel : nat) (cfg : Config) (stats : LcoreStats) (worker_id n_workers : Z)
  : outcome LbNode :=
  let! pool := ForWorker fuel worker_id n_workers kEphemeralLow kEphemeralHigh in
  Ret (mkLbNode (NatTable_new (conntrack_timeout_ms cfg)) (replicate kMaxBackends pool) stats).

(** [MaybeTeardown(slots_[s], dir, tcp_flags)]. *)
Definition MaybeTeardown (lb : LbNode) (s : nat) (dir : Direction) (tcp_flags : Z) : outcome LbNode :=
  let close := negb (Z.land tcp_flags kTcpRst =? 0) in
  let flow := slots_ (nat_ lb) !!! s in
  let '(lb, close) :=
    if negb (Z.land tcp_flags kTcpFin =? 0) then
      let fin := Z.lor (nf_fin_seen flow) (match dir with kForward => kFinForward | kReverse => kFinReverse end) in
      (set_nat lb (set_slot (nat_ lb) s (set_fin_seen flow fin)),
       close || (fin =? Z.lor kFinForward kFinReverse))
    else (lb, close) in
  if negb close then Ret lb
  else
    let '(t, released_port, backend_idx) := Close (nat_ lb) s in
    let lb := set_nat lb t in
    if negb (released_port =? 0) then release_port lb backend_idx released_port else Ret lb.

(** [CreateFlow(meta, key, pool, now_ms)]. *)
Definition CreateFlow (lb : LbNode) (meta : PacketMeta) (key : FlowKey) (pool : BackendPool) (now_ms : Z)
  : outcome (option nat * LbNode) :=
  let! backend_idx := Select pool key in
  let! backend := At pool backend_idx in
  let! ports := at_ (port_pools_ lb) (Z.to_nat backend_idx) in
  let '(snat_port, ports) := Acquire ports in
  let lb := set_pools lb (<[Z.to_nat backend_idx := ports]> (port_pools_ lb)) in
  if snat_port =? 0 then Ret (None, lb)
  else
    let flow := mkNatFlow key (m_client_mac meta) (value (be_ip backend)) (be_mac backend)
                  (be_port backend) snat_port backend_idx 0 0 false false in
    let '(inserted, evicted_port, evicted_idx, t) := Insert (nat_ lb) flow now_ms in
    let lb := set_nat lb t in
    let! lb := if negb (evicted_port =? 0) then release_port lb evicted_idx evicted_port else Ret lb in
    match inserted with
    | None =>
        let! lb := release_port lb backend_idx snat_port in
        Ret (None, lb)
    | Some s =>
        let! stats := add_backend_flows (add_new_flows (stats_ lb) 1) (Z.to_nat backend_idx) 1 in
        Ret (Some s, set_stats lb stats)
    end.

(** The forward half of [HandlePacket] once a flow is at hand. *)
Definition forward_flow (lb : LbNode) (s : nat) (meta : PacketMeta) : outcome (bool * PacketMeta * LbNode) :=
  let flow := slots_ (nat_ lb) !!! s in
  let meta := set_backend meta (mkIPv4Addr (nf_backend_ip flow)) (nf_backend_mac flow)
                (nf_backend_port flow) (nf_snat_port flow) in
  let! lb := MaybeTeardown lb s (m_dir meta) (m_tcp_flags meta) in
  Ret (true, meta, lb).

(** [HandlePacket(meta, pool, now_ms)]: whether the packet goes on to the DNAT
    node, its metadata, the node's state. *)
Definition HandlePacket (lb : LbNode) (meta : PacketMeta) (pool : BackendPool) (now_ms : Z)
  : outcome (bool * PacketMeta * LbNode) :=
  match m_dir meta with
  | kForward =>
      let key := flow_key (m_src_ip meta) (m_dst_ip meta) (m_src_port meta) (m_dst_port meta) (m_proto meta) in
      let '(found, t) := LookupForward (nat_ lb) key now_ms in
      let lb := set_nat lb t in
      match found with
      | Some s => forward_flow lb s meta
      | None =>
          if (m_proto meta =? kProtoTcp) && (Z.land (m_tcp_flags meta) kTcpSyn =? 0)
          then Ret (false, meta, lb)
          else
            let! created := CreateFlow lb meta key pool now_ms in
            match created with
            | (None, lb) => Ret (false, meta, lb)
            | (Some s, lb) => forward_flow lb s meta
            end
      end
  | kReverse =>
      let '(found, t) := LookupReverse (nat_ lb) (m_src_ip meta) (m_src_port meta)
                           (m_dst_port meta) (m_proto meta) now_ms in
      let lb := set_nat lb t in
      match found with
      | None => Ret (false, meta, lb)
      | Some s =>
          let flow := slots_ (nat_ lb) !!! s in
          let meta := set_client meta (mkIPv4Addr (fk_src_ip (nf_fwd_key flow)))
                        (fk_src_port (nf_fwd_key flow)) (nf_client_mac flow) in
          let! lb := MaybeTeardown lb s (m_dir meta) (m_tcp_flags meta) in
          Ret (true, meta, lb)
      end
  end.

End LbNode.
