(* ===== verification/LbFacts.v ===== *)
(** * The load-balancing node: port ownership, and what each call does

    [LbInv ports lb]: every port of [ports] is, for each backend slot, either
    free in that slot's pool or held by exactly one slot of the connection table.
    Every call keeps it, and none of them is undefined. *)

From S2P Require Import Prelude FlowKey NetTypes PortPool BackendPool NatTable NatTableFacts NatTableSpec Ipc.
From S2P Require Import PacketMeta LbNode.

Section Facts.
Context `{BuildParams}.

Implicit Types (t : NatTable) (f g : NatFlow) (s b : nat) (lb : LbNode).

(** ** Ports held by flows *)

Definition held_port b f : option Z :=
  if nf_occupied f && (nf_backend_idx f =? Z.of_nat b) && negb (nf_snat_port f =? 0)
  then Some (nf_snat_port f) else None.

Definition held b t : list Z := omap (held_port b) (slots_ t).

(** The addresses kept for Ethernet are whole. *)
Definition flow_macs f : Prop := MacAddr_wf (nf_client_mac f) /\ MacAddr_wf (nf_backend_mac f).

Record LbInv (ports : list Z) lb : Prop := {
  li_nat : NatInv (nat_ lb);
  li_pools : length (port_pools_ lb) = kMaxBackends;
  li_stats : length (backend_flows (stats_ lb)) = kMaxBackends;
  li_idx : forall s f, slots_ (nat_ lb) !! s = Some f -> nf_occupied f = true ->
    0 <= nf_backend_idx f < Z.of_nat kMaxBackends;
  li_live : forall s f, slots_ (nat_ lb) !! s = Some f -> live f = true -> nf_snat_port f <> 0;
  li_macs : forall s f, slots_ (nat_ lb) !! s = Some f -> flow_macs f;
  li_ports : forall b pool, port_pools_ lb !! b = Some pool -> free_ pool ++ held b (nat_ lb) ≡ₚ ports;
}.

(** [g] is [f] but for the time stamp, the FIN bits and a later mark. *)
Definition same_flow f g : Prop :=
  nf_fwd_key g = nf_fwd_key f /\ nf_client_mac g = nf_client_mac f /\
  nf_backend_ip g = nf_backend_ip f /\ nf_backend_mac g = nf_backend_mac f /\
  nf_backend_port g = nf_backend_port f /\ nf_snat_port g = nf_snat_port f /\
  nf_backend_idx g = nf_backend_idx f /\ nf_occupied g = nf_occupied f /\
  (live g = true -> live f = true).

Definition same_flows t t' : Prop := Forall2 same_flow (slots_ t) (slots_ t').

Instance same_flow_refl : Reflexive same_flow.
Proof. intros f. repeat split; auto. Qed.

Instance same_flow_trans : Transitive same_flow.
Proof.
  intros f g h (?&?&?&?&?&?&?&?&?) (?&?&?&?&?&?&?&?&?). repeat split; try congruence. auto.
Qed.

Lemma same_flows_trans t1 t2 t3 : same_flows t1 t2 -> same_flows t2 t3 -> same_flows t1 t3.
Proof. unfold same_flows. intros H1 H2. now rewrite H1. Qed.

Lemma same_flows_refl t : same_flows t t.
Proof. unfold same_flows. reflexivity. Qed.

Lemma same_flows_reap now t t' : reap_rel now t t' -> same_flows t t'.
Proof.
  intros R. apply Forall2_same_length_lookup_2; [symmetry; apply R|].
  intros s f g Hf Hg. destruct (rr_slots _ _ _ R s f Hf) as [E|(Ho & _ & E)]; rewrite E in Hg;
    injection Hg as <-; [reflexivity|].
  repeat split; simpl; auto. unfold live. simpl. now rewrite andb_false_r.
Qed.

Lemma same_flows_set t s f g : slots_ t !! s = Some f -> same_flow f g -> same_flows t (set_slot t s g).
Proof.
  intros Hs Hg. unfold same_flows. simpl.
  rewrite <- (list_insert_id (slots_ t) s f Hs) at 1.
  apply Forall2_insert; [apply same_flows_refl|done].
Qed.

Lemma same_flow_held b f g : same_flow f g -> held_port b f = held_port b g.
Proof. intros (_&_&_&_&_&Es&Ei&Eo&_). unfold held_port. now rewrite Es, Ei, Eo. Qed.

Lemma same_flows_held b t t' : same_flows t t' -> held b t' = held b t.
Proof.
  intros Hs. symmetry. apply omap_Forall2. eapply Forall2_impl; [exact Hs|].
  intros f g. apply same_flow_held.
Qed.

Lemma same_flows_back t t' s g :
  same_flows t t' -> slots_ t' !! s = Some g -> exists f, slots_ t !! s = Some f /\ same_flow f g.
Proof. intros Hs Hg. destruct (Forall2_lookup_r _ _ _ _ _ Hs Hg) as (f & ? & ?). eauto. Qed.

Lemma LbInv_same_flows ports lb t' :
  LbInv ports lb -> NatInv t' -> same_flows (nat_ lb) t' -> LbInv ports (set_nat lb t').
Proof.
  intros [Hn Hp Hst Hi Hl Hm Hc] Hn' Hs. split; simpl; try done.
  - intros s g Hg Ho. destruct (same_flows_back _ _ _ _ Hs Hg) as (f & Hf & (_&_&_&_&_&_&Ei&Eo&_)).
    rewrite Ei. apply (Hi s f Hf). congruence.
  - intros s g Hg Hlv. destruct (same_flows_back _ _ _ _ Hs Hg) as (f & Hf & (_&_&_&_&_&Es&_&_&El)).
    rewrite Es. eauto.
  - intros s g Hg. destruct (same_flows_back _ _ _ _ Hs Hg) as (f & Hf & (_&Em&_&Eb&_)).
    unfold flow_macs. rewrite Em, Eb. eapply Hm. eauto.
  - intros b pool Hb. rewrite (same_flows_held b _ _ Hs). auto.
Qed.

(** Ports move between one slot and the pools. *)
Lemma held_update ports b t s f g free free' l' :
  slots_ t !! s = Some f -> l' = <[s := g]> (slots_ t) ->
  free ++ omap (held_port b) (slots_ t) ≡ₚ ports ->
  free ++ option_list (held_port b f) ≡ₚ free' ++ option_list (held_port b g) ->
  free' ++ omap (held_port b) l' ≡ₚ ports.
Proof.
  intros Hs -> Hp Hmove. destruct (omap_insert_split (held_port b) (slots_ t) s f Hs) as (rest & E1 & E2).
  rewrite E2, app_assoc, <- Hmove, <- app_assoc, <- E1. done.
Qed.

Lemma held_port_idx f :
  nf_occupied f = true -> 0 <= nf_backend_idx f ->
  (nf_snat_port f <> 0 -> held_port (Z.to_nat (nf_backend_idx f)) f = Some (nf_snat_port f)) /\
  (forall b, b <> Z.to_nat (nf_backend_idx f) -> held_port b f = None) /\
  (nf_snat_port f = 0 -> forall b, held_port b f = None).
Proof.
  intros Ho Hi. unfold held_port. rewrite Ho. simpl. split_and!.
  - intros Hz. rewrite Z2Nat.id, Z.eqb_refl by done. destruct (Z.eqb_spec (nf_snat_port f) 0); done.
  - intros b Hb. destruct (Z.eqb_spec (nf_backend_idx f) (Z.of_nat b)); [lia|done].
  - intros -> b. now rewrite andb_false_r.
Qed.

Lemma held_port_free f b : nf_occupied f = false -> held_port b f = None.
Proof. intros Ho. unfold held_port. now rewrite Ho. Qed.

(** ** [MaybeTeardown] *)

(** Whether [tcp_flags] close the flow: an RST, or the second FIN. *)
Definition fin_bit (dir : Direction) : Z := match dir with kForward => kFinForward | kReverse => kFinReverse end.

Definition closes f (dir : Direction) (flags : Z) : bool :=
  negb (Z.land flags kTcpRst =? 0) ||
  (negb (Z.land flags kTcpFin =? 0) && (Z.lor (nf_fin_seen f) (fin_bit dir) =? 3)).

Lemma release_port_ok lb i port :
  length (port_pools_ lb) = kMaxBackends -> 0 <= i < Z.of_nat kMaxBackends ->
  exists pool, port_pools_ lb !! Z.to_nat i = Some pool /\
    release_port lb i port = Ret (set_pools lb (<[Z.to_nat i := Release pool port]> (port_pools_ lb))).
Proof.
  intros Hl Hi. destruct (lookup_lt_is_Some_2 (port_pools_ lb) (Z.to_nat i)) as [pool Hp]; [lia|].
  exists pool. split; [done|]. unfold release_port, at_. now rewrite Hp.
Qed.

(** Closing a flow in use: its port goes back to the pool of its backend. *)
Lemma LbInv_close ports lb s f t port idx :
  LbInv ports lb -> slots_ (nat_ lb) !! s = Some f -> live f = true ->
  Close (nat_ lb) s = (t, port, idx) ->
  exists pool, port_pools_ lb !! Z.to_nat idx = Some pool /\ port <> 0 /\
    release_port (set_nat lb t) idx port =
      Ret (mkLbNode t (<[Z.to_nat idx := Release pool port]> (port_pools_ lb)) (stats_ lb)) /\
    LbInv ports (mkLbNode t (<[Z.to_nat idx := Release pool port]> (port_pools_ lb)) (stats_ lb)).
Proof.
  intros Hinv Hs Hl E. pose proof Hinv as [Hn Hp Hst Hi Hlv Hmac Hc].
  destruct (Close_spec _ _ _ _ _ _ Hn Hs Hl E) as (Hn' & -> & -> & ->).
  assert (Ho : nf_occupied f = true) by (unfold live in Hl; bool_prop; done).
  pose proof (Hi s f Hs Ho) as Hr. pose proof (Hlv s f Hs Hl) as Hz.
  destruct (held_port_idx f Ho ltac:(lia)) as (Hh & Hother & _).
  match goal with |- context [set_nat lb ?t'] => set (t1 := t') in * end.
  destruct (release_port_ok (set_nat lb t1) (nf_backend_idx f) (nf_snat_port f)) as (pool & Hpool & Er); [done..|].
  exists pool. split_and!; try done.
  assert (Hlt : (s < length (slots_ (nat_ lb)))%nat) by now apply lookup_lt_Some in Hs.
  split; simpl; try done.
  - now rewrite length_insert.
  - intros j g Hj Hog. destruct (decide (j = s)) as [->|Hne].
    + rewrite list_lookup_insert_eq in Hj by done. injection Hj as <-. simpl. lia.
    + rewrite list_lookup_insert_ne in Hj by done. eauto.
  - intros j g Hj Hlg. destruct (decide (j = s)) as [->|Hne].
    + rewrite list_lookup_insert_eq in Hj by done. injection Hj as <-.
      unfold live in Hlg. simpl in Hlg. now rewrite andb_false_r in Hlg.
    + rewrite list_lookup_insert_ne in Hj by done. eauto.
  - intros j g Hj. destruct (decide (j = s)) as [->|Hne].
    + rewrite list_lookup_insert_eq in Hj by done. injection Hj as <-. exact (Hmac s f Hs).
    + rewrite list_lookup_insert_ne in Hj by done. eauto.
  - intros b pool' Hb. simpl in Hpool.
    destruct (decide (b = Z.to_nat (nf_backend_idx f))) as [->|Hne].
    + rewrite list_lookup_insert_eq in Hb by (now apply lookup_lt_Some in Hpool). injection Hb as <-.
      eapply (held_update ports _ (nat_ lb) s f); [done|done|apply Hc, Hpool|].
      rewrite (Hh Hz). simpl. unfold held_port at 1. simpl. rewrite andb_false_r. simpl.
      rewrite app_nil_r. done.
    + rewrite list_lookup_insert_ne in Hb by done.
      eapply (held_update ports _ (nat_ lb) s f); [done|done|apply Hc, Hb|].
      rewrite (Hother b Hne). unfold held_port at 1. simpl. rewrite andb_false_r. done.
Qed.

(** The flow after the FIN bit of this segment is recorded. *)
Definition fin_recorded f (dir : Direction) (flags : Z) : NatFlow :=
  if negb (Z.land flags kTcpFin =? 0) then set_fin_seen f (Z.lor (nf_fin_seen f) (fin_bit dir)) else f.

Lemma fin_recorded_same f dir flags : same_flow f (fin_recorded f dir flags).
Proof. unfold fin_recorded. case_match; [repeat split; auto|reflexivity]. Qed.

Lemma fin_recorded_live f dir flags : live (fin_recorded f dir flags) = live f.
Proof. unfold fin_recorded. now case_match. Qed.

(** The two outcomes of [MaybeTeardown]. *)
Inductive torn lb s f (dir : Direction) (flags : Z) : LbNode -> Prop :=
  | torn_open : closes f dir flags = false ->
      torn lb s f dir flags (set_nat lb (set_slot (nat_ lb) s (fin_recorded f dir flags)))
  | torn_closed t pool : closes f dir flags = true ->
      Close (set_slot (nat_ lb) s (fin_recorded f dir flags)) s = (t, nf_snat_port f, nf_backend_idx f) ->
      port_pools_ lb !! Z.to_nat (nf_backend_idx f) = Some pool ->
      torn lb s f dir flags
        (mkLbNode t (<[Z.to_nat (nf_backend_idx f) := Release pool (nf_snat_port f)]> (port_pools_ lb)) (stats_ lb)).

Lemma MaybeTeardown_unfold lb s f dir flags :
  slots_ (nat_ lb) !! s = Some f ->
  MaybeTeardown lb s dir flags =
    let lb1 := set_nat lb (set_slot (nat_ lb) s (fin_recorded f dir flags)) in
    if closes f dir flags then
      let '(t, port, idx) := Close (nat_ lb1) s in
      if negb (port =? 0) then release_port (set_nat lb1 t) idx port else Ret (set_nat lb1 t)
    else Ret lb1.
Proof.
  intros Hs. unfold MaybeTeardown, closes, fin_recorded, fin_bit. rewrite (slot_total _ _ _ Hs).
  destruct (Z.land flags kTcpFin =? 0); simpl.
  - rewrite orb_false_r.
    assert (E : set_slot (nat_ lb) s f = nat_ lb).
    { destruct (nat_ lb) as [sl rv sz to]. unfold set_slot. simpl in *. now rewrite list_insert_id. }
    rewrite E. replace (set_nat lb (nat_ lb)) with lb by now destruct lb.
    now destruct (Z.land flags kTcpRst =? 0).
  - destruct (Z.land flags kTcpRst =? 0); simpl.
    + change (Z.lor kFinForward kFinReverse) with 3. now destruct (_ =? 3).
    + reflexivity.
Qed.

Lemma MaybeTeardown_spec ports lb s f dir flags :
  LbInv ports lb -> slots_ (nat_ lb) !! s = Some f -> live f = true ->
  exists lb', MaybeTeardown lb s dir flags = Ret lb' /\ torn lb s f dir flags lb' /\ LbInv ports lb' /\
    forall n now, nat_reach n now (nat_ lb) -> nat_reach n now (nat_ lb').
Proof.
  intros Hinv Hs Hl. rewrite (MaybeTeardown_unfold lb s f) by done. simpl.
  set (g := fin_recorded f dir flags). set (t1 := set_slot (nat_ lb) s g).
  assert (Hsame : same_flow f g) by apply fin_recorded_same.
  assert (Hlg : live g = true) by (unfold g; now rewrite fin_recorded_live).
  assert (Hs1 : slots_ t1 !! s = Some g).
  { apply list_lookup_insert_eq. now apply lookup_lt_Some in Hs. }
  assert (Hr1 : forall n now, nat_reach n now (nat_ lb) -> nat_reach n now t1).
  { intros n now Hre. unfold t1, g, fin_recorded. case_match; [now apply reach_fin|].
    destruct (nat_ lb) as [sl rv sz to]. unfold set_slot; simpl in *. now rewrite list_insert_id. }
  assert (Hn1 : NatInv t1).
  { eapply set_slot_inv; [apply Hinv|exact Hs|..]; try apply Hsame.
    unfold g, fin_recorded. now case_match. }
  assert (Hinv1 : LbInv ports (set_nat lb t1)).
  { apply LbInv_same_flows; [done|done|]. now apply (same_flows_set _ _ f). }
  destruct (closes f dir flags) eqn:Hc.
  - destruct (Close t1 s) as [[t port] idx] eqn:Ec.
    destruct (Close_spec _ _ _ _ _ _ Hn1 Hs1 Hlg Ec) as (_ & -> & -> & _).
    destruct Hsame as (_&_&_&_&_&Es&Ei&_). rewrite Es, Ei in *.
    destruct (LbInv_close ports _ s g t _ _ Hinv1 Hs1 Hlg Ec) as (pool & Hp & Hz & Er & Hinv2).
    destruct (Z.eqb_spec (nf_snat_port f) 0); [done|]. simpl. simpl in Hp, Hinv2. rewrite Er. simpl. eexists. split; [done|].
    split_and!; [eapply torn_closed; eauto|done|].
    intros m now Hre. simpl. exact (reach_close m now t1 s g t _ _ (Hr1 _ _ Hre) Hs1 Hlg Ec).
  - eexists. split; [done|]. split_and!; [now apply torn_open|done|done].
Qed.

(** ** [CreateFlow] *)

(** The flow [CreateFlow] inserts. *)
Definition created_flow (meta : PacketMeta) (key : FlowKey) (b : BackendInfo) (port idx : Z) : NatFlow :=
  mkNatFlow key (m_client_mac meta) (value (be_ip b)) (be_mac b) (be_port b) port idx 0 0 false false.

(** Adding a flow with a port taken from its backend's pool. *)
(** The elements of a list with one replaced. *)
Lemma insert_cases {A} (l : list A) s x y j z :
  l !! s = Some y -> <[s := x]> l !! j = Some z -> z = x \/ l !! j = Some z.
Proof.
  intros Hs Hj. destruct (decide (j = s)) as [->|Hne].
  - rewrite list_lookup_insert_eq in Hj by (now apply lookup_lt_Some in Hs). left. now injection Hj.
  - rewrite list_lookup_insert_ne in Hj by done. now right.
Qed.

(** A flow is stored over [victim] with the last port of pool [idx]: the invariant holds
    for any pools that take the victim's port back. *)
Lemma LbInv_stored ports lb idx pool port rest flow now s victim t' pools2 :
  LbInv ports lb -> 0 <= idx < Z.of_nat kMaxBackends ->
  port_pools_ lb !! Z.to_nat idx = Some pool -> free_ pool = rest ++ [port] -> port <> 0 ->
  nf_snat_port flow = port -> nf_backend_idx flow = idx -> nf_reaped flow = false -> flow_macs flow ->
  slots_ (nat_ lb) !! s = Some victim -> NatInv t' ->
  slots_ t' = <[s := stored flow now]> (slots_ (nat_ lb)) ->
  length pools2 = kMaxBackends ->
  (forall b pool2, pools2 !! b = Some pool2 ->
     exists pool1, <[Z.to_nat idx := mkPortPool rest]> (port_pools_ lb) !! b = Some pool1 /\
       free_ pool2 ≡ₚ free_ pool1 ++ option_list (held_port b victim)) ->
  LbInv ports (mkLbNode t' pools2 (stats_ lb)).
Proof.
  intros [Hn Hp Hst Hi Hlv Hmac Hc] Hidx Hpool Hfree Hpz Hsn Hbi Hre Hfm Hs Hn' Hsl Hlen Hrel.
  assert (Hnew : nf_occupied (stored flow now) = true) by done.
  destruct (held_port_idx (stored flow now) Hnew) as (Hh & Hother & _); [simpl; lia|]. simpl in Hh, Hother.
  rewrite Hbi, Hsn in *. specialize (Hh Hpz).
  assert (Hip : (Z.to_nat idx < length (port_pools_ lb))%nat) by now apply lookup_lt_Some in Hpool.
  split; simpl; try done.
  - intros j g Hj Ho. rewrite Hsl in Hj. destruct (insert_cases _ _ _ _ _ _ Hs Hj) as [->|?]; [simpl; lia|eauto].
  - intros j g Hj Hl. rewrite Hsl in Hj. destruct (insert_cases _ _ _ _ _ _ Hs Hj) as [->|?]; [simpl; congruence|eauto].
  - intros j g Hj. rewrite Hsl in Hj. destruct (insert_cases _ _ _ _ _ _ Hs Hj) as [->|?]; [done|eauto].
  - intros b pool2 Hb. destruct (Hrel b pool2 Hb) as (pool1 & Hb1 & Hperm).
    destruct (decide (b = Z.to_nat idx)) as [->|Hne].
    + rewrite list_lookup_insert_eq in Hb1 by done. injection Hb1 as <-.
      eapply (held_update ports _ (nat_ lb) s victim); [done|exact Hsl|apply Hc, Hpool|].
      rewrite Hfree, Hh, Hperm. simpl. rewrite <- !app_assoc. apply Permutation_app_head, Permutation_app_comm.
    + rewrite list_lookup_insert_ne in Hb1 by done.
      eapply (held_update ports _ (nat_ lb) s victim); [done|exact Hsl|apply Hc, Hb1|].
      rewrite (Hother b Hne), Hperm. simpl. now rewrite app_nil_r.
Qed.

Lemma LbInv_insert ports lb idx pool port rest flow now s victim t' :
  LbInv ports lb -> 0 <= idx < Z.of_nat kMaxBackends ->
  port_pools_ lb !! Z.to_nat idx = Some pool -> free_ pool = rest ++ [port] -> port <> 0 ->
  nf_snat_port flow = port -> nf_backend_idx flow = idx -> nf_reaped flow = false -> flow_macs flow ->
  slots_ (nat_ lb) !! s = Some victim -> NatInv t' ->
  slots_ t' = <[s := stored flow now]> (slots_ (nat_ lb)) ->
  let pools1 := <[Z.to_nat idx := mkPortPool rest]> (port_pools_ lb) in
  let ep := if nf_occupied victim then nf_snat_port victim else 0 in
  exists pools2,
    (if negb (ep =? 0) then release_port (mkLbNode t' pools1 (stats_ lb)) (nf_backend_idx victim) ep
     else Ret (mkLbNode t' pools1 (stats_ lb))) = Ret (mkLbNode t' pools2 (stats_ lb)) /\
    LbInv ports (mkLbNode t' pools2 (stats_ lb)).
Proof.
  intros Hinv Hidx Hpool Hfree Hpz Hsn Hbi Hre Hfm Hs Hn' Hsl pools1 ep.
  assert (Hbuild : forall pools2, length pools2 = kMaxBackends ->
    (forall b pool2, pools2 !! b = Some pool2 -> exists pool1, pools1 !! b = Some pool1 /\
       free_ pool2 ≡ₚ free_ pool1 ++ option_list (held_port b victim)) ->
    LbInv ports (mkLbNode t' pools2 (stats_ lb))) by (intros pools2; eapply LbInv_stored; eauto).
  pose proof Hinv as [Hn Hp Hst Hi Hlv Hmac Hc].
  assert (Hlen1 : length pools1 = kMaxBackends) by (unfold pools1; now rewrite length_insert).
  destruct (nf_occupied victim) eqn:Ho; cycle 1.
  { exists pools1. split; [done|]. apply Hbuild; [done|]. intros b pool2 Hb. exists pool2.
    rewrite held_port_free by done. simpl. now rewrite app_nil_r. }
  pose proof (Hi s victim Hs Ho) as Hvi. destruct (held_port_idx victim Ho ltac:(lia)) as (Vh & Vother & Vz).
  unfold ep. destruct (Z.eqb_spec (nf_snat_port victim) 0) as [Hz|Hz]; simpl.
  - exists pools1. split; [done|]. apply Hbuild; [done|]. intros b pool2 Hb. exists pool2.
    rewrite Vz by done. simpl. now rewrite app_nil_r.
  - destruct (release_port_ok (mkLbNode t' pools1 (stats_ lb)) (nf_backend_idx victim) (nf_snat_port victim))
      as (vp & Hvp & ->); [done|lia|]. simpl in Hvp. eexists. split; [done|].
    apply Hbuild; [simpl; now rewrite length_insert|]. simpl. intros b pool2 Hb.
    destruct (decide (b = Z.to_nat (nf_backend_idx victim))) as [->|Hne].
    + rewrite list_lookup_insert_eq in Hb by (now apply lookup_lt_Some in Hvp). injection Hb as <-.
      exists vp. split; [done|]. now rewrite (Vh Hz).
    + rewrite list_lookup_insert_ne in Hb by done. exists pool2. split; [done|].
      rewrite Vother by done. simpl. now rewrite app_nil_r.
Qed.

Lemma LbInv_stats ports lb st :
  LbInv ports lb -> length (backend_flows st) = kMaxBackends -> LbInv ports (set_stats lb st).
Proof. intros [] Hl. split; done. Qed.

Lemma count_new_flow st idx :
  length (backend_flows st) = kMaxBackends -> (idx < kMaxBackends)%nat ->
  exists st', add_backend_flows (add_new_flows st 1) idx 1 = Ret st' /\
    length (backend_flows st') = kMaxBackends /\ new_flows st' = u64 (new_flows st + 1).
Proof.
  intros Hl Hi. unfold add_backend_flows. simpl.
  destruct (lookup_lt_is_Some_2 (backend_flows st) idx) as [x Hx]; [lia|].
  unfold at_. rewrite Hx. simpl. eexists. split; [done|]. simpl. now rewrite length_insert.
Qed.

(** The pools [Process] hands on: at least one backend is enabled. *)
Definition usable (pool : BackendPool) : Prop :=
  BackendPool_wf pool /\ (length (bp_slots pool) <= kMaxBackends)%nat /\ bp_active pool <> [] /\
  Forall (fun b : BackendInfo => MacAddr_wf (be_mac b)) (bp_slots pool).

(** What a successful [CreateFlow] has done: a flow to an active backend, with a
    port of that backend's pool, is in slot [s]. *)
Definition created lb (meta : PacketMeta) (key : FlowKey) (pool : BackendPool) (now : Z) s lb' : Prop :=
  exists idx (b : BackendInfo) port ports ep ei,
    Select pool key = Ret idx /\ idx ∈ bp_active pool /\ bp_slots pool !! Z.to_nat idx = Some b /\
    port_pools_ lb !! Z.to_nat idx = Some ports /\ port ∈ free_ ports /\
    Insert (nat_ lb) (created_flow meta key b port idx) now = (Some s, ep, ei, nat_ lb') /\
    slots_ (nat_ lb') !! s = Some (stored (created_flow meta key b port idx) now) /\
    new_flows (stats_ lb') = u64 (new_flows (stats_ lb) + 1).

(** Why [CreateFlow] may refuse: no port is free for the backend chosen, or every
    slot of the table holds a current flow. *)
Definition refused lb (key : FlowKey) (pool : BackendPool) (now : Z) : Prop :=
  (exists idx ports, Select pool key = Ret idx /\ port_pools_ lb !! Z.to_nat idx = Some ports /\ free_ ports = []) \/
  forall s, (s < Z.to_nat kCapacity)%nat -> current (nat_ lb) now (slots_ (nat_ lb) !!! s) = true.

Lemma CreateFlow_spec ports lb meta key pool now :
  LbInv ports lb -> Forall (fun p => p <> 0) ports ->
  usable pool -> MacAddr_wf (m_client_mac meta) ->
  (forall s f, slots_ (nat_ lb) !! s = Some f -> live f = true -> fk_bytes (nf_fwd_key f) <> fk_bytes key) ->
  exists r lb', CreateFlow lb meta key pool now = Ret (r, lb') /\ LbInv ports lb' /\
    match r with
    | None => lb' = lb /\ refused lb key pool now
    | Some s => created lb meta key pool now s lb'
    end.
Proof.
  intros Hinv Hnz (Hwf & Hlen & Hne & Hbm) Hcm Hnew. unfold CreateFlow.
  destruct (Select_wf pool key Hwf Hne) as (idx & Es & Hact & Hir). rewrite Es. simpl.
  destruct (At_wf pool idx Hir) as (b & -> & Hb). simpl.
  pose proof Hinv as [Hn Hp Hst Hi Hlv Hmac Hc].
  destruct (lookup_lt_is_Some_2 (port_pools_ lb) (Z.to_nat idx)) as [pp Hpp]; [lia|].
  rewrite (proj2 (at_Ret _ _ pp)) by done. simpl.
  assert (Hback : set_pools lb (<[Z.to_nat idx := pp]> (port_pools_ lb)) = lb).
  { destruct lb as [t pl st]. unfold set_pools. simpl in *. now rewrite list_insert_id. }
  destruct (Acquire_cases pp) as [[Hf ->]|(port & rest & Hf & ->)].
  { simpl. rewrite Hback. exists None, lb. split_and!; try done. left. eauto. }
  assert (Hin : port ∈ free_ pp) by (rewrite Hf; apply elem_of_app; right; apply list_elem_of_here).
  assert (Hpz : port <> 0).
  { rewrite Forall_forall in Hnz. apply Hnz. rewrite <- (Hc _ _ Hpp). apply elem_of_app. now left. }
  destruct (Z.eqb_spec port 0); [done|]. fold (created_flow meta key b port idx).
  set (flow := created_flow meta key b port idx).
  destruct (Insert _ flow now) as [[[r ep] ei] t'] eqn:Ei. simpl in Ei.
  destruct (Insert_spec (nat_ lb) flow now r ep ei t' Hn eq_refl Hnew Ei) as [Hn' Hcase].
  destruct r as [s|].
  - destruct Hcase as (v & Hs & _ & Hsl & _ & _ & Hep & Hei & _).
    destruct (LbInv_insert ports lb idx pp port rest flow now s v t') as (pools2 & E2 & Hinv2); try done; [lia|split; [done|apply (Forall_lookup_1 _ _ _ _ Hbm Hb)]|].
    destruct (count_new_flow (stats_ lb) (Z.to_nat idx) Hst) as (st' & Est & Hl' & Hnf); [lia|].
    exists (Some s), (mkLbNode t' pools2 st'). split_and!.
    + unfold set_nat, set_pools in *. simpl in *.
      replace (if negb (ep =? 0) then _ else _) with (Ret (mkLbNode t' pools2 (stats_ lb))).
      * simpl. rewrite Est. done.
      * rewrite <- E2, Hep, Hei. destruct (nf_occupied v); done.
    + now apply (LbInv_stats ports (mkLbNode t' pools2 (stats_ lb)) st').
    + exists idx, b, port, pp, ep, ei. split_and!; try done. simpl. rewrite Hsl.
      apply list_lookup_insert_eq. now apply lookup_lt_Some in Hs.
  - destruct Hcase as (-> & -> & -> & Hall). simpl. exists None, lb. split_and!; try done; [|now right].
    unfold release_port, set_nat, set_pools. simpl.
    rewrite (proj2 (at_Ret _ _ (mkPortPool rest))) by (apply list_lookup_insert_eq; now apply lookup_lt_Some in Hpp).
    simpl. rewrite list_insert_insert_eq.
    replace (Release (mkPortPool rest) port) with pp; [unfold set_pools in Hback; now rewrite Hback|].
    destruct pp as [fr]. simpl in Hf. now rewrite Hf.
Qed.

(** ** [HandlePacket], branch by branch, on the map of current flows *)

Lemma torn_view lb s f dir flags lb' now :
  NatInv (nat_ lb) -> slots_ (nat_ lb) !! s = Some f -> current (nat_ lb) now f = true ->
  torn lb s f dir flags lb' ->
  view (nat_ lb') now =
    (if closes f dir flags then delete (fk_bytes (nf_fwd_key f)) (view (nat_ lb) now)
     else <[fk_bytes (nf_fwd_key f) := fin_recorded f dir flags]> (view (nat_ lb) now)).
Proof.
  intros Hn Hs Hc Ht. pose proof (current_live _ _ _ Hc) as Hl.
  pose proof (fin_recorded_same f dir flags) as Hsame. pose proof (fin_recorded_live f dir flags) as Hlive.
  set (g := fin_recorded f dir flags) in *.
  assert (Hkey : nf_fwd_key g = nf_fwd_key f) by apply Hsame.
  assert (Hcg : current (nat_ lb) now g = true).
  { unfold current, Expired in *. unfold g, fin_recorded. now case_match. }
  assert (Hn1 : NatInv (set_slot (nat_ lb) s g)).
  { eapply set_slot_inv; [exact Hn|exact Hs|..]; try apply Hsame. unfold g, fin_recorded. now case_match. }
  assert (Hv : view (set_slot (nat_ lb) s g) now = <[fk_bytes (nf_fwd_key f) := g]> (view (nat_ lb) now)).
  { rewrite <- Hkey. eapply view_set; [done|done|exact Hs|done|done|done|congruence]. }
  destruct Ht as [Hno|t pool Hyes Ec Hp]; simpl.
  - now rewrite Hno.
  - rewrite Hyes. erewrite Close_view; [rewrite Hv, Hkey; now rewrite delete_insert_eq|exact Hn1| |
      unfold g in *; congruence|exact Ec].
    apply list_lookup_insert_eq. now apply lookup_lt_Some in Hs.
Qed.

Lemma torn_timeout lb s f dir flags lb' :
  torn lb s f dir flags lb' -> timeout_ms_ (nat_ lb') = timeout_ms_ (nat_ lb).
Proof.
  intros [|t pool _ Ec _]; [done|]. simpl. unfold Close in Ec. simpl in Ec.
  unfold Reap in Ec. repeat case_match; simplify_eq; done.
Qed.

(** The port pools after a packet of flow [f]: its port is back when it closes. *)
Definition ports_after lb f (dir : Direction) (flags : Z) lb' : Prop :=
  if closes f dir flags then
    exists p, port_pools_ lb !! Z.to_nat (nf_backend_idx f) = Some p /\
      port_pools_ lb' = <[Z.to_nat (nf_backend_idx f) := Release p (nf_snat_port f)]> (port_pools_ lb)
  else port_pools_ lb' = port_pools_ lb.

Lemma torn_ports lb s f dir flags lb' : torn lb s f dir flags lb' -> ports_after lb f dir flags lb'.
Proof. intros [Hc|t p Hc _ Hp]; unfold ports_after; rewrite Hc; [done|]. eauto. Qed.

(** The metadata a forward packet of flow [f] leaves with. *)
Definition to_backend f (meta : PacketMeta) : PacketMeta :=
  set_backend meta (mkIPv4Addr (nf_backend_ip f)) (nf_backend_mac f) (nf_backend_port f) (nf_snat_port f).

(** The metadata a reverse packet of flow [f] leaves with. *)
Definition to_client f (meta : PacketMeta) : PacketMeta :=
  set_client meta (mkIPv4Addr (fk_src_ip (nf_fwd_key f))) (fk_src_port (nf_fwd_key f)) (nf_client_mac f).

(** The map after a packet of flow [f] has gone through. *)
Definition after_packet (m : gmap (list Z) NatFlow) f (dir : Direction) (flags : Z) : gmap (list Z) NatFlow :=
  if closes f dir flags then delete (fk_bytes (nf_fwd_key f)) m
  else <[fk_bytes (nf_fwd_key f) := fin_recorded f dir flags]> m.

Definition packet_key (meta : PacketMeta) : FlowKey :=
  flow_key (m_src_ip meta) (m_dst_ip meta) (m_src_port meta) (m_dst_port meta) (m_proto meta).

Lemma current_set_nat t t' now f : timeout_ms_ t' = timeout_ms_ t -> current t' now f = current t now f.
Proof. intros E. unfold current. now rewrite (Expired_timeout t t'). Qed.

Lemma forward_flow_spec ports lb s f meta now :
  LbInv ports lb -> slots_ (nat_ lb) !! s = Some f -> current (nat_ lb) now f = true ->
  exists lb', forward_flow lb s meta = Ret (true, to_backend f meta, lb') /\ LbInv ports lb' /\
    torn lb s f (m_dir meta) (m_tcp_flags meta) lb' /\
    view (nat_ lb') now = after_packet (view (nat_ lb) now) f (m_dir meta) (m_tcp_flags meta) /\
    forall n, nat_reach n now (nat_ lb) -> nat_reach n now (nat_ lb').
Proof.
  intros Hinv Hs Hc. unfold forward_flow. rewrite (slot_total _ _ _ Hs). simpl.
  destruct (MaybeTeardown_spec ports lb s f (m_dir meta) (m_tcp_flags meta) Hinv Hs) as (lb' & -> & Ht & Hi' & Hr).
  { eapply current_live; eauto. }
  exists lb'. split_and!; try done; [|auto]. apply (torn_view _ s); try done. apply Hinv.
Qed.

(** Both lookups: the flows stay the same but for time stamps and marks. *)
Lemma LbInv_reaped ports lb now t1 :
  LbInv ports lb -> reap_rel now (nat_ lb) t1 -> NatInv t1 -> LbInv ports (set_nat lb t1).
Proof. intros Hinv R Hn. apply LbInv_same_flows; [done|done|]. eapply same_flows_reap; eauto. Qed.

Lemma LbInv_touched ports lb now t1 s f :
  LbInv ports lb -> reap_rel now (nat_ lb) t1 -> NatInv t1 -> slots_ t1 !! s = Some f ->
  NatInv (set_slot t1 s (set_last_seen f now)) ->
  LbInv ports (set_nat lb (set_slot t1 s (set_last_seen f now))).
Proof.
  intros Hinv R Hn1 Hs Hn. apply LbInv_same_flows; [done|done|].
  eapply same_flows_trans; [eapply same_flows_reap; eauto|]. eapply same_flows_set; [done|].
  repeat split; auto.
Qed.

(** A forward packet of a current flow: it goes to that flow's backend whatever
    the pool is. *)
Lemma HandlePacket_known ports lb meta pool now f :
  LbInv ports lb -> m_dir meta = kForward ->
  view (nat_ lb) now !! fk_bytes (packet_key meta) = Some f ->
  exists lb', HandlePacket lb meta pool now = Ret (true, to_backend f meta, lb') /\ LbInv ports lb' /\
    view (nat_ lb') now = after_packet (view (nat_ lb) now) (set_last_seen f now) kForward (m_tcp_flags meta) /\
    ports_after lb f kForward (m_tcp_flags meta) lb' /\
    timeout_ms_ (nat_ lb') = timeout_ms_ (nat_ lb) /\
    new_flows (stats_ lb') = new_flows (stats_ lb) /\
    forall n, nat_reach n now (nat_ lb) -> nat_reach n now (nat_ lb').
Proof.
  intros Hinv Hd Hv. unfold HandlePacket. rewrite Hd. fold (packet_key meta).
  destruct (LookupForward (nat_ lb) (packet_key meta) now) as [r t'] eqn:E.
  pose proof (LookupForward_view _ _ _ _ _ (li_nat _ _ Hinv) E) as Hview.
  destruct (LookupForward_spec _ _ _ _ _ (li_nat _ _ Hinv) E) as (t1 & R & Hn1 & Hn' & Hr).
  destruct r as [s|]; [|destruct Hview; congruence].
  destruct Hview as (f' & Hf' & Hs' & Hv'). rewrite Hv in Hf'. injection Hf' as <-.
  destruct Hr as (f' & Hs1 & Hs & Hc & Hk & ->).
  pose proof (LbInv_touched ports lb now t1 s f' Hinv R Hn1 Hs1 Hn') as Hinv1.
  destruct (forward_flow_spec ports _ s _ meta now Hinv1 Hs') as (lb' & -> & Hi' & Ht & Hvw & Hre).
  { apply view_lookup in Hv as (_ & _ & Hcf & _); [|apply Hinv].
    rewrite (current_set_nat (nat_ lb)) by apply R.
    apply touched_current; [apply (inv_timeout _ (li_nat _ _ Hinv))|done]. }
  exists lb'. split_and!; try done.
  - rewrite Hvw, Hd. simpl. rewrite Hv'. unfold after_packet. simpl.
    apply view_lookup in Hv as (? & _ & _ & Hkey); [|apply Hinv]. rewrite Hkey.
    destruct (closes _ _ _); [now rewrite delete_insert_eq|now rewrite insert_insert_eq].
  - apply torn_ports in Ht. now rewrite Hd in Ht.
  - rewrite (torn_timeout _ _ _ _ _ _ Ht). apply R.
  - now destruct Ht.
  - intros n Hn. apply Hre. eapply reach_forward; eauto.
Qed.

(** A forward packet of no current flow that may not open one. *)
Definition denied (meta : PacketMeta) : bool :=
  (m_proto meta =? kProtoTcp) && (Z.land (m_tcp_flags meta) kTcpSyn =? 0).

Lemma LookupForward_miss ports lb key now :
  LbInv ports lb -> view (nat_ lb) now !! fk_bytes key = None ->
  exists t', LookupForward (nat_ lb) key now = (None, t') /\ LbInv ports (set_nat lb t') /\
    view t' now = view (nat_ lb) now /\ timeout_ms_ t' = timeout_ms_ (nat_ lb) /\
    (forall s f, slots_ t' !! s = Some f -> live f = true -> fk_bytes (nf_fwd_key f) <> fk_bytes key).
Proof.
  intros Hinv Hv. destruct (LookupForward (nat_ lb) key now) as [r t'] eqn:E.
  pose proof (LookupForward_view _ _ _ _ _ (li_nat _ _ Hinv) E) as Hview.
  destruct (LookupForward_spec _ _ _ _ _ (li_nat _ _ Hinv) E) as (t1 & R & Hn1 & Hn' & Hr).
  destruct r as [s|]; [destruct Hview as (? & ? & _); congruence|].
  destruct Hr as [-> Hnew]. exists t1.
  split_and!; try done; [eapply LbInv_reaped; eauto|apply Hview|apply R].
Qed.

Lemma HandlePacket_denied ports lb meta pool now :
  LbInv ports lb -> m_dir meta = kForward -> denied meta = true ->
  view (nat_ lb) now !! fk_bytes (packet_key meta) = None ->
  exists lb', HandlePacket lb meta pool now = Ret (false, meta, lb') /\ LbInv ports lb' /\
    view (nat_ lb') now = view (nat_ lb) now /\ port_pools_ lb' = port_pools_ lb /\ stats_ lb' = stats_ lb /\
    timeout_ms_ (nat_ lb') = timeout_ms_ (nat_ lb) /\
    forall n, nat_reach n now (nat_ lb) -> nat_reach n now (nat_ lb').
Proof.
  intros Hinv Hd Hden Hv. unfold HandlePacket. rewrite Hd. fold (packet_key meta) (denied meta).
  destruct (LookupForward_miss _ _ _ _ Hinv Hv) as (t' & E & Hi' & Hv' & Hto & _).
  rewrite E, Hden. exists (set_nat lb t'). split_and!; try done.
  intros n Hn. eapply reach_forward; eauto.
Qed.

(** What a packet that may open a flow does. *)
Definition opened lb (meta : PacketMeta) (pool : BackendPool) (now : Z) f : Prop :=
  exists idx (b : BackendInfo) port ports,
    Select pool (packet_key meta) = Ret idx /\ idx ∈ bp_active pool /\
    bp_slots pool !! Z.to_nat idx = Some b /\
    port_pools_ lb !! Z.to_nat idx = Some ports /\ port ∈ free_ ports /\
    f = stored (created_flow meta (packet_key meta) b port idx) now.

Definition exhausted lb (key : FlowKey) (pool : BackendPool) (now : Z) : Prop :=
  (exists idx ports, Select pool key = Ret idx /\ port_pools_ lb !! Z.to_nat idx = Some ports /\ free_ ports = []) \/
  size (view (nat_ lb) now) = Z.to_nat kCapacity.

Lemma HandlePacket_opens ports lb meta pool now :
  LbInv ports lb -> Forall (fun p => p <> 0) ports -> usable pool -> MacAddr_wf (m_client_mac meta) ->
  m_dir meta = kForward -> denied meta = false ->
  view (nat_ lb) now !! fk_bytes (packet_key meta) = None ->
  exists lb', LbInv ports lb' /\ timeout_ms_ (nat_ lb') = timeout_ms_ (nat_ lb) /\
    ((HandlePacket lb meta pool now = Ret (false, meta, lb') /\
      exhausted lb (packet_key meta) pool now /\ view (nat_ lb') now = view (nat_ lb) now /\
      new_flows (stats_ lb') = new_flows (stats_ lb) /\
      forall n, nat_reach n now (nat_ lb) -> nat_reach n now (nat_ lb'))
     \/
     (exists f, HandlePacket lb meta pool now = Ret (true, to_backend f meta, lb') /\
      opened lb meta pool now f /\
      view (nat_ lb') now =
        after_packet (<[fk_bytes (packet_key meta) := f]> (view (nat_ lb) now)) f kForward (m_tcp_flags meta) /\
      new_flows (stats_ lb') = u64 (new_flows (stats_ lb) + 1) /\
      forall n, nat_reach n now (nat_ lb) -> nat_reach (S n) now (nat_ lb'))).
Proof.
  intros Hinv Hnz Hu Hcm Hd Hden Hv. unfold HandlePacket. rewrite Hd.
  fold (packet_key meta) (denied meta).
  destruct (LookupForward_miss _ _ _ _ Hinv Hv) as (t1 & E & Hi1 & Hv1 & Hto1 & Hnew). rewrite E, Hden.
  destruct (CreateFlow_spec ports (set_nat lb t1) meta (packet_key meta) pool now Hi1 Hnz Hu Hcm Hnew)
    as (r & lb2 & -> & Hi2 & Hr). simpl. destruct r as [s|].
  - destruct Hr as (idx & b & port & pp & ep & ei & Es & Hact & Hb & Hpp & Hin & Ei & Hs & Hnf). simpl in Ei, Hpp, Hnf.
    set (f := created_flow meta (packet_key meta) b port idx) in *.
    destruct (Insert_spec t1 f now _ _ _ _ (li_nat _ _ Hi1) eq_refl Hnew Ei) as [Hn2 Hcase].
    destruct Hcase as (v & Hsv & Hnc & Hsl & _ & Hto & _).
    assert (Hcf : current t1 now (stored f now) = true)
      by (apply stored_current; [apply (inv_timeout _ (li_nat _ _ Hi1))|done]).
    assert (Hv2 : view (nat_ lb2) now = <[fk_bytes (packet_key meta) := stored f now]> (view t1 now)).
    { apply (view_set t1 (nat_ lb2) now s v (stored f now)); try done; [apply Hi1|congruence]. }
    destruct (forward_flow_spec ports lb2 s (stored f now) meta now Hi2 Hs) as (lb' & -> & Hi' & Ht & Hvw & Hre).
    { now rewrite (current_set_nat t1). }
    exists lb'. split; [done|]. split; [rewrite (torn_timeout _ _ _ _ _ _ Ht); congruence|].
    right. exists (stored f now). split_and!; try done.
    + exists idx, b, port, pp. done.
    + now rewrite Hvw, Hd, Hv2, Hv1.
    + rewrite <- Hnf. now destruct Ht.
    + intros n Hn. apply Hre. apply (reach_insert n now (nat_ lb) f t1 (Some s) ep ei (nat_ lb2)); done.
  - destruct Hr as [-> Hex]. exists (set_nat lb t1). split; [done|]. split; [done|]. left. split_and!; try done.
    + destruct Hex as [Hex|Hall]; [now left|right]. rewrite <- Hv1. apply view_full; [apply Hi1|done].
    + intros n Hn. eapply reach_forward; eauto.
Qed.

(** The reverse tuple of a packet from a backend. *)
Definition packet_rev (meta : PacketMeta) : Z * Z * Z * Z :=
  (m_src_ip meta, m_src_port meta, m_dst_port meta, m_proto meta).

(** A reverse packet: it goes to the client of a current flow with its reverse
    tuple; if none is found while the reverse index is complete, there is none. *)
Lemma HandlePacket_reverse ports lb meta pool now :
  LbInv ports lb -> m_dir meta = kReverse ->
  exists lb', LbInv ports lb' /\ new_flows (stats_ lb') = new_flows (stats_ lb) /\
    timeout_ms_ (nat_ lb') = timeout_ms_ (nat_ lb) /\
    (forall n, nat_reach n now (nat_ lb) -> nat_reach n now (nat_ lb')) /\
    ((HandlePacket lb meta pool now = Ret (false, meta, lb') /\ view (nat_ lb') now = view (nat_ lb) now /\
      (RevInv (nat_ lb) now -> forall k f, view (nat_ lb) now !! k = Some f -> rev_tuple f <> packet_rev meta))
     \/
     (exists f, HandlePacket lb meta pool now = Ret (true, to_client f meta, lb') /\
      view (nat_ lb) now !! fk_bytes (nf_fwd_key f) = Some f /\ rev_tuple f = packet_rev meta /\
      ports_after lb f kReverse (m_tcp_flags meta) lb' /\
      view (nat_ lb') now =
        after_packet (view (nat_ lb) now) (set_last_seen f now) kReverse (m_tcp_flags meta))).
Proof.
  intros Hinv Hd. unfold HandlePacket. rewrite Hd.
  destruct (LookupReverse (nat_ lb) (m_src_ip meta) (m_src_port meta) (m_dst_port meta) (m_proto meta) now)
    as [r t'] eqn:E.
  destruct (LookupReverse_spec _ _ _ _ _ _ _ _ (li_nat _ _ Hinv) E) as (t1 & R & Hn1 & Hn' & Hr).
  destruct r as [s|].
  - destruct Hr as (f & Hs1 & Hs & Hc & Hk & ->).
    pose proof (LbInv_touched ports lb now t1 s f Hinv R Hn1 Hs1 Hn') as Hinv1.
    assert (Hs' : slots_ (set_slot t1 s (set_last_seen f now)) !! s = Some (set_last_seen f now))
      by (apply list_lookup_insert_eq; now apply lookup_lt_Some in Hs1).
    assert (Hc' : current (nat_ lb) now (set_last_seen f now) = true)
      by (apply touched_current; [apply (inv_timeout _ (li_nat _ _ Hinv))|done]).
    assert (Hv' : view (set_slot t1 s (set_last_seen f now)) now =
      <[fk_bytes (nf_fwd_key f) := set_last_seen f now]> (view (nat_ lb) now)).
    { rewrite <- (view_reap (nat_ lb) t1 now) by (done || apply Hinv).
      apply (view_set t1 _ now s f (set_last_seen f now)); try done.
      now rewrite (current_set_nat (nat_ lb)) by apply R. }
    cbn [nat_ set_nat]. rewrite (slot_total _ _ _ Hs'). simpl.
    destruct (MaybeTeardown_spec ports _ s _ (m_dir meta) (m_tcp_flags meta) Hinv1 Hs')
      as (lb' & -> & Ht & Hi' & Hre); [eapply current_live; eauto|].
    exists lb'. split_and!; [done|now destruct Ht|rewrite (torn_timeout _ _ _ _ _ _ Ht); apply R
      |intros n Hn; apply Hre; eapply reach_reverse; eauto|].
    right. exists f. split_and!; try done; [apply view_lookup; [apply Hinv|eauto]
      |apply torn_ports in Ht; now rewrite Hd in Ht|].
    rewrite (torn_view (set_nat lb (set_slot t1 s (set_last_seen f now))) s _ _ _ _ now Hn' Hs'
      ltac:(now rewrite (current_set_nat (nat_ lb)) by apply R) Ht).
    simpl. rewrite Hv', Hd. unfold after_packet. simpl.
    destruct (closes _ _ _); [now rewrite delete_insert_eq|now rewrite insert_insert_eq].
  - destruct Hr as [-> Hnone]. exists (set_nat lb t1). split_and!; try done.
    + eapply LbInv_reaped; eauto.
    + apply R.
    + intros n Hn. eapply reach_reverse; eauto.
    + left. split_and!; try done; [apply view_reap; [apply Hinv|done|done]|].
      intros HR k f Hf. apply view_lookup in Hf as (s & Hs & Hc & _); [|apply Hinv]. eauto.
Qed.

End Facts.
