(* ===== verification/LbSpec.v ===== *)
(** * What the load-balancing node guarantees

    [lb_reach] are the states of one worker's [LbNode]: built by the constructor,
    then handling any packets with any usable backend pools while time advances.
    The theorems are about those states. *)

From S2P Require Import Prelude FlowKey NetTypes PortPool BackendPool NatTable NatTableFacts NatTableSpec Ipc.
From S2P Require Import PacketMeta LbNode LbFacts.

(** 64 K ports: never unfold the list. *)
#[local] Opaque worker_ports.

Section Reach.
Context `{BuildParams}.

Implicit Types (lb : LbNode) (meta : PacketMeta) (pool : BackendPool) (f g : NatFlow).

(** 1 when the packet that led from [lb] to [lb'] opened a flow. *)
Definition flows_opened lb lb' : nat :=
  if decide (new_flows (stats_ lb') = new_flows (stats_ lb)) then 0 else 1.

(** [lb_reach ok w n k now lb]: worker [w] of [n] is in state [lb] at time [now],
    after packets handled with pools that satisfy [ok], [k] of which opened a flow. *)
Inductive lb_reach (ok : BackendPool -> Prop) (worker_id n_workers : Z) : nat -> Z -> LbNode -> Prop :=
  | lbr_new fuel cfg stats now lb :
      0 < n_workers -> 65536 <= Z.of_nat fuel -> 0 <= conntrack_timeout_ms cfg ->
      length (backend_flows stats) = kMaxBackends -> 0 <= new_flows stats < 2 ^ 64 -> 0 <= now < 2 ^ 32 ->
      LbNode_new fuel cfg stats worker_id n_workers = Ret lb ->
      lb_reach ok worker_id n_workers 0 now lb
  | lbr_later k now now' lb :
      lb_reach ok worker_id n_workers k now lb -> now <= now' -> now' < 2 ^ 32 ->
      lb_reach ok worker_id n_workers k now' lb
  | lbr_packet k now lb meta pool b meta' lb' :
      lb_reach ok worker_id n_workers k now lb -> usable pool -> ok pool -> meta_wf meta ->
      HandlePacket lb meta pool now = Ret (b, meta', lb') ->
      lb_reach ok worker_id n_workers (k + flows_opened lb lb') now lb'.

(** The SNAT ports of a worker. *)
Definition lb_ports (worker_id n_workers : Z) : list Z :=
  worker_ports worker_id n_workers kEphemeralLow kEphemeralHigh.

Lemma lb_ports_nonzero w n : Forall (fun p => p <> 0) (lb_ports w n).
Proof. unfold lb_ports. apply (worker_ports_nonzero w n kEphemeralLow kEphemeralHigh). reflexivity. Qed.

Lemma NatTable_new_slot timeout s f : slots_ (NatTable_new timeout) !! s = Some f -> nf_occupied f = false.
Proof. intros Hf. simpl in Hf. apply lookup_replicate in Hf as [-> _]. done. Qed.

Lemma held_new b timeout : held b (NatTable_new timeout) = [].
Proof.
  unfold held. assert (Ha : Forall (fun f => nf_occupied f = false) (slots_ (NatTable_new timeout))).
  { apply Forall_lookup_2. intros s f. apply NatTable_new_slot. }
  induction Ha as [|f l Ho _ IH]; [done|]. simpl. now rewrite held_port_free.
Qed.

Lemma LbNode_new_inv fuel cfg stats w n lb :
  0 < n -> 65536 <= Z.of_nat fuel -> 0 <= conntrack_timeout_ms cfg ->
  length (backend_flows stats) = kMaxBackends ->
  LbNode_new fuel cfg stats w n = Ret lb ->
  LbInv (lb_ports w n) lb /\ nat_ lb = NatTable_new (conntrack_timeout_ms cfg) /\ stats_ lb = stats.
Proof.
  intros Hn Hf Ht Hs. unfold LbNode_new.
  rewrite ForWorker_spec by (unfold kEphemeralLow, kEphemeralHigh; lia). cbn [obind].
  intros <-%Ret_inj. split_and!; try done. split; cbn [nat_ port_pools_ stats_].
  - now apply NatTable_new_inv.
  - apply length_replicate.
  - done.
  - intros s f Hsl Ho. apply NatTable_new_slot in Hsl. congruence.
  - intros s f Hsl Hl. apply NatTable_new_slot in Hsl. unfold live in Hl. now rewrite Hsl in Hl.
  - intros s f Hsl. apply lookup_replicate in Hsl as [-> _]. split; (split; [done|repeat constructor; lia]).
  - intros b pool Hb. apply lookup_replicate in Hb as [-> _]. rewrite held_new, app_nil_r. done.
Qed.

Lemma meta_wf_mac meta : meta_wf meta -> MacAddr_wf (m_client_mac meta).
Proof. now intros (_&_&_&_&_&_&?). Qed.

Lemma u64_succ_ne x : 0 <= x < 2 ^ 64 -> u64 (x + 1) <> x.
Proof.
  intros Hx. unfold u64. destruct (decide (x + 1 = 2 ^ 64)) as [E|Hne]; [rewrite E|].
  - rewrite Z.mod_same by lia. lia.
  - rewrite Z.mod_small by lia. lia.
Qed.

(** Every packet is handled, keeps the invariant, and its flow count is that of
    the connection table. *)
Record packet_effect (ports : list Z) lb meta pool (now : Z) lb' : Prop := {
  pe_inv : LbInv ports lb';
  pe_timeout : timeout_ms_ (nat_ lb') = timeout_ms_ (nat_ lb);
  pe_stats : 0 <= new_flows (stats_ lb') < 2 ^ 64;
  pe_reach : forall k, nat_reach k now (nat_ lb) -> nat_reach (k + flows_opened lb lb') now (nat_ lb');
  pe_view : forall key g, view (nat_ lb') now !! key = Some g ->
    (exists f, view (nat_ lb) now !! key = Some f /\ same_flow f g) \/
    (exists f, opened lb meta pool now f /\ same_flow f g /\ key = fk_bytes (packet_key meta));
}.

Lemma same_flow_seen f now : same_flow f (set_last_seen f now).
Proof. repeat split; auto. Qed.

(** The entries after a packet of flow [f] are those before, [f] updated. *)
Lemma after_packet_back (m : gmap (list Z) NatFlow) f dir flags key g :
  after_packet m f dir flags !! key = Some g ->
  (m !! key = Some g /\ (closes f dir flags = true -> key <> fk_bytes (nf_fwd_key f))) \/
  (key = fk_bytes (nf_fwd_key f) /\ g = fin_recorded f dir flags /\ closes f dir flags = false).
Proof.
  unfold after_packet. destruct (closes f dir flags).
  - intros [Hne ?]%lookup_delete_Some. left. split; [done|]. congruence.
  - intros [[<- <-]|[Hne ?]]%lookup_insert_Some; [now right|now left].
Qed.

Lemma flows_opened_0 lb lb' : new_flows (stats_ lb') = new_flows (stats_ lb) -> flows_opened lb lb' = 0%nat.
Proof. intros E. unfold flows_opened. now rewrite decide_True. Qed.

Lemma HandlePacket_total ports lb meta pool now :
  LbInv ports lb -> Forall (fun p => p <> 0) ports -> 0 <= new_flows (stats_ lb) < 2 ^ 64 -> usable pool ->
  MacAddr_wf (m_client_mac meta) ->
  exists b meta' lb', HandlePacket lb meta pool now = Ret (b, meta', lb') /\
    packet_effect ports lb meta pool now lb'.
Proof.
  intros Hinv Hnz Hst Hu Hcm. destruct (m_dir meta) eqn:Hd.
  - destruct (view (nat_ lb) now !! fk_bytes (packet_key meta)) as [f|] eqn:Hv;
      [|destruct (denied meta) eqn:Hden].
    + destruct (HandlePacket_known ports lb meta pool now f) as (lb' & E & Hi & Hvw & _ & Hto & Hnf & Hr); try done.
      eexists _, _, lb'. split; [exact E|]. split; [done|done|now rewrite Hnf| |].
      * intros k Hk. rewrite flows_opened_0, Nat.add_0_r by done. auto.
      * intros key g. rewrite Hvw. intros [[Hg _]|(-> & -> & _)]%after_packet_back; left; [eauto using same_flow_refl|].
        exists f. simpl. apply view_lookup in Hv as Hv'; [|apply Hinv]. destruct Hv' as (_ & _ & _ & ->).
        split; [done|]. eapply same_flow_trans; [apply same_flow_seen|apply fin_recorded_same].
    + destruct (HandlePacket_denied ports lb meta pool now) as (lb' & E & Hi & Hvw & _ & Hs & Hto & Hr); try done.
      eexists _, _, lb'. split; [exact E|]. split; [done|done|now rewrite Hs| |].
      * intros k Hk. rewrite flows_opened_0, Nat.add_0_r by now rewrite Hs. auto.
      * intros key g. rewrite Hvw. intros Hg. left. eauto using same_flow_refl.
    + destruct (HandlePacket_opens ports lb meta pool now) as
        (lb' & Hi & Hto & [(E & _ & Hvw & Hnf & Hr)|(f & E & Ho & Hvw & Hnf & Hr)]); try done;
        eexists _, _, lb'; (split; [exact E|]); split; try done.
      * now rewrite Hnf.
      * intros k Hk. rewrite flows_opened_0, Nat.add_0_r by done. auto.
      * intros key g. rewrite Hvw. intros Hg. left. eauto using same_flow_refl.
      * rewrite Hnf. apply Z.mod_pos_bound. lia.
      * intros k Hk. unfold flows_opened. rewrite decide_False by (rewrite Hnf; now apply u64_succ_ne).
        rewrite Nat.add_1_r. auto.
      * intros key g. rewrite Hvw.
        assert (Hkey : nf_fwd_key f = packet_key meta) by (destruct Ho as (?&?&?&?&_&_&_&_&_&->); done).
        intros [[Hg _]|(-> & -> & _)]%after_packet_back.
        -- apply lookup_insert_Some in Hg as [[<- <-]|[_ Hg]]; [right|left; eauto using same_flow_refl].
           exists f. split_and!; [done|apply same_flow_refl|done].
        -- right. exists f. rewrite Hkey. split_and!; [done|apply fin_recorded_same|done].
  - destruct (HandlePacket_reverse ports lb meta pool now Hinv Hd) as (lb' & Hi & Hnf & Hto & Hr & Hcase).
    assert (Hk0 : forall k, nat_reach k now (nat_ lb) -> nat_reach (k + flows_opened lb lb') now (nat_ lb'))
      by (intros k Hk; rewrite flows_opened_0, Nat.add_0_r by done; auto).
    destruct Hcase as [(E & Hvw & _)|(f & E & Hf & _ & _ & Hvw)];
      eexists _, _, lb'; (split; [exact E|]); split; try done; try (now rewrite Hnf);
      intros key g; rewrite Hvw.
    + intros Hg. left. eauto using same_flow_refl.
    + intros [[Hg _]|(-> & -> & _)]%after_packet_back; left; [eauto using same_flow_refl|].
      exists f. split; [done|]. eapply same_flow_trans; [apply same_flow_seen|apply fin_recorded_same].
Qed.

Lemma lb_reach_inv ok w n k now lb :
  lb_reach ok w n k now lb ->
  LbInv (lb_ports w n) lb /\ 0 <= new_flows (stats_ lb) < 2 ^ 64 /\ nat_reach k now (nat_ lb).
Proof.
  induction 1 as [fuel cfg stats now lb Hn Hf Ht Hs Hst Hnow E|k now now' lb _ (Hi & Hst & Hr) Hle Hlt
    |k now lb meta pool b meta' lb' _ (Hi & Hst & Hr) Hu _ Hm E].
  - destruct (LbNode_new_inv fuel cfg stats w n lb) as (Hi & Hnat & Hst'); try done.
    rewrite Hnat, Hst'. split_and!; try done; try lia. now apply reach_new.
  - split_and!; try done; try lia. eapply reach_later; eauto.
  - destruct (HandlePacket_total _ _ meta pool now Hi (lb_ports_nonzero w n) Hst Hu (meta_wf_mac _ Hm))
      as (b' & m' & lb2 & E2 & [Hi' _ Hst' Hr' _]).
    rewrite E in E2. injection E2 as <- <- <-. split_and!; try done; try lia. auto.
Qed.

(** ** Ports identify flows *)

Lemma NoDup_lb_ports w n : NoDup (lb_ports w n).
Proof. unfold lb_ports. apply NoDup_worker_ports. Qed.

Lemma held_NoDup ports lb b : LbInv ports lb -> NoDup ports -> NoDup (held b (nat_ lb)).
Proof.
  intros Hi Hnd. destruct (decide (b < kMaxBackends)%nat) as [Hb|Hb].
  - destruct (lookup_lt_is_Some_2 (port_pools_ lb) b) as [pool Hp]; [rewrite (li_pools _ _ Hi); done|].
    pose proof (li_ports _ _ Hi b pool Hp) as Hperm.
    rewrite <- Hperm in Hnd. now apply NoDup_app in Hnd as (_ & _ & ?).
  - replace (held b (nat_ lb)) with ([] : list Z); [constructor|]. symmetry. unfold held.
    assert (Ha : Forall (fun f => held_port b f = None) (slots_ (nat_ lb))).
    { apply Forall_lookup_2. intros s f Hf. destruct (nf_occupied f) eqn:Ho; [|now apply held_port_free].
      pose proof (li_idx _ _ Hi s f Hf Ho) as Hr.
      destruct (held_port_idx f Ho ltac:(lia)) as (_ & Hother & _). apply Hother. lia. }
    induction Ha as [|f l Hf _ IH]; [done|]. simpl. now rewrite Hf.
Qed.

Lemma port_owner ports lb s1 s2 f1 f2 :
  LbInv ports lb -> NoDup ports -> slots_ (nat_ lb) !! s1 = Some f1 -> slots_ (nat_ lb) !! s2 = Some f2 ->
  nf_occupied f1 = true -> nf_occupied f2 = true -> nf_snat_port f1 <> 0 ->
  nf_backend_idx f1 = nf_backend_idx f2 -> nf_snat_port f1 = nf_snat_port f2 -> s1 = s2.
Proof.
  intros Hi Hnd H1 H2 O1 O2 Hz Eb Ep.
  destruct (held_port_idx f1 O1) as (Hh1 & _ & _); [apply (li_idx _ _ Hi s1 f1); done|].
  destruct (held_port_idx f2 O2) as (Hh2 & _ & _); [apply (li_idx _ _ Hi s2 f2); done|].
  rewrite <- Eb, <- Ep in Hh2.
  eapply (NoDup_omap_inj (held_port (Z.to_nat (nf_backend_idx f1))));
    [exact (held_NoDup ports lb _ Hi Hnd)|exact H1|exact H2|auto|auto].
Qed.

(** A flow of the map: where it is, and the port it holds. *)
Lemma view_slot w n lb now key f :
  LbInv (lb_ports w n) lb -> view (nat_ lb) now !! key = Some f ->
  exists s, slots_ (nat_ lb) !! s = Some f /\ nf_occupied f = true /\ nf_snat_port f <> 0 /\
    0 <= nf_backend_idx f < Z.of_nat kMaxBackends /\ fk_bytes (nf_fwd_key f) = key /\
    nf_snat_port f ∈ lb_ports w n.
Proof.
  intros Hi Hv. apply view_lookup in Hv as (s & Hs & Hc & Hk); [|apply Hi].
  apply current_live in Hc as Hl. assert (Ho : nf_occupied f = true) by (unfold live in Hl; bool_prop; done).
  exists s. pose proof (li_idx _ _ Hi s f Hs Ho) as Hr. pose proof (li_live _ _ Hi s f Hs Hl) as Hz.
  split_and!; try done; try lia.
  destruct (lookup_lt_is_Some_2 (port_pools_ lb) (Z.to_nat (nf_backend_idx f))) as [pool Hp].
  { rewrite (li_pools _ _ Hi). lia. }
  rewrite <- (li_ports _ _ Hi _ _ Hp). apply elem_of_app. right. apply list_elem_of_omap.
  exists f. split; [eapply list_elem_of_lookup_2; eauto|]. now apply held_port_idx.
Qed.

(** ** Backends at fixed addresses *)

(** Every pool handed to the node has at index [i] the backend at [addr i]. *)
Definition addressed (addr : nat -> Z * Z) pool : Prop :=
  forall i b, bp_slots pool !! i = Some b -> (value (be_ip b), be_port b) = addr i.

Definition distinct_addrs (addr : nat -> Z * Z) : Prop :=
  forall i j, (i < kMaxBackends)%nat -> (j < kMaxBackends)%nat -> addr i = addr j -> i = j.

Lemma view_mono k now now' t key f :
  nat_reach k now t -> now <= now' -> now' < 2 ^ 32 ->
  view t now' !! key = Some f -> view t now !! key = Some f.
Proof.
  intros Hr Hle Hlt Hv. pose proof (reach_NatInv _ _ _ Hr) as Hn. pose proof (reach_reach_facts _ _ _ Hr) as Hf.
  apply view_lookup in Hv as (s & Hs & Hc & Hk); [|done]. apply view_lookup; [done|].
  exists s. split_and!; try done. eapply current_mono; eauto. apply (rf_seen _ _ _ Hf s f Hs).
Qed.

(** What holds of every opened flow holds of every flow in the map. *)
Lemma reach_flows (P : NatFlow -> Prop) ok w n k now lb key f :
  (forall f g, same_flow f g -> P f -> P g) ->
  (forall lb meta pool now f, ok pool -> meta_wf meta -> opened lb meta pool now f -> P f) ->
  lb_reach ok w n k now lb -> view (nat_ lb) now !! key = Some f -> P f.
Proof.
  intros Hsame Hopen Hr. revert key f. induction Hr as [fuel cfg stats now lb Hn Hf Ht Hs Hst Hnow E
    |k now now' lb Hr IH Hle Hlt|k now lb meta pool b meta' lb' Hr IH Hu Hok Hm E]; intros key g Hv.
  - destruct (LbNode_new_inv fuel cfg stats w n lb) as (Hi & Hnat & _); try done.
    apply view_lookup in Hv as (s & Hsl & Hc & _); [|apply Hi]. rewrite Hnat in Hsl.
    apply NatTable_new_slot in Hsl. apply current_live in Hc. unfold live in Hc. now rewrite Hsl in Hc.
  - apply lb_reach_inv in Hr as (_ & _ & Hnr). apply (IH key). eapply view_mono; eauto.
  - apply lb_reach_inv in Hr as (Hi & Hst & Hnr).
    destruct (HandlePacket_total _ _ meta pool now Hi (lb_ports_nonzero w n) Hst Hu (meta_wf_mac _ Hm))
      as (b' & m' & lb2 & E2 & [_ _ _ _ Hback]).
    rewrite E in E2. injection E2 as <- <- <-.
    destruct (Hback key g Hv) as [(f & Hf & Hsm)|(f & Ho & Hsm & _)]; eauto.
Qed.

Lemma reach_addressed addr w n k now lb key f :
  lb_reach (addressed addr) w n k now lb -> view (nat_ lb) now !! key = Some f ->
  (nf_backend_ip f, nf_backend_port f) = addr (Z.to_nat (nf_backend_idx f)).
Proof.
  apply (reach_flows (fun f => (nf_backend_ip f, nf_backend_port f) = addr (Z.to_nat (nf_backend_idx f)))).
  - intros g h (_&_&->&_&->&_&->&_&_). done.
  - intros lb' meta pool now' g Hok _ (idx & bk & port & pp & _ & _ & Hb & _ & _ & ->). simpl. now apply Hok.
Qed.

Lemma packet_key_wf meta : meta_wf meta -> fk_wf (packet_key meta).
Proof. intros (?&?&?&?&?&_&_). now apply flow_key_wf. Qed.

(** The flow the map has for a packet's key has that key. *)
Lemma reach_key ok w n k now lb meta f :
  lb_reach ok w n k now lb -> meta_wf meta -> view (nat_ lb) now !! fk_bytes (packet_key meta) = Some f ->
  nf_fwd_key f = packet_key meta.
Proof.
  intros Hr Hm Hv. apply fk_bytes_inj; [|now apply packet_key_wf|].
  - eapply (reach_flows (fun f => fk_wf (nf_fwd_key f))); [| |exact Hr|exact Hv].
    + intros g h (->&_). done.
    + intros lb' m pool now' g _ Hm' (idx & bk & port & pp & _ & _ & _ & _ & _ & ->). now apply packet_key_wf.
  - apply lb_reach_inv in Hr as (Hi & _). apply view_lookup in Hv as (_ & _ & _ & Hk); [done|apply Hi].
Qed.

(** Two current flows never share a reverse tuple. *)
Lemma rev_tuple_unique addr w n k now lb k1 k2 f1 f2 :
  distinct_addrs addr -> lb_reach (addressed addr) w n k now lb ->
  view (nat_ lb) now !! k1 = Some f1 -> view (nat_ lb) now !! k2 = Some f2 ->
  rev_tuple f1 = rev_tuple f2 -> f1 = f2.
Proof.
  intros Hd Hr H1 H2 E. pose proof (reach_addressed _ _ _ _ _ _ _ _ Hr H1) as A1.
  pose proof (reach_addressed _ _ _ _ _ _ _ _ Hr H2) as A2.
  apply lb_reach_inv in Hr as (Hi & _ & _).
  destruct (view_slot _ _ _ _ _ _ Hi H1) as (s1 & S1 & O1 & Z1 & R1 & _).
  destruct (view_slot _ _ _ _ _ _ Hi H2) as (s2 & S2 & O2 & Z2 & R2 & _).
  unfold rev_tuple in E. injection E as Eip Ept Esn _.
  assert (Hidx : nf_backend_idx f1 = nf_backend_idx f2).
  { apply Z2Nat.inj; try lia. apply Hd; [lia..|]. congruence. }
  pose proof (port_owner _ lb s1 s2 f1 f2 Hi (NoDup_lb_ports w n) S1 S2 O1 O2 Z1 Hidx Esn) as ->. congruence.
Qed.

(** ** A flow while other packets go through *)

(** The packet belongs to the flow with this key and reverse tuple. *)
Definition of_flow (key : list Z) (rev : Z * Z * Z * Z) meta : Prop :=
  match m_dir meta with
  | kForward => fk_bytes (packet_key meta) = key
  | kReverse => packet_rev meta = rev
  end.

(** [traffic ok key rev timeout now0 lb0 last now lb]: from [lb0] at [now0] to [lb] at
    [now] by any packets, handled with pools that satisfy [ok]. Those of the flow with
    this key and reverse tuple do not close it (no RST, and not the FIN that completes
    both directions); [last] is when the last of them was let through, and the flow was
    never idle for longer than [timeout]. *)
Inductive traffic (ok : BackendPool -> Prop) (key : list Z) (rev : Z * Z * Z * Z) (timeout now0 : Z) lb0 : Z -> Z -> LbNode -> Prop :=
  | traffic_nil : traffic ok key rev timeout now0 lb0 now0 now0 lb0
  | traffic_later last now1 now2 lb1 : traffic ok key rev timeout now0 lb0 last now1 lb1 ->
      now1 <= now2 -> now2 < 2 ^ 32 -> now2 - last <= timeout ->
      traffic ok key rev timeout now0 lb0 last now2 lb1
  | traffic_other last now1 lb1 meta pool b meta' lb2 : traffic ok key rev timeout now0 lb0 last now1 lb1 ->
      usable pool -> ok pool -> meta_wf meta -> HandlePacket lb1 meta pool now1 = Ret (b, meta', lb2) ->
      ~ of_flow key rev meta ->
      traffic ok key rev timeout now0 lb0 last now1 lb2
  | traffic_own last now1 lb1 meta pool (b : bool) meta' lb2 : traffic ok key rev timeout now0 lb0 last now1 lb1 ->
      usable pool -> ok pool -> meta_wf meta -> HandlePacket lb1 meta pool now1 = Ret (b, meta', lb2) ->
      of_flow key rev meta ->
      (forall f, view (nat_ lb1) now1 !! key = Some f -> closes f (m_dir meta) (m_tcp_flags meta) = false) ->
      traffic ok key rev timeout now0 lb0 (if b then now1 else last) now1 lb2.

Lemma after_packet_other (m : gmap (list Z) NatFlow) f dir flags key :
  fk_bytes (nf_fwd_key f) <> key -> after_packet m f dir flags !! key = m !! key.
Proof.
  intros Hne. unfold after_packet. destruct (closes _ _ _); [now apply lookup_delete_ne|now apply lookup_insert_ne].
Qed.

(** One packet of another flow leaves the flow as it is. *)
Lemma HandlePacket_other ports lb meta pool now b meta' lb' key f :
  LbInv ports lb -> Forall (fun p => p <> 0) ports -> usable pool -> MacAddr_wf (m_client_mac meta) ->
  HandlePacket lb meta pool now = Ret (b, meta', lb') ->
  (m_dir meta = kForward -> fk_bytes (packet_key meta) <> key) ->
  (m_dir meta = kReverse -> packet_rev meta <> rev_tuple f) ->
  view (nat_ lb) now !! key = Some f -> view (nat_ lb') now !! key = Some f.
Proof.
  intros Hinv Hnz Hu Hcm E Hfw Hrv Hf. destruct (m_dir meta) eqn:Hd.
  - specialize (Hfw eq_refl).
    destruct (view (nat_ lb) now !! fk_bytes (packet_key meta)) as [g|] eqn:Hv;
      [|destruct (denied meta) eqn:Hden].
    + destruct (HandlePacket_known ports lb meta pool now g) as (lb2 & E2 & _ & Hvw & _); try done.
      rewrite E in E2. injection E2 as _ _ <-. rewrite Hvw, after_packet_other; [done|]. simpl.
      apply view_lookup in Hv as (_ & _ & _ & ->); [done|apply Hinv].
    + destruct (HandlePacket_denied ports lb meta pool now) as (lb2 & E2 & _ & Hvw & _); try done.
      rewrite E in E2. injection E2 as _ _ <-. now rewrite Hvw.
    + destruct (HandlePacket_opens ports lb meta pool now) as
        (lb2 & _ & _ & [(E2 & _ & Hvw & _)|(g & E2 & Ho & Hvw & _)]); try done;
        rewrite E in E2; injection E2 as _ _ <-; rewrite Hvw; [done|].
      assert (Hkey : nf_fwd_key g = packet_key meta) by (destruct Ho as (?&?&?&?&_&_&_&_&_&->); done).
      rewrite after_packet_other by now rewrite Hkey. now rewrite lookup_insert_ne.
  - specialize (Hrv eq_refl).
    destruct (HandlePacket_reverse ports lb meta pool now Hinv Hd)
      as (lb2 & _ & _ & _ & _ & [(E2 & Hvw & _)|(g & E2 & Hg & Hrg & _ & Hvw)]);
      rewrite E in E2; injection E2 as _ _ <-; rewrite Hvw; [done|].
    rewrite after_packet_other; [done|]. simpl. intros Hk. rewrite Hk, Hf in Hg. congruence.
Qed.

Lemma view_later k now now' lb key f :
  nat_reach k now (nat_ lb) -> view (nat_ lb) now !! key = Some f -> now <= now' -> now' < 2 ^ 32 ->
  now' - nf_last_seen_ms f <= timeout_ms_ (nat_ lb) -> view (nat_ lb) now' !! key = Some f.
Proof.
  intros Hr Hv Hle Hlt Hto. pose proof (reach_NatInv _ _ _ Hr) as Hn.
  pose proof (reach_reach_facts _ _ _ Hr) as Hf.
  apply view_lookup in Hv as (s & Hs & Hc & Hk); [|done]. apply view_lookup; [done|]. exists s. split_and!; try done.
  apply current_live in Hc. unfold live in Hc. bool_prop. apply current_spec. split; [done|].
  unfold Expired. rewrite H0, H1. simpl. apply Z.ltb_ge.
  pose proof (rf_seen _ _ _ Hf s f Hs). pose proof (rf_now _ _ _ Hf). rewrite u32_small by lia. done.
Qed.

Lemma traffic_reach ok w n k key rev timeout now0 lb0 last now lb :
  lb_reach ok w n k now0 lb0 -> traffic ok key rev timeout now0 lb0 last now lb ->
  exists k', lb_reach ok w n k' now lb /\ timeout_ms_ (nat_ lb) = timeout_ms_ (nat_ lb0).
Proof.
  intros Hr Ht.
  assert (Hstep : forall k1 now1 lb1 meta pool b meta' lb2, lb_reach ok w n k1 now1 lb1 -> usable pool -> ok pool -> meta_wf meta ->
    HandlePacket lb1 meta pool now1 = Ret (b, meta', lb2) -> timeout_ms_ (nat_ lb1) = timeout_ms_ (nat_ lb0) ->
    exists k', lb_reach ok w n k' now1 lb2 /\ timeout_ms_ (nat_ lb2) = timeout_ms_ (nat_ lb0)).
  { intros k1 now1 lb1 meta pool b meta' lb2 Hr1 Hu Hok Hm E Hto. eexists. split; [eapply lbr_packet; eauto|].
    apply lb_reach_inv in Hr1 as (Hi & Hst & _).
    destruct (HandlePacket_total _ _ meta pool now1 Hi (lb_ports_nonzero w n) Hst Hu (meta_wf_mac _ Hm))
      as (b' & m' & lb3 & E2 & [_ Hto2 _ _ _]). rewrite E in E2. injection E2 as <- <- <-. congruence. }
  induction Ht as [|last now1 now2 lb1 _ (k' & IH & Hto) Hle Hlt _|last now1 lb1 meta pool b meta' lb2 _ (k' & IH & Hto) Hu Hok Hm E _
    |last now1 lb1 meta pool b meta' lb2 _ (k' & IH & Hto) Hu Hok Hm E _ _]; eauto.
  exists k'. split; [eapply lbr_later; eauto|done].
Qed.

Lemma same_flow_rev f g : same_flow f g -> rev_tuple g = rev_tuple f.
Proof. unfold rev_tuple. now intros (->&_&->&_&->&->&_). Qed.

(** A packet of the flow that does not close it keeps it and renews it. *)
Lemma HandlePacket_own addr w n k now lb meta pool (b : bool) meta' lb' key f :
  distinct_addrs addr -> lb_reach (addressed addr) w n k now lb ->
  HandlePacket lb meta pool now = Ret (b, meta', lb') -> view (nat_ lb) now !! key = Some f ->
  of_flow key (rev_tuple f) meta -> closes f (m_dir meta) (m_tcp_flags meta) = false ->
  exists g, view (nat_ lb') now !! key = Some g /\ same_flow f g /\
    nf_last_seen_ms g = (if b then now else nf_last_seen_ms f).
Proof.
  intros Hda Hr E Hv Hof Hc. pose proof (lb_reach_inv _ _ _ _ _ _ Hr) as (Hi & _ & _).
  assert (Hk : fk_bytes (nf_fwd_key f) = key) by (apply view_lookup in Hv as (_ & _ & _ & Hk); [done|apply Hi]).
  assert (Hafter : forall lb2 dir, m_dir meta = dir ->
    view (nat_ lb2) now = after_packet (view (nat_ lb) now) (set_last_seen f now) dir (m_tcp_flags meta) ->
    exists g, view (nat_ lb2) now !! key = Some g /\ same_flow f g /\ nf_last_seen_ms g = now).
  { intros lb2 dir Hd Hvw. exists (fin_recorded (set_last_seen f now) dir (m_tcp_flags meta)). rewrite Hvw. unfold after_packet.
    change (closes (set_last_seen f now)) with (closes f). rewrite <- Hd, Hc. cbn [nf_fwd_key set_last_seen]. rewrite Hk, lookup_insert_eq.
    split_and!; [done|eapply same_flow_trans; [apply same_flow_seen|apply fin_recorded_same]|]. unfold fin_recorded. now case_match. }
  unfold of_flow in Hof. destruct (m_dir meta) eqn:Hd.
  - rewrite <- Hof in Hv. destruct (HandlePacket_known _ lb meta pool now f Hi Hd Hv) as (lb2 & E2 & _ & Hvw & _).
    rewrite E in E2. injection E2 as -> _ <-. exact (Hafter _ _ eq_refl Hvw).
  - destruct (HandlePacket_reverse _ lb meta pool now Hi Hd) as (lb2 & _ & _ & _ & _ & [(E2 & Hvw & _)|(g & E2 & Hg & Hrg & _ & Hvw)]);
      rewrite E in E2; injection E2 as -> _ <-.
    + exists f. rewrite Hvw. split_and!; [done|apply same_flow_refl|done].
    + assert (g = f) as -> by (eapply (rev_tuple_unique addr); eauto; congruence). exact (Hafter _ _ eq_refl Hvw).
Qed.

(** The flow at the end of the traffic. *)
Lemma traffic_view addr w n k now0 lb0 last now lb key f0 :
  distinct_addrs addr -> lb_reach (addressed addr) w n k now0 lb0 -> view (nat_ lb0) now0 !! key = Some f0 -> nf_last_seen_ms f0 = now0 ->
  traffic (addressed addr) key (rev_tuple f0) (timeout_ms_ (nat_ lb0)) now0 lb0 last now lb ->
  exists f, view (nat_ lb) now !! key = Some f /\ same_flow f0 f /\ nf_last_seen_ms f = last.
Proof.
  intros Hda Hr Hv Hs Ht. induction Ht as [|last now1 now2 lb1 Ht (f & Hf & Hsm & Hl) Hle Hlt Hto
    |last now1 lb1 meta pool b meta' lb2 Ht (f & Hf & Hsm & Hl) Hu Hok Hm E Hno
    |last now1 lb1 meta pool b meta' lb2 Ht (f & Hf & Hsm & Hl) Hu Hok Hm E Hof Hc];
    [exists f0; split_and!; [done|apply same_flow_refl|done]|..];
    destruct (traffic_reach _ w n k _ _ _ _ _ _ _ _ Hr Ht) as (k' & Hr1 & Hto1);
    pose proof (lb_reach_inv _ _ _ _ _ _ Hr1) as (Hi1 & _ & Hn1).
  - exists f. split_and!; try done. eapply view_later; [exact Hn1|exact Hf|done|done|lia].
  - exists f. split_and!; try done. eapply HandlePacket_other; eauto using lb_ports_nonzero, meta_wf_mac; unfold of_flow in Hno.
    + intros Hd. by rewrite Hd in Hno.
    + intros Hd. rewrite Hd in Hno. by rewrite (same_flow_rev f0 f Hsm).
  - destruct (HandlePacket_own addr w n k' now1 lb1 meta pool b meta' lb2 key f) as (g & Hg & Hsg & Hlg); try done.
    + by rewrite (same_flow_rev f0 f Hsm).
    + by apply Hc.
    + exists g. split_and!; [done|by eapply same_flow_trans|]. rewrite Hlg, Hl. done.
Qed.

(** A packet that carries neither RST nor FIN. *)
Definition plain meta : Prop := Z.land (m_tcp_flags meta) kTcpRst = 0 /\ Z.land (m_tcp_flags meta) kTcpFin = 0.

Lemma plain_closes meta f dir : plain meta -> closes f dir (m_tcp_flags meta) = false.
Proof. intros [Hr Hf]. unfold closes. now rewrite Hr, Hf. Qed.

Lemma plain_fin meta f dir : plain meta -> fin_recorded f dir (m_tcp_flags meta) = f.
Proof. intros [_ Hf]. unfold fin_recorded. now rewrite Hf. Qed.

(** A forward packet that was let through belongs to a flow seen just now. *)
Lemma accepted_forward ports lb meta pool now m1 lb1 :
  LbInv ports lb -> Forall (fun p => p <> 0) ports -> usable pool ->
  MacAddr_wf (m_client_mac meta) -> m_dir meta = kForward -> plain meta ->
  HandlePacket lb meta pool now = Ret (true, m1, lb1) ->
  exists f, view (nat_ lb1) now !! fk_bytes (packet_key meta) = Some f /\
    m1 = to_backend f meta /\ nf_last_seen_ms f = now /\
    (view (nat_ lb) now !! fk_bytes (packet_key meta) = None -> nf_client_mac f = m_client_mac meta).
Proof.
  intros Hinv Hnz Hu Hcm Hd Hp E.
  destruct (view (nat_ lb) now !! fk_bytes (packet_key meta)) as [g|] eqn:Hv; [|destruct (denied meta) eqn:Hden].
  - destruct (HandlePacket_known ports lb meta pool now g) as (lb2 & E2 & _ & Hvw & _); try done.
    rewrite E in E2. injection E2 as -> <-. apply view_lookup in Hv as (_ & _ & _ & Hk); [|apply Hinv].
    exists (set_last_seen g now). split_and!; try done. rewrite Hvw. unfold after_packet.
    rewrite (plain_closes meta), (plain_fin meta) by done. simpl. rewrite Hk. apply lookup_insert_eq.
  - destruct (HandlePacket_denied ports lb meta pool now) as (lb2 & E2 & _); try done. congruence.
  - destruct (HandlePacket_opens ports lb meta pool now) as
      (lb2 & _ & _ & [(E2 & _)|(g & E2 & Ho & Hvw & _)]); try done; [congruence|].
    rewrite E in E2. injection E2 as -> <-. destruct Ho as (idx & b & port & pp & _ & _ & _ & _ & _ & ->).
    eexists. split_and!; [|done|done|done]. rewrite Hvw. unfold after_packet.
    rewrite (plain_closes meta), (plain_fin meta) by done. simpl. apply lookup_insert_eq.
Qed.

(** A connection: its packet was let through and traffic went on; the flow it has now. *)
Lemma connection_flow addr w n k now lb meta pool m1 lb1 last now2 lb2 :
  distinct_addrs addr -> lb_reach (addressed addr) w n k now lb -> usable pool -> addressed addr pool ->
  meta_wf meta -> m_dir meta = kForward -> plain meta -> HandlePacket lb meta pool now = Ret (true, m1, lb1) ->
  let key := fk_bytes (packet_key meta) in
  let rev := (value (m_backend_ip m1), m_backend_port m1, m_snat_port m1, m_proto meta) in
  traffic (addressed addr) key rev (timeout_ms_ (nat_ lb1)) now lb1 last now2 lb2 ->
  exists k2 f, lb_reach (addressed addr) w n k2 now2 lb2 /\ view (nat_ lb2) now2 !! key = Some f /\ nf_fwd_key f = packet_key meta /\
    rev_tuple f = rev /\ nf_backend_mac f = m_backend_mac m1 /\ m_backend_ip m1 = mkIPv4Addr (nf_backend_ip f) /\
    (view (nat_ lb) now !! key = None -> nf_client_mac f = m_client_mac meta).
Proof.
  intros Hda Hr Hu Hok Hm Hd Hp E key rev Ht. pose proof (lb_reach_inv _ _ _ _ _ _ Hr) as (Hi & _ & _).
  destruct (accepted_forward _ _ _ _ _ _ _ Hi (lb_ports_nonzero w n) Hu (meta_wf_mac _ Hm) Hd Hp E) as (f0 & Hv & -> & Hseen & Hmac).
  pose proof (lbr_packet _ _ _ _ _ _ _ _ _ _ _ Hr Hu Hok Hm E) as Hr1. pose proof (reach_key _ _ _ _ _ _ _ _ Hr1 Hm Hv) as Hkey.
  assert (Hrev : rev = rev_tuple f0) by (unfold rev, rev_tuple; now rewrite Hkey). rewrite Hrev in Ht.
  destruct (traffic_view addr w n _ now lb1 last now2 lb2 key f0 Hda Hr1 Hv Hseen Ht) as (f & Hf & Hsm & _).
  destruct (traffic_reach _ _ _ _ _ _ _ _ _ _ _ _ Hr1 Ht) as (k2 & Hr2 & _). exists k2, f. rewrite Hrev, (same_flow_rev _ _ Hsm).
  destruct Hsm as (-> & -> & -> & -> & _). by split_and!.
Qed.

(** The return path of a connection. *)
Lemma return_path addr w n k now lb meta pool m1 lb1 last k2 now2 lb2 meta2 pool2 :
  distinct_addrs addr ->
  lb_reach (addressed addr) w n k now lb -> usable pool -> addressed addr pool ->
  meta_wf meta -> m_dir meta = kForward -> plain meta ->
  HandlePacket lb meta pool now = Ret (true, m1, lb1) ->
  let rev := (value (m_backend_ip m1), m_backend_port m1, m_snat_port m1, m_proto meta) in
  traffic (addressed addr) (fk_bytes (packet_key meta)) rev (timeout_ms_ (nat_ lb1)) now lb1 last now2 lb2 ->
  lb_reach (addressed addr) w n k2 now2 lb2 -> Z.of_nat k2 <= kCapacity ->
  m_dir meta2 = kReverse -> packet_rev meta2 = rev ->
  m_snat_port m1 mod n = w /\
  exists mac lb3,
    HandlePacket lb2 meta2 pool2 now2 =
      Ret (true, set_client meta2 (mkIPv4Addr (m_src_ip meta)) (m_src_port meta) mac, lb3) /\
    (view (nat_ lb) now !! fk_bytes (packet_key meta) = None -> mac = m_client_mac meta).
Proof.
  intros Hda Hr Hu Hok Hm Hd Hp E rev Ht Hr2 Hk2 Hd2 Hrv.
  destruct (connection_flow addr w n k now lb meta pool m1 lb1 last now2 lb2) as (_ & f & _ & Hv2 & Hkey & Hrev & _ & _ & Hmac); try done.
  fold rev in Hrev. pose proof (lb_reach_inv _ _ _ _ _ _ Hr2) as (Hi2 & _ & Hn2).
  destruct (view_slot _ _ _ _ _ _ Hi2 Hv2) as (_ & _ & _ & _ & _ & _ & Hport).
  assert (Hsn : nf_snat_port f = m_snat_port m1) by (unfold rev, rev_tuple in Hrev; congruence).
  unfold lb_ports in Hport. rewrite elem_of_worker_ports, Hsn in Hport. split; [exact (proj2 Hport)|].
  destruct (HandlePacket_reverse _ lb2 meta2 pool2 now2 Hi2 Hd2)
    as (lb3 & _ & _ & _ & _ & [(_ & _ & Hnone)|(g & E3 & Hg & Hrg & _)]).
  - exfalso. apply (Hnone (rf_rev _ _ _ (reach_reach_facts _ _ _ Hn2) ltac:(lia)) _ _ Hv2). congruence.
  - assert (g = f) as -> by (eapply (rev_tuple_unique addr w n k2 now2 lb2); eauto; congruence).
    exists (nf_client_mac f), lb3. split; [|done]. rewrite E3. unfold to_client. now rewrite Hkey.
Qed.

(** ** Properties *)

(** In every reachable state, whatever packet and usable pool come next,
    [HandlePacket] returns: no index is out of range, no exception is thrown. *)
Theorem lb_packet_safe ok w n k now lb meta pool :
  lb_reach ok w n k now lb -> usable pool -> meta_wf meta ->
  exists b meta' lb', HandlePacket lb meta pool now = Ret (b, meta', lb').
Proof.
  intros (Hi & Hst & _)%lb_reach_inv Hu Hm.
  destruct (HandlePacket_total _ _ meta pool now Hi (lb_ports_nonzero w n) Hst Hu (meta_wf_mac _ Hm)) as (b & m & lb' & E & _). eauto.
Qed.

(** C17: no SNAT port is lost or given twice: in every reachable state, for every
    backend slot, the free ports and the ports held by flows of that backend are
    together exactly the ports of the worker, without repetition. *)
Theorem lb_ports_conserved ok w n k now lb (b : nat) (pool : PortPool) :
  lb_reach ok w n k now lb -> port_pools_ lb !! b = Some pool ->
  free_ pool ++ held b (nat_ lb) ≡ₚ lb_ports w n /\ NoDup (free_ pool ++ held b (nat_ lb)) /\
  Forall (fun port => port mod n = w) (free_ pool ++ held b (nat_ lb)).
Proof.
  intros (Hi & _ & _)%lb_reach_inv Hb. pose proof (li_ports _ _ Hi b pool Hb) as Hp.
  rewrite Hp. split_and!; [done|apply NoDup_lb_ports|]. apply Forall_forall.
  unfold lb_ports. intros port Hin. rewrite elem_of_worker_ports in Hin. tauto.
Qed.

(** C2: connection affinity: once a forward packet was let through, a later forward
    packet of the same connection goes to the same backend with the same SNAT port,
    whatever packets came in between, of this connection in either direction and of
    others, and whichever backends are then enabled. It holds while the connection has
    been neither closed by its packets nor idle for longer than the timeout, with the
    millisecond clock below 2^32, for backends at distinct fixed addresses; the first of
    the packets carries neither RST nor FIN. (With no enabled backend at all, [Process]
    does not get to [HandlePacket] and drops everything.) *)
Theorem lb_affinity addr w n k now lb meta pool m1 lb1 last now2 lb2 meta2 pool2 :
  distinct_addrs addr -> lb_reach (addressed addr) w n k now lb -> usable pool -> addressed addr pool ->
  meta_wf meta -> m_dir meta = kForward -> plain meta ->
  HandlePacket lb meta pool now = Ret (true, m1, lb1) ->
  traffic (addressed addr) (fk_bytes (packet_key meta))
    (value (m_backend_ip m1), m_backend_port m1, m_snat_port m1, m_proto meta) (timeout_ms_ (nat_ lb1)) now lb1 last now2 lb2 ->
  m_dir meta2 = kForward -> fk_bytes (packet_key meta2) = fk_bytes (packet_key meta) ->
  exists lb3, HandlePacket lb2 meta2 pool2 now2 =
    Ret (true, set_backend meta2 (m_backend_ip m1) (m_backend_mac m1) (m_backend_port m1) (m_snat_port m1), lb3).
Proof.
  intros Hda Hr Hu Hok Hm Hd Hp E Ht Hd2 Hk2.
  destruct (connection_flow addr w n k now lb meta pool m1 lb1 last now2 lb2)
    as (k2 & f & (Hi2 & _)%lb_reach_inv & Hv2 & Hkey & Hrev & Hbm & Hip & _); try done.
  rewrite <- Hk2 in Hv2. destruct (HandlePacket_known _ lb2 meta2 pool2 now2 f Hi2 Hd2 Hv2) as (lb3 & E3 & _). exists lb3. rewrite E3.
  unfold rev_tuple in Hrev. injection Hrev as _ Hpt Hsn _. unfold to_backend. now rewrite Hpt, Hsn, Hbm, Hip.
Qed.

(** C6: the return path of full NAT: a packet from the backend to the SNAT port of a
    connection whose forward packet was let through reaches that connection's client,
    address, port and MAC, whatever packets came in between, of this connection in either
    direction and of others; and the SNAT port is one that steering sends back to this
    worker. It holds while the connection has been neither closed by its packets nor idle
    for longer than the timeout and at most [kCapacity] flows have been opened,
    with the millisecond clock below 2^32, for backends at distinct fixed addresses; the
    connection's first packet carries neither RST nor FIN. *)
Theorem lb_return_path addr w n k now lb meta pool m1 lb1 last k2 now2 lb2 meta2 pool2 :
  distinct_addrs addr ->
  lb_reach (addressed addr) w n k now lb -> usable pool -> addressed addr pool ->
  meta_wf meta -> m_dir meta = kForward -> plain meta ->
  HandlePacket lb meta pool now = Ret (true, m1, lb1) ->
  let rev := (value (m_backend_ip m1), m_backend_port m1, m_snat_port m1, m_proto meta) in
  traffic (addressed addr) (fk_bytes (packet_key meta)) rev (timeout_ms_ (nat_ lb1)) now lb1 last now2 lb2 ->
  lb_reach (addressed addr) w n k2 now2 lb2 -> Z.of_nat k2 <= kCapacity ->
  m_dir meta2 = kReverse -> packet_rev meta2 = rev ->
  m_snat_port m1 mod n = w /\
  exists mac lb3,
    HandlePacket lb2 meta2 pool2 now2 =
      Ret (true, set_client meta2 (mkIPv4Addr (m_src_ip meta)) (m_src_port meta) mac, lb3) /\
    (view (nat_ lb) now !! fk_bytes (packet_key meta) = None -> mac = m_client_mac meta).
Proof. apply return_path. Qed.

(** A TCP packet of an unknown connection without the SYN flag is dropped and
    leaves the connections, the ports and the counters as they were. *)
Theorem lb_syn_gate ok w n k now lb meta pool :
  lb_reach ok w n k now lb -> m_dir meta = kForward -> m_proto meta = kProtoTcp ->
  Z.land (m_tcp_flags meta) kTcpSyn = 0 ->
  view (nat_ lb) now !! fk_bytes (packet_key meta) = None ->
  exists lb', HandlePacket lb meta pool now = Ret (false, meta, lb') /\
    view (nat_ lb') now = view (nat_ lb) now /\ port_pools_ lb' = port_pools_ lb /\ stats_ lb' = stats_ lb.
Proof.
  intros (Hi & _)%lb_reach_inv Hd Hp Hf Hv.
  destruct (HandlePacket_denied _ lb meta pool now Hi Hd) as (lb' & E & _ & Hvw & Hpp & Hs & _).
  - unfold denied. now rewrite Hp, Hf.
  - done.
  - eauto.
Qed.

(** C32: a packet that opens a flow goes to a backend the pool has enabled, the
    one the hash selects, with a port that was free for it; it is refused only
    when that backend has no free port or the table is full of current flows, and
    then the connections are as before. *)
Theorem lb_opens_flow ok w n k now lb meta pool :
  lb_reach ok w n k now lb -> usable pool -> meta_wf meta -> m_dir meta = kForward ->
  (m_proto meta <> kProtoTcp \/ Z.land (m_tcp_flags meta) kTcpSyn <> 0) ->
  view (nat_ lb) now !! fk_bytes (packet_key meta) = None ->
  exists lb',
    (HandlePacket lb meta pool now = Ret (false, meta, lb') /\
     exhausted lb (packet_key meta) pool now /\ view (nat_ lb') now = view (nat_ lb) now) \/
    (exists f, HandlePacket lb meta pool now = Ret (true, to_backend f meta, lb') /\
     opened lb meta pool now f /\
     new_flows (stats_ lb') = u64 (new_flows (stats_ lb) + 1) /\
     view (nat_ lb') now =
       after_packet (<[fk_bytes (packet_key meta) := f]> (view (nat_ lb) now)) f kForward (m_tcp_flags meta)).
Proof.
  intros (Hi & _)%lb_reach_inv Hu Hm Hd Hsyn Hv.
  destruct (HandlePacket_opens _ lb meta pool now Hi (lb_ports_nonzero w n) Hu (meta_wf_mac _ Hm) Hd) as
    (lb' & _ & _ & [(E & Hex & Hvw & _)|(f & E & Ho & Hvw & Hnf & _)]).
  - unfold denied. destruct Hsyn as [Hs|Hs]; apply Z.eqb_neq in Hs; rewrite Hs; [done|apply andb_false_r].
  - done.
  - exists lb'. now left.
  - exists lb'. right. eauto 10.
Qed.

(** What a packet of flow [f] leaves with. *)
Definition sent_on f meta : PacketMeta :=
  match m_dir meta with
  | kForward => to_backend f meta
  | kReverse => to_client f meta
  end.

(** C37: a packet of a connection, from either side, with RST, or with the FIN that
    completes both directions, is still sent on, then the connection is gone and its port
    is free again for its backend. For a packet from the backend it is assumed that the
    backends have distinct fixed addresses and that at most [kCapacity] flows have been
    opened, so that it is matched to its connection. *)
Theorem lb_teardown ok w n k now lb meta pool f :
  lb_reach ok w n k now lb -> view (nat_ lb) now !! fk_bytes (nf_fwd_key f) = Some f ->
  of_flow (fk_bytes (nf_fwd_key f)) (rev_tuple f) meta ->
  (m_dir meta = kReverse -> Z.of_nat k <= kCapacity /\ exists addr, distinct_addrs addr /\ lb_reach (addressed addr) w n k now lb) ->
  Z.land (m_tcp_flags meta) kTcpRst <> 0 \/
    (Z.land (m_tcp_flags meta) kTcpFin <> 0 /\
     Z.lor (nf_fin_seen f) (match m_dir meta with kForward => kFinForward | kReverse => kFinReverse end) = 3) ->
  exists lb' p, HandlePacket lb meta pool now = Ret (true, sent_on f meta, lb') /\
    view (nat_ lb') now = delete (fk_bytes (nf_fwd_key f)) (view (nat_ lb) now) /\
    port_pools_ lb !! Z.to_nat (nf_backend_idx f) = Some p /\
    port_pools_ lb' = <[Z.to_nat (nf_backend_idx f) := Release p (nf_snat_port f)]> (port_pools_ lb).
Proof.
  intros (Hi & _ & Hn)%lb_reach_inv Hv Hof Hrv Hfl.
  assert (Hc : closes f (m_dir meta) (m_tcp_flags meta) = true).
  { unfold closes, fin_bit. destruct Hfl as [Hr%Z.eqb_neq|[Hf%Z.eqb_neq ->]]; [now rewrite Hr|]. rewrite Hf. now rewrite orb_true_r. }
  assert (Hdone : forall lb' dir, m_dir meta = dir -> ports_after lb f dir (m_tcp_flags meta) lb' ->
    view (nat_ lb') now = after_packet (view (nat_ lb) now) (set_last_seen f now) dir (m_tcp_flags meta) ->
    exists p, view (nat_ lb') now = delete (fk_bytes (nf_fwd_key f)) (view (nat_ lb) now) /\
      port_pools_ lb !! Z.to_nat (nf_backend_idx f) = Some p /\
      port_pools_ lb' = <[Z.to_nat (nf_backend_idx f) := Release p (nf_snat_port f)]> (port_pools_ lb)).
  { intros lb' dir Hd Hpp Hvw. rewrite <- Hd in *. unfold ports_after in Hpp. rewrite Hc in Hpp. destruct Hpp as (p & ? & ?). exists p.
    split_and!; try done. rewrite Hvw. unfold after_packet. change (closes (set_last_seen f now)) with (closes f). now rewrite Hc. }
  unfold of_flow, sent_on in *. destruct (m_dir meta) eqn:Hd.
  - rewrite <- Hof in Hv. destruct (HandlePacket_known _ lb meta pool now f Hi Hd Hv) as (lb' & E & _ & Hvw & Hpp & _).
    destruct (Hdone lb' kForward eq_refl Hpp Hvw) as (p & ?). exists lb', p. done.
  - destruct (Hrv eq_refl) as (Hk & addr & Hda & Hr).
    destruct (HandlePacket_reverse _ lb meta pool now Hi Hd) as (lb' & _ & _ & _ & _ & [(_ & _ & Hnone)|(g & E & Hg & Hrg & Hpp & Hvw)]).
    + exfalso. apply (Hnone (rf_rev _ _ _ (reach_reach_facts _ _ _ Hn) ltac:(lia)) _ _ Hv). done.
    + assert (g = f) as -> by (eapply (rev_tuple_unique addr w n k now lb); eauto; congruence).
      destruct (Hdone lb' kReverse eq_refl Hpp Hvw) as (p & ?). exists lb', p. done.
Qed.

End Reach.

(** ** A worker with three ports per backend, a table of four slots, two backends *)

Module LbSamples.

#[local] Existing Instance BackendPool.test_build.

Definition pool2 : BackendPool := mkBackendPool (sample_backend <$> [1; 2]) [0; 1].

Definition pool1 : BackendPool := mkBackendPool (sample_backend <$> [1; 2]) [1].

Definition addr2 (i : nat) : Z * Z := (167772417 + Z.of_nat i, 8080).

Definition any_pool (pool : BackendPool) : Prop := True.

Definition lb0 : LbNode :=
  mkLbNode (NatTable_new 30000) (replicate kMaxBackends (mkPortPool [60001; 40001; 20001])) LcoreStats_zero.

(** A TCP packet of a client, and one from a backend. *)
Definition from_client (sport flags : Z) : PacketMeta :=
  set_client_mac (set_flags (packet_meta 3232235525 167772669 sport 80 6 kForward) flags)
    (mkMacAddr [2; 0; 0; 0; 0; 5]).

Definition from_backend (m : PacketMeta) (flags : Z) : PacketMeta :=
  set_flags (packet_meta (value (m_backend_ip m)) 167772670 (m_backend_port m) (m_snat_port m) 6 kReverse) flags.

Definition step (lb : LbNode) (meta : PacketMeta) (pool : BackendPool) (now : Z) : bool * PacketMeta * LbNode :=
  match HandlePacket lb meta pool now with
  | Ret r => r
  | _ => (false, meta, lb)
  end.

Definition syn : PacketMeta := from_client 40000 2.

Definition other_syn : PacketMeta := from_client 40001 2.

Definition syn_out : PacketMeta := (step lb0 syn pool2 1000).1.2.

Definition lb1 : LbNode := (step lb0 syn pool2 1000).2.

Definition other_out : PacketMeta := (step lb1 other_syn pool2 2000).1.2.

Definition lb2 : LbNode := (step lb1 other_syn pool2 2000).2.

Lemma lb0_reach ok : lb_reach ok 1 20000 0 1000 lb0.
Proof.
  refine (lbr_new ok 1 20000 (Z.to_nat 65536) sample_config LcoreStats_zero 1000 lb0 _ _ _ eq_refl _ _ _).
  - lia.
  - lia.
  - simpl. lia.
  - simpl. lia.
  - lia.
  - vm_compute. reflexivity.
Qed.

Lemma pool2_usable : usable pool2.
Proof.
  split; [split_and!|split; [simpl; unfold kMaxBackends; lia|split; [done|]]].
  - simpl. lia.
  - apply (bool_decide_eq_true_1 _). reflexivity.
  - repeat constructor; simpl; lia.
  - repeat constructor; simpl; lia.
Qed.

Lemma pool2_addressed : addressed addr2 pool2.
Proof. intros [|[|i]] b Hb; simpl in Hb; simplify_eq; try done. Qed.

Lemma addr2_distinct : distinct_addrs addr2.
Proof. intros i j _ _ E. unfold addr2 in E. injection E. lia. Qed.

Lemma syn_wf sport flags : 0 <= sport < 2 ^ 16 -> 0 <= flags < 2 ^ 8 -> meta_wf (from_client sport flags).
Proof. intros. repeat split; simpl; try lia. repeat constructor; lia. Qed.

Lemma syn_handled : HandlePacket lb0 syn pool2 1000 = Ret (true, syn_out, lb1).
Proof. vm_compute. reflexivity. Qed.

Lemma lb1_reach (ok : BackendPool -> Prop) : ok pool2 -> lb_reach ok 1 20000 1 1000 lb1.
Proof.
  intros Hok. refine (lbr_packet ok 1 20000 0 1000 lb0 syn pool2 true syn_out lb1 _ pool2_usable Hok _ syn_handled).
  - apply lb0_reach.
  - apply syn_wf; lia.
Qed.

(** Then the backend answers and the client acknowledges. *)
Definition synack : PacketMeta := from_backend syn_out 18.

Definition ack : PacketMeta := from_client 40000 16.

Definition lb3 : LbNode := (step lb2 synack pool2 2000).2.

Definition lb4 : LbNode := (step lb3 ack pool2 2000).2.

Lemma synack_wf : meta_wf synack.
Proof. repeat split; vm_compute; try discriminate. all: repeat constructor; discriminate. Qed.

(** The reverse tuple of the first client's flow. *)
Definition syn_rev : Z * Z * Z * Z := (value (m_backend_ip syn_out), m_backend_port syn_out, m_snat_port syn_out, m_proto syn).

(** Another client's packet goes through between, then the two of this connection; the
    connection outlives the timeout of its first packet. *)
Lemma traffic_between (ok : BackendPool -> Prop) :
  ok pool2 -> traffic ok (fk_bytes (packet_key syn)) syn_rev (timeout_ms_ (nat_ lb1)) 1000 lb1 2000 31500 lb4.
Proof.
  intros Hok. refine (traffic_later ok _ _ _ 1000 lb1 2000 2000 31500 lb4 _ _ _ _); [|lia|lia|vm_compute; discriminate].
  refine (traffic_own ok _ _ _ 1000 lb1 2000 2000 lb3 ack pool2 true (step lb3 ack pool2 2000).1.2 lb4 _ pool2_usable Hok _ _ _ _).
  - refine (traffic_own ok _ _ _ 1000 lb1 1000 2000 lb2 synack pool2 true (step lb2 synack pool2 2000).1.2 lb3 _ pool2_usable Hok _ _ _ _).
    + refine (traffic_other ok _ _ _ 1000 lb1 1000 2000 lb1 other_syn pool2 true other_out lb2 _ pool2_usable Hok _ _ _).
      * refine (traffic_later ok _ _ _ 1000 lb1 1000 1000 2000 lb1 (traffic_nil _ _ _ _ _ _) _ _ _); [lia|lia|vm_compute; discriminate].
      * apply syn_wf; lia.
      * vm_compute. reflexivity.
      * vm_compute. discriminate.
    + apply synack_wf.
    + vm_compute. reflexivity.
    + vm_compute. reflexivity.
    + intros f _. apply plain_closes. split; reflexivity.
  - apply syn_wf; lia.
  - vm_compute. reflexivity.
  - vm_compute. reflexivity.
  - intros f _. apply plain_closes. split; reflexivity.
Qed.

Lemma lb2_reach (ok : BackendPool -> Prop) : ok pool2 -> lb_reach ok 1 20000 2 2000 lb2.
Proof.
  intros Hok. refine (lbr_packet ok 1 20000 1 2000 lb1 other_syn pool2 true other_out lb2 _ pool2_usable Hok _ _).
  - eapply lbr_later; [now apply lb1_reach|lia|lia].
  - apply syn_wf; lia.
  - vm_compute. reflexivity.
Qed.

Lemma lb4_reach (ok : BackendPool -> Prop) : ok pool2 -> lb_reach ok 1 20000 2 31500 lb4.
Proof.
  intros Hok. refine (lbr_later ok 1 20000 2 2000 31500 lb4 _ _ _); [|lia|lia].
  refine (lbr_packet ok 1 20000 2 2000 lb3 ack pool2 true (step lb3 ack pool2 2000).1.2 lb4 _ pool2_usable Hok _ _).
  - refine (lbr_packet ok 1 20000 2 2000 lb2 synack pool2 true (step lb2 synack pool2 2000).1.2 lb3 _ pool2_usable Hok synack_wf _).
    + now apply lb2_reach.
    + vm_compute. reflexivity.
  - apply syn_wf; lia.
  - vm_compute. reflexivity.
Qed.

Lemma lb_packet_safe_witness : exists b meta' lb', HandlePacket lb0 syn pool2 1000 = Ret (b, meta', lb').
Proof. apply (lb_packet_safe any_pool 1 20000 0 1000 lb0 syn pool2); [apply lb0_reach|apply pool2_usable|apply syn_wf; lia]. Defined.

Lemma lb_ports_conserved_witness :
  let pool := default (mkPortPool []) (port_pools_ lb1 !! 1%nat) in
  free_ pool ++ held 1 (nat_ lb1) ≡ₚ lb_ports 1 20000 /\ NoDup (free_ pool ++ held 1 (nat_ lb1)) /\
  Forall (fun port => port mod 20000 = 1) (free_ pool ++ held 1 (nat_ lb1)).
Proof.
  apply (lb_ports_conserved any_pool 1 20000 1 1000 lb1 1); [now apply lb1_reach|]. vm_compute. reflexivity.
Defined.

(** The backend of the first client is disabled meanwhile ([pool1]). *)
Lemma lb_affinity_witness :
  exists lb5, HandlePacket lb4 (from_client 40000 16) pool1 31500 =
    Ret (true, set_backend (from_client 40000 16) (m_backend_ip syn_out) (m_backend_mac syn_out)
                 (m_backend_port syn_out) (m_snat_port syn_out), lb5).
Proof.
  apply (lb_affinity addr2 1 20000 0 1000 lb0 syn pool2 syn_out lb1 2000 31500 lb4).
  - apply addr2_distinct.
  - apply lb0_reach.
  - apply pool2_usable.
  - apply pool2_addressed.
  - apply syn_wf; lia.
  - reflexivity.
  - split; reflexivity.
  - apply syn_handled.
  - apply traffic_between, pool2_addressed.
  - reflexivity.
  - reflexivity.
Defined.

Lemma lb_return_path_witness :
  m_snat_port syn_out mod 20000 = 1 /\
  exists mac lb5,
    HandlePacket lb4 synack pool2 31500 =
      Ret (true, set_client synack (mkIPv4Addr (m_src_ip syn)) (m_src_port syn) mac, lb5) /\
    (view (nat_ lb0) 1000 !! fk_bytes (packet_key syn) = None -> mac = m_client_mac syn).
Proof.
  apply (lb_return_path addr2 1 20000 0 1000 lb0 syn pool2 syn_out lb1 2000 2 31500 lb4).
  - apply addr2_distinct.
  - apply lb0_reach.
  - apply pool2_usable.
  - apply pool2_addressed.
  - apply syn_wf; lia.
  - reflexivity.
  - split; reflexivity.
  - apply syn_handled.
  - apply traffic_between, pool2_addressed.
  - apply lb4_reach, pool2_addressed.
  - vm_compute. discriminate.
  - reflexivity.
  - vm_compute. reflexivity.
Defined.

Lemma lb_syn_gate_witness :
  exists lb', HandlePacket lb0 (from_client 40000 16) pool2 1000 = Ret (false, from_client 40000 16, lb') /\
    view (nat_ lb') 1000 = view (nat_ lb0) 1000 /\ port_pools_ lb' = port_pools_ lb0 /\ stats_ lb' = stats_ lb0.
Proof.
  apply (lb_syn_gate any_pool 1 20000 0 1000 lb0 (from_client 40000 16) pool2).
  - apply lb0_reach.
  - reflexivity.
  - reflexivity.
  - reflexivity.
  - vm_compute. reflexivity.
Defined.

Lemma lb_opens_flow_witness :
  exists lb',
    (HandlePacket lb0 syn pool2 1000 = Ret (false, syn, lb') /\
     exhausted lb0 (packet_key syn) pool2 1000 /\ view (nat_ lb') 1000 = view (nat_ lb0) 1000) \/
    (exists f, HandlePacket lb0 syn pool2 1000 = Ret (true, to_backend f syn, lb') /\
     opened lb0 syn pool2 1000 f /\
     new_flows (stats_ lb') = u64 (new_flows (stats_ lb0) + 1) /\
     view (nat_ lb') 1000 =
       after_packet (<[fk_bytes (packet_key syn) := f]> (view (nat_ lb0) 1000)) f kForward (m_tcp_flags syn)).
Proof.
  apply (lb_opens_flow any_pool 1 20000 0 1000 lb0 syn pool2).
  - apply lb0_reach.
  - apply pool2_usable.
  - apply syn_wf; lia.
  - reflexivity.
  - right. vm_compute. discriminate.
  - vm_compute. reflexivity.
Defined.

(** The flow of the first client. *)
Definition flow1 : NatFlow := default (created_flow syn (packet_key syn) (sample_backend 1) 0 0)
  (view (nat_ lb1) 1000 !! fk_bytes (packet_key syn)).

(** An RST of the client, and one of the backend. *)
Lemma lb_teardown_witness :
  let closed_by meta :=
    exists lb' p, HandlePacket lb1 meta pool2 1000 = Ret (true, sent_on flow1 meta, lb') /\
      view (nat_ lb') 1000 = delete (fk_bytes (nf_fwd_key flow1)) (view (nat_ lb1) 1000) /\
      port_pools_ lb1 !! Z.to_nat (nf_backend_idx flow1) = Some p /\
      port_pools_ lb' =
        <[Z.to_nat (nf_backend_idx flow1) := Release p (nf_snat_port flow1)]> (port_pools_ lb1) in
  closed_by (from_client 40000 4) /\ closed_by (from_backend syn_out 4).
Proof.
  split.
  - apply (lb_teardown any_pool 1 20000 1 1000 lb1 (from_client 40000 4) pool2 flow1).
    + now apply lb1_reach.
    + vm_compute. reflexivity.
    + vm_compute. reflexivity.
    + discriminate.
    + left. vm_compute. discriminate.
  - apply (lb_teardown any_pool 1 20000 1 1000 lb1 (from_backend syn_out 4) pool2 flow1).
    + now apply lb1_reach.
    + vm_compute. reflexivity.
    + vm_compute. reflexivity.
    + intros _. split; [vm_compute; discriminate|]. exists addr2. split; [apply addr2_distinct|apply lb1_reach, pool2_addressed].
    + left. vm_compute. discriminate.
Defined.

End LbSamples.
