(* ===== verification/Graph.v ===== *)
(** * The packet graph ([dataplane/include/graph], [dataplane/src/graph])

    Frames of packets, the pool frames are taken from, the graph of nodes, and the
    dispatcher that runs one burst through it. A [Frame*] is the index of the frame
    in the pool's [storage_]; an [rte_mbuf*] is a number. Nodes act on a world [W]
    that holds everything outside the graph engine: packet contents, node state,
    rings, the NIC. *)

From S2P Require Import Prelude NetTypes.

(** ** [Frame] *)

Definition mbuf_ptr : Type := Z.

Definition kBurstSize : Z := 64.

Record Frame := mkFrame { bufs : list mbuf_ptr; count : Z }.

Definition Frame_new : Frame := mkFrame (replicate (Z.to_nat kBurstSize) 0) 0.

#[export] Instance Frame_inhabited : Inhabited Frame := populate Frame_new.

Definition Clear (f : Frame) : Frame := mkFrame (bufs f) 0.

Definition Full (f : Frame) : bool := count f =? kBurstSize.

(** [assert(count < kBurstSize); bufs[count++] = mbuf]. *)
Definition Push (f : Frame) (mbuf : mbuf_ptr) : outcome Frame :=
  if count f <? kBurstSize then
    let! b := set_at (bufs f) (Z.to_nat (count f)) mbuf in
    Ret (mkFrame b (u16 (count f + 1)))
  else Undef.

(** [MoveTo(idx, dst)]: the new [dst]. *)
Definition MoveTo (f : Frame) (idx : nat) (dst : Frame) : outcome Frame :=
  let! mbuf := at_ (bufs f) idx in Push dst mbuf.

(** The packets a loop [for (i = 0; i < count; ++i) ... bufs[i]] visits. *)
Definition packets (f : Frame) : list mbuf_ptr := take (Z.to_nat (count f)) (bufs f).

Definition frame_items (f : Frame) : outcome (list mbuf_ptr) :=
  if count f <=? Z.of_nat (length (bufs f)) then Ret (packets f) else Undef.

(** ** [FramePool] *)

Record FramePool := mkFramePool { storage_ : list Frame; ffree_ : list nat }.

Definition FramePool_new (reserve : nat) : FramePool :=
  mkFramePool (replicate reserve Frame_new) (seq 0 reserve).

Definition FAcquire (p : FramePool) : outcome (nat * FramePool) :=
  match back (ffree_ p) with
  | None => Ret (length (storage_ p), mkFramePool (push_back (storage_ p) Frame_new) (ffree_ p))
  | Some frame =>
      let! f := at_ (storage_ p) frame in
      Ret (frame, mkFramePool (<[frame := Clear f]> (storage_ p)) (pop_back (ffree_ p)))
  end.

Definition FRelease (p : FramePool) (frame : nat) : outcome FramePool :=
  let! f := at_ (storage_ p) frame in
  Ret (mkFramePool (<[frame := Clear f]> (storage_ p)) (push_back (ffree_ p) frame)).

(** ** [Node] and [Graph] *)

(** The virtual functions of a node. [Process w in nexts] gives the new world and
    the new contents of [in] and of [nexts]. *)
Record Node (W : Type) := mkNode {
  Process : W -> Frame -> list Frame -> outcome (W * Frame * list Frame);
  Name : string;
  NextCount : Z;
}.

Arguments mkNode {W} _ _ _.
Arguments Process {W} _ _ _ _.
Arguments Name {W} _.
Arguments NextCount {W} _.

Definition kInvalid : Z := 65535.

Definition kMaxFanout : nat := 8.

Record Graph (W : Type) := mkGraph { nodes_ : list (Node W); routing_ : list (list Z) }.

Arguments mkGraph {W} _ _.
Arguments nodes_ {W} _.
Arguments routing_ {W} _.

Section Graph.
Context {W : Type}.

Definition Graph_empty : Graph W := mkGraph [] [].

Definition AddNode (g : Graph W) (node : Node W) : Z * Graph W :=
  (u16 (Z.of_nat (length (nodes_ g))),
   mkGraph (push_back (nodes_ g) node)
     (push_back (routing_ g) (replicate (Z.to_nat (NextCount node)) kInvalid))).

Definition Wire (g : Graph W) (from out_idx dest : Z) : outcome (Graph W) :=
  let n := Z.of_nat (length (nodes_ g)) in
  if (n <=? from) || (n <=? dest) then
    Throw (out_of_range ("Wire: invalid node " ++ format_unsigned from ++ " or " ++ format_unsigned dest)%string)
  else
    let! outs := at_ (routing_ g) (Z.to_nat from) in
    if Z.of_nat (length outs) <=? out_idx then
      Throw (out_of_range ("Wire: out_idx " ++ format_unsigned out_idx ++ " >= NextCount()")%string)
    else
      Ret (mkGraph (nodes_ g) (<[Z.to_nat from := <[Z.to_nat out_idx := dest]> outs]> (routing_ g))).

Definition NodeCount (g : Graph W) : Z := u16 (Z.of_nat (length (nodes_ g))).

Definition GetNode (g : Graph W) (node_id : Z) : outcome (Node W) := at_ (nodes_ g) (Z.to_nat node_id).

Definition Fanout (g : Graph W) (node_id : Z) : outcome Z :=
  let! outs := at_ (routing_ g) (Z.to_nat node_id) in Ret (u16 (Z.of_nat (length outs))).

Definition Target (g : Graph W) (from : Z) (out_idx : nat) : outcome Z :=
  let! outs := at_ (routing_ g) (Z.to_nat from) in at_ outs out_idx.

(** ** [Dispatcher] *)

Record Dispatcher := mkDispatcher {
  pending_ : list (list nat);
  scheduled_ : list Z;
  queue_ : list Z;
  scratch_ : list Frame;
  pool_ : FramePool;
}.

Definition Dispatcher_new (g : Graph W) : Dispatcher :=
  mkDispatcher (replicate (Z.to_nat (NodeCount g)) []) (replicate (Z.to_nat (NodeCount g)) 0) []
    (replicate kMaxFanout Frame_new) (FramePool_new (Z.to_nat (NodeCount g) + kMaxFanout)).

Definition set_pending (d : Dispatcher) p : Dispatcher :=
  mkDispatcher p (scheduled_ d) (queue_ d) (scratch_ d) (pool_ d).

Definition set_scratch (d : Dispatcher) s : Dispatcher :=
  mkDispatcher (pending_ d) (scheduled_ d) (queue_ d) s (pool_ d).

Definition set_pool (d : Dispatcher) p : Dispatcher :=
  mkDispatcher (pending_ d) (scheduled_ d) (queue_ d) (scratch_ d) p.

Definition set_queue (d : Dispatcher) sch q : Dispatcher :=
  mkDispatcher (pending_ d) sch q (scratch_ d) (pool_ d).

Definition Schedule (d : Dispatcher) (node_id : Z) : outcome Dispatcher :=
  let! s := at_ (scheduled_ d) (Z.to_nat node_id) in
  if s =? 0
  then Ret (set_queue d (<[Z.to_nat node_id := 1]> (scheduled_ d)) (push_back (queue_ d) node_id))
  else Ret d.

(** [frame->Push(mbuf)] through a [Frame*]. *)
Definition push_ptr (p : FramePool) (frame : nat) (mbuf : mbuf_ptr) : outcome FramePool :=
  let! f := at_ (storage_ p) frame in
  let! f := Push f mbuf in
  Ret (mkFramePool (<[frame := f]> (storage_ p)) (ffree_ p)).

(** [pend.empty() || pend.back()->Full()]. *)
Definition needs_frame (p : FramePool) (pend : list nat) : outcome bool :=
  match back pend with
  | None => Ret true
  | Some last => let! f := at_ (storage_ p) last in Ret (Full f)
  end.

(** The loop of [RouteInto] on [pend], a reference to [pending_[target]]. *)
Fixpoint route_loop (src : list mbuf_ptr) (pend : list nat) (p : FramePool) : outcome (list nat * FramePool) :=
  match src with
  | [] => Ret (pend, p)
  | mbuf :: src =>
      let! fresh := needs_frame p pend in
      let! '(pend, p) :=
        (if fresh : bool then let! '(frame, p) := FAcquire p in Ret (push_back pend frame, p) else Ret (pend, p)) in
      match back pend with
      | None => Undef
      | Some last => let! p := push_ptr p last mbuf in route_loop src pend p
      end
  end.

Definition RouteInto (d : Dispatcher) (target : Z) (src : Frame) : outcome Dispatcher :=
  let! pend := at_ (pending_ d) (Z.to_nat target) in
  let! items := frame_items src in
  let! '(pend, p) := route_loop items pend (pool_ d) in
  Ret (set_pool (set_pending d (<[Z.to_nat target := pend]> (pending_ d))) p).

(** The second loop of [RunNode], over [out] in [outs]. *)
Fixpoint route_outs (g : Graph W) (node_id : Z) (outs : list nat) (d : Dispatcher) : outcome Dispatcher :=
  match outs with
  | [] => Ret d
  | out :: outs =>
      let! target := Target g node_id out in
      let! f := at_ (scratch_ d) out in
      if (target =? kInvalid) || (count f =? 0) then route_outs g node_id outs d
      else
        let! d := RouteInto d target f in
        let! d := Schedule d target in
        route_outs g node_id outs d
  end.

(** [RunNode(node_id, *frame)]; [std::span{scratch_.data(), fanout}] needs
    [fanout <= kMaxFanout]. *)
Definition RunNode (g : Graph W) (d : Dispatcher) (w : W) (node_id : Z) (frame : nat) : outcome (Dispatcher * W) :=
  let! fanout := Fanout g node_id in
  let fanout := Z.to_nat fanout in
  if (length (scratch_ d) <? fanout)%nat then Undef
  else
    let cleared := Clear <$> take fanout (scratch_ d) in
    let! node := GetNode g node_id in
    let! f := at_ (storage_ (pool_ d)) frame in
    let! '(w, f, nexts) := Process node w f cleared in
    let d := set_scratch d (nexts ++ drop fanout (scratch_ d)) in
    let d := set_pool d (mkFramePool (<[frame := f]> (storage_ (pool_ d))) (ffree_ (pool_ d))) in
    let! d := route_outs g node_id (seq 0 fanout) d in
    Ret (d, w).

(** The loop of [DrainNode] over [drain_scratch_]. *)
Fixpoint drain_loop (g : Graph W) (node_id : Z) (frames : list nat) (d : Dispatcher) (w : W)
  : outcome (Dispatcher * W) :=
  match frames with
  | [] => Ret (d, w)
  | frame :: frames =>
      let! '(d, w) := RunNode g d w node_id frame in
      let! p := FRelease (pool_ d) frame in
      drain_loop g node_id frames (set_pool d p) w
  end.

Definition DrainNode (g : Graph W) (d : Dispatcher) (w : W) (node_id : Z) : outcome (Dispatcher * W) :=
  let! drain_scratch := at_ (pending_ d) (Z.to_nat node_id) in
  drain_loop g node_id drain_scratch (set_pending d (<[Z.to_nat node_id := []]> (pending_ d))) w.

Fixpoint release_all (frames : list nat) (p : FramePool) : outcome FramePool :=
  match frames with
  | [] => Ret p
  | frame :: frames => let! p := FRelease p frame in release_all frames p
  end.

Definition Reset (d : Dispatcher) : outcome Dispatcher :=
  let! p := release_all (concat (pending_ d)) (pool_ d) in
  Ret (mkDispatcher (replicate (length (pending_ d)) []) (replicate (length (scheduled_ d)) 0) [] (scratch_ d) p).

Fixpoint push_all (items : list mbuf_ptr) (frame : nat) (p : FramePool) : outcome FramePool :=
  match items with
  | [] => Ret p
  | mbuf :: items => let! p := push_ptr p frame mbuf in push_all items frame p
  end.

(** The body of the [while (!queue_.empty())] loop, for [node_id] at the back of the
    queue. *)
Definition drain_back (g : Graph W) (d : Dispatcher) (w : W) (node_id : Z) : outcome (Dispatcher * W) :=
  let! scheduled := set_at (scheduled_ d) (Z.to_nat node_id) 0 in
  DrainNode g (set_queue d scheduled (pop_back (queue_ d))) w node_id.

(** The loop. *)
Fixpoint run_queue (fuel : nat) (g : Graph W) (d : Dispatcher) (w : W) : outcome (Dispatcher * W) :=
  match back (queue_ d) with
  | None => Ret (d, w)
  | Some node_id =>
      match fuel with
      | O => OutOfFuel
      | S fuel =>
          let! '(d, w) := drain_back g d w node_id in
          run_queue fuel g d w
      end
  end.

(** [RunOnce] up to the loop: the root's frame waits in front of the root. *)
Definition seed_root (d : Dispatcher) (root : Z) (root_frame : Frame) : outcome Dispatcher :=
  let! d := Reset d in
  let! '(seed, p) := FAcquire (pool_ d) in
  let! items := frame_items root_frame in
  let! p := push_all items seed p in
  let! pend := at_ (pending_ d) (Z.to_nat root) in
  let d := set_pool (set_pending d (<[Z.to_nat root := push_back pend seed]> (pending_ d))) p in
  Schedule d root.

Definition RunOnce (fuel : nat) (g : Graph W) (root : Z) (d : Dispatcher) (w : W) (root_frame : Frame)
  : outcome (Dispatcher * W) :=
  let! d := seed_root d root root_frame in
  run_queue fuel g d w.

End Graph.
