(* ===== verification/GraphFacts.v ===== *)
(** * The packet graph: frames, the pool and one dispatch, proved

    [PInv p used]: the frames of the pool are split between the free list and the
    frames in use, each exactly once. Routing and dispatching keep it and move
    packets without losing, copying or overflowing any. *)

From S2P Require Import Prelude NetTypes Graph.

(** ** Frames *)

Definition frame_wf (f : Frame) : Prop :=
  length (bufs f) = Z.to_nat kBurstSize /\ 0 <= count f <= kBurstSize.

Lemma Frame_new_wf : frame_wf Frame_new.
Proof. split; [apply length_replicate|simpl; unfold kBurstSize; lia]. Qed.

Lemma Clear_wf f : frame_wf f -> frame_wf (Clear f).
Proof. intros [Hl Hc]. split; [done|simpl; unfold kBurstSize; lia]. Qed.

Lemma packets_Clear f : packets (Clear f) = [].
Proof. done. Qed.

Lemma length_packets f : frame_wf f -> Z.of_nat (length (packets f)) = count f.
Proof. intros [Hl Hc]. unfold packets. rewrite length_take. lia. Qed.

Lemma packets_nil f : frame_wf f -> count f = 0 <-> packets f = [].
Proof.
  intros Hf. pose proof (length_packets f Hf). split; intros E.
  - apply length_zero_iff_nil. lia.
  - rewrite E in H. simpl in H. lia.
Qed.

Lemma frame_items_wf f : frame_wf f -> frame_items f = Ret (packets f).
Proof. intros [Hl Hc]. unfold frame_items. destruct (Z.leb_spec (count f) (Z.of_nat (length (bufs f)))); [done|lia]. Qed.

(** [Push] on a frame that is not full appends the packet. *)
Lemma Push_spec f m :
  frame_wf f -> Full f = false ->
  exists f', Push f m = Ret f' /\ frame_wf f' /\ packets f' = packets f ++ [m] /\ count f' = count f + 1.
Proof.
  intros [Hl Hc] Hfull. unfold Full, kBurstSize in *. bool_prop. unfold Push, kBurstSize.
  destruct (Z.ltb_spec (count f) 64); [|lia].
  assert (Hlt : (Z.to_nat (count f) < length (bufs f))%nat) by lia.
  unfold set_at. destruct (lookup_lt_is_Some_2 _ _ Hlt) as [x Hx]. rewrite Hx. simpl.
  eexists. split; [done|]. unfold frame_wf, packets. simpl. rewrite u16_small by lia. split_and!.
  - now rewrite length_insert.
  - lia.
  - unfold kBurstSize. lia.
  - replace (Z.to_nat (count f + 1)) with (S (Z.to_nat (count f))) by lia.
    rewrite (take_S_r _ _ m); [|now apply list_lookup_insert_eq]. f_equal. now rewrite take_insert_ge.
  - done.
Qed.

Lemma Push_full_undef f m : Full f = true -> Push f m = Undef.
Proof. unfold Full, Push. intros E. bool_prop. rewrite E. done. Qed.

(** ** The frame pool *)

Record PInv (p : FramePool) (used : list nat) : Prop := {
  pi_wf : Forall frame_wf (storage_ p);
  pi_part : ffree_ p ++ used ≡ₚ seq 0 (length (storage_ p));
}.

(** The packets in the frames [ptrs]. *)
Definition pkts (p : FramePool) (ptrs : list nat) : list mbuf_ptr :=
  ptrs ≫= fun q => packets (storage_ p !!! q).

(** [p'] agrees with [p] on the frames [ptrs]. *)
Definition agree (p p' : FramePool) (ptrs : list nat) : Prop :=
  forall q, q ∈ ptrs -> storage_ p' !! q = storage_ p !! q.

Lemma agree_pkts p p' ptrs : agree p p' ptrs -> pkts p' ptrs = pkts p ptrs.
Proof.
  intros Ha. unfold pkts. induction ptrs as [|q ptrs IH]; [done|]. simpl. f_equal.
  - rewrite !list_lookup_total_alt. rewrite Ha; [done|]. apply list_elem_of_here.
  - apply IH. intros r Hr. apply Ha. now apply list_elem_of_further.
Qed.

Lemma agree_trans p1 p2 p3 ptrs : agree p1 p2 ptrs -> agree p2 p3 ptrs -> agree p1 p3 ptrs.
Proof. intros H1 H2 q Hq. rewrite H2, H1 by done. done. Qed.

Lemma agree_sub p p' l1 l2 : agree p p' l2 -> (forall q, q ∈ l1 -> q ∈ l2) -> agree p p' l1.
Proof. intros Ha Hs q Hq. apply Ha. auto. Qed.

Lemma PInv_perm p used used' : PInv p used -> used ≡ₚ used' -> PInv p used'.
Proof. intros [Hw Hp] E. split; [done|]. now rewrite <- E. Qed.

Lemma PInv_NoDup p used : PInv p used -> NoDup (ffree_ p ++ used).
Proof. intros [_ Hp]. rewrite Hp. apply NoDup_seq. Qed.

Lemma PInv_NoDup_used p used : PInv p used -> NoDup used.
Proof. intros Hp%PInv_NoDup. now apply NoDup_app in Hp as (_ & _ & ?). Qed.

Lemma PInv_lookup p used q :
  PInv p used -> q ∈ used -> exists f, storage_ p !! q = Some f /\ frame_wf f.
Proof.
  intros [Hw Hp] Hq. assert (Hin : q ∈ ffree_ p ++ used) by (apply elem_of_app; now right).
  rewrite Hp in Hin. apply elem_of_seq in Hin.
  destruct (lookup_lt_is_Some_2 (storage_ p) q) as [f Hf]; [lia|]. exists f. split; [done|].
  eapply Forall_lookup_1; eauto.
Qed.

Lemma FAcquire_spec p used :
  PInv p used ->
  exists q p' f, FAcquire p = Ret (q, p') /\ PInv p' (q :: used) /\ agree p p' used /\
    storage_ p' !! q = Some f /\ count f = 0.
Proof.
  intros Hinv. pose proof Hinv as [Hw Hp]. unfold FAcquire.
  destruct (back (ffree_ p)) as [q|] eqn:E.
  - apply back_pop_back in E. assert (Hin : q ∈ ffree_ p ++ used).
    { apply elem_of_app. left. rewrite E. apply elem_of_app. right. apply list_elem_of_here. }
    rewrite Hp in Hin. apply elem_of_seq in Hin.
    destruct (lookup_lt_is_Some_2 (storage_ p) q) as [f Hf]; [lia|].
    unfold at_. rewrite Hf. simpl. exists q, (mkFramePool (<[q := Clear f]> (storage_ p)) (pop_back (ffree_ p))), (Clear f).
    split_and!; try done.
    + split; simpl.
      * apply Forall_insert; [done|]. apply Clear_wf. eapply Forall_lookup_1; eauto.
      * rewrite length_insert, <- Hp. rewrite E at 2. rewrite <- app_assoc. done.
    + intros r Hr. simpl. apply list_lookup_insert_ne. intros <-.
      apply PInv_NoDup in Hinv. rewrite E in Hinv. rewrite <- app_assoc in Hinv.
      apply NoDup_app in Hinv as (_ & _ & Hn). simpl in Hn. apply NoDup_cons in Hn as [Hn _]. done.
    + simpl. apply list_lookup_insert_eq. lia.
  - apply back_None in E. rewrite E in *. simpl in *.
    eexists _, _, Frame_new. split_and!; [done|..]; try done.
    + split; simpl.
      * apply Forall_app. split; [done|]. constructor; [apply Frame_new_wf|done].
      * unfold push_back. rewrite length_app. simpl. rewrite Hp, Nat.add_1_r, seq_S. simpl. apply Permutation_cons_append.
    + intros r Hr. simpl. unfold push_back. apply lookup_app_l.
      rewrite Hp in Hr. apply elem_of_seq in Hr. lia.
    + simpl. unfold push_back. rewrite lookup_app_r, Nat.sub_diag by done. done.
Qed.

Lemma FRelease_spec p q used :
  PInv p (q :: used) -> exists p', FRelease p q = Ret p' /\ PInv p' used /\ agree p p' used.
Proof.
  intros Hinv. destruct (PInv_lookup p _ q Hinv (list_elem_of_here _ _)) as (f & Hf & Hwf).
  unfold FRelease, at_. rewrite Hf. simpl. eexists. split; [done|]. pose proof Hinv as [Hw Hp]. split.
  - split; simpl; [apply Forall_insert; [done|now apply Clear_wf]|].
    rewrite length_insert, <- Hp. unfold push_back. rewrite <- app_assoc. done.
  - intros r Hr. simpl. apply list_lookup_insert_ne. intros <-.
    apply PInv_NoDup_used in Hinv. now apply NoDup_cons in Hinv as [? _].
Qed.

(** Pushing a packet through a pointer. *)
Lemma push_ptr_spec p q used f m :
  PInv p (q :: used) -> storage_ p !! q = Some f -> Full f = false ->
  exists p' f', push_ptr p q m = Ret p' /\ PInv p' (q :: used) /\ agree p p' used /\
    storage_ p' !! q = Some f' /\ packets f' = packets f ++ [m] /\ count f' = count f + 1.
Proof.
  intros Hinv Hf Hfull. destruct (PInv_lookup p _ q Hinv (list_elem_of_here _ _)) as (f0 & Hf0 & Hwf).
  rewrite Hf in Hf0. injection Hf0 as <-. destruct (Push_spec f m Hwf Hfull) as (f' & E & Hwf' & Hpk & Hc).
  unfold push_ptr, at_. rewrite Hf. simpl. rewrite E. simpl. eexists _, f'. split; [done|].
  pose proof Hinv as [Hw Hp]. split_and!; try done.
  - split; simpl; [now apply Forall_insert|]. now rewrite length_insert.
  - intros r Hr. simpl. apply list_lookup_insert_ne. intros <-.
    apply PInv_NoDup_used in Hinv. now apply NoDup_cons in Hinv as [? _].
  - simpl. apply list_lookup_insert_eq. now apply lookup_lt_Some in Hf.
Qed.

(** ** Routing packets into a node's pending frames *)

Lemma pkts_app p l1 l2 : pkts p (l1 ++ l2) = pkts p l1 ++ pkts p l2.
Proof. unfold pkts. apply bind_app. Qed.

Lemma pkts_one p q f : storage_ p !! q = Some f -> pkts p [q] = packets f.
Proof. intros Hf. unfold pkts. simpl. rewrite app_nil_r. now rewrite (list_lookup_total_correct _ _ _ Hf). Qed.

Lemma pkts_perm p l1 l2 : l1 ≡ₚ l2 -> pkts p l1 ≡ₚ pkts p l2.
Proof. intros E. unfold pkts. now rewrite E. Qed.

(** Appending one packet to the last pending frame. *)
Lemma push_last_spec p pend q used f m :
  PInv p ((pend ++ [q]) ++ used) -> storage_ p !! q = Some f -> Full f = false ->
  exists p', push_ptr p q m = Ret p' /\ PInv p' ((pend ++ [q]) ++ used) /\ agree p p' (pend ++ used) /\
    pkts p' (pend ++ [q]) = pkts p (pend ++ [q]) ++ [m].
Proof.
  intros Hinv Hf Hfull.
  assert (Hperm : (pend ++ [q]) ++ used ≡ₚ q :: pend ++ used)
    by (rewrite <- app_assoc; symmetry; apply Permutation_middle).
  destruct (push_ptr_spec p q (pend ++ used) f m (PInv_perm _ _ _ Hinv Hperm) Hf Hfull)
    as (p' & f' & E & Hinv' & Ha & Hf' & Hpk & _).
  exists p'. split_and!; [done|by eapply PInv_perm|done|].
  rewrite !pkts_app, (pkts_one p q f), (pkts_one p' q f'), Hpk by done.
  rewrite (agree_pkts p p' pend); [now rewrite app_assoc|].
  eapply agree_sub; [exact Ha|]. intros r Hr. apply elem_of_app. now left.
Qed.

Lemma needs_frame_spec p pend used :
  PInv p (pend ++ used) ->
  exists b, needs_frame p pend = Ret b /\
    (b = false -> exists pend0 q f, pend = pend0 ++ [q] /\ storage_ p !! q = Some f /\ Full f = false).
Proof.
  intros Hinv. unfold needs_frame. destruct (back pend) as [q|] eqn:E; [|now exists true].
  apply back_pop_back in E.
  destruct (PInv_lookup p _ q Hinv) as (f & Hf & _).
  { rewrite E. apply elem_of_app. left. apply elem_of_app. right. apply list_elem_of_here. }
  unfold at_. rewrite Hf. simpl. exists (Full f). split; [done|]. eauto 10.
Qed.

Lemma route_loop_spec src p pend used :
  PInv p (pend ++ used) ->
  exists pend' p', route_loop src pend p = Ret (pend', p') /\ PInv p' (pend' ++ used) /\
    agree p p' used /\ pkts p' pend' = pkts p pend ++ src /\ (src = [] -> pend' = pend).
Proof.
  revert p pend. induction src as [|m src IH]; intros p pend Hinv.
  { exists pend, p. split_and!; try done. now rewrite app_nil_r. }
  cbn [route_loop]. destruct (needs_frame_spec p pend used Hinv) as (fresh & -> & Hold). cbn [obind].
  assert (Hstep : exists pend1 q p1 f,
    (if fresh : bool then let! '(frame, p) := FAcquire p in Ret (push_back pend frame, p) else Ret (pend, p))
      = Ret (pend1 ++ [q], p1) /\
    PInv p1 ((pend1 ++ [q]) ++ used) /\ agree p p1 used /\ storage_ p1 !! q = Some f /\ Full f = false /\
    pkts p1 (pend1 ++ [q]) = pkts p pend).
  { destruct fresh.
    - destruct (FAcquire_spec p _ Hinv) as (q & p1 & f & -> & Hinv1 & Ha & Hf & Hc). simpl.
      exists pend, q, p1, f. split_and!; try done.
      + eapply PInv_perm; [exact Hinv1|]. rewrite <- app_assoc. apply Permutation_middle.
      + eapply agree_sub; [exact Ha|]. intros r Hr. apply elem_of_app. now right.
      + unfold Full. now rewrite Hc.
      + rewrite pkts_app, (pkts_one _ _ f Hf).
        assert (Hwf : frame_wf f).
        { destruct (PInv_lookup _ _ q Hinv1 (list_elem_of_here _ _)) as (f0 & Hf0 & ?). congruence. }
        apply packets_nil in Hc as ->; [|done]. rewrite app_nil_r. apply agree_pkts.
        eapply agree_sub; [exact Ha|]. intros r Hr. apply elem_of_app. now left.
    - destruct (Hold eq_refl) as (pend0 & q & f & -> & Hf & Hfull). exists pend0, q, p, f. split_and!; done. }
  destruct Hstep as (pend1 & q & p1 & f & -> & Hinv1 & Ha1 & Hf1 & Hfull & Hpk1). cbn [obind].
  replace (back (pend1 ++ [q])) with (Some q) by (symmetry; apply last_snoc).
  destruct (push_last_spec p1 pend1 q used f m Hinv1 Hf1 Hfull) as (p2 & -> & Hinv2 & Ha2 & Hpk2). cbn [obind].
  destruct (IH p2 (pend1 ++ [q]) Hinv2) as (pend' & p' & E & Hinv' & Ha' & Hpk' & _).
  exists pend', p'. split_and!; try done.
  - eapply agree_trans; [exact Ha1|]. eapply agree_trans; [|exact Ha'].
    eapply agree_sub; [exact Ha2|]. intros r Hr. apply elem_of_app. now right.
  - rewrite Hpk', Hpk2, Hpk1, <- app_assoc. done.
Qed.

(** ** What the dispatcher expects of nodes and of the graph *)

(** What a world offers to the proofs: the packets outside the graph (freed, sent,
    on a ring, not yet received) and what nodes keep true of it. *)
Class World (W : Type) := {
  owned : W -> list mbuf_ptr;
  world_ok : W -> Prop;
}.

Section Dispatch.
Context {W : Type} `{World W}.

(** Which nodes are sources. *)
Context (source : nat -> bool).

Implicit Types (g : Graph W) (d : Dispatcher) (w : W).

(** A node returns, and every packet of its input is then in one of its outputs or
    outside the graph; packets it brings in come from outside. A source (a receive
    node) overwrites its input, which must be empty. *)
Definition Node_ok (source : bool) (node : Node W) : Prop :=
  forall w f nexts, world_ok w -> frame_wf f -> (source = true -> packets f = []) ->
  length nexts = Z.to_nat (NextCount node) -> Forall (fun o => frame_wf o /\ count o = 0) nexts ->
  exists w' f' nexts', Process node w f nexts = Ret (w', f', nexts') /\ world_ok w' /\ frame_wf f' /\
    length nexts' = length nexts /\ Forall frame_wf nexts' /\
    owned w' ++ concat (packets <$> nexts') ≡ₚ owned w ++ packets f.

Record graph_ok g : Prop := {
  go_count : Z.of_nat (length (nodes_ g)) < kInvalid;
  go_routing : length (routing_ g) = length (nodes_ g);
  go_nodes : forall v node, nodes_ g !! v = Some node -> Node_ok (source v) node;
  go_fanout : forall v node outs, nodes_ g !! v = Some node -> routing_ g !! v = Some outs ->
    length outs = Z.to_nat (NextCount node) /\ (length outs <= kMaxFanout)%nat;
  go_targets : forall v outs t, routing_ g !! v = Some outs -> t ∈ outs ->
    0 <= t < Z.of_nat (length (nodes_ g)) /\ source (Z.to_nat t) = false;
}.

(** Edges go up in rank, and ranks are at most [R]: the graph has no cycle. *)
Definition ranked g (rank : Z -> nat) (R : nat) : Prop :=
  forall v outs t, routing_ g !! v = Some outs -> t ∈ outs -> (rank (Z.of_nat v) < rank t <= R)%nat.

(** [fl] are the frames taken from [pending_] that are being drained. *)
Record DInv g d (fl : list nat) : Prop := {
  di_pending : length (pending_ d) = length (nodes_ g);
  di_sched : length (scheduled_ d) = length (nodes_ g);
  di_scratch : length (scratch_ d) = kMaxFanout /\ Forall frame_wf (scratch_ d);
  di_pool : PInv (pool_ d) (concat (pending_ d) ++ fl);
  di_queue : Forall (fun v => 0 <= v < Z.of_nat (length (nodes_ g))) (queue_ d);
  di_flag : forall v s, scheduled_ d !! v = Some s -> s <> 0 -> Z.of_nat v ∈ queue_ d;
  di_work : forall v p, pending_ d !! v = Some p -> p <> [] -> Z.of_nat v ∈ queue_ d;
  di_source : forall v p, pending_ d !! v = Some p -> source v = true -> pkts (pool_ d) p = [];
}.

Lemma elem_of_pending d v p (q : nat) : pending_ d !! v = Some p -> q ∈ p -> q ∈ concat (pending_ d).
Proof.
  intros Hv Hq. destruct (concat_insert_split _ _ _ Hv) as (rest & -> & _). apply elem_of_app. now left.
Qed.

(** Packets waiting in front of nodes. *)
Definition waiting d : list mbuf_ptr := pkts (pool_ d) (concat (pending_ d)).

Definition flagged d (t : Z) : Prop := exists s, scheduled_ d !! Z.to_nat t = Some s /\ s <> 0.

(** From [d] to [d'] only nodes of [T] were scheduled, each at most once. *)
Definition grows (T : list Z) d d' : Prop :=
  exists new, queue_ d' = queue_ d ++ new /\ NoDup new /\
    (forall t, t ∈ new -> t ∈ T /\ ~ flagged d t /\ flagged d' t) /\
    (forall t, flagged d t -> flagged d' t).

Lemma grows_refl T d : grows T d d.
Proof.
  exists []. split_and!; [now rewrite app_nil_r|constructor| |done].
  intros t Ht. now apply elem_of_nil in Ht.
Qed.

Lemma grows_trans T d1 d2 d3 : grows T d1 d2 -> grows T d2 d3 -> grows T d1 d3.
Proof.
  intros (n1 & E1 & N1 & H1 & F1) (n2 & E2 & N2 & H2 & F2). exists (n1 ++ n2). split_and!.
  - now rewrite E2, E1, app_assoc.
  - apply NoDup_app. split_and!; try done. intros t Ht1 Ht2. apply H1 in Ht1. apply H2 in Ht2. tauto.
  - intros t [Ht|Ht]%elem_of_app.
    + apply H1 in Ht as (? & ? & ?). auto.
    + apply H2 in Ht as (? & Hn & ?). split_and!; [done|intros Hf; apply Hn; auto|done].
  - auto.
Qed.

(** [RouteInto] alone: the frame's packets are now waiting in front of [t]. *)
Lemma route_pending g d fl t f :
  DInv g d fl -> 0 <= t < Z.of_nat (length (nodes_ g)) -> source (Z.to_nat t) = false -> frame_wf f ->
  exists pend' p', let pending' := <[Z.to_nat t := pend']> (pending_ d) in
    RouteInto d t f = Ret (set_pending (set_pool d p') pending') /\ PInv p' (concat pending' ++ fl) /\
    agree (pool_ d) p' fl /\ pkts p' (concat pending') ≡ₚ waiting d ++ packets f /\
    forall v p, pending' !! v = Some p -> source v = true -> pkts p' p = [].
Proof.
  intros [Hp Hs Hsc Hpool Hq Hfl Hw Hsrc] Ht Hns Hf. unfold RouteInto.
  destruct (lookup_lt_is_Some_2 (pending_ d) (Z.to_nat t)) as [pend Hpend]; [lia|].
  rewrite (proj2 (at_Ret _ _ pend)) by done. cbn [obind]. rewrite frame_items_wf by done. cbn [obind].
  destruct (concat_insert_split _ _ _ Hpend) as (rest & Hc & Hci).
  destruct (route_loop_spec (packets f) (pool_ d) pend (rest ++ fl)) as (pend' & p' & -> & Hinv' & Ha & Hpk & _).
  { eapply PInv_perm; [exact Hpool|]. now rewrite Hc, app_assoc. }
  cbn [obind]. exists pend', p'. split; [done|].
  assert (Hrest : agree (pool_ d) p' rest) by (eapply agree_sub; [exact Ha|]; intros r Hr; apply elem_of_app; auto).
  split; [eapply PInv_perm; [exact Hinv'|]; now rewrite (Hci pend'), app_assoc|].
  split; [eapply agree_sub; [exact Ha|]; intros r Hr; apply elem_of_app; auto|]. split.
  { unfold waiting. rewrite (pkts_perm _ _ _ (Hci pend')), (pkts_perm _ _ _ Hc), !pkts_app, Hpk, (agree_pkts (pool_ d) p' rest) by done.
    rewrite <- !app_assoc. apply Permutation_app_head, Permutation_app_comm. }
  intros v p Hv Hsv. destruct (decide (v = Z.to_nat t)) as [->|Hvt]; [congruence|].
  rewrite list_lookup_insert_ne in Hv by done.
  assert (Hv2 : <[Z.to_nat t := []]> (pending_ d) !! v = Some p) by now rewrite list_lookup_insert_ne.
  rewrite (agree_pkts (pool_ d)); [eauto|]. eapply agree_sub; [exact Hrest|]. intros r Hr.
  destruct (concat_insert_split _ _ _ Hv2) as (rest2 & Hc2 & _).
  rewrite (Hci []) in Hc2. simpl in Hc2. rewrite Hc2. apply elem_of_app. now left.
Qed.

(** Routing a non-empty frame to a node and scheduling it. *)
Lemma route_one g d fl T t f :
  DInv g d fl -> 0 <= t < Z.of_nat (length (nodes_ g)) -> source (Z.to_nat t) = false -> t ∈ T -> frame_wf f ->
  exists d1 d2, RouteInto d t f = Ret d1 /\ Schedule d1 t = Ret d2 /\ DInv g d2 fl /\
    agree (pool_ d) (pool_ d2) fl /\ waiting d2 ≡ₚ waiting d ++ packets f /\
    scratch_ d2 = scratch_ d /\ grows T d d2.
Proof.
  intros Hd Ht Hns HT Hf. destruct (route_pending g d fl t f Hd Ht Hns Hf) as (pend' & p' & HR & Hpool' & Hag & Hwait & Hsrc').
  destruct Hd as [Hp Hs Hsc Hpool Hq Hfl Hw Hsrc]. set (pending' := <[Z.to_nat t := pend']> (pending_ d)) in *.
  assert (Hlp : length pending' = length (nodes_ g)) by (unfold pending'; now rewrite length_insert).
  assert (Hwork : forall q : list Z, (forall u, u ∈ queue_ d -> u ∈ q) -> t ∈ q ->
    forall v p, pending' !! v = Some p -> p <> [] -> Z.of_nat v ∈ q).
  { intros q Hsub Htq v p Hv Hne. destruct (decide (v = Z.to_nat t)) as [->|Hvt].
    - now rewrite Z2Nat.id by lia.
    - unfold pending' in Hv. rewrite list_lookup_insert_ne in Hv by done. eauto. }
  destruct (lookup_lt_is_Some_2 (scheduled_ d) (Z.to_nat t)) as [s Hsl]; [lia|].
  exists (set_pending (set_pool d p') pending'). unfold Schedule. cbn [scheduled_ set_pool set_pending]. rewrite (proj2 (at_Ret _ _ s)) by done. cbn [obind].
  destruct (Z.eqb_spec s 0) as [->|Hnz]; eexists; (split; [exact HR|split; [done|]]).
  - split_and!; try done; [split; simpl; try done|].
    + now rewrite length_insert.
    + apply Forall_app. split; [done|]. now constructor.
    + intros v s Hv Hsv. apply elem_of_app. destruct (decide (v = Z.to_nat t)) as [->|Hvt].
      * right. rewrite Z2Nat.id by lia. apply list_elem_of_here.
      * left. rewrite list_lookup_insert_ne in Hv by done. eauto.
    + apply Hwork; intros; apply elem_of_app; [now left|right; apply list_elem_of_here].
    + exists [t]. unfold flagged. simpl. split_and!; [done|apply NoDup_singleton| |].
      * intros u ->%list_elem_of_singleton. split_and!; [done|intros (x & Hx & ?); congruence|].
        exists 1. split; [|done]. apply list_lookup_insert_eq. lia.
      * intros u (x & Hx & Hxz). destruct (decide (Z.to_nat u = Z.to_nat t)) as [Eu|Hut].
        -- rewrite Eu in *. congruence.
        -- exists x. now rewrite list_lookup_insert_ne.
  - split_and!; try done; [split; simpl; try done|exact (grows_refl T d)].
    apply Hwork; [done|]. rewrite <- (Z2Nat.id t) by lia. eauto.
Qed.

(** The second loop of [RunNode]: the packets of the outputs are all routed. *)
Lemma route_outs_spec g v outs d fl T :
  graph_ok g -> DInv g d fl -> routing_ g !! Z.to_nat v = Some T ->
  Forall (fun o => (o < length T)%nat) outs ->
  exists d', route_outs g v outs d = Ret d' /\ DInv g d' fl /\ agree (pool_ d) (pool_ d') fl /\
    waiting d' ≡ₚ waiting d ++ (outs ≫= fun o => packets (scratch_ d !!! o)) /\
    scratch_ d' = scratch_ d /\ grows T d d'.
Proof.
  intros Hg Hinv HT. revert d Hinv. induction outs as [|o outs IH]; intros d Hinv Hall.
  { exists d. simpl. split_and!; try done; [now rewrite app_nil_r|apply grows_refl]. }
  apply Forall_cons in Hall as [Ho Hall]. cbn [route_outs].
  destruct (lookup_lt_is_Some_2 T o Ho) as [t Ht].
  assert (Hto : t ∈ T) by (eapply list_elem_of_lookup_2; eauto).
  pose proof (go_targets g Hg _ _ _ HT Hto) as [Hrange Hns]. pose proof (go_count g Hg) as Hcount.
  unfold Target. rewrite (proj2 (at_Ret _ _ T)) by done. cbn [obind].
  rewrite (proj2 (at_Ret _ _ t)) by done. cbn [obind].
  destruct (di_scratch _ _ _ Hinv) as [Hsl Hsw].
  assert (Hlt : (length T <= kMaxFanout)%nat).
  { destruct (lookup_lt_is_Some_2 (nodes_ g) (Z.to_nat v)) as [node Hn].
    { rewrite <- (go_routing g Hg). now apply lookup_lt_Some in HT. }
    eapply go_fanout; eauto. }
  destruct (lookup_lt_is_Some_2 (scratch_ d) o) as [f Hf]; [lia|].
  rewrite (proj2 (at_Ret _ _ f)) by done. cbn [obind].
  pose proof (Forall_lookup_1 _ _ _ _ Hsw Hf) as Hwf.
  assert (Hff : scratch_ d !!! o = f) by now apply list_lookup_total_correct.
  destruct (Z.eqb_spec t kInvalid); [lia|]. simpl. rewrite Hff.
  destruct (Z.eqb_spec (count f) 0) as [Hc|Hc].
  - apply packets_nil in Hc as ->; [|done]. simpl. now apply IH.
  - destruct (route_one g d fl T t f Hinv Hrange Hns Hto Hwf) as (d1 & d2 & -> & E2 & Hinv2 & Ha2 & Hw2 & Hs2 & Hg2).
    cbn [obind]. rewrite E2. cbn [obind].
    destruct (IH d2 Hinv2 Hall) as (d' & -> & Hinv' & Ha' & Hw' & Hs' & Hg').
    exists d'. split_and!; try done; try congruence.
    + eapply agree_trans; eauto.
    + rewrite Hw', Hw2, Hs2, <- app_assoc. done.
    + eapply grows_trans; eauto.
Qed.

Lemma seq_bind_packets (pre nexts rest : list Frame) :
  (seq (length pre) (length nexts) ≫= fun o => packets ((pre ++ nexts ++ rest) !!! o)) =
  concat (packets <$> nexts).
Proof.
  revert pre. induction nexts as [|f nexts IH]; intros pre; [done|].
  cbn [length seq]. rewrite bind_cons, fmap_cons. cbn [concat]. f_equal.
  - f_equal. apply list_lookup_total_correct. rewrite lookup_app_r, Nat.sub_diag by done. done.
  - specialize (IH (pre ++ [f])). cbn [length] in IH. rewrite length_app, Nat.add_1_r in IH.
    rewrite <- IH, <- app_assoc. done.
Qed.

Lemma DInv_update g d fl frame f nexts n :
  DInv g d (frame :: fl) -> frame_wf f -> Forall frame_wf nexts -> length nexts = n -> (n <= kMaxFanout)%nat ->
  let d1 := set_pool (set_scratch d (nexts ++ drop n (scratch_ d)))
              (mkFramePool (<[frame := f]> (storage_ (pool_ d))) (ffree_ (pool_ d))) in
  DInv g d1 (frame :: fl) /\ agree (pool_ d) (pool_ d1) fl /\ waiting d1 = waiting d /\ grows [] d d1.
Proof.
  intros [Hp Hs [Hsl Hsw] Hpool Hq Hfl Hw Hsrc] Hf Hn Hln Hle d1.
  assert (Hnd : NoDup (frame :: concat (pending_ d) ++ fl)).
  { eapply PInv_NoDup_used, PInv_perm; [exact Hpool|]. symmetry. apply Permutation_middle. }
  apply NoDup_cons in Hnd as [Hni _].
  assert (Hag : agree (pool_ d) (pool_ d1) (concat (pending_ d) ++ fl)).
  { intros q Hq'. simpl. apply list_lookup_insert_ne. congruence. }
  destruct Hpool as [Hpw Hpp]. split_and!.
  - split; simpl; try done.
    + rewrite length_app, length_drop. split; [lia|]. apply Forall_app. split; [done|]. now apply Forall_drop.
    + split; simpl; [now apply Forall_insert|]. now rewrite length_insert.
    + intros v p Hv Hsv. rewrite <- (Hsrc v p Hv Hsv). apply (agree_pkts (pool_ d) (pool_ d1)).
      eapply agree_sub; [exact Hag|]. intros r Hr. apply elem_of_app. left. eapply elem_of_pending; eauto.
  - eapply agree_sub; [exact Hag|]. intros q Hq'. apply elem_of_app. now right.
  - apply agree_pkts. eapply agree_sub; [exact Hag|]. intros q Hq'. apply elem_of_app. now left.
  - exact (grows_refl [] d).
Qed.

Lemma grows_mono T T' d d' : (forall t, t ∈ T -> t ∈ T') -> grows T d d' -> grows T' d d'.
Proof.
  intros Hs (new & E & Hn & Hin & Hf). exists new. split_and!; try done.
  intros t Ht. apply Hin in Ht as (? & ? & ?). auto.
Qed.

Lemma RunNode_spec g d w v frame fl T :
  graph_ok g -> DInv g d (frame :: fl) -> world_ok w -> routing_ g !! Z.to_nat v = Some T ->
  (source (Z.to_nat v) = true -> pkts (pool_ d) [frame] = []) ->
  exists d' w', RunNode g d w v frame = Ret (d', w') /\ world_ok w' /\ DInv g d' (frame :: fl) /\
    agree (pool_ d) (pool_ d') fl /\ grows T d d' /\
    owned w' ++ waiting d' ≡ₚ owned w ++ waiting d ++ pkts (pool_ d) [frame].
Proof.
  intros Hg Hinv Hw HT Hsv.
  destruct (lookup_lt_is_Some_2 (nodes_ g) (Z.to_nat v)) as [node Hn].
  { rewrite <- (go_routing g Hg). now apply lookup_lt_Some in HT. }
  destruct (go_fanout g Hg _ _ _ Hn HT) as [HlT Hfan].
  destruct (di_scratch _ _ _ Hinv) as [Hsl Hsw].
  unfold RunNode, Fanout. rewrite (proj2 (at_Ret _ _ T)) by done. cbn [obind].
  rewrite u16_small, Nat2Z.id by (unfold kMaxFanout in *; lia).
  destruct (Nat.ltb_spec (length (scratch_ d)) (length T)); [lia|].
  unfold GetNode. rewrite (proj2 (at_Ret _ _ node)) by done. cbn [obind].
  destruct (PInv_lookup _ _ frame (di_pool _ _ _ Hinv)) as (f & Hf & Hwf).
  { apply elem_of_app. right. apply list_elem_of_here. }
  rewrite (proj2 (at_Ret _ _ f)) by done. cbn [obind].
  pose proof (go_nodes g Hg _ _ Hn) as Hok. rewrite (pkts_one _ _ f Hf) in Hsv.
  destruct (Hok w f (Clear <$> take (length T) (scratch_ d)) Hw Hwf Hsv)
    as (w' & f' & nexts & -> & Hw' & Hwf' & Hln & Hnw & Hcons).
  { rewrite length_fmap, length_take. lia. }
  { apply Forall_fmap, Forall_take. eapply Forall_impl; [exact Hsw|]. intros o Ho. split; [now apply Clear_wf|done]. }
  rewrite length_fmap, length_take in Hln. cbn [obind].
  destruct (DInv_update g d fl frame f' nexts (length T) Hinv Hwf' Hnw ltac:(lia) Hfan)
    as (Hinv1 & Ha1 & Hw1 & Hgr1).
  match type of Hinv1 with DInv _ ?x _ => set (d1 := x) in * end.
  destruct (route_outs_spec g v (seq 0 (length T)) d1 (frame :: fl) T Hg Hinv1 HT)
    as (d' & E & Hinv' & Ha' & Hwt' & Hs' & Hgr').
  { apply Forall_forall. intros o Ho%elem_of_seq. lia. }
  match goal with |- context [route_outs g v _ ?x] => change x with d1 end.
  rewrite E. cbn [obind]. exists d', w'. split_and!; try done.
  - eapply agree_trans; [exact Ha1|]. eapply agree_sub; [exact Ha'|]. intros q Hq. now apply list_elem_of_further.
  - rewrite Hwt', Hw1, (pkts_one _ _ f Hf).
    replace (length T) with (length nexts) by lia.
    change (scratch_ d1) with ([] ++ nexts ++ drop (length T) (scratch_ d)).
    rewrite (seq_bind_packets [] nexts).
    rewrite !(Permutation_app_comm (waiting d)), !app_assoc. now apply Permutation_app_tail.
Qed.

(** A frame that has been drained goes back to the pool. *)
Lemma release_frame_spec g d frame frames :
  DInv g d (frame :: frames) ->
  exists p, FRelease (pool_ d) frame = Ret p /\ DInv g (set_pool d p) frames /\ agree (pool_ d) p (concat (pending_ d) ++ frames).
Proof.
  intros [Hp Hs Hsc Hpool Hq Hfl Hwk Hsrc].
  destruct (FRelease_spec (pool_ d) frame (concat (pending_ d) ++ frames)) as (p & E & Hpool' & Ha).
  { eapply PInv_perm; [exact Hpool|]. symmetry. apply Permutation_middle. }
  exists p. split; [exact E|]. split; [|exact Ha]. split; try done.
  intros u pend Hu Hsu. cbn [pool_ set_pool]. rewrite (agree_pkts (pool_ d) p); [eauto|].
  eapply agree_sub; [exact Ha|]. intros r Hr. apply elem_of_app. left. eapply elem_of_pending; eauto.
Qed.

(** Draining a node: every frame that waited is processed and goes back to the
    pool. *)
Lemma drain_loop_spec g v T frames d w :
  graph_ok g -> routing_ g !! Z.to_nat v = Some T -> DInv g d frames -> world_ok w ->
  (source (Z.to_nat v) = true -> pkts (pool_ d) frames = []) ->
  exists d' w', drain_loop g v frames d w = Ret (d', w') /\ world_ok w' /\ DInv g d' [] /\ grows T d d' /\
    owned w' ++ waiting d' ≡ₚ owned w ++ waiting d ++ pkts (pool_ d) frames.
Proof.
  intros Hg HT. revert d w. induction frames as [|frame frames IH]; intros d w Hinv Hw Hsv.
  { exists d, w. split_and!; try done; [apply grows_refl|]. unfold pkts. simpl. now rewrite app_nil_r. }
  cbn [drain_loop]. change (frame :: frames) with ([frame] ++ frames) in Hsv. rewrite pkts_app in Hsv.
  destruct (RunNode_spec g d w v frame frames T Hg Hinv Hw HT ltac:(intros Hs; now apply app_nil in Hsv as [? _]))
    as (d1 & w1 & -> & Hw1 & Hinv1 & Ha1 & Hgr1 & Hc1). cbn [obind].
  destruct (release_frame_spec g d1 frame frames Hinv1) as (p2 & -> & Hinv2 & Ha2). cbn [obind].
  assert (Hsv2 : source (Z.to_nat v) = true -> pkts p2 frames = []).
  { intros Hs1. apply app_nil in Hsv as [_ Hsv]; [|done]. rewrite <- Hsv, <- (agree_pkts _ _ _ Ha1).
    apply agree_pkts. eapply agree_sub; [exact Ha2|]. intros r Hr. apply elem_of_app. now right. }
  destruct (IH (set_pool d1 p2) w1 Hinv2 Hw1 Hsv2) as (d' & w' & -> & Hw' & Hinv' & Hgr' & Hc').
  exists d', w'. split_and!; try done.
  - eapply grows_trans; [exact Hgr1|exact Hgr'].
  - rewrite Hc'. unfold waiting at 1. cbn [pool_ pending_ set_pool].
    rewrite (agree_pkts (pool_ d1) p2) by (eapply agree_sub; [exact Ha2|]; intros; apply elem_of_app; now left).
    rewrite (agree_pkts (pool_ d1) p2 frames) by (eapply agree_sub; [exact Ha2|]; intros; apply elem_of_app; now right).
    rewrite (agree_pkts (pool_ d) (pool_ d1) frames) by done.
    fold (waiting d1). rewrite app_assoc, Hc1, <- !app_assoc. change (frame :: frames) with ([frame] ++ frames).
    now rewrite pkts_app.
Qed.


(** ** The work queue *)

(** Taking the last scheduled node off the queue, and its frames. *)
Lemma drain_begin g d v :
  graph_ok g -> DInv g d [] -> back (queue_ d) = Some v ->
  exists T pend d2, routing_ g !! Z.to_nat v = Some T /\ 0 <= v /\ pending_ d !! Z.to_nat v = Some pend /\
    pending_ d2 = <[Z.to_nat v := []]> (pending_ d) /\ pool_ d2 = pool_ d /\ queue_ d2 = pop_back (queue_ d) /\
    DInv g d2 pend /\ waiting d2 ++ pkts (pool_ d) pend ≡ₚ waiting d /\
    forall w, drain_back g d w v = drain_loop g v pend d2 w.
Proof.
  intros Hg [Hp Hs Hsc Hpool Hq Hfl Hwk Hsrc] Eq%back_pop_back. unfold drain_back.
  set (q := pop_back (queue_ d)) in *. rewrite app_nil_r in Hpool.
  assert (Hv : 0 <= v < Z.of_nat (length (nodes_ g))).
  { rewrite Eq in Hq. apply Forall_app in Hq as [_ Hq]. now apply Forall_cons in Hq as [? _]. }
  destruct (lookup_lt_is_Some_2 (routing_ g) (Z.to_nat v)) as [T HT]; [rewrite (go_routing g Hg); lia|].
  destruct (lookup_lt_is_Some_2 (scheduled_ d) (Z.to_nat v)) as [s Hsv]; [lia|].
  destruct (lookup_lt_is_Some_2 (pending_ d) (Z.to_nat v)) as [pend Hpend]; [lia|].
  unfold set_at. rewrite Hsv. cbn [obind]. unfold DrainNode. cbn [pending_ set_queue].
  rewrite (proj2 (at_Ret _ _ pend)) by done. cbn [obind].
  exists T, pend, (set_pending (set_queue d (<[Z.to_nat v := 0]> (scheduled_ d)) q) (<[Z.to_nat v := []]> (pending_ d))).
  destruct (concat_insert_split _ _ _ Hpend) as (rest & Hc & Hci).
  assert (Hout : forall u, u ∈ q ++ [v] -> Z.to_nat u <> Z.to_nat v -> u ∈ q).
  { intros u [Hu|Hu]%elem_of_app Hne; [done|]. apply list_elem_of_singleton in Hu. congruence. }
  split; [done|]. split; [lia|]. split; [done|]. do 3 (split; [reflexivity|]). split; [|split; [|reflexivity]].
  - split; simpl; try done.
    + now rewrite length_insert.
    + now rewrite length_insert.
    + eapply PInv_perm; [exact Hpool|]. rewrite Hc, (Hci []). simpl. apply Permutation_app_comm.
    + rewrite Eq in Hq. now apply Forall_app in Hq as [? _].
    + intros u x Hu Hx. destruct (decide (u = Z.to_nat v)) as [->|Hne].
      * rewrite list_lookup_insert_eq in Hu by lia. congruence.
      * rewrite list_lookup_insert_ne in Hu by done. apply Hout; [rewrite <- Eq; eauto|]. now rewrite Nat2Z.id.
    + intros u x Hu Hx. destruct (decide (u = Z.to_nat v)) as [->|Hne].
      * rewrite list_lookup_insert_eq in Hu by lia. congruence.
      * rewrite list_lookup_insert_ne in Hu by done. apply Hout; [rewrite <- Eq; eauto|]. now rewrite Nat2Z.id.
    + intros u p Hu Hsu. destruct (decide (u = Z.to_nat v)) as [->|Hne].
      * rewrite list_lookup_insert_eq in Hu by lia. now injection Hu as <-.
      * rewrite list_lookup_insert_ne in Hu by done. eauto.
  - unfold waiting. simpl. rewrite (pkts_perm _ _ _ (Hci [])), (pkts_perm _ _ _ Hc). simpl. rewrite pkts_app. apply Permutation_app_comm.
Qed.

(** Taking the last scheduled node and draining it. *)
Lemma drain_step g d w v :
  graph_ok g -> DInv g d [] -> world_ok w -> back (queue_ d) = Some v ->
  exists T d' w' new,
    routing_ g !! Z.to_nat v = Some T /\ 0 <= v /\ drain_back g d w v = Ret (d', w') /\
    world_ok w' /\ DInv g d' [] /\ queue_ d' = pop_back (queue_ d) ++ new /\ NoDup new /\ (forall t, t ∈ new -> t ∈ T) /\
    owned w' ++ waiting d' ≡ₚ owned w ++ waiting d.
Proof.
  intros Hg Hd Hw Hb. destruct (drain_begin g d v Hg Hd Hb) as (T & pend & d2 & HT & Hv & Hpend & _ & Hpool & Hq & Hd2 & Hwait & Ed).
  destruct (drain_loop_spec g v T pend d2 w Hg HT Hd2 Hw) as (d' & w' & E & Hw' & Hd' & (new & En & Hnd & Hin & _) & Hcons).
  { rewrite Hpool. exact (di_source _ _ _ Hd _ _ Hpend). }
  exists T, d', w', new. rewrite Ed, <- Hq. split_and!; try done.
  - intros t Ht. now apply Hin in Ht as (? & _ & _).
  - now rewrite Hcons, Hpool, Hwait.
Qed.

(** Nodes further down the graph weigh less: draining a node takes its weight away
    and adds at most [kMaxFanout] smaller ones. *)
Definition weight (rank : Z -> nat) (R : nat) (q : list Z) : nat :=
  sum_list_with (fun v => S kMaxFanout ^ (R - rank v))%nat q.

Lemma weight_app rank R q1 q2 : weight rank R (q1 ++ q2) = (weight rank R q1 + weight rank R q2)%nat.
Proof. apply sum_list_with_app. Qed.

Lemma weight_bound rank R q k :
  (forall t, t ∈ q -> S kMaxFanout ^ (R - rank t) <= k)%nat -> (weight rank R q <= length q * k)%nat.
Proof.
  intros Hq. unfold weight. induction q as [|t q IH]; [done|]. simpl.
  pose proof (Hq t (list_elem_of_here _ _)). specialize (IH (fun u Hu => Hq u (list_elem_of_further _ _ _ Hu))).
  unfold kMaxFanout in *. lia.
Qed.

Lemma weight_drop g rank R v T new :
  graph_ok g -> ranked g rank R -> 0 <= v -> routing_ g !! Z.to_nat v = Some T ->
  NoDup new -> (forall t, t ∈ new -> t ∈ T) ->
  (weight rank R new < weight rank R [v])%nat.
Proof.
  intros Hg Hr Hv HT Hnd Hin.
  assert (Hpos : forall n, (0 < S kMaxFanout ^ n)%nat) by (intros n; apply Nat.neq_0_lt_0, Nat.pow_nonzero; lia).
  assert (E : weight rank R [v] = (S kMaxFanout ^ (R - rank v))%nat) by (unfold weight; simpl; lia).
  rewrite E. destruct new as [|t0 new0] eqn:En; [apply Hpos|]. rewrite <- En in *. clear E.
  assert (Hlen : (length new <= kMaxFanout)%nat).
  { transitivity (length T).
    - apply submseteq_length, NoDup_submseteq; [done|]. intros t. apply Hin.
    - destruct (lookup_lt_is_Some_2 (nodes_ g) (Z.to_nat v)) as [node Hn].
      { rewrite <- (go_routing g Hg). now apply lookup_lt_Some in HT. }
      eapply go_fanout; eauto. }
  assert (Hrk : forall t, t ∈ new -> (rank v < rank t <= R)%nat).
  { intros t Ht. specialize (Hr _ _ _ HT (Hin t Ht)). now rewrite Z2Nat.id in Hr. }
  assert (Hv0 : (rank v < R)%nat).
  { assert (t0 ∈ new) as Ht0 by (rewrite En; apply list_elem_of_here). apply Hrk in Ht0. lia. }
  replace (R - rank v)%nat with (S (R - rank v - 1)) by lia. rewrite Nat.pow_succ_r'.
  eapply Nat.le_lt_trans; [apply (weight_bound _ _ _ (S kMaxFanout ^ (R - rank v - 1)))|].
  - intros t Ht%Hrk. apply Nat.pow_le_mono_r; [done|lia].
  - pose proof (Hpos (R - rank v - 1)%nat). unfold kMaxFanout in *. nia.
Qed.

Lemma run_queue_spec g rank R :
  graph_ok g -> ranked g rank R ->
  forall fuel d w, DInv g d [] -> world_ok w -> (weight rank R (queue_ d) <= fuel)%nat ->
  exists d' w', run_queue fuel g d w = Ret (d', w') /\ world_ok w' /\ DInv g d' [] /\ queue_ d' = [] /\
    owned w' ++ waiting d' ≡ₚ owned w ++ waiting d.
Proof.
  intros Hg Hr. induction fuel as [|fuel IH]; intros d w Hinv Hw Hf; cbn [run_queue];
    destruct (back (queue_ d)) as [v|] eqn:E;
    try (apply back_None in E; exists d, w; split_and!; done);
    destruct (drain_step g d w v Hg Hinv Hw E) as (T & d1 & w1 & new & HT & Hv & E1 & Hw1 & Hinv1 & Eq & Hnd & Hin & Hc);
    pose proof (weight_drop g rank R v T new Hg Hr Hv HT Hnd Hin) as Hlt;
    apply back_pop_back in E; rewrite E, weight_app in Hf; [lia|].
  rewrite E1. cbn [obind].
  destruct (IH d1 w1 Hinv1 Hw1) as (d' & w' & E' & Hw' & Hinv' & Eq' & Hc').
  { rewrite Eq, weight_app. lia. }
  exists d', w'. split_and!; try done. now rewrite Hc'.
Qed.

(** ** [RunOnce] *)

(** A dispatcher between two bursts. *)
Definition idle g d : Prop := DInv g d [] /\ queue_ d = [].

Lemma idle_pending g d : idle g d -> concat (pending_ d) = [].
Proof.
  intros [[Hp _ _ _ _ _ Hwk _] Hq].
  assert (Ha : Forall (fun p => p = []) (pending_ d)).
  { apply Forall_lookup_2. intros v p Hv. destruct p as [|x p]; [done|].
    specialize (Hwk v (x :: p) Hv ltac:(done)). rewrite Hq in Hwk. now apply elem_of_nil in Hwk. }
  clear -Ha. induction Ha as [|p l -> _ IH]; [done|exact IH].
Qed.

Lemma idle_frames g d : idle g d -> ffree_ (pool_ d) ≡ₚ seq 0 (length (storage_ (pool_ d))).
Proof.
  intros Hi. pose proof (idle_pending g d Hi) as Hp. destruct Hi as [Hinv _].
  pose proof (pi_part _ _ (di_pool _ _ _ Hinv)) as Hpart. now rewrite Hp, app_nil_r in Hpart.
Qed.

Lemma concat_replicate_nil {A} n : concat (replicate n ([] : list A)) = [].
Proof. induction n; done. Qed.

Lemma Reset_spec g d :
  idle g d -> exists d', Reset d = Ret d' /\ idle g d' /\ pool_ d' = pool_ d /\
    Forall (fun p => p = []) (pending_ d').
Proof.
  intros Hi. pose proof (idle_pending g d Hi) as Hp. destruct Hi as [[Hlp Hls Hsc Hpool Hq Hfl Hwk _] Hqe].
  unfold Reset. rewrite Hp in *. simpl. eexists. split; [done|]. split_and!; try done.
  - split; [|done]. split; simpl; try done.
    + now rewrite length_replicate.
    + now rewrite length_replicate.
    + now rewrite concat_replicate_nil.
    + intros v s Hv Hs. apply lookup_replicate in Hv as [-> _]. done.
    + intros v p Hv Hne. apply lookup_replicate in Hv as [-> _]. done.
    + intros v p Hv Hne. apply lookup_replicate in Hv as [-> _]. done.
  - simpl. apply Forall_replicate. done.
Qed.

Lemma push_all_spec items p q used f :
  PInv p (q :: used) -> storage_ p !! q = Some f -> count f + Z.of_nat (length items) <= kBurstSize ->
  exists p' f', push_all items q p = Ret p' /\ PInv p' (q :: used) /\ storage_ p' !! q = Some f' /\
    packets f' = packets f ++ items.
Proof.
  revert p f. induction items as [|m items IH]; intros p f Hinv Hf Hc; cbn [push_all].
  { exists p, f. split_and!; try done. now rewrite app_nil_r. }
  simpl in Hc. destruct (push_ptr_spec p q used f m Hinv Hf) as (p1 & f1 & -> & Hinv1 & _ & Hf1 & Hpk & Hc1).
  { unfold Full. apply Z.eqb_neq. lia. }
  cbn [obind]. destruct (IH p1 f1 Hinv1 Hf1) as (p' & f' & -> & Hinv' & Hf' & Hpk'); [lia|].
  exists p', f'. split_and!; try done. now rewrite Hpk', Hpk, <- app_assoc.
Qed.

(** The dispatcher when the root node is about to be drained. *)
Lemma seed_spec g root d root_frame :
  idle g d -> frame_wf root_frame -> 0 <= root < Z.of_nat (length (nodes_ g)) ->
  (source (Z.to_nat root) = true -> packets root_frame = []) ->
  exists d', seed_root d root root_frame = Ret d' /\
    DInv g d' [] /\ queue_ d' = [root] /\ waiting d' = packets root_frame.
Proof.
  intros Hi Hf Hroot Hsr. unfold seed_root. destruct (Reset_spec g d Hi) as (d0 & -> & Hi0 & _ & Hnil). cbn [obind].
  pose proof (idle_pending g d0 Hi0) as Hp0. destruct Hi0 as [[Hlp Hls Hsc Hpool Hq Hfl Hwk _] Hqe]. rewrite Hp0 in Hpool.
  destruct (FAcquire_spec (pool_ d0) [] Hpool) as (q & p1 & f1 & -> & Hinv1 & _ & Hf1 & Hc1). cbn [obind].
  rewrite frame_items_wf by done. cbn [obind].
  destruct (push_all_spec (packets root_frame) p1 q [] f1 Hinv1 Hf1) as (p2 & f2 & -> & Hinv2 & Hf2 & Hpk2).
  { rewrite length_packets by done. rewrite Hc1. apply Hf. }
  cbn [obind]. destruct (lookup_lt_is_Some_2 (pending_ d0) (Z.to_nat root)) as [pend Hpend]; [lia|].
  pose proof (Forall_lookup_1 _ _ _ _ Hnil Hpend) as ->.
  rewrite (proj2 (at_Ret _ _ [])) by done. cbn [obind]. unfold Schedule. cbn [scheduled_ set_pool set_pending].
  destruct (lookup_lt_is_Some_2 (scheduled_ d0) (Z.to_nat root)) as [s Hs]; [lia|].
  rewrite (proj2 (at_Ret _ _ s)) by done. cbn [obind].
  destruct (Z.eqb_spec s 0) as [->|Hne]; cycle 1.
  { specialize (Hfl _ _ Hs Hne). rewrite Hqe in Hfl. now apply elem_of_nil in Hfl. }
  eexists. split; [done|].
  assert (Hconcat : concat (<[Z.to_nat root := push_back [] q]> (pending_ d0)) = [q]).
  { destruct (concat_insert_split _ _ _ Hpend) as (rest & Hc & Hci). rewrite Hp0 in Hc. simpl in Hc.
    apply Permutation_nil in Hc. specialize (Hci [q]). rewrite Hc in Hci. now apply Permutation_singleton_r in Hci. }
  assert (Hpq : pkts p2 [q] = packets root_frame).
  { rewrite (pkts_one p2 q f2 Hf2), Hpk2.
    assert (frame_wf f1) by (destruct (PInv_lookup _ _ q Hinv1 (list_elem_of_here _ _)) as (? & ? & ?); congruence).
    apply packets_nil in Hc1 as ->; done. }
  split_and!; [split; simpl; try done| |].
  - now rewrite length_insert.
  - now rewrite length_insert.
  - rewrite Hconcat. done.
  - rewrite Hqe. now constructor.
  - intros v x Hv Hx. rewrite Hqe. destruct (decide (v = Z.to_nat root)) as [->|Hne].
    + rewrite Z2Nat.id by lia. apply list_elem_of_here.
    + rewrite list_lookup_insert_ne in Hv by done. specialize (Hfl _ _ Hv Hx). rewrite Hqe in Hfl.
      now apply elem_of_nil in Hfl.
  - intros v x Hv Hx. rewrite Hqe. destruct (decide (v = Z.to_nat root)) as [->|Hne].
    + rewrite Z2Nat.id by lia. apply list_elem_of_here.
    + rewrite list_lookup_insert_ne in Hv by done. now rewrite (Forall_lookup_1 _ _ _ _ Hnil Hv) in Hx.
  - intros v x Hv Hx. destruct (decide (v = Z.to_nat root)) as [->|Hne].
    + rewrite list_lookup_insert_eq in Hv by lia. injection Hv as <-. transitivity (pkts p2 [q]); [done|].
      rewrite Hpq. auto.
    + rewrite list_lookup_insert_ne in Hv by done. now rewrite (Forall_lookup_1 _ _ _ _ Hnil Hv).
  - simpl. now rewrite Hqe.
  - unfold waiting. simpl. now rewrite Hconcat.
Qed.

Lemma RunOnce_spec g rank R fuel root d w root_frame :
  graph_ok g -> ranked g rank R -> (S kMaxFanout ^ R <= fuel)%nat ->
  idle g d -> world_ok w -> frame_wf root_frame -> 0 <= root < Z.of_nat (length (nodes_ g)) ->
  (source (Z.to_nat root) = true -> packets root_frame = []) ->
  exists d' w', RunOnce fuel g root d w root_frame = Ret (d', w') /\ world_ok w' /\ idle g d' /\
    owned w' ≡ₚ owned w ++ packets root_frame.
Proof.
  intros Hg Hr Hfuel Hi Hw Hf Hroot Hsr. destruct (seed_spec g root d root_frame Hi Hf Hroot Hsr) as (d1 & E & Hinv1 & Hq1 & Hw1).
  destruct (run_queue_spec g rank R Hg Hr fuel d1 w Hinv1 Hw) as (d' & w' & E' & Hw' & Hinv' & Hq' & Hc).
  { rewrite Hq1. unfold weight. simpl. rewrite Nat.add_0_r. etransitivity; [|exact Hfuel].
    apply Nat.pow_le_mono_r; [done|lia]. }
  exists d', w'. split_and!; try done.
  - unfold RunOnce. rewrite E. exact E'.
  - assert (Hn : waiting d' = []) by (unfold waiting; now rewrite (idle_pending g d' (conj Hinv' Hq'))).
    rewrite Hn, app_nil_r, Hw1 in Hc. done.
Qed.

Lemma Dispatcher_new_idle g : graph_ok g -> idle g (Dispatcher_new g).
Proof.
  intros Hg. pose proof (go_count g Hg) as Hc. unfold kInvalid in Hc.
  assert (E : Z.to_nat (NodeCount g) = length (nodes_ g)) by (unfold NodeCount; rewrite u16_small by lia; lia).
  split; [|done]. unfold Dispatcher_new. rewrite E. split; simpl; try done.
  - apply length_replicate.
  - apply length_replicate.
  - split; [done|]. repeat (constructor; [apply Frame_new_wf|]). constructor.
  - rewrite concat_replicate_nil. split; simpl.
    + apply Forall_replicate, Frame_new_wf.
    + now rewrite length_replicate, app_nil_r.
  - intros v s Hv Hs. apply lookup_replicate in Hv as [-> _]. done.
  - intros v p Hv Hne. apply lookup_replicate in Hv as [-> _]. done.
  - intros v p Hv Hne. apply lookup_replicate in Hv as [-> _]. done.
Qed.

End Dispatch.
