(* ===== verification/GraphSpec.v ===== *)
(** * What the graph engine guarantees

    Building a graph ([AddNode], [Wire]) and running bursts through it
    ([RunOnce]), against the contract [Node_ok] of its nodes. *)

From S2P Require Import Prelude NetTypes Graph GraphFacts.

Section Build.
Context {W : Type}.

Implicit Types (g : Graph W).

(** Both tables of a graph have one entry per node. *)
Definition graph_shape g : Prop :=
  length (routing_ g) = length (nodes_ g) /\
  Forall2 (fun node outs => length outs = Z.to_nat (NextCount node)) (nodes_ g) (routing_ g).

Lemma AddNode_shape g node : graph_shape g -> graph_shape (AddNode g node).2.
Proof.
  intros [Hl HF]. split; simpl; unfold push_back.
  - rewrite !length_app. simpl. lia.
  - apply Forall2_app; [done|]. constructor; [apply length_replicate|constructor].
Qed.

(** [Wire] on a graph built by [AddNode] and [Wire] either throws
    [out_of_range], exactly when a node number or the output number is too big, or
    sets that one output and nothing else; afterwards [Target] reads it back. *)
Theorem Wire_spec g from out_idx dest :
  graph_shape g -> 0 <= from -> 0 <= out_idx -> 0 <= dest ->
  let n := Z.of_nat (length (nodes_ g)) in
  (exists node, nodes_ g !! Z.to_nat from = Some node /\ from < n /\ dest < n /\
     out_idx < Z.of_nat (Z.to_nat (NextCount node)) /\
     exists g', Wire g from out_idx dest = Ret g' /\ graph_shape g' /\ nodes_ g' = nodes_ g /\
       Target g' from (Z.to_nat out_idx) = Ret dest /\
       forall v o, (v, o) <> (from, Z.to_nat out_idx) -> 0 <= v -> Target g' v o = Target g v o) \/
  (exists what, Wire g from out_idx dest = Throw (out_of_range what) /\
     (n <= from \/ n <= dest \/
      exists node, nodes_ g !! Z.to_nat from = Some node /\ Z.of_nat (Z.to_nat (NextCount node)) <= out_idx)).
Proof.
  intros [Hl HF] Hf Ho Hd n. unfold Wire. fold n.
  destruct (Z.leb_spec n from); [right; eexists; split; [done|now left]|].
  destruct (Z.leb_spec n dest); [right; eexists; split; [done|now right; left]|]. simpl.
  destruct (lookup_lt_is_Some_2 (nodes_ g) (Z.to_nat from)) as [node Hn]; [lia|].
  destruct (lookup_lt_is_Some_2 (routing_ g) (Z.to_nat from)) as [outs Hr]; [lia|].
  pose proof (Forall2_lookup_lr _ _ _ _ _ _ HF Hn Hr) as Hlo. simpl in Hlo.
  rewrite (proj2 (at_Ret _ _ outs)) by done. cbn [obind].
  destruct (Z.leb_spec (Z.of_nat (length outs)) out_idx) as [Hle|Hlt].
  { right. eexists. split; [done|]. right. right. exists node. split; [done|lia]. }
  left. exists node. split_and!; try done; try lia. eexists. split; [done|].
  assert (Hrl : (Z.to_nat from < length (routing_ g))%nat) by lia.
  split_and!; [split; simpl|done|..].
  - now rewrite length_insert.
  - rewrite <- (list_insert_id (nodes_ g) _ _ Hn). apply Forall2_insert; [done|]. now rewrite length_insert.
  - unfold Target. cbn [routing_]. unfold at_. rewrite list_lookup_insert_eq by done. simpl.
    rewrite list_lookup_insert_eq by lia. done.
  - intros v o Hne Hv. unfold Target. cbn [routing_]. unfold at_.
    destruct (decide (v = from)) as [->|Hvf].
    + rewrite list_lookup_insert_eq, Hr by done. simpl. rewrite list_lookup_insert_ne by congruence. done.
    + rewrite list_lookup_insert_ne by (intros E; apply Hvf; lia). done.
Qed.

End Build.

Section Bursts.
Context {W : Type} `{World W} (source : nat -> bool).

(** Bursts one after the other. *)
Fixpoint run_bursts (fuel : nat) (g : Graph W) (root : Z) (d : Dispatcher) (w : W) (frames : list Frame)
  : outcome (Dispatcher * W) :=
  match frames with
  | [] => Ret (d, w)
  | f :: frames => let! '(d, w) := RunOnce fuel g root d w f in run_bursts fuel g root d w frames
  end.

Lemma run_bursts_spec g rank R fuel root frames :
  graph_ok source g -> ranked g rank R -> (S kMaxFanout ^ R <= fuel)%nat ->
  0 <= root < Z.of_nat (length (nodes_ g)) -> Forall frame_wf frames ->
  (source (Z.to_nat root) = true -> Forall (fun f => packets f = []) frames) ->
  forall d w, idle source g d -> world_ok w ->
  exists d' w', run_bursts fuel g root d w frames = Ret (d', w') /\ world_ok w' /\ idle source g d' /\
    owned w' ≡ₚ owned w ++ (frames ≫= packets).
Proof.
  intros Hg Hr Hfuel Hroot. induction frames as [|f frames IH]; intros Hfs Hsr d w Hi Hw; cbn [run_bursts].
  { exists d, w. split_and!; try done; [now destruct Hi..|]. simpl. now rewrite app_nil_r. }
  apply Forall_cons in Hfs as [Hf Hfs].
  assert (Hsr1 : source (Z.to_nat root) = true -> packets f = []) by (intros Hs; now apply Hsr, Forall_cons in Hs as [? _]).
  assert (Hsr2 : source (Z.to_nat root) = true -> Forall (fun f => packets f = []) frames)
    by (intros Hs; now apply Hsr, Forall_cons in Hs as [_ ?]).
  destruct (RunOnce_spec source g rank R fuel root d w f Hg Hr Hfuel Hi Hw Hf Hroot Hsr1) as (d1 & w1 & -> & Hw1 & Hi1 & Hc1).
  cbn [obind]. destruct (IH Hfs Hsr2 d1 w1 Hi1 Hw1) as (d' & w' & E & Hw' & Hi' & Hc').
  exists d', w'. split_and!; try done; [now destruct Hi'..|]. rewrite Hc', Hc1, bind_cons, app_assoc. done.
Qed.

(** C19: on an acyclic graph of nodes that keep their contract, any number of
    bursts runs to the end, each within [9 ^ R] drained nodes for a graph of depth
    [R]: no frame overflows and no index is out of range. *)
Theorem bursts_terminate g rank R root frames w :
  graph_ok source g -> ranked g rank R -> 0 <= root < Z.of_nat (length (nodes_ g)) ->
  Forall frame_wf frames -> (source (Z.to_nat root) = true -> Forall (fun f => packets f = []) frames) ->
  world_ok w ->
  exists d' w', run_bursts (9 ^ R) g root (Dispatcher_new g) w frames = Ret (d', w') /\ world_ok w'.
Proof.
  intros Hg Hr Hroot Hfs Hsr Hw.
  destruct (run_bursts_spec g rank R (9 ^ R) root frames Hg Hr (le_n _) Hroot Hfs Hsr (Dispatcher_new g) w
    (Dispatcher_new_idle source g Hg) Hw) as (d' & w' & E & Hw' & _). eauto.
Qed.

(** C18: no packet is lost or duplicated by an acyclic graph in which every output is
    wired (the engine drops what goes to an output that is not) and every node conserves
    packets: after any bursts every packet that entered is outside the graph exactly once,
    together with those that were outside before; nothing waits in front of a node. *)
Theorem bursts_conserve_packets g rank R root frames w fuel :
  graph_ok source g -> ranked g rank R -> 0 <= root < Z.of_nat (length (nodes_ g)) ->
  Forall frame_wf frames -> (source (Z.to_nat root) = true -> Forall (fun f => packets f = []) frames) ->
  world_ok w -> (9 ^ R <= fuel)%nat ->
  exists d' w', run_bursts fuel g root (Dispatcher_new g) w frames = Ret (d', w') /\
    owned w' ≡ₚ owned w ++ (frames ≫= packets) /\ waiting d' = [] /\ Forall (fun p => p = []) (pending_ d').
Proof.
  intros Hg Hr Hroot Hfs Hsr Hw Hfuel.
  destruct (run_bursts_spec g rank R fuel root frames Hg Hr Hfuel Hroot Hfs Hsr (Dispatcher_new g) w
    (Dispatcher_new_idle source g Hg) Hw) as (d' & w' & E & _ & Hi & Hc).
  exists d', w'. split; [done|]. pose proof (idle_pending source g d' Hi) as Hp. split_and!; [done| |].
  - unfold waiting. now rewrite Hp.
  - apply Forall_forall. intros p Hin. apply list_elem_of_lookup in Hin as [i Hi'].
    destruct (concat_insert_split _ _ _ Hi') as (rest & Hc' & _). rewrite Hp in Hc'.
    symmetry in Hc'. apply Permutation_nil_r, app_nil in Hc'. tauto.
Qed.

(** No frame leaks and none is handed out twice: after any bursts the free
    list holds every frame of the pool exactly once. *)
Theorem bursts_return_frames g rank R root frames w fuel :
  graph_ok source g -> ranked g rank R -> 0 <= root < Z.of_nat (length (nodes_ g)) ->
  Forall frame_wf frames -> (source (Z.to_nat root) = true -> Forall (fun f => packets f = []) frames) ->
  world_ok w -> (9 ^ R <= fuel)%nat ->
  exists d' w', run_bursts fuel g root (Dispatcher_new g) w frames = Ret (d', w') /\
    ffree_ (pool_ d') ≡ₚ seq 0 (length (storage_ (pool_ d'))) /\ NoDup (ffree_ (pool_ d')).
Proof.
  intros Hg Hr Hroot Hfs Hsr Hw Hfuel.
  destruct (run_bursts_spec g rank R fuel root frames Hg Hr Hfuel Hroot Hfs Hsr (Dispatcher_new g) w
    (Dispatcher_new_idle source g Hg) Hw) as (d' & w' & E & _ & Hi & _).
  exists d', w'. split; [done|]. pose proof (idle_frames source g d' Hi) as Hp.
  split; [done|]. rewrite Hp. apply NoDup_seq.
Qed.

End Bursts.
