(* ===== verification/GraphTyped.v ===== *)
(** * What is known of the packets in front of each node

    [P v] is what the packets in front of node [v] satisfy. When every node turns packets
    that satisfy its predicate into packets that satisfy those of the nodes it sends them
    to, and touches no others, the predicates hold throughout a burst. *)

From S2P Require Import Prelude NetTypes Graph GraphFacts.

Section Typed.
Context {W : Type} `{World W} (source : nat -> bool).

(** The content of a packet, what else nodes keep true of the world, and the predicates. *)
Context {C : Type} (content : W -> mbuf_ptr -> C) (extra : W -> Prop) (P : nat -> C -> Prop).

Implicit Types (g : Graph W) (d : Dispatcher) (w : W).

Definition all_sat (v : nat) w (l : list mbuf_ptr) : Prop := Forall (fun m => P v (content w m)) l.

(** Node [v], with the nodes [outs] at its outputs. *)
Definition Node_typed (v : nat) (outs : list Z) (node : Node W) : Prop :=
  forall w f nexts w' f' nexts', world_ok w -> extra w -> frame_wf f -> (source v = true -> packets f = []) ->
  NoDup (owned w ++ packets f) -> all_sat v w (packets f) -> Forall (fun o => frame_wf o /\ count o = 0) nexts ->
  Process node w f nexts = Ret (w', f', nexts') ->
  extra w' /\ (forall m, m ∉ owned w ++ packets f -> content w' m = content w m) /\
  forall k o t, nexts' !! k = Some o -> outs !! k = Some t -> all_sat (Z.to_nat t) w' (packets o).

Definition graph_typed g : Prop :=
  forall v node outs, nodes_ g !! v = Some node -> routing_ g !! v = Some outs -> Node_typed v outs node.

(** The packets in front of each node satisfy its predicate. *)
Definition typed d w : Prop := forall v pend, pending_ d !! v = Some pend -> all_sat v w (pkts (pool_ d) pend).

Lemma all_sat_same v w w' l : all_sat v w l -> (forall m, m ∈ l -> content w' m = content w m) -> all_sat v w' l.
Proof. unfold all_sat. rewrite !Forall_forall. intros Hs He m Hm. rewrite He by done. auto. Qed.

Lemma typed_waiting d v pend m : pending_ d !! v = Some pend -> m ∈ pkts (pool_ d) pend -> m ∈ waiting d.
Proof.
  intros Hv Hm. unfold waiting. destruct (concat_insert_split _ _ _ Hv) as (rest & Hc & _).
  rewrite (pkts_perm _ _ _ Hc), pkts_app. apply elem_of_app. now left.
Qed.

Lemma typed_same d w w' : typed d w -> (forall m, m ∈ waiting d -> content w' m = content w m) -> typed d w'.
Proof. intros Ht He v pend Hv. eapply all_sat_same; [exact (Ht v pend Hv)|]. intros m Hm. apply He. exact (typed_waiting _ _ _ _ Hv Hm). Qed.

Lemma route_typed g d fl t f d1 w :
  DInv source g d fl -> 0 <= t < Z.of_nat (length (nodes_ g)) -> frame_wf f ->
  typed d w -> all_sat (Z.to_nat t) w (packets f) -> RouteInto d t f = Ret d1 -> typed d1 w.
Proof.
  intros [Hp _ _ Hpool _ _ _ _] Ht Hf Hty Hsat E. unfold RouteInto in E.
  destruct (lookup_lt_is_Some_2 (pending_ d) (Z.to_nat t)) as [pend Hpend]; [lia|].
  rewrite (proj2 (at_Ret _ _ pend)) in E by done. cbn [obind] in E. rewrite frame_items_wf in E by done. cbn [obind] in E.
  destruct (concat_insert_split _ _ _ Hpend) as (rest & Hc & Hci).
  destruct (route_loop_spec (packets f) (pool_ d) pend (rest ++ fl)) as (pend' & p' & E' & _ & Ha & Hpk & _).
  { eapply PInv_perm; [exact Hpool|]. now rewrite Hc, app_assoc. }
  rewrite E' in E. cbn [obind] in E. injection E as <-. intros v pv Hv. cbn [pending_ pool_ set_pool set_pending] in *.
  destruct (decide (v = Z.to_nat t)) as [->|Hne].
  - rewrite list_lookup_insert_eq in Hv by lia. injection Hv as <-. rewrite Hpk. apply Forall_app. split; [exact (Hty _ _ Hpend)|exact Hsat].
  - rewrite list_lookup_insert_ne in Hv by done. rewrite (agree_pkts (pool_ d)); [exact (Hty _ _ Hv)|].
    assert (Hv2 : <[Z.to_nat t := []]> (pending_ d) !! v = Some pv) by now rewrite list_lookup_insert_ne.
    destruct (concat_insert_split _ _ _ Hv2) as (rest2 & Hc2 & _). rewrite (Hci []) in Hc2. cbn [app] in Hc2.
    eapply agree_sub; [exact Ha|]. intros r Hr. apply elem_of_app. left. rewrite Hc2. apply elem_of_app. now left.
Qed.

Lemma Schedule_typed d t d' w : Schedule d t = Ret d' -> typed d w -> typed d' w.
Proof.
  unfold Schedule. destruct (at_ _ _) as [s|e| |]; cbn [obind]; try done. destruct (s =? 0); intros [= <-]; done.
Qed.

Lemma route_outs_typed g v outs d fl T d' w :
  graph_ok source g -> routing_ g !! Z.to_nat v = Some T -> Forall (fun o => (o < length T)%nat) outs ->
  (length T <= kMaxFanout)%nat -> DInv source g d fl -> typed d w ->
  (forall o f t, scratch_ d !! o = Some f -> T !! o = Some t -> all_sat (Z.to_nat t) w (packets f)) ->
  route_outs g v outs d = Ret d' -> typed d' w.
Proof.
  intros Hg HT. revert d. induction outs as [|o outs IH]; intros d Hall Hlt Hd Hty Hsc E; cbn [route_outs] in E; [now injection E as <-|].
  apply Forall_cons in Hall as [Ho Hall]. destruct (lookup_lt_is_Some_2 T o Ho) as [t Ht].
  assert (Hto : t ∈ T) by (eapply list_elem_of_lookup_2; eauto). pose proof (go_targets _ g Hg _ _ _ HT Hto) as [Hrange Hns].
  unfold Target in E. rewrite (proj2 (at_Ret _ _ T)) in E by done. cbn [obind] in E. rewrite (proj2 (at_Ret _ _ t)) in E by done.
  cbn [obind] in E. destruct (di_scratch _ _ _ _ Hd) as [Hsl Hsw]. destruct (lookup_lt_is_Some_2 (scratch_ d) o) as [f Hf]; [lia|].
  rewrite (proj2 (at_Ret _ _ f)) in E by done. cbn [obind] in E. destruct (_ || _); [exact (IH d Hall Hlt Hd Hty Hsc E)|].
  pose proof (Forall_lookup_1 _ _ _ _ Hsw Hf) as Hwf.
  destruct (route_one source g d fl T t f Hd Hrange Hns Hto Hwf) as (d1 & d2 & E1 & E2 & Hd2 & _ & _ & Hs2 & _).
  rewrite E1 in E. cbn [obind] in E. rewrite E2 in E. cbn [obind] in E. refine (IH d2 Hall Hlt Hd2 _ _ E).
  - apply (Schedule_typed _ _ _ _ E2). exact (route_typed _ _ _ _ _ _ _ Hd Hrange Hwf Hty (Hsc o f t Hf Ht) E1).
  - rewrite Hs2. exact Hsc.
Qed.

(** ** One frame, and a whole node *)

Lemma RunNode_typed g d w v frame fl T d' w' :
  graph_ok source g -> graph_typed g -> DInv source g d (frame :: fl) -> world_ok w -> extra w ->
  routing_ g !! Z.to_nat v = Some T -> (source (Z.to_nat v) = true -> pkts (pool_ d) [frame] = []) ->
  typed d w -> NoDup (owned w ++ waiting d ++ pkts (pool_ d) [frame]) -> all_sat (Z.to_nat v) w (pkts (pool_ d) [frame]) ->
  RunNode g d w v frame = Ret (d', w') ->
  extra w' /\ typed d' w' /\ forall m, m ∉ owned w ++ pkts (pool_ d) [frame] -> content w' m = content w m.
Proof.
  intros Hg Hgt Hd Hw Hx HT Hsv Hty Hnd Hsat E.
  destruct (lookup_lt_is_Some_2 (nodes_ g) (Z.to_nat v)) as [node Hn].
  { rewrite <- (go_routing _ g Hg). now apply lookup_lt_Some in HT. }
  destruct (go_fanout _ g Hg _ _ _ Hn HT) as [HlT Hfan]. destruct (di_scratch _ _ _ _ Hd) as [Hsl Hsw].
  unfold RunNode, Fanout in E. rewrite (proj2 (at_Ret _ _ T)) in E by done. cbn [obind] in E.
  rewrite u16_small, Nat2Z.id in E by (unfold kMaxFanout in *; lia).
  destruct (Nat.ltb_spec (length (scratch_ d)) (length T)); [lia|].
  unfold GetNode in E. rewrite (proj2 (at_Ret _ _ node)) in E by done. cbn [obind] in E.
  destruct (PInv_lookup _ _ frame (di_pool _ _ _ _ Hd)) as (f & Hf & Hwf).
  { apply elem_of_app. right. apply list_elem_of_here. }
  rewrite (proj2 (at_Ret _ _ f)) in E by done. cbn [obind] in E. rewrite (pkts_one _ _ f Hf) in *.
  assert (Hempty : Forall (fun o => frame_wf o /\ count o = 0) (Clear <$> take (length T) (scratch_ d))).
  { apply Forall_fmap, Forall_take. eapply Forall_impl; [exact Hsw|]. intros o Ho. split; [now apply Clear_wf|done]. }
  assert (Hlen : length (Clear <$> take (length T) (scratch_ d)) = length T) by (rewrite length_fmap, length_take; lia).
  destruct (go_nodes _ g Hg _ _ Hn w f _ Hw Hwf Hsv ltac:(by rewrite Hlen) Hempty) as (w1 & f1 & nexts & Ep & _ & Hwf1 & Hln & Hnw & _).
  rewrite Ep in E. cbn [obind] in E. rewrite Hlen in Hln.
  assert (Hnd' : NoDup (owned w ++ packets f)).
  { eapply sublist_NoDup; [exact Hnd|]. apply sublist_app; [done|]. now apply sublist_inserts_l. }
  destruct (Hgt _ _ _ Hn HT w f _ w1 f1 nexts Hw Hx Hwf Hsv Hnd' Hsat Hempty Ep) as (Hx1 & Hframe & Hout).
  destruct (DInv_update source g d fl frame f1 nexts (length T) Hd Hwf1 Hnw Hln Hfan) as (Hd1 & _ & _ & _).
  match type of Hd1 with DInv _ _ ?x _ => set (d1 := x) in * end.
  match type of E with context [route_outs g v _ ?x] => change x with d1 in E end.
  destruct (route_outs g v _ d1) as [d2|e| |] eqn:Er; cbn [obind] in E; try done. injection E as <- <-.
  split; [exact Hx1|]. split; [|exact Hframe].
  refine (route_outs_typed g v _ d1 (frame :: fl) T d2 w1 Hg HT _ Hfan Hd1 _ _ Er).
  - apply Forall_forall. intros o Ho%elem_of_seq. lia.
  - intros u pend Hu. change (pending_ d1) with (pending_ d) in Hu.
    assert (Hsame : pkts (pool_ d1) pend = pkts (pool_ d) pend).
    { apply agree_pkts. intros q Hq. cbn. apply list_lookup_insert_ne. intros <-.
      pose proof (PInv_NoDup_used _ _ (di_pool _ _ _ _ Hd)) as Hn2. apply NoDup_app in Hn2 as (_ & Hdis & _).
      apply (Hdis frame); [exact (elem_of_pending _ _ _ _ Hu Hq)|apply list_elem_of_here]. }
    rewrite Hsame. eapply all_sat_same; [exact (Hty u pend Hu)|]. intros m Hm. apply Hframe. intros Hin.
    apply (typed_waiting _ _ _ _ Hu) in Hm. apply elem_of_app in Hin as [Hin|Hin].
    + apply NoDup_app in Hnd as (_ & Hdis & _). apply (Hdis m Hin), elem_of_app. now left.
    + apply NoDup_app in Hnd as (_ & _ & Hn2). apply NoDup_app in Hn2 as (_ & Hdis & _). exact (Hdis m Hm Hin).
  - intros o fo t Ho Ht. assert (Hlt : (o < length nexts)%nat) by (apply lookup_lt_Some in Ht; lia).
    cbn in Ho. rewrite lookup_app_l in Ho by done. exact (Hout o fo t Ho Ht).
Qed.

Lemma drain_loop_typed g v T frames : forall d w d' w',
  graph_ok source g -> graph_typed g -> routing_ g !! Z.to_nat v = Some T -> DInv source g d frames -> world_ok w -> extra w ->
  (source (Z.to_nat v) = true -> pkts (pool_ d) frames = []) ->
  typed d w -> NoDup (owned w ++ waiting d ++ pkts (pool_ d) frames) -> all_sat (Z.to_nat v) w (pkts (pool_ d) frames) ->
  drain_loop g v frames d w = Ret (d', w') ->
  extra w' /\ typed d' w' /\ forall m, m ∉ owned w ++ waiting d ++ pkts (pool_ d) frames -> content w' m = content w m.
Proof.
  induction frames as [|frame frames IH]; intros d w d' w' Hg Hgt HT Hd Hw Hx Hsv Hty Hnd Hsat E; cbn [drain_loop] in E;
    [now injection E as <- <-|].
  change (frame :: frames) with ([frame] ++ frames) in Hsv, Hnd, Hsat |- *. rewrite pkts_app in Hsv, Hnd, Hsat |- *.
  apply Forall_app in Hsat as [Hsat1 Hsat2].
  assert (Hsv1 : source (Z.to_nat v) = true -> pkts (pool_ d) [frame] = []) by (intros Hs; now apply app_nil in Hsv as [? _]).
  destruct (RunNode_spec source g d w v frame frames T Hg Hd Hw HT Hsv1) as (d1 & w1 & E1 & Hw1 & Hd1 & Ha1 & _ & Hc1).
  rewrite E1 in E. cbn [obind] in E.
  assert (Hnd1 : NoDup (owned w ++ waiting d ++ pkts (pool_ d) [frame])).
  { rewrite !app_assoc in Hnd. apply NoDup_app in Hnd as (Hnd & _ & _). now rewrite <- app_assoc in Hnd. }
  destruct (RunNode_typed g d w v frame frames T d1 w1 Hg Hgt Hd Hw Hx HT Hsv1 Hty Hnd1 Hsat1 E1) as (Hx1 & Hty1 & Hf1).
  destruct (release_frame_spec source g d1 frame frames Hd1) as (p2 & E2 & Hd2 & Ha2). rewrite E2 in E. cbn [obind] in E.
  assert (Hw2 : waiting (set_pool d1 p2) = waiting d1)
    by (apply agree_pkts; eapply agree_sub; [exact Ha2|]; intros; apply elem_of_app; now left).
  assert (Hpk : pkts p2 frames = pkts (pool_ d) frames).
  { rewrite (agree_pkts (pool_ d1) p2) by (eapply agree_sub; [exact Ha2|]; intros; apply elem_of_app; now right). now apply agree_pkts. }
  assert (Hperm : owned w1 ++ waiting (set_pool d1 p2) ++ pkts p2 frames ≡ₚ
    owned w ++ waiting d ++ pkts (pool_ d) [frame] ++ pkts (pool_ d) frames).
  { rewrite Hw2, Hpk, app_assoc, Hc1, <- !app_assoc. done. }
  assert (Hout : forall m, m ∈ pkts (pool_ d) frames -> m ∉ owned w ++ pkts (pool_ d) [frame]).
  { intros m Hm Hin. rewrite !app_assoc in Hnd. apply NoDup_app in Hnd as (_ & Hdis & _). refine (Hdis m _ Hm).
    apply elem_of_app in Hin as [Hin|Hin]; rewrite !elem_of_app; auto. }
  destruct (IH (set_pool d1 p2) w1 d' w' Hg Hgt HT Hd2 Hw1 Hx1) as (Hx' & Hty' & Hf'); try done.
  - intros Hs. apply app_nil in Hsv as [_ Hsv]; [|done]. cbn [pool_ set_pool]. by rewrite Hpk.
  - intros u pend Hu. cbn [pool_ set_pool]. rewrite (agree_pkts (pool_ d1) p2); [exact (Hty1 u pend Hu)|].
    eapply agree_sub; [exact Ha2|]. intros r Hr. apply elem_of_app. left. eapply elem_of_pending; eauto.
  - cbn [pool_ set_pool]. by rewrite Hperm.
  - cbn [pool_ set_pool]. rewrite Hpk. eapply all_sat_same; [exact Hsat2|]. intros m Hm. apply Hf1. by apply Hout.
  - split; [exact Hx'|]. split; [exact Hty'|]. intros m Hm. rewrite Hf', Hf1; [done| |].
    + intros Hin. apply Hm. apply elem_of_app in Hin as [Hin|Hin]; rewrite !elem_of_app; auto.
    + cbn [pool_ set_pool]. by rewrite Hperm.
Qed.

(** Draining the node at the back of the queue. *)
Lemma drain_back_typed g d w v d' w' :
  graph_ok source g -> graph_typed g -> DInv source g d [] -> world_ok w -> extra w -> back (queue_ d) = Some v ->
  typed d w -> NoDup (owned w ++ waiting d) -> drain_back g d w v = Ret (d', w') ->
  extra w' /\ typed d' w' /\ forall m, m ∉ owned w ++ waiting d -> content w' m = content w m.
Proof.
  intros Hg Hgt Hd Hw Hx Hb Hty Hnd E.
  destruct (drain_begin source g d v Hg Hd Hb) as (T & pend & d2 & HT & _ & Hpend & Hp2 & Hpool & _ & Hd2 & Hwait & Ed).
  rewrite Ed in E. rewrite <- Hwait in Hnd. rewrite <- Hpool in Hnd.
  destruct (drain_loop_typed g v T pend d2 w d' w' Hg Hgt HT Hd2 Hw Hx) as (Hx' & Hty' & Hf); try done.
  - rewrite Hpool. exact (di_source _ _ _ _ Hd _ _ Hpend).
  - intros u pu Hu. rewrite Hp2 in Hu. rewrite Hpool. destruct (decide (u = Z.to_nat v)) as [->|Hne].
    + rewrite list_lookup_insert_eq in Hu by (by eapply lookup_lt_Some). injection Hu as <-. constructor.
    + rewrite list_lookup_insert_ne in Hu by done. exact (Hty u pu Hu).
  - rewrite Hpool. exact (Hty _ _ Hpend).
  - split_and!; try done. intros m Hm. apply Hf. rewrite Hpool. intros Hin. apply Hm.
    apply elem_of_app in Hin as [Hin|Hin]; apply elem_of_app; [now left|right]. by rewrite <- Hwait.
Qed.

(** A dispatcher that has nothing waiting. *)
Lemma typed_empty d w : waiting d = [] -> typed d w.
Proof.
  intros Hw v pend Hv. destruct (pkts (pool_ d) pend) as [|m l] eqn:E; [constructor|]. exfalso.
  assert (Hm : m ∈ waiting d) by (apply (typed_waiting d v pend m Hv); rewrite E; apply list_elem_of_here).
  rewrite Hw in Hm. by apply elem_of_nil in Hm.
Qed.

End Typed.
