(* ===== verification/Packet.v ===== *)
(** * Packet bytes and the DPDK interface

    The data of an mbuf is its list of bytes from [rte_pktmbuf_mtod] to the end of
    the data room; header fields are read and written at their offset in the wire
    formats of Ethernet, IPv4, TCP, UDP and ARP. DPDK itself is the class [Dpdk]. *)

From S2P Require Import Prelude NetTypes PacketMeta Graph.

(** ** Big-endian fields *)

(** The [n] bytes of [v], most significant first. *)
Definition be_bytes (n : nat) (v : Z) : list Z := reverse (le_bytes n v).

Definition be_val (bs : list Z) : Z := foldl (fun acc b => acc * 256 + b) 0 bs.

(** Reading and writing [n] bytes at an offset; outside of the room is undefined. *)
Definition load_bytes (data : list Z) (off n : nat) : outcome (list Z) :=
  if (off + n <=? length data)%nat then Ret (take n (drop off data)) else Undef.

Definition store_bytes (data : list Z) (off : nat) (bs : list Z) : outcome (list Z) :=
  if (off + length bs <=? length data)%nat
  then Ret (take off data ++ bs ++ drop (off + length bs) data) else Undef.

Definition load8 (data : list Z) (off : nat) : outcome Z := at_ data off.

(** [rte_be_to_cpu_16] and [rte_be_to_cpu_32] of a field. *)
Definition load_be (n : nat) (data : list Z) (off : nat) : outcome Z :=
  let! bs := load_bytes data off n in Ret (be_val bs).

(** A field set to [rte_cpu_to_be_16] or [rte_cpu_to_be_32] of a value. *)
Definition store_be (n : nat) (data : list Z) (off : nat) (v : Z) : outcome (list Z) :=
  store_bytes data off (be_bytes n v).

(** ** Wire formats *)

Definition kEthDst : nat := 0.
Definition kEthSrc : nat := 6.
Definition kEthType : nat := 12.
Definition kEthLen : nat := 14.
Definition kEthAddrLen : nat := 6.

Definition kIpVihl : nat := 14.
Definition kIpProto : nat := 23.
Definition kIpCksum : nat := 24.
Definition kIpSrc : nat := 26.
Definition kIpDst : nat := 30.

(** Offsets in the TCP and UDP headers. *)
Definition kL4Src : nat := 0.
Definition kL4Dst : nat := 2.
Definition kTcpFlagsOff : nat := 13.
Definition kTcpCksum : nat := 16.
Definition kUdpCksum : nat := 6.

Definition kArpOp : nat := 20.
Definition kArpSha : nat := 22.
Definition kArpSip : nat := 28.
Definition kArpTha : nat := 32.
Definition kArpTip : nat := 38.

Definition RTE_ETHER_TYPE_IPV4 : Z := 2048.
Definition RTE_ETHER_TYPE_ARP : Z := 2054.
Definition IPPROTO_TCP : Z := 6.
Definition IPPROTO_UDP : Z := 17.
Definition RTE_ARP_OP_REQUEST : Z := 1.
Definition RTE_ARP_OP_REPLY : Z := 2.

(** ** DPDK

    [dev] is what DPDK keeps: NIC queues, rings, the mbuf pool. [in_dev d] are the
    mbufs in its possession. The laws are the ownership rules of its documentation:
    a burst receive or dequeue hands at most the number asked over to the caller, a
    burst send or enqueue takes the first [n] of the array and leaves the rest with
    the caller, a single enqueue takes the mbuf exactly when it returns 0, a free
    takes the mbufs. A received packet fills the mbuf's data room. The header length
    is the low nibble of the first byte in words, and the IPv4 checksum looks at the
    header only. *)
Class Dpdk := {
  data_room : nat;
  rte_ipv4_hdr_len : Z -> nat;
  rte_ipv4_cksum : list Z -> Z;
  rte_ipv4_udptcp_cksum : list Z -> nat -> Z;
  dev : Type;
  in_dev : dev -> list mbuf_ptr;
  rte_get_timer_cycles : dev -> Z;
  rte_get_timer_hz : Z;
  rte_eth_rx_burst : dev -> Z -> Z -> nat -> list (mbuf_ptr * list Z) * dev;
  rte_eth_tx_burst : dev -> Z -> Z -> list mbuf_ptr -> nat * dev;
  rte_ring_enqueue : dev -> nat -> mbuf_ptr -> Z * dev;
  rte_ring_enqueue_burst : dev -> nat -> list mbuf_ptr -> nat * dev;
  rte_ring_dequeue_burst : dev -> nat -> nat -> list mbuf_ptr * dev;
  rte_pktmbuf_free_bulk : dev -> list mbuf_ptr -> dev;
  data_room_min : (94 <= data_room)%nat;
  hdr_len_law : forall vihl, 0 <= vihl < 256 ->
    rte_ipv4_hdr_len vihl = Z.to_nat (4 * Z.land vihl 15);
  cksum_law : forall bs, 0 <= rte_ipv4_cksum bs < 2 ^ 16;
  cksum_header_law : forall v bs bs', bs !! 0%nat = Some v -> bs' !! 0%nat = Some v ->
    take (rte_ipv4_hdr_len v) bs = take (rte_ipv4_hdr_len v) bs' -> rte_ipv4_cksum bs = rte_ipv4_cksum bs';
  udptcp_cksum_law : forall bs l4, 0 <= rte_ipv4_udptcp_cksum bs l4 < 2 ^ 16;
  timer_law : 1000 <= rte_get_timer_hz;
  rx_law : forall d port queue n l d', rte_eth_rx_burst d port queue n = (l, d') ->
    (length l <= n)%nat /\ in_dev d ≡ₚ l.*1 ++ in_dev d' /\
    Forall (fun x => length x.2 = data_room /\ Forall (fun b => 0 <= b < 256) x.2) l;
  tx_law : forall d port queue l n d', rte_eth_tx_burst d port queue l = (n, d') ->
    (n <= length l)%nat /\ in_dev d' ≡ₚ take n l ++ in_dev d;
  enqueue_law : forall d ring m rc d', rte_ring_enqueue d ring m = (rc, d') ->
    in_dev d' ≡ₚ (if rc =? 0 then [m] else []) ++ in_dev d;
  enqueue_burst_law : forall d ring l n d', rte_ring_enqueue_burst d ring l = (n, d') ->
    (n <= length l)%nat /\ in_dev d' ≡ₚ take n l ++ in_dev d;
  dequeue_burst_law : forall d ring n l d', rte_ring_dequeue_burst d ring n = (l, d') ->
    (length l <= n)%nat /\ in_dev d ≡ₚ l ++ in_dev d';
  free_law : forall d l, in_dev (rte_pktmbuf_free_bulk d l) ≡ₚ l ++ in_dev d;
}.

(** An mbuf: its data room and the private area, which holds the metadata. *)
Record Mbuf := mkMbuf { mb_data : list Z; mb_meta : PacketMeta }.

(** ** Lemmas *)

Definition bytes_ok (bs : list Z) : Prop := Forall (fun b => 0 <= b < 256) bs.

Lemma length_be_bytes n v : length (be_bytes n v) = n.
Proof. unfold be_bytes. now rewrite length_reverse, length_le_bytes. Qed.

#[export] Hint Rewrite length_be_bytes : cere_len.

Lemma le_bytes_ok n v : bytes_ok (le_bytes n v).
Proof. revert v. induction n; intros v; constructor; auto using u8_range. apply IHn. Qed.

Lemma be_bytes_ok n v : bytes_ok (be_bytes n v).
Proof. apply Forall_reverse, le_bytes_ok. Qed.

Lemma be_val_app bs b : be_val (bs ++ [b]) = be_val bs * 256 + b.
Proof. unfold be_val. now rewrite foldl_app. Qed.

(** A field written is the field read. *)
Lemma be_val_bytes n v : 0 <= v < 2 ^ (8 * Z.of_nat n) -> be_val (be_bytes n v) = v.
Proof.
  revert v. induction n as [|n IH]; intros v Hv; [unfold be_val; simpl in *; lia|].
  unfold be_bytes. cbn [le_bytes]. rewrite reverse_cons, be_val_app. fold (be_bytes n (v / 2 ^ 8)).
  rewrite IH.
  - unfold u8. pose proof (Z.div_mod v (2 ^ 8) ltac:(lia)). lia.
  - replace (8 * Z.of_nat (S n)) with (8 * Z.of_nat n + 8) in Hv by lia. rewrite Z.pow_add_r in Hv by lia.
    split; [apply Z.div_pos; lia|]. apply Z.div_lt_upper_bound; lia.
Qed.

Lemma be_val_range bs : bytes_ok bs -> 0 <= be_val bs < 2 ^ (8 * Z.of_nat (length bs)).
Proof.
  induction bs as [|b bs IH] using rev_ind; intros Hb; [unfold be_val; simpl; lia|].
  apply Forall_app in Hb as [Hbs Hb]. apply Forall_cons in Hb as [Hb _]. specialize (IH Hbs).
  rewrite be_val_app, length_app. cbn [length].
  replace (8 * Z.of_nat (length bs + 1)) with (8 * Z.of_nat (length bs) + 8) by lia.
  rewrite Z.pow_add_r by lia. lia.
Qed.

Lemma load_bytes_ok data off n :
  (off + n <= length data)%nat -> load_bytes data off n = Ret (take n (drop off data)).
Proof. intros Hl. unfold load_bytes. now destruct (Nat.leb_spec (off + n) (length data)); [|lia]. Qed.

Lemma store_bytes_ok data off bs :
  (off + length bs <= length data)%nat ->
  store_bytes data off bs = Ret (take off data ++ bs ++ drop (off + length bs) data).
Proof. intros Hl. unfold store_bytes. now destruct (Nat.leb_spec (off + length bs) (length data)); [|lia]. Qed.

(** What a store gives: same length, the bytes at [off], the others unchanged. *)
Lemma store_bytes_spec data off bs :
  (off + length bs <= length data)%nat ->
  exists data', store_bytes data off bs = Ret data' /\ length data' = length data /\
    take (length bs) (drop off data') = bs /\
    (forall i, (i < off \/ off + length bs <= i)%nat -> data' !! i = data !! i) /\
    (bytes_ok data -> bytes_ok bs -> bytes_ok data').
Proof.
  intros Hl. rewrite store_bytes_ok by done. eexists. split; [done|]. split_and!.
  - rewrite !length_app, length_take, length_drop. lia.
  - rewrite drop_app_length' by (rewrite length_take; lia). now rewrite take_app_length.
  - intros i Hi. destruct (decide (i < off)%nat).
    + rewrite lookup_app_l by (rewrite length_take; lia). rewrite lookup_take.
      destruct (decide (i < off)%nat); [done|lia].
    + rewrite lookup_app_r by (rewrite length_take; lia). rewrite length_take.
      rewrite lookup_app_r by lia. rewrite lookup_drop. f_equal. lia.
  - intros Hd Hb. apply Forall_app. split; [now apply Forall_take|].
    apply Forall_app. split; [done|now apply Forall_drop].
Qed.

(** A field away from the bytes written reads as before. *)
Lemma load_other data data' off n :
  length data' = length data ->
  (forall i, (off <= i < off + n)%nat -> data' !! i = data !! i) ->
  load_bytes data' off n = load_bytes data off n.
Proof.
  intros Hl He. unfold load_bytes. rewrite Hl. destruct (_ <=? _)%nat; [|done]. f_equal.
  apply list_eq. intros i. destruct (decide (i < n)%nat).
  - rewrite !lookup_take_lt, !lookup_drop by lia. apply He. lia.
  - rewrite !lookup_take_ge by lia. done.
Qed.
