(* ===== verification/Nodes.v ===== *)
(** * The nodes of the dataplane ([dataplane/include/nodes], [dataplane/src/nodes],
    [lb/steering.hpp])

    Each node's [Process] over the world of one lcore. A prefetch has no effect
    and is left out. *)

From S2P Require Import Prelude FlowKey NetTypes PortPool BackendPool NatTable Ipc PacketMeta LbNode Graph.
From S2P Require Import Packet.

Section Nodes.
Context `{BuildParams} `{Dpdk}.

(** ** The world of one lcore

    The device, the mbufs, the load balancer's state (its [stats_] are the
    counters all nodes of the lcore share) and the published backend pool. *)
Record Lcore := mkLcore {
  w_dev : dev;
  w_mem : mbuf_ptr -> Mbuf;
  w_lb : LbNode;
  w_pool : AtomicRcu BackendPool;
}.

Definition set_dev (w : Lcore) (d : dev) : Lcore := mkLcore d (w_mem w) (w_lb w) (w_pool w).

Definition set_lb (w : Lcore) (lb : LbNode) : Lcore := mkLcore (w_dev w) (w_mem w) lb (w_pool w).

Definition count_stat (w : Lcore) (f : LcoreStats -> LcoreStats) : Lcore :=
  set_lb w (set_stats (w_lb w) (f (stats_ (w_lb w)))).

Definition set_mbuf (w : Lcore) (m : mbuf_ptr) (b : Mbuf) : Lcore :=
  mkLcore (w_dev w) (fun q => if q =? m then b else w_mem w q) (w_lb w) (w_pool w).

(** [in.MoveTo(i, nexts[out])] for the packet [m] at [i]. *)
Definition move_to (nexts : list Frame) (out : nat) (m : mbuf_ptr) : outcome (list Frame) :=
  let! f := at_ nexts out in
  let! f := Push f m in
  Ret (<[out := f]> nexts).

(** [for (i = 0; i < in.count; ++i) body(in.bufs[i])]. *)
Fixpoint each (body : Lcore -> list Frame -> mbuf_ptr -> outcome (Lcore * list Frame))
    (items : list mbuf_ptr) (w : Lcore) (nexts : list Frame) : outcome (Lcore * list Frame) :=
  match items with
  | [] => Ret (w, nexts)
  | m :: items =>
      let! '(w, nexts) := body w nexts m in
      each body items w nexts
  end.

(** ** [Ip4ParseNode] *)

Definition kNextFwd : nat := 0.
Definition kNextRev : nat := 1.
Definition kParseDrop : nat := 2.
Definition kParseArp : nat := 3.

(** The offset of the transport header: [ip4 + rte_ipv4_hdr_len(ip4)]. *)
Definition l4_offset (data : list Z) : outcome nat :=
  let! vihl := load8 data kIpVihl in
  Ret (kEthLen + rte_ipv4_hdr_len vihl)%nat.

Definition ReadPorts (data : list Z) (l4 : nat) (proto : Z) : outcome (Z * Z) :=
  if proto =? IPPROTO_TCP then
    let! src := load_be 2 data (l4 + kL4Src) in
    let! dst := load_be 2 data (l4 + kL4Dst) in
    Ret (src, dst)
  else
    let! src := load_be 2 data (l4 + kL4Src) in
    let! dst := load_be 2 data (l4 + kL4Dst) in
    Ret (src, dst).

Definition ReadTcpFlags (data : list Z) (l4 : nat) (proto : Z) : outcome Z :=
  if negb (proto =? IPPROTO_TCP) then Ret 0 else load8 data (l4 + kTcpFlagsOff).

(** [ClassifyIpv4]: the output and the metadata. *)
Definition ClassifyIpv4 (cfg : Config) (meta : PacketMeta) (data : list Z) : outcome (nat * PacketMeta) :=
  let! proto := load8 data kIpProto in
  if negb (proto =? IPPROTO_TCP) && negb (proto =? IPPROTO_UDP) then Ret (kParseDrop, meta)
  else
    let! l4 := l4_offset data in
    let! '(src_port, dst_port) := ReadPorts data l4 proto in
    let! src_ip := load_be 4 data kIpSrc in
    let! dst_ip := load_be 4 data kIpDst in
    let meta := packet_meta src_ip dst_ip src_port dst_port proto kForward in
    let! flags := ReadTcpFlags data l4 proto in
    let meta := set_flags meta flags in
    let! mac := load_bytes data kEthSrc kEthAddrLen in
    let meta := set_client_mac meta (mkMacAddr mac) in
    if (dst_ip =? value (vip cfg)) && (dst_port =? vip_port cfg) then Ret (kNextFwd, set_dir meta kForward)
    else if dst_ip =? value (self_ip cfg) then Ret (kNextRev, set_dir meta kReverse)
    else Ret (kParseDrop, meta).

Definition Classify (cfg : Config) (meta : PacketMeta) (data : list Z) : outcome (nat * PacketMeta) :=
  let! ether_type := load_be 2 data kEthType in
  if ether_type =? RTE_ETHER_TYPE_ARP then Ret (kParseArp, meta)
  else if negb (ether_type =? RTE_ETHER_TYPE_IPV4) then Ret (kParseDrop, meta)
  else ClassifyIpv4 cfg meta data.

Definition parse_packet (cfg : Config) (w : Lcore) (nexts : list Frame) (m : mbuf_ptr)
  : outcome (Lcore * list Frame) :=
  let! '(out, meta) := Classify cfg (mb_meta (w_mem w m)) (mb_data (w_mem w m)) in
  let w := set_mbuf w m (mkMbuf (mb_data (w_mem w m)) meta) in
  let! nexts := move_to nexts out m in
  Ret (w, nexts).

(** A node whose [Process] is one loop over its input. *)
Definition loop_node (name : string) (outs : Z)
    (body : Lcore -> list Frame -> mbuf_ptr -> outcome (Lcore * list Frame)) : Node Lcore :=
  mkNode (fun w f nexts =>
    let! items := frame_items f in
    let! '(w, nexts) := each body items w nexts in
    Ret (w, f, nexts)) name outs.

Definition Ip4ParseNode (cfg : Config) : Node Lcore := loop_node "ip4-parse" 4 (parse_packet cfg).

(** ** [LbNode::Process] *)

Definition kNextDnat : nat := 0.
Definition kLbDrop : nat := 1.

Definition lb_packet (pool : BackendPool) (now_ms : Z) (w : Lcore) (nexts : list Frame) (m : mbuf_ptr)
  : outcome (Lcore * list Frame) :=
  let! '(ok, meta, lb) := HandlePacket (w_lb w) (mb_meta (w_mem w m)) pool now_ms in
  let w := set_mbuf (set_lb w lb) m (mkMbuf (mb_data (w_mem w m)) meta) in
  let! nexts := move_to nexts (if ok : bool then kNextDnat else kLbDrop) m in
  Ret (w, nexts).

Definition lb_drop (w : Lcore) (nexts : list Frame) (m : mbuf_ptr) : outcome (Lcore * list Frame) :=
  let! nexts := move_to nexts kLbDrop m in Ret (w, nexts).

Definition Lb_Process (w : Lcore) (f : Frame) (nexts : list Frame) : outcome (Lcore * Frame * list Frame) :=
  let! items := frame_items f in
  match Load (w_pool w) with
  | None =>
      let! '(w, nexts) := each lb_drop items w nexts in
      Ret (w, f, nexts)
  | Some pool =>
      if ActiveCount pool =? 0 then
        let! '(w, nexts) := each lb_drop items w nexts in
        Ret (w, f, nexts)
      else
        let! now_ms := NowMs (rte_get_timer_cycles (w_dev w)) rte_get_timer_hz in
        let! '(w, nexts) := each (lb_packet pool now_ms) items w nexts in
        Ret (count_stat w (fun s => store_active s (Size (nat_ (w_lb w)))), f, nexts)
  end.

Definition LbNode_node : Node Lcore := mkNode Lb_Process "lb" 2.

(** ** [DnatNode] *)

Definition SetPorts (data : list Z) (l4 : nat) (proto src_port dst_port : Z) : outcome (list Z) :=
  if proto =? IPPROTO_TCP then
    let! data := store_be 2 data (l4 + kL4Src) src_port in
    store_be 2 data (l4 + kL4Dst) dst_port
  else
    let! data := store_be 2 data (l4 + kL4Src) src_port in
    store_be 2 data (l4 + kL4Dst) dst_port.

(** DPDK returns a checksum ready to be stored, in the order of the host. *)
Definition store_cksum (data : list Z) (off : nat) (c : Z) : outcome (list Z) :=
  store_bytes data off (le_bytes 2 c).

Definition FixChecksums (data : list Z) (l4 : nat) (proto : Z) : outcome (list Z) :=
  let! data := store_cksum data kIpCksum 0 in
  let! data := store_cksum data kIpCksum (rte_ipv4_cksum (drop kEthLen data)) in
  let off := (l4 + if (proto =? IPPROTO_TCP)%Z then kTcpCksum else kUdpCksum)%nat in
  let! data := store_cksum data off 0 in
  store_cksum data off (rte_ipv4_udptcp_cksum (drop kEthLen data) (l4 - kEthLen)).

Definition Rewrite (cfg : Config) (meta : PacketMeta) (data : list Z) : outcome (list Z) :=
  let! l4 := l4_offset data in
  let! data :=
    match m_dir meta with
    | kForward =>
        let! data := store_be 4 data kIpSrc (value (self_ip cfg)) in
        let! data := store_be 4 data kIpDst (value (m_backend_ip meta)) in
        SetPorts data l4 (m_proto meta) (m_snat_port meta) (m_backend_port meta)
    | kReverse =>
        let! data := store_be 4 data kIpSrc (value (vip cfg)) in
        let! data := store_be 4 data kIpDst (value (m_client_ip meta)) in
        SetPorts data l4 (m_proto meta) (vip_port cfg) (m_client_port meta)
    end in
  FixChecksums data l4 (m_proto meta).

Definition dnat_packet (cfg : Config) (w : Lcore) (nexts : list Frame) (m : mbuf_ptr)
  : outcome (Lcore * list Frame) :=
  let b := w_mem w m in
  let! data := Rewrite cfg (mb_meta b) (mb_data b) in
  let! nexts := move_to nexts 0 m in
  Ret (set_mbuf w m (mkMbuf data (mb_meta b)), nexts).

Definition DnatNode (cfg : Config) : Node Lcore := loop_node "dnat" 1 (dnat_packet cfg).

(** ** [EtherRewriteNode] *)

Definition ether_rewrite (cfg : Config) (meta : PacketMeta) (data : list Z) : outcome (list Z) :=
  let dst_mac := match m_dir meta with kForward => m_backend_mac meta | kReverse => m_client_mac meta end in
  let! data := store_bytes data kEthDst (bytes dst_mac) in
  store_bytes data kEthSrc (bytes (self_mac cfg)).

Definition ether_packet (cfg : Config) (w : Lcore) (nexts : list Frame) (m : mbuf_ptr)
  : outcome (Lcore * list Frame) :=
  let b := w_mem w m in
  let! data := ether_rewrite cfg (mb_meta b) (mb_data b) in
  let! nexts := move_to nexts 0 m in
  Ret (set_mbuf w m (mkMbuf data (mb_meta b)), nexts).

Definition EtherRewriteNode (cfg : Config) : Node Lcore := loop_node "ether-rewrite" 1 (ether_packet cfg).

(** ** [ArpNode] *)

Definition kArpNextTx : nat := 0.
Definition kArpNextDrop : nat := 1.

(** [BuildReply]: whether a reply was built, and the data. *)
Definition BuildReply (cfg : Config) (data : list Z) : outcome (bool * list Z) :=
  let! opcode := load_be 2 data kArpOp in
  if negb (opcode =? RTE_ARP_OP_REQUEST) then Ret (false, data)
  else
    let! target := load_be 4 data kArpTip in
    if negb (target =? value (self_ip cfg)) && negb (target =? value (vip cfg)) then Ret (false, data)
    else
      let self := bytes (self_mac cfg) in
      let! src_addr := load_bytes data kEthSrc kEthAddrLen in
      let! data := store_bytes data kEthDst src_addr in
      let! data := store_bytes data kEthSrc self in
      let! data := store_be 2 data kArpOp RTE_ARP_OP_REPLY in
      let! sha := load_bytes data kArpSha kEthAddrLen in
      let! data := store_bytes data kArpTha sha in
      let! sip := load_bytes data kArpSip 4 in
      let! data := store_bytes data kArpTip sip in
      let! data := store_bytes data kArpSha self in
      let! data := store_be 4 data kArpSip target in
      Ret (true, data).

Definition arp_packet (cfg : Config) (w : Lcore) (nexts : list Frame) (m : mbuf_ptr)
  : outcome (Lcore * list Frame) :=
  let b := w_mem w m in
  let! '(reply, data) := BuildReply cfg (mb_data b) in
  let! nexts := move_to nexts (if reply : bool then kArpNextTx else kArpNextDrop) m in
  Ret (set_mbuf w m (mkMbuf data (mb_meta b)), nexts).

Definition ArpNode (cfg : Config) : Node Lcore := loop_node "arp" 2 (arp_packet cfg).

(** ** [DropNode], [TxNode], [RingTxNode] *)

Definition DropNode : Node Lcore :=
  mkNode (fun w f nexts =>
    let! items := frame_items f in
    Ret (set_dev w (rte_pktmbuf_free_bulk (w_dev w) items), Clear f, nexts)) "drop" 0.

(** The packets not sent are freed. *)
Definition free_unsent (w : Lcore) (items : list mbuf_ptr) (sent : nat) : Lcore :=
  set_dev w (rte_pktmbuf_free_bulk (w_dev w) (drop sent items)).

Definition Tx_Process (port queue : Z) (w : Lcore) (f : Frame) (nexts : list Frame)
  : outcome (Lcore * Frame * list Frame) :=
  let! items := frame_items f in
  let '(sent, d) := rte_eth_tx_burst (w_dev w) port queue items in
  let w := set_dev w d in
  let unsent := u16 (count f - Z.of_nat sent) in
  let w := if 0 <? unsent then free_unsent w items sent else w in
  let w := count_stat w (fun s => add_tx s (Z.of_nat sent)) in
  let w := count_stat w (fun s => add_dropped s unsent) in
  Ret (w, Clear f, nexts).

Definition TxNode (port queue : Z) : Node Lcore := mkNode (Tx_Process port queue) "tx" 0.

Definition RingTxNode (ring : nat) : Node Lcore :=
  mkNode (fun w f nexts =>
    let! items := frame_items f in
    let '(sent, d) := rte_ring_enqueue_burst (w_dev w) ring items in
    let w := set_dev w d in
    let w := if Z.of_nat sent <? count f
             then count_stat (free_unsent w items sent) (fun s => add_dropped s (count f - Z.of_nat sent))
             else w in
    Ret (w, Clear f, nexts)) "ring-tx" 0.

(** ** [RxNode], [RingRxNode]: the burst overwrites the input frame *)

Definition filled (f : Frame) (items : list mbuf_ptr) : Frame :=
  mkFrame (items ++ drop (length items) (bufs f)) (Z.of_nat (length items)).

(** The data of the mbufs received. *)
Fixpoint fill_mem (w : Lcore) (l : list (mbuf_ptr * list Z)) : Lcore :=
  match l with
  | [] => w
  | (m, data) :: l => fill_mem (set_mbuf w m (mkMbuf data (mb_meta (w_mem w m)))) l
  end.

Definition rx_forward (w : Lcore) (nexts : list Frame) (m : mbuf_ptr) : outcome (Lcore * list Frame) :=
  let! nexts := move_to nexts 0 m in Ret (w, nexts).

Definition Rx_Process (port queue : Z) (w : Lcore) (f : Frame) (nexts : list Frame)
  : outcome (Lcore * Frame * list Frame) :=
  let '(l, d) := rte_eth_rx_burst (w_dev w) port queue (Z.to_nat kBurstSize) in
  let w := fill_mem (set_dev w d) l in
  let f := filled f l.*1 in
  let w := count_stat w (fun s => add_rx s (count f)) in
  let! items := frame_items f in
  let! '(w, nexts) := each rx_forward items w nexts in
  Ret (w, f, nexts).

Definition RxNode (port queue : Z) : Node Lcore := mkNode (Rx_Process port queue) "rx" 1.

Definition RingRxNode (ring : nat) : Node Lcore :=
  mkNode (fun w f nexts =>
    let '(l, d) := rte_ring_dequeue_burst (w_dev w) ring (Z.to_nat kBurstSize) in
    let w := set_dev w d in
    let f := filled f l in
    let! items := frame_items f in
    let! '(w, nexts) := each rx_forward items w nexts in
    Ret (w, f, nexts)) "ring-rx" 1.

(** ** [SteerNode] and [lb/steering.hpp] *)

Inductive SteerClass := kSteer | kArp | kDrop.

(** The header's own copy of the port reader. *)
Definition ReadL4Ports (data : list Z) (l4 : nat) (proto : Z) : outcome (Z * Z) :=
  if proto =? IPPROTO_TCP then
    let! src := load_be 2 data (l4 + kL4Src) in
    let! dst := load_be 2 data (l4 + kL4Dst) in
    Ret (src, dst)
  else
    let! src := load_be 2 data (l4 + kL4Src) in
    let! dst := load_be 2 data (l4 + kL4Dst) in
    Ret (src, dst).

Definition ClassifyForSteer (cfg : Config) (n_workers : Z) (data : list Z) : outcome (SteerClass * Z) :=
  let! ether_type := load_be 2 data kEthType in
  if ether_type =? RTE_ETHER_TYPE_ARP then Ret (kArp, 0)
  else if negb (ether_type =? RTE_ETHER_TYPE_IPV4) then Ret (kDrop, 0)
  else
    let! proto := load8 data kIpProto in
    if negb (proto =? IPPROTO_TCP) && negb (proto =? IPPROTO_UDP) then Ret (kDrop, 0)
    else
      let! l4 := l4_offset data in
      let! '(src_port, dst_port) := ReadL4Ports data l4 proto in
      let! src_ip := load_be 4 data kIpSrc in
      let! dst_ip := load_be 4 data kIpDst in
      if (dst_ip =? value (vip cfg)) && (dst_port =? vip_port cfg) then
        if n_workers =? 0 then Undef
        else Ret (kSteer, SteerWorker (flow_key src_ip dst_ip src_port dst_port proto) n_workers)
      else if dst_ip =? value (self_ip cfg) then
        if n_workers =? 0 then Undef else Ret (kSteer, dst_port mod n_workers)
      else Ret (kDrop, 0).

Definition kSteerArp : nat := 0.

Definition steer_packet (cfg : Config) (worker_rings : list nat) (n_workers : Z)
    (w : Lcore) (nexts : list Frame) (m : mbuf_ptr) : outcome (Lcore * list Frame) :=
  let! '(cls, worker) := ClassifyForSteer cfg n_workers (mb_data (w_mem w m)) in
  match cls with
  | kArp => let! nexts := move_to nexts kSteerArp m in Ret (w, nexts)
  | kSteer =>
      let! ring := at_ worker_rings (Z.to_nat worker) in
      let '(rc, d) := rte_ring_enqueue (w_dev w) ring m in
      let w := set_dev w d in
      if negb (rc =? 0) then
        let w := set_dev w (rte_pktmbuf_free_bulk (w_dev w) [m]) in
        Ret (count_stat w (fun s => add_dropped s 1), nexts)
      else Ret (w, nexts)
  | kDrop => Ret (set_dev w (rte_pktmbuf_free_bulk (w_dev w) [m]), nexts)
  end.

Definition Steer_Process (cfg : Config) (worker_rings : list nat) (n_workers : Z)
    (w : Lcore) (f : Frame) (nexts : list Frame) : outcome (Lcore * Frame * list Frame) :=
  let! items := frame_items f in
  let! '(w, nexts) := each (steer_packet cfg worker_rings n_workers) items w nexts in
  Ret (w, Clear f, nexts).

Definition SteerNode (cfg : Config) (worker_rings : list nat) (n_workers : Z) : Node Lcore :=
  mkNode (Steer_Process cfg worker_rings n_workers) "steer" 1.

End Nodes.

(** [cbn] computes the [Process] of a node. *)
Arguments Tx_Process {_} port queue w f nexts /.
Arguments Rx_Process {_} port queue w f nexts /.
Arguments Steer_Process {_ _} cfg worker_rings n_workers w f nexts /.
