(* ===== verification/NodeFacts.v ===== *)
(** * Every node keeps the graph engine's contract

    [lcore_ok] is what the nodes of an lcore keep true; with it every node of the
    program satisfies [Node_ok], so the theorems on bursts apply to them. *)

From S2P Require Import Prelude FlowKey NetTypes PortPool BackendPool NatTable NatTableFacts NatTableSpec Ipc.
From S2P Require Import PacketMeta LbNode LbFacts LbSpec Graph GraphFacts Packet Nodes.

Section Facts.
Context `{BuildParams} `{Dpdk}.

(** ** The state of an lcore *)

Definition mbuf_ok (b : Mbuf) : Prop :=
  length (mb_data b) = data_room /\ bytes_ok (mb_data b) /\
  MacAddr_wf (m_client_mac (mb_meta b)) /\ MacAddr_wf (m_backend_mac (mb_meta b)).

(** A pool the control loop may publish; all its backends may be disabled. *)
Definition pool_ok (pool : BackendPool) : Prop :=
  BackendPool_wf pool /\ (length (bp_slots pool) <= kMaxBackends)%nat /\
  Forall (fun b => MacAddr_wf (be_mac b)) (bp_slots pool).

Record lcore_ok (ports : list Z) (w : Lcore) : Prop := {
  lo_mem : forall m, mbuf_ok (w_mem w m);
  lo_lb : LbInv ports (w_lb w);
  lo_stats : 0 <= new_flows (stats_ (w_lb w)) < 2 ^ 64;
  lo_pool : forall pool, Load (w_pool w) = Some pool -> pool_ok pool;
}.

Definition lcore_world (ports : list Z) : World Lcore :=
  {| owned w := in_dev (w_dev w); world_ok := lcore_ok ports |}.

Lemma pool_ok_usable pool : pool_ok pool -> ActiveCount pool <> 0 -> usable pool.
Proof.
  intros (Hwf & Hl & Hm) Ha. split_and!; try done. intros Hn. apply Ha. now apply ActiveCount_zero.
Qed.

Lemma lcore_ok_dev ports w d : lcore_ok ports w -> lcore_ok ports (set_dev w d).
Proof. intros []. split; done. Qed.

Lemma lcore_ok_mbuf ports w m b : lcore_ok ports w -> mbuf_ok b -> lcore_ok ports (set_mbuf w m b).
Proof. intros [] Hb. split; try done. simpl. intros q. destruct (q =? m); auto. Qed.

Lemma lcore_ok_stat ports w f :
  (forall s, length (backend_flows (f s)) = length (backend_flows s) /\ new_flows (f s) = new_flows s) ->
  lcore_ok ports w -> lcore_ok ports (count_stat w f).
Proof.
  intros Hf [Hm Hl Hs Hp]. destruct (Hf (stats_ (w_lb w))) as [Hb Hn]. split; try done; simpl.
  - apply LbInv_stats; [done|]. rewrite Hb. apply (li_stats _ _ Hl).
  - now rewrite Hn.
Qed.

Lemma lcore_ok_stat_cases ports w :
  lcore_ok ports w -> forall n,
  lcore_ok ports (count_stat w (fun s => add_rx s n)) /\ lcore_ok ports (count_stat w (fun s => add_tx s n)) /\
  lcore_ok ports (count_stat w (fun s => add_dropped s n)) /\ lcore_ok ports (count_stat w (fun s => store_active s n)).
Proof. intros Hw n. split_and!; apply lcore_ok_stat; done. Qed.

(** ** Moving packets to outputs *)

Definition sent_all (nexts : list Frame) : list mbuf_ptr := concat (packets <$> nexts).

(** One step adds at most one packet to each output. *)
Definition at_most_one (nexts nexts' : list Frame) : Prop :=
  Forall2 (fun o o' => count o <= count o' <= count o + 1) nexts nexts'.

Lemma at_most_one_refl nexts : at_most_one nexts nexts.
Proof. apply Forall_Forall2_diag, Forall_forall. intros; lia. Qed.

Lemma move_to_spec nexts out m :
  Forall frame_wf nexts -> (out < length nexts)%nat -> Forall (fun o => count o < kBurstSize) nexts ->
  exists nexts', move_to nexts out m = Ret nexts' /\ Forall frame_wf nexts' /\
    length nexts' = length nexts /\ at_most_one nexts nexts' /\ sent_all nexts' ≡ₚ sent_all nexts ++ [m].
Proof.
  intros Hwf Ho Hc. destruct (lookup_lt_is_Some_2 nexts out Ho) as [f Hf].
  pose proof (Forall_lookup_1 _ _ _ _ Hwf Hf) as Hff. pose proof (Forall_lookup_1 _ _ _ _ Hc Hf) as Hcf. simpl in Hcf.
  destruct (Push_spec f m Hff) as (f' & E & Hwf' & Hp & Hc').
  { unfold Full. apply Z.eqb_neq. lia. }
  unfold move_to. rewrite (proj2 (at_Ret _ _ f)) by done. cbn [obind]. rewrite E. cbn [obind].
  eexists. split; [done|]. split_and!.
  - now apply Forall_insert.
  - apply length_insert.
  - unfold at_most_one. rewrite <- (list_insert_id nexts out f Hf) at 1. apply Forall2_insert; [apply at_most_one_refl|lia].
  - unfold sent_all. rewrite list_fmap_insert.
    destruct (concat_insert_split (packets <$> nexts) out (packets f)) as (rest & Hc1 & Hc2).
    { rewrite list_lookup_fmap, Hf. done. }
    rewrite Hc1, Hc2, Hp, <- !app_assoc. apply Permutation_app_head, Permutation_app_comm.
Qed.

(** What the body of a node's loop does with one packet. *)
Definition body_ok (ports : list Z) (n : nat)
    (body : Lcore -> list Frame -> mbuf_ptr -> outcome (Lcore * list Frame)) : Prop :=
  forall w nexts m, lcore_ok ports w -> Forall frame_wf nexts -> length nexts = n ->
  Forall (fun o => count o < kBurstSize) nexts ->
  exists w' nexts', body w nexts m = Ret (w', nexts') /\ lcore_ok ports w' /\ Forall frame_wf nexts' /\
    length nexts' = n /\ at_most_one nexts nexts' /\
    in_dev (w_dev w') ++ sent_all nexts' ≡ₚ (in_dev (w_dev w) ++ sent_all nexts) ++ [m].

Lemma each_spec ports n body :
  body_ok ports n body -> forall items w nexts k,
  lcore_ok ports w -> Forall frame_wf nexts -> length nexts = n ->
  Forall (fun o => count o <= k) nexts -> k + Z.of_nat (length items) <= kBurstSize ->
  exists w' nexts', each body items w nexts = Ret (w', nexts') /\ lcore_ok ports w' /\ Forall frame_wf nexts' /\
    length nexts' = n /\ in_dev (w_dev w') ++ sent_all nexts' ≡ₚ (in_dev (w_dev w) ++ sent_all nexts) ++ items.
Proof.
  intros Hbody. induction items as [|m items IH]; intros w nexts k Hw Hwf Hl Hc Hk; cbn [each].
  { exists w, nexts. split_and!; try done. now rewrite app_nil_r. }
  cbn [length] in Hk. destruct (Hbody w nexts m Hw Hwf Hl) as (w1 & nexts1 & -> & Hw1 & Hwf1 & Hl1 & Hone & Hp1).
  { eapply Forall_impl; [exact Hc|]. simpl. intros; lia. }
  cbn [obind]. destruct (IH w1 nexts1 (k + 1) Hw1 Hwf1 Hl1) as (w' & nexts' & -> & Hw' & Hwf' & Hl' & Hp').
  { apply Forall_lookup_2. intros i o Ho. destruct (Forall2_lookup_r _ _ _ _ _ Hone Ho) as (o0 & Ho0 & ?).
    pose proof (Forall_lookup_1 _ _ _ _ Hc Ho0). simpl in *. lia. }
  { lia. }
  exists w', nexts'. split_and!; try done. rewrite Hp', Hp1, <- app_assoc. done.
Qed.

Lemma sent_all_empty nexts : Forall (fun o => frame_wf o /\ count o = 0) nexts -> sent_all nexts = [].
Proof.
  unfold sent_all. induction 1 as [|o nexts [Hwf Hc] _ IH]; [done|]. rewrite fmap_cons. cbn [concat].
  apply packets_nil in Hc as ->; done.
Qed.

(** A loop over a whole input frame, into empty outputs. *)
Lemma each_frame ports n body w f nexts :
  body_ok ports n body -> lcore_ok ports w -> frame_wf f -> length nexts = n ->
  Forall (fun o => frame_wf o /\ count o = 0) nexts ->
  exists w' nexts', each body (packets f) w nexts = Ret (w', nexts') /\ lcore_ok ports w' /\ Forall frame_wf nexts' /\
    length nexts' = n /\ in_dev (w_dev w') ++ sent_all nexts' ≡ₚ in_dev (w_dev w) ++ packets f.
Proof.
  intros Hb Hw Hf Hl He. destruct (each_spec ports n body Hb (packets f) w nexts 0 Hw) as (w' & nexts' & E & Hw' & Hwf & Hl' & Hp).
  - eapply Forall_impl; [exact He|]. now intros o [? _].
  - done.
  - eapply Forall_impl; [exact He|]. intros o [_ ->]. lia.
  - rewrite length_packets by done. destruct Hf. lia.
  - exists w', nexts'. split_and!; try done. rewrite Hp, (sent_all_empty nexts He), app_nil_r. done.
Qed.

Lemma loop_node_ok ports source name outs body :
  body_ok ports (Z.to_nat outs) body ->
  @Node_ok _ (lcore_world ports) source (loop_node name outs body).
Proof.
  intros Hb w f nexts Hw Hf _ Hl He. simpl in *. rewrite frame_items_wf by done. cbn [obind].
  destruct (each_frame ports _ body w f nexts Hb Hw Hf Hl He) as (w' & nexts' & -> & Hw' & Hwf & Hl' & Hp).
  cbn [obind]. exists w', f, nexts'. split_and!; try done; [apply Hf..|lia].
Qed.

(** ** Reading and rewriting packets stays inside the data room *)

Lemma load8_ok data off :
  bytes_ok data -> (off < length data)%nat ->
  exists b, load8 data off = Ret b /\ 0 <= b < 256 /\ data !! off = Some b.
Proof.
  intros Hb Hl. destruct (lookup_lt_is_Some_2 data off Hl) as [b Hl']. exists b. unfold load8.
  split_and!; [now apply at_Ret|..]; try done; pose proof (Forall_lookup_1 _ _ _ _ Hb Hl') as Hr; simpl in Hr; lia.
Qed.

Lemma load_be_ok n data off :
  bytes_ok data -> (off + n <= length data)%nat ->
  exists v, load_be n data off = Ret v /\ 0 <= v < 2 ^ (8 * Z.of_nat n) /\ v = be_val (take n (drop off data)).
Proof.
  intros Hb Hl. unfold load_be. rewrite load_bytes_ok by done. cbn [obind]. eexists. split; [done|]. split; [|done].
  pose proof (be_val_range (take n (drop off data)) ltac:(now apply Forall_take, Forall_drop)) as Hr.
  rewrite length_take, length_drop in Hr. now replace (n `min` (length data - off))%nat with n in Hr by lia.
Qed.

Lemma l4_offset_ok data :
  bytes_ok data -> length data = data_room -> exists l4, l4_offset data = Ret l4 /\ (kEthLen <= l4 <= 74)%nat.
Proof.
  intros Hb Hl. pose proof data_room_min as Hroom. unfold l4_offset.
  destruct (load8_ok data kIpVihl Hb) as (v & -> & Hv & _); [unfold kIpVihl; lia|]. cbn [obind].
  eexists. split; [done|]. rewrite hdr_len_law by done. unfold kEthLen.
  assert (Hm : 0 <= Z.land v 15 < 16).
  { change 15 with (Z.ones 4). rewrite Z.land_ones by lia. apply Z.mod_pos_bound. lia. }
  lia.
Qed.

Lemma store_be_ok n data off v :
  bytes_ok data -> length data = data_room -> (off + n <= 94)%nat ->
  exists data', store_be n data off v = Ret data' /\ length data' = data_room /\ bytes_ok data'.
Proof.
  intros Hb Hl Ho. pose proof data_room_min. unfold store_be.
  destruct (store_bytes_spec data off (be_bytes n v)) as (d & E & Hl' & _ & _ & Hok); [rewrite length_be_bytes; lia|].
  exists d. split_and!; [done|congruence|]. apply Hok; [done|apply be_bytes_ok].
Qed.

Lemma store_bytes_room data off bs :
  bytes_ok data -> length data = data_room -> bytes_ok bs -> (off + length bs <= 94)%nat ->
  exists data', store_bytes data off bs = Ret data' /\ length data' = data_room /\ bytes_ok data'.
Proof.
  intros Hb Hl Hbs Ho. pose proof data_room_min.
  destruct (store_bytes_spec data off bs) as (d & E & Hl' & _ & _ & Hok); [lia|].
  exists d. split_and!; [done|congruence|auto].
Qed.

(** Take the next load or store of the goal, which the room has place for. *)
Ltac room := unfold kEthDst, kEthSrc, kEthType, kEthLen, kEthAddrLen, kIpVihl, kIpProto, kIpCksum, kIpSrc, kIpDst,
  kL4Src, kL4Dst, kTcpFlagsOff, kTcpCksum, kUdpCksum, kArpOp, kArpSha, kArpSip, kArpTha, kArpTip, kMacLen in *;
  pose proof data_room_min; try lia.

Ltac mac_len := match goal with Hm : MacAddr_wf ?x |- _ => destruct Hm as [? ?] end.

(** The two port readers agree. *)
Lemma ReadL4Ports_eq data l4 proto : ReadL4Ports data l4 proto = ReadPorts data l4 proto.
Proof. reflexivity. Qed.

Lemma ReadPorts_ok data l4 proto :
  bytes_ok data -> length data = data_room -> (l4 <= 74)%nat ->
  exists src dst, ReadPorts data l4 proto = Ret (src, dst) /\ 0 <= src < 2 ^ 16 /\ 0 <= dst < 2 ^ 16.
Proof.
  intros Hb Hl Ho. unfold ReadPorts.
  destruct (load_be_ok 2 data (l4 + kL4Src) Hb) as (src & -> & Hs & _); [room|].
  destruct (load_be_ok 2 data (l4 + kL4Dst) Hb) as (dst & -> & Hd & _); [room|].
  cbn [obind]. exists src, dst. now destruct (proto =? IPPROTO_TCP).
Qed.

Lemma ReadTcpFlags_ok data l4 proto :
  bytes_ok data -> length data = data_room -> (l4 <= 74)%nat ->
  exists fl, ReadTcpFlags data l4 proto = Ret fl /\ 0 <= fl < 2 ^ 8.
Proof.
  intros Hb Hl Ho. unfold ReadTcpFlags. destruct (negb _); [exists 0; split; [done|lia]|].
  destruct (load8_ok data (l4 + kTcpFlagsOff) Hb) as (fl & -> & Hf & _); [room|]. eauto.
Qed.

Lemma load_mac_ok data off :
  bytes_ok data -> length data = data_room -> (off + kEthAddrLen <= 94)%nat ->
  exists mac, load_bytes data off kEthAddrLen = Ret mac /\ MacAddr_wf (mkMacAddr mac).
Proof.
  intros Hb Hl Ho. rewrite load_bytes_ok by room. eexists. split; [done|]. split; simpl.
  - rewrite length_take, length_drop. room.
  - now apply Forall_take, Forall_drop.
Qed.

Lemma Classify_ok cfg b :
  mbuf_ok b -> exists out meta, Classify cfg (mb_meta b) (mb_data b) = Ret (out, meta) /\ (out < 4)%nat /\
    MacAddr_wf (m_client_mac meta) /\ MacAddr_wf (m_backend_mac meta).
Proof.
  intros (Hl & Hb & Hc & Hbm). unfold Classify.
  destruct (load_be_ok 2 (mb_data b) kEthType Hb) as (et & -> & _ & _); [room|]. cbn [obind].
  destruct (et =? RTE_ETHER_TYPE_ARP); [exists kParseArp, (mb_meta b); unfold kParseArp; split_and!; done || lia|].
  destruct (negb _); [exists kParseDrop, (mb_meta b); unfold kParseDrop; split_and!; done || lia|].
  unfold ClassifyIpv4.
  destruct (load8_ok (mb_data b) kIpProto Hb) as (proto & -> & _ & _); [room|]. cbn [obind].
  destruct (_ && _); [exists kParseDrop, (mb_meta b); unfold kParseDrop; split_and!; done || lia|].
  destruct (l4_offset_ok (mb_data b) Hb Hl) as (l4 & -> & Hl4). cbn [obind].
  destruct (ReadPorts_ok (mb_data b) l4 proto Hb Hl) as (sp & dp & -> & _ & _); [lia|]. cbn [obind].
  destruct (load_be_ok 4 (mb_data b) kIpSrc Hb) as (sip & -> & _ & _); [room|]. cbn [obind].
  destruct (load_be_ok 4 (mb_data b) kIpDst Hb) as (dip & -> & _ & _); [room|]. cbn [obind].
  destruct (ReadTcpFlags_ok (mb_data b) l4 proto Hb Hl) as (fl & -> & _); [lia|]. cbn [obind].
  destruct (load_mac_ok (mb_data b) kEthSrc Hb Hl) as (mac & -> & Hmac); [room|]. cbn [obind].
  assert (Hz : MacAddr_wf MacAddr_zero) by (split; [done|repeat constructor; lia]).
  destruct (_ && _); [|destruct (dip =? _)]; eexists _, _; (split; [done|]);
    unfold kNextFwd, kNextRev, kParseDrop; (split; [lia|]); done.
Qed.

Lemma parse_body_ok ports cfg : body_ok ports 4 (parse_packet cfg).
Proof.
  intros w nexts m Hw Hwf Hl Hc. pose proof (lo_mem _ _ Hw m) as Hm. unfold parse_packet.
  destruct (Classify_ok cfg _ Hm) as (out & meta & -> & Ho & Hcm & Hbm). cbn [obind].
  destruct (move_to_spec nexts out m Hwf) as (nexts' & -> & Hwf' & Hl' & Hone & Hp); [lia|done|]. cbn [obind].
  eexists _, nexts'. split; [done|]. split_and!; try done; try lia.
  - apply lcore_ok_mbuf; [done|]. destruct Hm as (? & ? & _). split_and!; done.
  - simpl. now rewrite Hp, app_assoc.
Qed.

(** ** [LbNode] *)

Lemma view_macs ports lb now key f : LbInv ports lb -> view (nat_ lb) now !! key = Some f -> flow_macs f.
Proof. intros Hi Hv. apply view_lookup in Hv as (s & Hs & _); [|apply Hi]. eapply li_macs; eauto. Qed.

(** The metadata [HandlePacket] leaves has whole Ethernet addresses. *)
Lemma HandlePacket_macs ports lb meta pool now ok meta' lb' :
  LbInv ports lb -> Forall (fun p => p <> 0) ports -> usable pool ->
  MacAddr_wf (m_client_mac meta) -> MacAddr_wf (m_backend_mac meta) ->
  HandlePacket lb meta pool now = Ret (ok, meta', lb') ->
  MacAddr_wf (m_client_mac meta') /\ MacAddr_wf (m_backend_mac meta').
Proof.
  intros Hi Hnz Hu Hc Hb E. destruct (m_dir meta) eqn:Hd.
  - destruct (view (nat_ lb) now !! fk_bytes (packet_key meta)) as [f|] eqn:Hv; [|destruct (denied meta) eqn:Hden].
    + destruct (HandlePacket_known ports lb meta pool now f) as (lb2 & E2 & _); try done.
      rewrite E in E2. injection E2 as _ -> _. split; [done|]. apply (view_macs ports lb now _ f Hi Hv).
    + destruct (HandlePacket_denied ports lb meta pool now) as (lb2 & E2 & _); try done.
      rewrite E in E2. now injection E2 as _ -> _.
    + destruct (HandlePacket_opens ports lb meta pool now) as (lb2 & _ & _ & [(E2 & _)|(f & E2 & Ho & _)]); try done;
        rewrite E in E2; injection E2 as _ -> _; [done|]. split; [done|].
      destruct Ho as (idx & b & port & pp & _ & _ & Hbk & _ & _ & ->). simpl.
      destruct Hu as (_ & _ & _ & Hm). apply (Forall_lookup_1 _ _ _ _ Hm Hbk).
  - destruct (HandlePacket_reverse ports lb meta pool now Hi Hd) as (lb2 & _ & _ & _ & _ & [(E2 & _)|(f & E2 & Hf & _)]);
      rewrite E in E2; injection E2 as _ -> _; [done|]. split; [|done]. apply (view_macs ports lb now _ f Hi Hf).
Qed.

Lemma lb_drop_ok ports : body_ok ports 2 lb_drop.
Proof.
  intros w nexts m Hw Hwf Hl Hc. unfold lb_drop.
  destruct (move_to_spec nexts kLbDrop m Hwf) as (nexts' & -> & Hwf' & Hl' & Hone & Hp); [unfold kLbDrop; lia|done|].
  cbn [obind]. exists w, nexts'. split_and!; try done; [apply Hw..|lia|]. now rewrite Hp, app_assoc.
Qed.

Lemma lb_body_ok ports pool now :
  Forall (fun p => p <> 0) ports -> usable pool -> body_ok ports 2 (lb_packet pool now).
Proof.
  intros Hnz Hu w nexts m Hw Hwf Hl Hc. pose proof (lo_mem _ _ Hw m) as (Hlm & Hbm & Hcm & Hkm). unfold lb_packet.
  destruct (HandlePacket_total ports (w_lb w) (mb_meta (w_mem w m)) pool now (lo_lb _ _ Hw) Hnz (lo_stats _ _ Hw) Hu Hcm)
    as (ok & meta & lb' & E & [Hi' _ Hst' _ _]). rewrite E. cbn [obind].
  destruct (HandlePacket_macs _ _ _ _ _ _ _ _ (lo_lb _ _ Hw) Hnz Hu Hcm Hkm E) as [Hc' Hk'].
  destruct (move_to_spec nexts (if ok then kNextDnat else kLbDrop) m Hwf) as (nexts' & -> & Hwf' & Hl' & Hone & Hp);
    [unfold kNextDnat, kLbDrop; destruct ok; lia|done|]. cbn [obind].
  eexists _, nexts'. split; [done|]. split_and!; try done; try lia.
  - apply lcore_ok_mbuf; [|split_and!; done]. destruct Hw as [Hmem _ _ Hpool]. split; done.
  - simpl. now rewrite Hp, app_assoc.
Qed.

Lemma LbNode_ok ports source :
  Forall (fun p => p <> 0) ports -> @Node_ok _ (lcore_world ports) source LbNode_node.
Proof.
  intros Hnz w f nexts Hw Hf _ Hl He. simpl in *. unfold Lb_Process. rewrite frame_items_wf by done. cbn [obind].
  assert (Hdrop : exists w' f' nexts', (let! '(w, nexts) := each lb_drop (packets f) w nexts in Ret (w, f, nexts)) =
      Ret (w', f', nexts') /\ lcore_ok ports w' /\ frame_wf f' /\ length nexts' = length nexts /\ Forall frame_wf nexts' /\
      in_dev (w_dev w') ++ concat (packets <$> nexts') ≡ₚ in_dev (w_dev w) ++ packets f).
  { destruct (each_frame ports _ _ w f nexts (lb_drop_ok ports) Hw Hf Hl He) as (w' & nexts' & -> & Hw' & Hwf & Hl' & Hp).
    cbn [obind]. exists w', f, nexts'. split_and!; try done; [apply Hf..|lia]. }
  destruct (Load (w_pool w)) as [pool|] eqn:Hpool; [|done].
  destruct (Z.eqb_spec (ActiveCount pool) 0) as [Ha|Ha]; [done|].
  pose proof (pool_ok_usable pool (lo_pool _ _ Hw pool Hpool) Ha) as Hu.
  unfold NowMs. destruct (Z.eqb_spec (rte_get_timer_hz / kMsPerSec) 0) as [Hz|_].
  { exfalso. pose proof timer_law. unfold kMsPerSec in Hz.
    pose proof (Z.div_le_mono 1000 rte_get_timer_hz 1000 eq_refl timer_law) as Hd. rewrite Hz in Hd.
    change (1000 / 1000) with 1 in Hd. lia. }
  cbn [obind]. match goal with |- context [lb_packet pool ?t] => set (now := t) end.
  destruct (each_frame ports _ _ w f nexts (lb_body_ok ports pool now Hnz Hu) Hw Hf Hl He)
    as (w' & nexts' & E & Hw' & Hwf & Hl' & Hp). rewrite E.
  cbn [obind]. eexists _, f, nexts'. split; [done|]. split; [apply (lcore_ok_stat_cases ports w' Hw')|].
  split; [exact Hf|]. split; [lia|]. split; [done|]. exact Hp.
Qed.

(** ** The other nodes *)

Lemma SetPorts_ok data l4 proto sp dp :
  bytes_ok data -> length data = data_room -> (l4 <= 74)%nat ->
  exists data', SetPorts data l4 proto sp dp = Ret data' /\ length data' = data_room /\ bytes_ok data'.
Proof.
  intros Hb Hl Ho. unfold SetPorts.
  destruct (store_be_ok 2 data (l4 + kL4Src) sp Hb Hl) as (d1 & -> & Hl1 & Hb1); [room|]. cbn [obind].
  destruct (store_be_ok 2 d1 (l4 + kL4Dst) dp Hb1 Hl1) as (d2 & -> & Hl2 & Hb2); [room|].
  exists d2. now destruct (proto =? IPPROTO_TCP).
Qed.

Lemma store_cksum_ok data off c :
  bytes_ok data -> length data = data_room -> (off + 2 <= 94)%nat ->
  exists data', store_cksum data off c = Ret data' /\ length data' = data_room /\ bytes_ok data'.
Proof.
  intros Hb Hl Ho. apply store_bytes_room; [done|done|apply le_bytes_ok|]. rewrite length_le_bytes. lia.
Qed.

Lemma FixChecksums_ok data l4 proto :
  bytes_ok data -> length data = data_room -> (l4 <= 74)%nat ->
  exists data', FixChecksums data l4 proto = Ret data' /\ length data' = data_room /\ bytes_ok data'.
Proof.
  intros Hb Hl Ho. unfold FixChecksums.
  destruct (store_cksum_ok data kIpCksum 0 Hb Hl) as (d1 & -> & Hl1 & Hb1); [room|]. cbn [obind].
  destruct (store_cksum_ok d1 kIpCksum (rte_ipv4_cksum (drop kEthLen d1)) Hb1 Hl1) as (d2 & -> & Hl2 & Hb2); [room|].
  cbn [obind]. set (off := (l4 + _)%nat).
  assert (Hoff : (off + 2 <= 94)%nat) by (unfold off; destruct (proto =? IPPROTO_TCP); room).
  destruct (store_cksum_ok d2 off 0 Hb2 Hl2 Hoff) as (d3 & -> & Hl3 & Hb3). cbn [obind].
  apply store_cksum_ok; done.
Qed.

Lemma Rewrite_ok cfg meta data :
  bytes_ok data -> length data = data_room ->
  exists data', Rewrite cfg meta data = Ret data' /\ length data' = data_room /\ bytes_ok data'.
Proof.
  intros Hb Hl. unfold Rewrite. destruct (l4_offset_ok data Hb Hl) as (l4 & -> & Hl4). cbn [obind].
  assert (Hset : forall sip dip sp dp, exists data',
    (let! data := store_be 4 data kIpSrc sip in let! data := store_be 4 data kIpDst dip in
     SetPorts data l4 (m_proto meta) sp dp) = Ret data' /\ length data' = data_room /\ bytes_ok data').
  { intros sip dip sp dp.
    destruct (store_be_ok 4 data kIpSrc sip Hb Hl) as (d1 & -> & Hl1 & Hb1); [room|]. cbn [obind].
    destruct (store_be_ok 4 d1 kIpDst dip Hb1 Hl1) as (d2 & -> & Hl2 & Hb2); [room|]. cbn [obind].
    apply SetPorts_ok; [done|done|lia]. }
  assert (Hdata : exists data', (match m_dir meta with
    | kForward => let! data := store_be 4 data kIpSrc (value (self_ip cfg)) in
        let! data := store_be 4 data kIpDst (value (m_backend_ip meta)) in
        SetPorts data l4 (m_proto meta) (m_snat_port meta) (m_backend_port meta)
    | kReverse => let! data := store_be 4 data kIpSrc (value (vip cfg)) in
        let! data := store_be 4 data kIpDst (value (m_client_ip meta)) in
        SetPorts data l4 (m_proto meta) (vip_port cfg) (m_client_port meta)
    end) = Ret data' /\ length data' = data_room /\ bytes_ok data') by (destruct (m_dir meta); apply Hset).
  destruct Hdata as (d & -> & Hld & Hbd). cbn [obind]. apply FixChecksums_ok; [done|done|lia].
Qed.

(** A body that rewrites the data and moves the packet to output [out]. *)
Lemma rewrite_body ports n w nexts m out data' :
  lcore_ok ports w -> Forall frame_wf nexts -> length nexts = n -> (out < n)%nat ->
  Forall (fun o => count o < kBurstSize) nexts -> length data' = data_room -> bytes_ok data' ->
  exists nexts', move_to nexts out m = Ret nexts' /\
    lcore_ok ports (set_mbuf w m (mkMbuf data' (mb_meta (w_mem w m)))) /\ Forall frame_wf nexts' /\
    length nexts' = n /\ at_most_one nexts nexts' /\
    in_dev (w_dev w) ++ sent_all nexts' ≡ₚ (in_dev (w_dev w) ++ sent_all nexts) ++ [m].
Proof.
  intros Hw Hwf Hl Ho Hc Hld Hbd.
  destruct (move_to_spec nexts out m Hwf) as (nexts' & -> & Hwf' & Hl' & Hone & Hp); [lia|done|].
  exists nexts'. split; [done|]. split_and!; try done; try lia.
  - apply lcore_ok_mbuf; [done|]. destruct (lo_mem _ _ Hw m) as (_ & _ & ? & ?). split_and!; done.
  - now rewrite Hp, app_assoc.
Qed.

Lemma dnat_body_ok ports cfg : body_ok ports 1 (dnat_packet cfg).
Proof.
  intros w nexts m Hw Hwf Hl Hc. destruct (lo_mem _ _ Hw m) as (Hlm & Hbm & _ & _). unfold dnat_packet.
  destruct (Rewrite_ok cfg (mb_meta (w_mem w m)) _ Hbm Hlm) as (data' & -> & Hld & Hbd). cbn [obind].
  destruct (rewrite_body ports 1 w nexts m 0 data' Hw Hwf Hl ltac:(lia) Hc Hld Hbd) as (nexts' & -> & Hrest).
  cbn [obind]. eexists _, nexts'. split; [done|]. exact Hrest.
Qed.

Lemma ether_body_ok ports cfg : MacAddr_wf (self_mac cfg) -> body_ok ports 1 (ether_packet cfg).
Proof.
  intros [Hsl Hsb] w nexts m Hw Hwf Hl Hc. destruct (lo_mem _ _ Hw m) as (Hlm & Hbm & [Hcl Hcb] & [Hkl Hkb]).
  unfold ether_packet, ether_rewrite. set (dst := match m_dir _ with kForward => _ | kReverse => _ end).
  assert (Hd : length (bytes dst) = kMacLen /\ bytes_ok (bytes dst)) by (unfold dst; destruct (m_dir _); done).
  destruct Hd as [Hdl Hdb].
  destruct (store_bytes_room (mb_data (w_mem w m)) kEthDst (bytes dst) Hbm Hlm Hdb) as (d1 & -> & Hl1 & Hb1); [room|].
  cbn [obind]. destruct (store_bytes_room d1 kEthSrc (bytes (self_mac cfg)) Hb1 Hl1 Hsb) as (d2 & -> & Hl2 & Hb2); [room|].
  cbn [obind].
  destruct (rewrite_body ports 1 w nexts m 0 d2 Hw Hwf Hl ltac:(lia) Hc Hl2 Hb2) as (nexts' & -> & Hrest).
  cbn [obind]. eexists _, nexts'. split; [done|]. exact Hrest.
Qed.

Lemma BuildReply_ok cfg data :
  MacAddr_wf (self_mac cfg) -> bytes_ok data -> length data = data_room ->
  exists r data', BuildReply cfg data = Ret (r, data') /\ length data' = data_room /\ bytes_ok data'.
Proof.
  intros [Hsl Hsb] Hb Hl. unfold BuildReply.
  destruct (load_be_ok 2 data kArpOp Hb) as (op & -> & _ & _); [room|]. cbn [obind].
  destruct (negb _); [eauto|].
  destruct (load_be_ok 4 data kArpTip Hb) as (tip & -> & _ & _); [room|]. cbn [obind].
  destruct (_ && _); [eauto|].
  destruct (load_mac_ok data kEthSrc Hb Hl) as (src & -> & [Hml Hmb]); [room|]. cbn [obind bytes] in *.
  destruct (store_bytes_room data kEthDst src Hb Hl Hmb) as (d1 & -> & L1 & B1); [room|]. cbn [obind].
  destruct (store_bytes_room d1 kEthSrc _ B1 L1 Hsb) as (d2 & -> & L2 & B2); [room|]. cbn [obind].
  destruct (store_be_ok 2 d2 kArpOp RTE_ARP_OP_REPLY B2 L2) as (d3 & -> & L3 & B3); [room|]. cbn [obind].
  destruct (load_mac_ok d3 kArpSha B3 L3) as (sha & -> & [Hal Hab]); [room|]. cbn [obind bytes] in *.
  destruct (store_bytes_room d3 kArpTha sha B3 L3 Hab) as (d4 & -> & L4 & B4); [room|]. cbn [obind].
  rewrite load_bytes_ok by room. cbn [obind].
  destruct (store_bytes_room d4 kArpTip (take 4 (drop kArpSip d4)) B4 L4) as (d5 & -> & L5 & B5).
  { now apply Forall_take, Forall_drop. }
  { rewrite length_take. room. }
  cbn [obind].
  destruct (store_bytes_room d5 kArpSha _ B5 L5 Hsb) as (d6 & -> & L6 & B6); [room|]. cbn [obind].
  destruct (store_be_ok 4 d6 kArpSip tip B6 L6) as (d7 & -> & L7 & B7); [room|]. cbn [obind]. eauto.
Qed.

Lemma arp_body_ok ports cfg : MacAddr_wf (self_mac cfg) -> body_ok ports 2 (arp_packet cfg).
Proof.
  intros Hs w nexts m Hw Hwf Hl Hc. destruct (lo_mem _ _ Hw m) as (Hlm & Hbm & _ & _). unfold arp_packet.
  destruct (BuildReply_ok cfg _ Hs Hbm Hlm) as (r & data' & -> & Hld & Hbd). cbn [obind].
  destruct (rewrite_body ports 2 w nexts m (if r then kArpNextTx else kArpNextDrop) data' Hw Hwf Hl
    ltac:(unfold kArpNextTx, kArpNextDrop; destruct r; lia) Hc Hld Hbd) as (nexts' & -> & Hrest).
  cbn [obind]. eexists _, nexts'. split; [done|]. exact Hrest.
Qed.

Lemma DropNode_ok ports source : @Node_ok _ (lcore_world ports) source DropNode.
Proof.
  intros w f nexts Hw Hf _ Hl He. simpl in *. rewrite frame_items_wf by done. cbn [obind].
  eexists _, _, nexts. split; [done|]. split; [now apply lcore_ok_dev|]. split; [now apply Clear_wf|].
  split; [done|]. split; [eapply Forall_impl; [exact He|]; now intros o [? _]|].
  fold (sent_all nexts). rewrite (sent_all_empty nexts He), app_nil_r. simpl.
  rewrite free_law. apply Permutation_app_comm.
Qed.

(** What a sink does with its input: [n] packets are taken, the others are freed. *)
Lemma sink_owned d d' (items : list mbuf_ptr) n :
  in_dev d' ≡ₚ take n items ++ in_dev d ->
  in_dev (rte_pktmbuf_free_bulk d' (drop n items)) ≡ₚ in_dev d ++ items.
Proof.
  intros E. rewrite free_law, E. rewrite <- (take_drop n items) at 3.
  rewrite app_assoc, (Permutation_app_comm (drop n items)). apply Permutation_app_comm.
Qed.

Lemma sink_result ports w f nexts w' :
  lcore_ok ports w' -> frame_wf f -> Forall (fun o => frame_wf o /\ count o = 0) nexts ->
  in_dev (w_dev w') ≡ₚ in_dev (w_dev w) ++ packets f ->
  lcore_ok ports w' /\ frame_wf (Clear f) /\ length nexts = length nexts /\ Forall frame_wf nexts /\
    in_dev (w_dev w') ++ concat (packets <$> nexts) ≡ₚ in_dev (w_dev w) ++ packets f.
Proof.
  intros Hw Hf He Hp. split; [done|]. split; [now apply Clear_wf|]. split; [done|].
  split; [eapply Forall_impl; [exact He|]; now intros o [? _]|].
  fold (sent_all nexts). now rewrite (sent_all_empty nexts He), app_nil_r.
Qed.

Lemma TxNode_ok ports source port queue : @Node_ok _ (lcore_world ports) source (TxNode port queue).
Proof.
  intros w f nexts Hw Hf _ Hl He. simpl in *. rewrite frame_items_wf by done. cbn [obind].
  pose proof (length_packets f Hf) as Hlen.
  destruct (rte_eth_tx_burst (w_dev w) port queue (packets f)) as [sent d] eqn:E.
  apply tx_law in E as [Hs Hp].
  assert (Hun : u16 (count f - Z.of_nat sent) = count f - Z.of_nat sent).
  { apply u16_small. destruct Hf as [_ Hc]. unfold kBurstSize in Hc. lia. }
  rewrite Hun. eexists _, _, nexts. split; [done|]. apply sink_result; try done.
  - apply (lcore_ok_stat_cases ports). apply (lcore_ok_stat_cases ports).
    destruct (0 <? _); unfold free_unsent; repeat apply lcore_ok_dev; done.
  - simpl. destruct (Z.ltb_spec 0 (count f - Z.of_nat sent)); simpl.
    + now apply sink_owned.
    + rewrite Hp, take_ge by lia. apply Permutation_app_comm.
Qed.

Lemma RingTxNode_ok ports source ring : @Node_ok _ (lcore_world ports) source (RingTxNode ring).
Proof.
  intros w f nexts Hw Hf _ Hl He. simpl in *. rewrite frame_items_wf by done. cbn [obind].
  pose proof (length_packets f Hf) as Hlen.
  destruct (rte_ring_enqueue_burst (w_dev w) ring (packets f)) as [sent d] eqn:E.
  apply enqueue_burst_law in E as [Hs Hp].
  eexists _, _, nexts. split; [done|]. apply sink_result; try done.
  - destruct (_ <? _); [apply (lcore_ok_stat_cases ports)|]; unfold free_unsent; repeat apply lcore_ok_dev; done.
  - destruct (Z.ltb_spec (Z.of_nat sent) (count f)); simpl.
    + now apply sink_owned.
    + rewrite Hp, take_ge by lia. apply Permutation_app_comm.
Qed.

Lemma rx_forward_ok ports : body_ok ports 1 rx_forward.
Proof.
  intros w nexts m Hw Hwf Hl Hc. unfold rx_forward.
  destruct (move_to_spec nexts 0 m Hwf) as (nexts' & -> & Hwf' & Hl' & Hone & Hp); [lia|done|].
  cbn [obind]. exists w, nexts'. split; [done|]. split; [done|]. split; [done|]. split; [lia|]. split; [done|].
  now rewrite Hp, app_assoc.
Qed.

Lemma filled_wf f items :
  frame_wf f -> (length items <= Z.to_nat kBurstSize)%nat -> frame_wf (filled f items) /\ packets (filled f items) = items.
Proof.
  intros [Hl Hc] Hi. unfold filled, frame_wf, packets, kBurstSize in *. simpl. split_and!; try lia.
  - rewrite length_app, length_drop. lia.
  - now rewrite Nat2Z.id, take_app_length.
Qed.

Lemma fill_mem_ok ports l w :
  lcore_ok ports w ->
  Forall (fun x => length x.2 = data_room /\ Forall (fun b => 0 <= b < 256) x.2) l ->
  lcore_ok ports (fill_mem w l) /\ w_dev (fill_mem w l) = w_dev w.
Proof.
  revert w. induction l as [|[m data] l IH]; intros w Hw Hl; [done|]. apply Forall_cons in Hl as [[Hlen Hb] Hl].
  cbn [fill_mem]. edestruct (IH (set_mbuf w m (mkMbuf data (mb_meta (w_mem w m))))) as [H1 H2]; [|done|].
  - apply lcore_ok_mbuf; [done|]. destruct (lo_mem _ _ Hw m) as (_ & _ & ? & ?). split_and!; done.
  - done.
Qed.

(** What a receive node does once the burst has filled its frame. *)
Lemma source_result ports w w1 f nexts items :
  lcore_ok ports w1 -> frame_wf f -> packets f = [] -> length nexts = 1%nat ->
  Forall (fun o => frame_wf o /\ count o = 0) nexts -> (length items <= Z.to_nat kBurstSize)%nat ->
  in_dev (w_dev w) ≡ₚ items ++ in_dev (w_dev w1) ->
  exists w' f' nexts',
    (let! l := frame_items (filled f items) in
     let! '(w, nexts) := each rx_forward l w1 nexts in Ret (w, filled f items, nexts)) = Ret (w', f', nexts') /\
    lcore_ok ports w' /\ frame_wf f' /\ length nexts' = length nexts /\ Forall frame_wf nexts' /\
    in_dev (w_dev w') ++ concat (packets <$> nexts') ≡ₚ in_dev (w_dev w) ++ packets f.
Proof.
  intros Hw1 Hf Hpf Hl He Hlen Hown. destruct (filled_wf f items Hf Hlen) as [Hff Hpk].
  rewrite frame_items_wf by done. cbn [obind].
  destruct (each_frame ports 1 rx_forward w1 (filled f items) nexts (rx_forward_ok ports) Hw1 Hff Hl He)
    as (w' & nexts' & -> & Hw' & Hwf & Hl' & Hp). cbn [obind].
  exists w', (filled f items), nexts'. split; [done|]. split; [done|]. split; [done|]. split; [lia|]. split; [done|].
  fold (sent_all nexts'). rewrite Hp, Hpk, Hpf, app_nil_r, Hown. apply Permutation_app_comm.
Qed.

Lemma RxNode_ok ports port queue : @Node_ok _ (lcore_world ports) true (RxNode port queue).
Proof.
  intros w f nexts Hw Hf Hsrc Hl He. simpl in *.
  destruct (rte_eth_rx_burst (w_dev w) port queue (Z.to_nat kBurstSize)) as [l d] eqn:E.
  apply rx_law in E as (Hlen & Hown & Hdata).
  destruct (fill_mem_ok ports l (set_dev w d)) as [Hw1 Hdev]; [now apply lcore_ok_dev|done|].
  apply (source_result ports w _ f nexts l.*1); try done.
  - now apply (lcore_ok_stat_cases ports).
  - auto.
  - now rewrite length_fmap.
  - simpl. rewrite Hdev. done.
Qed.

Lemma RingRxNode_ok ports ring : @Node_ok _ (lcore_world ports) true (RingRxNode ring).
Proof.
  intros w f nexts Hw Hf Hsrc Hl He. simpl in *.
  destruct (rte_ring_dequeue_burst (w_dev w) ring (Z.to_nat kBurstSize)) as [l d] eqn:E.
  apply dequeue_burst_law in E as (Hlen & Hown).
  apply (source_result ports w _ f nexts l); try done; [now apply lcore_ok_dev|auto].
Qed.

Lemma ClassifyForSteer_ok cfg n data :
  0 < n -> bytes_ok data -> length data = data_room ->
  exists cls worker, ClassifyForSteer cfg n data = Ret (cls, worker) /\ 0 <= worker < n.
Proof.
  intros Hn Hb Hl. unfold ClassifyForSteer.
  destruct (load_be_ok 2 data kEthType Hb) as (et & -> & _ & _); [room|]. cbn [obind].
  destruct (et =? RTE_ETHER_TYPE_ARP); [exists kArp, 0; split; [done|lia]|].
  destruct (negb _); [exists kDrop, 0; split; [done|lia]|].
  destruct (load8_ok data kIpProto Hb) as (proto & -> & _ & _); [room|]. cbn [obind].
  destruct (_ && _); [exists kDrop, 0; split; [done|lia]|].
  destruct (l4_offset_ok data Hb Hl) as (l4 & -> & Hl4). cbn [obind].
  rewrite ReadL4Ports_eq. destruct (ReadPorts_ok data l4 proto Hb Hl) as (sp & dp & -> & _ & _); [lia|]. cbn [obind].
  destruct (load_be_ok 4 data kIpSrc Hb) as (sip & -> & _ & _); [room|]. cbn [obind].
  destruct (load_be_ok 4 data kIpDst Hb) as (dip & -> & _ & _); [room|]. cbn [obind].
  destruct (Z.eqb_spec n 0); [lia|].
  destruct (_ && _); [eexists _, _; split; [done|]; apply Z.mod_pos_bound; lia|].
  destruct (dip =? _); eexists _, _; (split; [done|]); [apply Z.mod_pos_bound; lia|lia].
Qed.

Lemma steer_body_ok ports cfg rings n :
  0 < n -> Z.of_nat (length rings) = n -> body_ok ports 1 (steer_packet cfg rings n).
Proof.
  intros Hn Hr w nexts m Hw Hwf Hl Hc. destruct (lo_mem _ _ Hw m) as (Hlm & Hbm & _ & _). unfold steer_packet.
  destruct (ClassifyForSteer_ok cfg n _ Hn Hbm Hlm) as (cls & worker & -> & Hwk). cbn [obind].
  assert (Hfree : forall d, in_dev d ≡ₚ in_dev (w_dev w) ->
    in_dev (rte_pktmbuf_free_bulk d [m]) ++ sent_all nexts ≡ₚ (in_dev (w_dev w) ++ sent_all nexts) ++ [m]).
  { intros d E. rewrite free_law, E. simpl. rewrite Permutation_cons_append. done. }
  destruct cls.
  - destruct (lookup_lt_is_Some_2 rings (Z.to_nat worker)) as [ring Hring]; [lia|].
    rewrite (proj2 (at_Ret _ _ ring)) by done. cbn [obind].
    destruct (rte_ring_enqueue (w_dev w) ring m) as [rc d] eqn:E. apply enqueue_law in E.
    destruct (Z.eqb_spec rc 0) as [->|Hrc]; simpl; eexists _, nexts; (split; [done|]).
    + split; [now apply lcore_ok_dev|]. split; [done|]. split; [done|]. split; [apply at_most_one_refl|].
      simpl. rewrite E. simpl. rewrite Permutation_cons_append. done.
    + split; [apply (lcore_ok_stat_cases ports); repeat apply lcore_ok_dev; done|].
      split; [done|]. split; [done|]. split; [apply at_most_one_refl|]. simpl. now apply Hfree.
  - destruct (move_to_spec nexts kSteerArp m Hwf) as (nexts' & -> & Hwf' & Hl' & Hone & Hp); [unfold kSteerArp; lia|done|].
    cbn [obind]. exists w, nexts'. split; [done|]. split; [done|]. split; [done|]. split; [lia|]. split; [done|].
    now rewrite Hp, app_assoc.
  - eexists _, nexts. split; [done|]. split; [now apply lcore_ok_dev|]. split; [done|]. split; [done|].
    split; [apply at_most_one_refl|]. simpl. now apply Hfree.
Qed.

Lemma SteerNode_ok ports source cfg rings n :
  0 < n -> Z.of_nat (length rings) = n -> @Node_ok _ (lcore_world ports) source (SteerNode cfg rings n).
Proof.
  intros Hn Hr w f nexts Hw Hf _ Hl He. simpl in *. rewrite frame_items_wf by done. cbn [obind].
  destruct (each_frame ports 1 _ w f nexts (steer_body_ok ports cfg rings n Hn Hr) Hw Hf Hl He)
    as (w' & nexts' & -> & Hw' & Hwf & Hl' & Hp). cbn [obind].
  exists w', (Clear f), nexts'. split; [done|]. split; [done|]. split; [now apply Clear_wf|]. split; [lia|].
  split; [done|]. exact Hp.
Qed.

End Facts.
