(* ===== verification/Dataplane.v ===== *)
(** * The dataplane process ([dataplane/src/main.cpp]): graphs, lcore loops, roles *)

From S2P Require Import Prelude FlowKey NetTypes PortPool BackendPool NatTable Ipc PacketMeta LbNode Graph.
From S2P Require Import Packet Nodes.

Inductive Role := kMono | kIo | kWorker.

(** A null ring pointer is [None]; a ring is its handle. [stats_slot] is the index of
    the element of [view->lcores] that [stats] points to; [cfg] and [pool_rcu], which
    are the same for all, are arguments of what uses them. *)
Record LcoreArg := mkLcoreArg {
  role : Role;
  port_id : Z;
  worker_id : Z;
  n_workers : Z;
  stats_slot : nat;
  worker_rings : list nat;
  ingress : option nat;
  egress : option nat;
}.

(** Use of a ring pointer: a null one is undefined. *)
Definition deref (ring : option nat) : outcome nat :=
  match ring with
  | Some r => Ret r
  | None => Undef
  end.

Section Dataplane.
Context `{BuildParams} `{Dpdk}.

(** An lcore without a load balancer yet: only its counters matter. *)
Definition no_lb (stats : LcoreStats) : LbNode :=
  mkLbNode (NatTable_new 0) (replicate kMaxBackends (mkPortPool [])) stats.

(** [graph.AddNode(std::make_unique<nodes::LbNode>(cfg, pool_rcu, stats, worker, n))]:
    the node's state is that of the lcore. *)
Definition AddLbNode (fuel : nat) (g : Graph Lcore) (w : Lcore) (cfg : Config) (worker n : Z)
  : outcome (Z * Graph Lcore * Lcore) :=
  let! lb := LbNode_new fuel cfg (stats_ (w_lb w)) worker n in
  let '(id, g) := AddNode g LbNode_node in
  Ret (id, g, set_lb w lb).

Definition BuildMonolithicGraph (fuel : nat) (cfg : Config) (arg : LcoreArg) (g : Graph Lcore) (w : Lcore)
  : outcome (Z * Graph Lcore * Lcore) :=
  let '(rx_id, g) := AddNode g (RxNode (port_id arg) 0) in
  let '(parse, g) := AddNode g (Ip4ParseNode cfg) in
  let! '(load_balance, g, w) := AddLbNode fuel g w cfg 0 1 in
  let '(dnat, g) := AddNode g (DnatNode cfg) in
  let '(ether, g) := AddNode g (EtherRewriteNode cfg) in
  let '(tx_id, g) := AddNode g (TxNode (port_id arg) 0) in
  let '(drop, g) := AddNode g DropNode in
  let '(arp, g) := AddNode g (ArpNode cfg) in
  let! g := Wire g rx_id 0 parse in
  let! g := Wire g parse (Z.of_nat kNextFwd) load_balance in
  let! g := Wire g parse (Z.of_nat kNextRev) load_balance in
  let! g := Wire g parse (Z.of_nat kParseDrop) drop in
  let! g := Wire g parse (Z.of_nat kParseArp) arp in
  let! g := Wire g arp (Z.of_nat kArpNextTx) tx_id in
  let! g := Wire g arp (Z.of_nat kArpNextDrop) drop in
  let! g := Wire g load_balance (Z.of_nat kNextDnat) dnat in
  let! g := Wire g load_balance (Z.of_nat kLbDrop) drop in
  let! g := Wire g dnat 0 ether in
  let! g := Wire g ether 0 tx_id in
  Ret (rx_id, g, w).

Definition BuildRxGraph (cfg : Config) (arg : LcoreArg) (g : Graph Lcore) : outcome (Z * Graph Lcore) :=
  let '(rx_id, g) := AddNode g (RxNode (port_id arg) 0) in
  let '(steer, g) := AddNode g (SteerNode cfg (worker_rings arg) (n_workers arg)) in
  let '(arp, g) := AddNode g (ArpNode cfg) in
  let! egress_ring := deref (egress arg) in
  let '(egress, g) := AddNode g (RingTxNode egress_ring) in
  let '(drop, g) := AddNode g DropNode in
  let! g := Wire g rx_id 0 steer in
  let! g := Wire g steer (Z.of_nat kSteerArp) arp in
  let! g := Wire g arp (Z.of_nat kArpNextTx) egress in
  let! g := Wire g arp (Z.of_nat kArpNextDrop) drop in
  Ret (rx_id, g).

Definition BuildWorkerGraph (fuel : nat) (cfg : Config) (arg : LcoreArg) (g : Graph Lcore) (w : Lcore)
  : outcome (Z * Graph Lcore * Lcore) :=
  let! ingress_ring := deref (ingress arg) in
  let '(rx_id, g) := AddNode g (RingRxNode ingress_ring) in
  let '(parse, g) := AddNode g (Ip4ParseNode cfg) in
  let! '(load_balance, g, w) := AddLbNode fuel g w cfg (worker_id arg) (u16 (n_workers arg)) in
  let '(dnat, g) := AddNode g (DnatNode cfg) in
  let '(ether, g) := AddNode g (EtherRewriteNode cfg) in
  let! egress_ring := deref (egress arg) in
  let '(egress, g) := AddNode g (RingTxNode egress_ring) in
  let '(drop, g) := AddNode g DropNode in
  let! g := Wire g rx_id 0 parse in
  let! g := Wire g parse (Z.of_nat kNextFwd) load_balance in
  let! g := Wire g parse (Z.of_nat kNextRev) load_balance in
  let! g := Wire g parse (Z.of_nat kParseDrop) drop in
  let! g := Wire g parse (Z.of_nat kParseArp) drop in
  let! g := Wire g load_balance (Z.of_nat kNextDnat) dnat in
  let! g := Wire g load_balance (Z.of_nat kLbDrop) drop in
  let! g := Wire g dnat 0 ether in
  let! g := Wire g ether 0 egress in
  Ret (rx_id, g, w).

Definition BuildTxGraph (arg : LcoreArg) (g : Graph Lcore) : outcome (Z * Graph Lcore) :=
  let! egress_ring := deref (egress arg) in
  let '(rx_id, g) := AddNode g (RingRxNode egress_ring) in
  let '(tx_id, g) := AddNode g (TxNode (port_id arg) 0) in
  let! g := Wire g rx_id 0 tx_id in
  Ret (rx_id, g).

(** The body of the lcore loops: [frame.Clear(); dispatcher.RunOnce(frame)]. *)
Definition burst (fuel : nat) (g : Graph Lcore) (root : Z) (d : Dispatcher) (w : Lcore)
  : outcome (Dispatcher * Lcore) :=
  RunOnce fuel g root d w (Clear Frame_new).

(** [while (g_running)]: [rounds] is the number of times the flag was still set. *)
Fixpoint lcore_loop (rounds fuel : nat) (g : Graph Lcore) (root : Z) (d : Dispatcher) (w : Lcore)
  : outcome (Dispatcher * Lcore) :=
  match rounds with
  | O => Ret (d, w)
  | S rounds =>
      let! '(d, w) := burst fuel g root d w in
      lcore_loop rounds fuel g root d w
  end.

Definition RunMono (rounds fuel : nat) (cfg : Config) (arg : LcoreArg) (w : Lcore) : outcome Lcore :=
  let! '(root, g, w) := BuildMonolithicGraph fuel cfg arg Graph_empty w in
  let! '(_, w) := lcore_loop rounds fuel g root (Dispatcher_new g) w in
  Ret w.

Definition RunWorker (rounds fuel : nat) (cfg : Config) (arg : LcoreArg) (w : Lcore) : outcome Lcore :=
  let! '(root, g, w) := BuildWorkerGraph fuel cfg arg Graph_empty w in
  let! '(_, w) := lcore_loop rounds fuel g root (Dispatcher_new g) w in
  Ret w.

(** The loop of [RunIo], a burst of each graph in turn. *)
Fixpoint io_loop (rounds fuel : nat) (rx_graph tx_graph : Graph Lcore) (rx_root tx_root : Z)
    (rx_disp tx_disp : Dispatcher) (w : Lcore) : outcome Lcore :=
  match rounds with
  | O => Ret w
  | S rounds =>
      let! '(rx_disp, w) := burst fuel rx_graph rx_root rx_disp w in
      let! '(tx_disp, w) := burst fuel tx_graph tx_root tx_disp w in
      io_loop rounds fuel rx_graph tx_graph rx_root tx_root rx_disp tx_disp w
  end.

Definition RunIo (rounds fuel : nat) (cfg : Config) (arg : LcoreArg) (w : Lcore) : outcome Lcore :=
  let! '(rx_root, rx_graph) := BuildRxGraph cfg arg Graph_empty in
  let! '(tx_root, tx_graph) := BuildTxGraph arg Graph_empty in
  io_loop rounds fuel rx_graph tx_graph rx_root tx_root (Dispatcher_new rx_graph) (Dispatcher_new tx_graph) w.

Definition LcoreMain (rounds fuel : nat) (cfg : Config) (arg : LcoreArg) (w : Lcore) : outcome Lcore :=
  match role arg with
  | kMono => RunMono rounds fuel cfg arg w
  | kIo => RunIo rounds fuel cfg arg w
  | kWorker => RunWorker rounds fuel cfg arg w
  end.

End Dataplane.

(** ** Roles: the loop over the worker lcores in [RunDataplane] *)

(** [LcoreArg{}] with the members every lcore gets. *)
Definition base_arg (port n_workers : Z) (slot : nat) : LcoreArg := mkLcoreArg kMono port 0 n_workers slot [] None None.

(** [view->lcores] has [kMaxLcores] elements. *)
Fixpoint assign_loop (lcores : list Z) (distributor : bool) (port n_workers : Z) (rings : list nat)
    (egress_ring : option nat) (idx : nat) (wid : Z) : outcome (list LcoreArg) :=
  match lcores with
  | [] => Ret []
  | _ :: lcores =>
      if (kMaxLcores <=? idx)%nat then Undef
      else
        let arg := base_arg port n_workers idx in
        let! '(arg, wid) :=
          (if negb distributor then Ret (arg, wid)
           else if (idx =? 0)%nat then
             Ret (mkLcoreArg kIo port 0 n_workers idx rings None egress_ring, wid)
           else
             let! ring := at_ rings (Z.to_nat wid) in
             Ret (mkLcoreArg kWorker port wid n_workers idx rings (Some ring) egress_ring, u16 (wid + 1))) in
        let! args := assign_loop lcores distributor port n_workers rings egress_ring (S idx) wid in
        Ret (arg :: args)
  end.

(** The checks on the number of lcores, [distributor] and [n_workers];
    [rte_lcore_count()] is the worker lcores and the main one. *)
Definition plan_lcores (lcores : list Z) : outcome (bool * Z) :=
  let total := Z.of_nat (length lcores) in
  if total <? 1 then Throw (runtime_error "need >= 2 lcores: main + worker")
  else if Z.of_nat kMaxLcores <? total then Throw (runtime_error "lcore count exceeds ipc::kMaxLcores")
  else
    let distributor := 2 <=? total in
    Ret (distributor, if distributor then total - 1 else 1).

(** The arguments of all lcores, for the rings [RunDataplane] has created. *)
Definition AssignRoles (lcores : list Z) (port : Z) (rings : list nat) (egress_ring : option nat)
  : outcome (list LcoreArg) :=
  let! '(distributor, n_workers) := plan_lcores lcores in
  assign_loop lcores distributor port n_workers rings egress_ring 0 0.
