(* ===== verification/Io.v ===== *)
(** * The DPDK wrappers ([dataplane/include/io], [dataplane/src/io])

    [Eal], [DpdkPort] and [Ring] over the set-up calls of DPDK, which are the class
    [EalApi]: a state machine of which [hw_state] shows what has been created and not
    been given back. An exception in a constructor leaves the state the calls before
    it have made. *)

From S2P Require Import Prelude Raii NetTypes Ipc Dataplane.

Local Open Scope string_scope.
Local Open Scope Z_scope.

(** ** What DPDK keeps *)

(** The fields [rte_eth_conf] is given: whether [mq_mode] is [RTE_ETH_MQ_RX_RSS], and
    [rss_hf]. *)
Record EthConf := mkEthConf { mq_rss : bool; conf_rss_hf : Z }.

(** Worker lcores of the EAL; rings with name, size and flags; mbuf pools; ports with
    the number of receive and send queues and the configuration; queues set up, a
    receive queue with its pool; started and promiscuous ports; lcores at work, and all
    launches so far; the ports of which a stop or a close has reported an error. *)
Record Hw := mkHw {
  h_up : bool;
  h_lcores : list Z;
  h_rings : gmap nat (string * Z * Z);
  h_pools : gset Z;
  h_ports : gmap Z (Z * Z * EthConf);
  h_rxq : gmap (Z * Z) Z;
  h_txq : gset (Z * Z);
  h_started : gset Z;
  h_promisc : gset Z;
  h_running : list (Z * LcoreArg);
  h_launched : list (Z * LcoreArg);
  h_refused : gset Z;
}.

Definition set_up (h : Hw) b l : Hw :=
  mkHw b l (h_rings h) (h_pools h) (h_ports h) (h_rxq h) (h_txq h) (h_started h) (h_promisc h) (h_running h) (h_launched h) (h_refused h).

Definition set_rings (h : Hw) r : Hw :=
  mkHw (h_up h) (h_lcores h) r (h_pools h) (h_ports h) (h_rxq h) (h_txq h) (h_started h) (h_promisc h) (h_running h) (h_launched h) (h_refused h).

Definition set_mpools (h : Hw) p : Hw :=
  mkHw (h_up h) (h_lcores h) (h_rings h) p (h_ports h) (h_rxq h) (h_txq h) (h_started h) (h_promisc h) (h_running h) (h_launched h) (h_refused h).

Definition set_ports (h : Hw) p : Hw :=
  mkHw (h_up h) (h_lcores h) (h_rings h) (h_pools h) p (h_rxq h) (h_txq h) (h_started h) (h_promisc h) (h_running h) (h_launched h) (h_refused h).

Definition set_queues (h : Hw) rxq txq : Hw :=
  mkHw (h_up h) (h_lcores h) (h_rings h) (h_pools h) (h_ports h) rxq txq (h_started h) (h_promisc h) (h_running h) (h_launched h) (h_refused h).

Definition set_started (h : Hw) s p : Hw :=
  mkHw (h_up h) (h_lcores h) (h_rings h) (h_pools h) (h_ports h) (h_rxq h) (h_txq h) s p (h_running h) (h_launched h) (h_refused h).

Definition set_running (h : Hw) r l : Hw :=
  mkHw (h_up h) (h_lcores h) (h_rings h) (h_pools h) (h_ports h) (h_rxq h) (h_txq h) (h_started h) (h_promisc h) r l (h_refused h).

Definition set_refused (h : Hw) r : Hw :=
  mkHw (h_up h) (h_lcores h) (h_rings h) (h_pools h) (h_ports h) (h_rxq h) (h_txq h) (h_started h) (h_promisc h) (h_running h) (h_launched h) r.

(** A stop or a close of [port] that reports an error leaves that port in whatever state. *)
Definition refused (port : Z) (h h' : Hw) : Prop :=
  exists ports rxq txq started promisc,
    h' = set_refused (set_started (set_queues (set_ports h ports) rxq txq) started promisc) ({[port]} ∪ h_refused h) /\
    forall p, p <> port -> ports !! p = h_ports h !! p /\ (p ∈ started <-> p ∈ h_started h).

(** Another call that fails changes nothing; closing a port releases it and its queues. *)
Class EalApi := {
  hw : Type;
  hw_state : hw -> Hw;
  RTE_ETH_RSS : Z;
  rte_eal_init : hw -> list string -> Z * hw;
  rte_eal_cleanup : hw -> hw;
  rte_ring_create : hw -> string -> Z -> Z -> option nat * hw;
  rte_ring_free : hw -> nat -> hw;
  rte_eth_dev_info_get : hw -> Z -> Z * Z * hw;
  rte_eth_dev_configure : hw -> Z -> Z -> Z -> EthConf -> Z * hw;
  rte_socket_id : hw -> Z;
  rte_eth_dev_socket_id : hw -> Z -> Z;
  rte_pktmbuf_pool_create : hw -> string -> Z -> Z -> Z -> option Z * hw;
  rte_mempool_free : hw -> Z -> hw;
  rte_eth_rx_queue_setup : hw -> Z -> Z -> Z -> Z -> Z -> Z * hw;
  rte_eth_tx_queue_setup : hw -> Z -> Z -> Z -> Z -> Z * hw;
  rte_eth_dev_start : hw -> Z -> Z * hw;
  rte_eth_promiscuous_enable : hw -> Z -> hw;
  rte_eth_dev_stop : hw -> Z -> Z * hw;
  rte_eth_dev_close : hw -> Z -> Z * hw;
  rte_eal_remote_launch : hw -> LcoreArg -> Z -> Z * hw;
  rte_eal_mp_wait_lcore : hw -> hw;
  eal_init_law : forall h argv rc h', rte_eal_init h argv = (rc, h') ->
    if rc <? 0 then hw_state h' = hw_state h else (exists l, hw_state h' = set_up (hw_state h) true l);
  eal_cleanup_law : forall h, hw_state (rte_eal_cleanup h) = set_up (hw_state h) false (h_lcores (hw_state h));
  ring_create_law : forall h name n flags r h', rte_ring_create h name n flags = (r, h') ->
    match r with
    | Some p => h_rings (hw_state h) !! p = None /\
        hw_state h' = set_rings (hw_state h) (<[p := (name, n, flags)]> (h_rings (hw_state h)))
    | None => hw_state h' = hw_state h
    end;
  ring_free_law : forall h p, hw_state (rte_ring_free h p) = set_rings (hw_state h) (delete p (h_rings (hw_state h)));
  info_get_law : forall h port rc offloads h', rte_eth_dev_info_get h port = (rc, offloads, h') -> hw_state h' = hw_state h;
  configure_law : forall h port nrx ntx conf rc h', rte_eth_dev_configure h port nrx ntx conf = (rc, h') ->
    hw_state h' = (if rc <? 0 then hw_state h
                   else set_ports (hw_state h) (<[port := (nrx, ntx, conf)]> (h_ports (hw_state h))));
  pool_create_law : forall h name n cache priv p h', rte_pktmbuf_pool_create h name n cache priv = (p, h') ->
    match p with
    | Some p => p ∉ h_pools (hw_state h) /\ hw_state h' = set_mpools (hw_state h) ({[p]} ∪ h_pools (hw_state h))
    | None => hw_state h' = hw_state h
    end;
  mempool_free_law : forall h p, hw_state (rte_mempool_free h p) = set_mpools (hw_state h) (h_pools (hw_state h) ∖ {[p]});
  rx_setup_law : forall h port q n socket pool rc h', rte_eth_rx_queue_setup h port q n socket pool = (rc, h') ->
    hw_state h' = (if rc <? 0 then hw_state h
                   else set_queues (hw_state h) (<[(port, q) := pool]> (h_rxq (hw_state h))) (h_txq (hw_state h)));
  tx_setup_law : forall h port q n socket rc h', rte_eth_tx_queue_setup h port q n socket = (rc, h') ->
    hw_state h' = (if rc <? 0 then hw_state h
                   else set_queues (hw_state h) (h_rxq (hw_state h)) ({[(port, q)]} ∪ h_txq (hw_state h)));
  start_law : forall h port rc h', rte_eth_dev_start h port = (rc, h') ->
    hw_state h' = (if rc <? 0 then hw_state h
                   else set_started (hw_state h) ({[port]} ∪ h_started (hw_state h)) (h_promisc (hw_state h)));
  promiscuous_law : forall h port, exists b : bool, hw_state (rte_eth_promiscuous_enable h port) =
    set_started (hw_state h) (h_started (hw_state h))
      (if b then {[port]} ∪ h_promisc (hw_state h) else h_promisc (hw_state h));
  stop_law : forall h port rc h', rte_eth_dev_stop h port = (rc, h') ->
    if rc =? 0 then hw_state h' = set_started (hw_state h) (h_started (hw_state h) ∖ {[port]}) (h_promisc (hw_state h))
    else refused port (hw_state h) (hw_state h');
  close_law : forall h port rc h', rte_eth_dev_close h port = (rc, h') ->
    if rc =? 0 then hw_state h' = set_queues (set_ports (hw_state h) (delete port (h_ports (hw_state h))))
      (filter (fun x => x.1.1 <> port) (h_rxq (hw_state h))) (filter (fun x => x.1 <> port) (h_txq (hw_state h)))
    else refused port (hw_state h) (hw_state h');
  launch_law : forall h arg lcore rc h', rte_eal_remote_launch h arg lcore = (rc, h') ->
    hw_state h' = (if rc =? 0 then set_running (hw_state h) (h_running (hw_state h) ++ [(lcore, arg)])
                                       (h_launched (hw_state h) ++ [(lcore, arg)])
                   else hw_state h);
  wait_law : forall h, hw_state (rte_eal_mp_wait_lcore h) = set_running (hw_state h) [] (h_launched (hw_state h));
}.

Section Io.
Context `{EalApi}.

(** A call with a return code, one that cannot fail. *)
Definition call {A} (f : hw -> A * hw) : prog hw A := fun h => let '(x, h) := f h in (Ret x, h).

Definition act (f : hw -> hw) : prog hw unit := fun h => (Ret tt, f h).

(** ** [Eal] *)

Definition Eal_new (args : list string) : prog hw unit :=
  do! rc := call (fun h => rte_eal_init h args) in
  if rc <? 0 then pthrow (runtime_error "rte_eal_init failed") else pret tt.

Definition Eal_delete (_ : unit) (h : hw) : hw := rte_eal_cleanup h.

(** ** [Ring] *)

Definition Ring_new (name : string) (count flags : Z) : prog hw nat :=
  do! ring := call (fun h => rte_ring_create h name count flags) in
  match ring with
  | None => pthrow (runtime_error ("rte_ring_create failed: " ++ name))
  | Some ring_ => pret ring_
  end.

Definition Ring_delete (ring_ : nat) (h : hw) : hw := rte_ring_free h ring_.

(** ** [DpdkPort] *)

Definition kRxRingSize : Z := 1024.
Definition kTxRingSize : Z := 1024.
Definition kMbufCount : Z := 8192.
Definition kMbufCacheSize : Z := 256.

(** [RTE_ALIGN(sizeof(PacketMeta), RTE_MBUF_PRIV_ALIGN)]: the members end at byte 45
    with those of alignment 4 and 2 in their place. *)
Definition rte_align (n a : Z) : Z := (n + a - 1) / a * a.

Definition sizeof_PacketMeta : Z := rte_align 45 4.

Definition kPacketMetaPrivSize : Z := rte_align sizeof_PacketMeta 8.

(** [port_id_] and [pool_]. *)
Record DpdkPort := mkDpdkPort { PortId : Z; Pool : Z }.

(** [std::format] with one number. *)
Definition format1 (before : string) (n : Z) (after : string) : string := before ++ format_unsigned n ++ after.

Definition Configure (port n_queues : Z) : prog hw unit :=
  do! '(rc, offloads) := call (fun h => rte_eth_dev_info_get h port) in
  if rc <? 0 then pthrow (runtime_error (format1 "port " port " info get failed"))
  else
    let rss_hf := Z.land RTE_ETH_RSS offloads in
    let conf := if (1 <? n_queues) && negb (rss_hf =? 0) then mkEthConf true rss_hf else mkEthConf false 0 in
    do! rc := call (fun h => rte_eth_dev_configure h port n_queues n_queues conf) in
    if rc <? 0 then pthrow (runtime_error (format1 "port " port " configure failed")) else pret tt.

(** The loop of [SetupQueues], [k] queues from [queue] on. *)
Fixpoint setup_loop (k : nat) (queue port socket pool : Z) : prog hw unit :=
  match k with
  | O => pret tt
  | S k =>
      do! rc := call (fun h => rte_eth_rx_queue_setup h port queue kRxRingSize socket pool) in
      if rc <? 0 then pthrow (runtime_error (format1 "rx queue " queue " setup failed"))
      else
        do! rc := call (fun h => rte_eth_tx_queue_setup h port queue kTxRingSize socket) in
        if rc <? 0 then pthrow (runtime_error (format1 "tx queue " queue " setup failed"))
        else setup_loop k (u16 (queue + 1)) port socket pool
  end.

Definition SetupQueues (port n_queues pool : Z) : prog hw unit :=
  do! socket := call (fun h => (u32 (rte_eth_dev_socket_id h port), h)) in
  setup_loop (Z.to_nat n_queues) 0 port socket pool.

Definition DpdkPort_new (port_id n_queues : Z) : prog hw DpdkPort :=
  Configure port_id n_queues >>>
  do! pool := call (fun h => rte_pktmbuf_pool_create h (format1 "pool_" port_id "") kMbufCount kMbufCacheSize kPacketMetaPrivSize) in
  match pool with
  | None => pthrow (runtime_error "mbuf pool create failed")
  | Some pool =>
      SetupQueues port_id n_queues pool >>>
      do! rc := call (fun h => rte_eth_dev_start h port_id) in
      if rc <? 0 then pthrow (runtime_error (format1 "port " port_id " start failed"))
      else
        act (fun h => rte_eth_promiscuous_enable h port_id) >>>
        pret (mkDpdkPort port_id pool)
  end.

(** The results of the two calls are ignored. *)
Definition DpdkPort_delete (p : DpdkPort) (h : hw) : hw :=
  let '(_, h) := rte_eth_dev_stop h (PortId p) in
  let '(_, h) := rte_eth_dev_close h (PortId p) in
  rte_mempool_free h (Pool p).

End Io.
