(* ===== verification/IoSpec.v ===== *)
(** * What the DPDK wrappers set up and give back *)

From S2P Require Import Prelude Raii NetTypes Ipc Dataplane Io.

Section Spec.
Context `{EalApi}.

Implicit Types (h : hw).

(** ** Resources *)

(** The EAL and the rings are as they were, and no lcore is at work that was not. *)
Definition same_rings h h' : Prop :=
  h_up (hw_state h') = h_up (hw_state h) /\ h_rings (hw_state h') = h_rings (hw_state h) /\
  (h_running (hw_state h) = [] -> h_running (hw_state h') = []).

(** So are the pools, and no port is newly configured or started, except one whose stop
    or close has reported an error. *)
Definition same_all h h' : Prop :=
  same_rings h h' /\ h_pools (hw_state h') = h_pools (hw_state h) /\ h_refused (hw_state h) ⊆ h_refused (hw_state h') /\
  forall port, port ∉ h_refused (hw_state h') ->
    (h_ports (hw_state h) !! port = None -> h_ports (hw_state h') !! port = None) /\
    (port ∉ h_started (hw_state h) -> port ∉ h_started (hw_state h')).

#[export] Instance same_rings_preorder : PreOrder same_rings.
Proof. split; [done|]. intros h1 h2 h3 (? & ? & ?) (? & ? & ?). split_and!; [congruence|congruence|auto]. Qed.

#[export] Instance same_all_preorder : PreOrder same_all.
Proof.
  split.
  - intros h. split; [done|]. split; [done|]. split; done.
  - intros h1 h2 h3 (R1 & P1 & F1 & Q1) (R2 & P2 & F2 & Q2). split; [now transitivity h2|]. split; [congruence|].
    split; [set_solver|]. intros port Hp. destruct (Q1 port ltac:(set_solver)), (Q2 port Hp). split; auto.
Qed.

(** A call that leaves the state of DPDK alone, or changes nothing that counts. *)
Lemma keeps_call {A} (same : hw -> hw -> Prop) thrown (f : hw -> A * hw) :
  (forall h x h', f h = (x, h') -> same h h') -> keeps same thrown (call f).
Proof. intros Hf h r h' E _. unfold call in E. destruct (f h) as [x h1] eqn:Ef. injection E as <- <-. eauto. Qed.

Lemma keeps_act (same : hw -> hw -> Prop) thrown (f : hw -> hw) : (forall h, same h (f h)) -> keeps same thrown (act f).
Proof. intros Hf h r h' [= <- <-] _. apply Hf. Qed.

(** ** [Ring] and [Eal] *)

Lemma Ring_acquires thrown name count flags : acquires same_all thrown (Ring_new name count flags) Ring_delete.
Proof.
  intros h r h' E. unfold Ring_new, pbind, call in E. destruct (rte_ring_create h name count flags) as [ring h1] eqn:Er.
  apply ring_create_law in Er. destruct ring as [p|]; injection E as <- <-.
  - destruct Er as [Hp Hst]. intros h2 ((Hu & Hr & Hn) & Hpo & Hq). unfold same_all, same_rings, Ring_delete.
    rewrite ring_free_law. cbn. rewrite Hst in *. cbn in *. split_and!; [done| |done|done|apply Hq|apply Hq].
    rewrite Hr. now apply delete_insert_id.
  - intros _. unfold same_all, same_rings. now rewrite Er.
Qed.

(** A started EAL is shut down again. *)
Lemma Eal_new_cases args h r h' :
  Eal_new args h = (r, h') ->
  (exists e, r = Throw e /\ hw_state h' = hw_state h) \/
  (r = Ret tt /\ exists l, hw_state h' = set_up (hw_state h) true l).
Proof.
  unfold Eal_new, pbind, call. destruct (rte_eal_init h args) as [rc h1] eqn:E. apply eal_init_law in E.
  destruct (rc <? 0); intros [= <- <-]; [left; eauto|right; eauto].
Qed.

(** ** [DpdkPort] *)

(** The configuration [Configure] asks for, given what the device can do. *)
Definition wanted_conf (n_queues offloads : Z) : EthConf :=
  let rss_hf := Z.land RTE_ETH_RSS offloads in
  if (1 <? n_queues) && negb (rss_hf =? 0) then mkEthConf true rss_hf else mkEthConf false 0.

Lemma Configure_spec port n h r h' :
  Configure port n h = (r, h') ->
  (exists e, r = Throw e /\ hw_state h' = hw_state h) \/
  (r = Ret tt /\ exists offloads,
     hw_state h' = set_ports (hw_state h) (<[port := (n, n, wanted_conf n offloads)]> (h_ports (hw_state h)))).
Proof.
  unfold Configure, pbind, call, pthrow, pret. destruct (rte_eth_dev_info_get h port) as [[rc offloads] h1] eqn:E1.
  apply info_get_law in E1. destruct (rc <? 0); [intros [= <- <-]; left; eauto|].
  fold (wanted_conf n offloads).
  destruct (rte_eth_dev_configure h1 port n n (wanted_conf n offloads)) as [rc2 h2] eqn:E2. apply configure_law in E2.
  rewrite E1 in E2. destruct (rc2 <? 0); intros [= <- <-]; [left; eauto|right; eauto].
Qed.

(** The queues after [k] more have been set up. *)
Fixpoint rx_after (k : nat) (queue port pool : Z) (m : gmap (Z * Z) Z) : gmap (Z * Z) Z :=
  match k with
  | O => m
  | S k => rx_after k (queue + 1) port pool (<[(port, queue) := pool]> m)
  end.

Fixpoint tx_after (k : nat) (queue port : Z) (m : gset (Z * Z)) : gset (Z * Z) :=
  match k with
  | O => m
  | S k => tx_after k (queue + 1) port ({[(port, queue)]} ∪ m)
  end.

Lemma rx_after_lookup k queue port pool m q :
  rx_after k queue port pool m !! (port, q) =
    if decide (queue <= q < queue + Z.of_nat k) then Some pool else m !! (port, q).
Proof.
  revert queue m. induction k as [|k IH]; intros queue m; cbn [rx_after]; [case_decide; [lia|done]|].
  rewrite IH. repeat case_decide; try done; try lia.
  - assert (q = queue) as -> by lia. now rewrite lookup_insert_eq.
  - rewrite lookup_insert_ne by (intros [= ->]; lia). done.
Qed.

Lemma tx_after_elem k queue port m q :
  (port, q) ∈ tx_after k queue port m <-> queue <= q < queue + Z.of_nat k \/ (port, q) ∈ m.
Proof.
  revert queue m. induction k as [|k IH]; intros queue m; cbn [tx_after]; [intuition lia|].
  rewrite IH, elem_of_union, elem_of_singleton. split; [intros [?|[[= ->]|?]]; [left; lia|left; lia|by right]|].
  intros [Hq|?]; [|by right; right]. destruct (decide (q = queue)) as [->|]; [right; by left|left; lia].
Qed.

Lemma set_queues_id (x : Hw) : set_queues x (h_rxq x) (h_txq x) = x.
Proof. now destruct x. Qed.

Lemma setup_loop_spec k port socket pool queue h r h' :
  setup_loop k queue port socket pool h = (r, h') -> 0 <= queue -> queue + Z.of_nat k < 2 ^ 16 ->
  (exists e rxq txq, r = Throw e /\ hw_state h' = set_queues (hw_state h) rxq txq) \/
  (r = Ret tt /\ hw_state h' =
     set_queues (hw_state h) (rx_after k queue port pool (h_rxq (hw_state h))) (tx_after k queue port (h_txq (hw_state h)))).
Proof.
  revert queue h. induction k as [|k IH]; intros queue h; cbn [setup_loop rx_after tx_after].
  { intros [= <- <-] _ _. right. now rewrite set_queues_id. }
  unfold pbind at 1, call at 1. destruct (rte_eth_rx_queue_setup h port queue kRxRingSize socket pool) as [rc h1] eqn:E1.
  apply rx_setup_law in E1. destruct (rc <? 0).
  { intros [= <- <-] _ _. left. eexists _, (h_rxq (hw_state h)), (h_txq (hw_state h)). now rewrite E1, set_queues_id. }
  unfold pbind at 1, call at 1. destruct (rte_eth_tx_queue_setup h1 port queue kTxRingSize socket) as [rc2 h2] eqn:E2.
  apply tx_setup_law in E2. rewrite E1 in E2. destruct (rc2 <? 0).
  { intros [= <- <-] _ _. left. eexists _, _, _. split; [done|exact E2]. }
  intros E Hq Hk. rewrite u16_small in E by lia.
  destruct (IH _ _ E ltac:(lia) ltac:(lia)) as [(e & rxq & txq & -> & Hs)|[-> Hs]]; rewrite E2 in Hs.
  - left. eexists _, _, _. split; [done|exact Hs].
  - right. split; [done|exact Hs].
Qed.

(** The constructor, whichever call fails: the port may be configured, and once the
    pool exists it stays. *)
Lemma DpdkPort_new_spec port n h r h' :
  DpdkPort_new port n h = (r, h') -> 0 <= n < 2 ^ 16 ->
  (exists e, r = Throw e /\ (hw_state h' = hw_state h \/
     exists offloads, let h1 := set_ports (hw_state h) (<[port := (n, n, wanted_conf n offloads)]> (h_ports (hw_state h))) in
       hw_state h' = h1 \/
       exists pool rxq txq, pool ∉ h_pools (hw_state h) /\
         hw_state h' = set_queues (set_mpools h1 ({[pool]} ∪ h_pools (hw_state h))) rxq txq)) \/
  (exists pool offloads promisc, r = Ret (mkDpdkPort port pool) /\ pool ∉ h_pools (hw_state h) /\
     hw_state h' = set_started
       (set_queues (set_mpools (set_ports (hw_state h) (<[port := (n, n, wanted_conf n offloads)]> (h_ports (hw_state h))))
          ({[pool]} ∪ h_pools (hw_state h)))
          (rx_after (Z.to_nat n) 0 port pool (h_rxq (hw_state h))) (tx_after (Z.to_nat n) 0 port (h_txq (hw_state h))))
       ({[port]} ∪ h_started (hw_state h)) promisc).
Proof.
  unfold DpdkPort_new. intros E Hn. unfold pbind at 1 in E. destruct (Configure port n h) as [r1 h1] eqn:E1.
  apply Configure_spec in E1 as [(e & -> & Hs1)|(-> & off & Hs1)]; [injection E as <- <-; left; eauto|].
  unfold pbind at 1, call at 1 in E.
  destruct (rte_pktmbuf_pool_create h1 _ _ _ _) as [[pool|] h2] eqn:E2; apply pool_create_law in E2; cycle 1.
  { injection E as <- <-. left. eexists. split; [done|]. right. exists off. left. congruence. }
  destruct E2 as [Hnew Hs2]. rewrite Hs1 in Hs2, Hnew. cbn in Hnew, Hs2.
  unfold pbind at 1 in E. destruct (SetupQueues port n pool h2) as [r3 h3] eqn:E3. unfold SetupQueues, pbind, call in E3.
  apply setup_loop_spec in E3 as [(e & rxq & txq & -> & Hs3)|[-> Hs3]]; try lia; rewrite Hs2 in Hs3.
  { injection E as <- <-. left. eexists. split; [done|]. right. exists off. right. exists pool, rxq, txq. done. }
  unfold pbind at 1, call at 1 in E. destruct (rte_eth_dev_start h3 port) as [rc h4] eqn:E4. apply start_law in E4.
  rewrite Hs3 in E4. destruct (rc <? 0).
  { injection E as <- <-. left. eexists. split; [done|]. right. exists off. right. eexists pool, _, _. split; [done|exact E4]. }
  unfold pbind, act, pret in E. injection E as <- <-. right. destruct (promiscuous_law h4 port) as [b Hs5]. rewrite E4 in Hs5.
  eexists pool, off, _. split; [done|]. split; [done|exact Hs5].
Qed.

(** The destructor: the pool is freed, and the port is closed unless the device refuses. *)
Lemma DpdkPort_delete_spec p h :
  exists ports rxq txq started promisc failed,
    hw_state (DpdkPort_delete p h) =
      set_mpools (set_refused (set_started (set_queues (set_ports (hw_state h) ports) rxq txq) started promisc) failed)
        (h_pools (hw_state h) ∖ {[Pool p]}) /\
    (failed = h_refused (hw_state h) \/ failed = {[PortId p]} ∪ h_refused (hw_state h)) /\
    (PortId p ∉ failed -> ports !! PortId p = None /\ PortId p ∉ started) /\
    forall q, q <> PortId p -> ports !! q = h_ports (hw_state h) !! q /\ (q ∈ started <-> q ∈ h_started (hw_state h)).
Proof.
  unfold DpdkPort_delete. set (port := PortId p). destruct (rte_eth_dev_stop h port) as [rc1 h1] eqn:E1. apply stop_law in E1.
  destruct (rte_eth_dev_close h1 port) as [rc2 h2] eqn:E2. apply close_law in E2. rewrite mempool_free_law.
  set (x := hw_state h2) in *. exists (h_ports x), (h_rxq x), (h_txq x), (h_started x), (h_promisc x), (h_refused x).
  destruct (rc1 =? 0), (rc2 =? 0).
  - rewrite E2, E1. cbn. split; [reflexivity|]. split; [by left|]. split; [intros _|].
    + rewrite lookup_delete_eq. set_solver.
    + intros q Hq. rewrite lookup_delete_ne by done. set_solver.
  - destruct E2 as (ports & rxq & txq & started & pr & -> & Hq). rewrite E1 in *. cbn in *. split; [reflexivity|].
    split; [by right|]. split; [set_solver|]. intros q Hne. destruct (Hq q Hne) as [-> ->]. set_solver.
  - destruct E1 as (ports & rxq & txq & started & pr & E1 & Hq). rewrite E2, E1. cbn. split; [reflexivity|].
    split; [by right|]. split; [set_solver|]. intros q Hne. rewrite lookup_delete_ne by done. by apply Hq.
  - destruct E1 as (ports & rxq & txq & started & pr & E1 & Hq). destruct E2 as (ports2 & rxq2 & txq2 & started2 & pr2 & -> & Hq2).
    rewrite E1 in *. cbn in *. split; [reflexivity|]. split; [right; set_solver|]. split; [set_solver|].
    intros q Hne. destruct (Hq q Hne), (Hq2 q Hne). split; [congruence|tauto].
Qed.

Lemma DpdkPort_keeps_rings thrown port n :
  0 <= n < 2 ^ 16 -> acquires same_rings thrown (DpdkPort_new port n) DpdkPort_delete.
Proof.
  intros Hn h r h' E. unfold same_rings.
  apply DpdkPort_new_spec in E as [(e & -> & Hc)|(pool & off & pr & -> & _ & Hs)]; [| |done].
  - intros _. destruct Hc as [->|(off & [->|(pool & rxq & txq & _ & ->)])]; done.
  - intros h2 (Hu & Hr & Hj). destruct (DpdkPort_delete_spec (mkDpdkPort port pool) h2) as (? & ? & ? & ? & ? & ? & -> & _).
    cbn. rewrite Hs in *. done.
Qed.

(** After a normal return the destructor takes everything back that the device lets go. *)
Lemma DpdkPort_acquires port n : 0 <= n < 2 ^ 16 -> acquires same_all false (DpdkPort_new port n) DpdkPort_delete.
Proof.
  intros Hn h r h' E. apply DpdkPort_new_spec in E as [(e & -> & _)|(pool & off & pr & -> & Hnew & Hs)]; [done| |done].
  intros h2 ((Hu & Hr & Hj) & Hp & Hf & Hq). unfold same_all, same_rings.
  destruct (DpdkPort_delete_spec (mkDpdkPort port pool) h2) as (ports & rxq & txq & started & promisc & failed & -> & Hfa & Hown & Hoth).
  cbn in *. rewrite Hs in *. cbn in *. split_and!; [done|done|done|set_solver|set_solver|].
  intros p Hpf. destruct (decide (p = port)) as [->|Hne]; [destruct (Hown Hpf); done|].
  destruct (Hoth p Hne) as [-> ->]. destruct (Hq p ltac:(set_solver)) as [Hq1 Hq2].
  rewrite lookup_insert_ne in Hq1 by done. split; [done|]. intros Hno. apply Hq2. set_solver.
Qed.

(** ** Properties *)

(** A [DpdkPort] that has been constructed is ready: the port is configured for
    [n] queues each way, with RSS exactly if there is more than one queue and the
    device has a hash for it; every queue is set up on both sides, the receive side
    with the port's own pool; the port is started. *)
Theorem port_ready port n h p h' :
  DpdkPort_new port n h = (Ret p, h') -> 0 <= n < 2 ^ 16 ->
  PortId p = port /\ Pool p ∉ h_pools (hw_state h) /\ h_pools (hw_state h') = {[Pool p]} ∪ h_pools (hw_state h) /\
  port ∈ h_started (hw_state h') /\
  (exists offloads conf, h_ports (hw_state h') !! port = Some (n, n, conf) /\
     (mq_rss conf = true <-> 1 < n /\ Z.land RTE_ETH_RSS offloads <> 0)) /\
  forall q, 0 <= q < n -> h_rxq (hw_state h') !! (port, q) = Some (Pool p) /\ (port, q) ∈ h_txq (hw_state h').
Proof.
  intros E Hn. destruct (DpdkPort_new_spec port n h _ h' E Hn) as [(e & ? & _)|(pool & off & pr & [= ->] & Hnew & ->)]; [done|].
  cbn. split_and!; try done; [set_solver| |].
  - exists off, (wanted_conf n off). rewrite lookup_insert_eq. split; [done|]. unfold wanted_conf.
    destruct (Z.ltb_spec 1 n), (Z.eqb_spec (Z.land RTE_ETH_RSS off) 0); cbn; intuition (done || lia).
  - intros q Hq. rewrite rx_after_lookup, decide_True by lia. split; [done|]. apply tx_after_elem. left. lia.
Qed.

(** A [DpdkPort] whose constructor fails after the pool has been created keeps
    the pool and the configured port, for no destructor runs. *)
Theorem port_ctor_leaks_pool port n h h1 pool h2 e h' :
  Configure port n h = (Ret tt, h1) ->
  rte_pktmbuf_pool_create h1 (format1 "pool_" port "") kMbufCount kMbufCacheSize kPacketMetaPrivSize = (Some pool, h2) ->
  DpdkPort_new port n h = (Throw e, h') -> 0 <= n < 2 ^ 16 ->
  pool ∉ h_pools (hw_state h) /\ h_pools (hw_state h') = {[pool]} ∪ h_pools (hw_state h) /\
  is_Some (h_ports (hw_state h') !! port).
Proof.
  intros E1 E2 E Hn. unfold DpdkPort_new in E. unfold pbind at 1 in E. rewrite E1 in E.
  apply Configure_spec in E1 as [(e1 & ? & _)|(_ & off & Hs1)]; [done|].
  unfold pbind at 1, call at 1 in E. rewrite E2 in E. apply pool_create_law in E2 as [Hnew Hs2]. rewrite Hs1 in Hs2, Hnew. cbn in Hnew, Hs2.
  split; [done|]. unfold pbind at 1 in E. destruct (SetupQueues port n pool h2) as [r3 h3] eqn:E3.
  unfold SetupQueues, pbind, call in E3. apply setup_loop_spec in E3 as [(e3 & rxq & txq & -> & Hs3)|[-> Hs3]]; try lia; rewrite Hs2 in Hs3.
  { injection E as <- <-. rewrite Hs3. cbn. rewrite lookup_insert_eq. split; [done|eauto]. }
  unfold pbind at 1, call at 1 in E. destruct (rte_eth_dev_start h3 port) as [rc h4] eqn:E4. apply start_law in E4.
  destruct (rc <? 0); [|discriminate E]. injection E as <- <-. rewrite E4, Hs3. cbn. rewrite lookup_insert_eq. split; [done|eauto].
Qed.

End Spec.
