(* ===== verification/DataplaneSpec.v ===== *)
(** * The dataplane's lcores run safely and lose no packet

    The four graphs [main.cpp] builds are complete and acyclic, their nodes keep
    the contract, so every lcore loop runs any number of rounds; the roles the
    lcores get partition the ports and the rings. *)

From S2P Require Import Prelude FlowKey NetTypes PortPool BackendPool NatTable NatTableFacts NatTableSpec Ipc.
From S2P Require Import PacketMeta LbNode LbFacts LbSpec Graph GraphFacts GraphSpec Packet Nodes NodeFacts.
From S2P Require Import Dataplane.

(** 64 K ports: never unfold the list. *)
#[local] Opaque worker_ports.

(** Case analysis on the node of a concrete graph. *)
Ltac each_node v := destruct v as [|[|[|[|[|[|[|[|?]]]]]]]]; simplify_eq/=.

Section Spec.
Context `{BuildParams} `{Dpdk}.

(** ** The graphs *)

(** Only the first node of each graph receives. *)
Definition first_source (v : nat) : bool := (v =? 0)%nat.

Definition rank_of (ranks : list nat) (v : Z) : nat := nth (Z.to_nat v) ranks 0%nat.

Ltac targets :=
  repeat match goal with
  | Ht : ?t ∈ _ :: _ |- _ => apply elem_of_cons in Ht as [->|Ht]
  | Ht : ?t ∈ [] |- _ => now apply elem_of_nil in Ht
  end.

Definition mono_graph (cfg : Config) (port : Z) : Graph Lcore :=
  mkGraph [RxNode port 0; Ip4ParseNode cfg; LbNode_node; DnatNode cfg; EtherRewriteNode cfg;
           TxNode port 0; DropNode; ArpNode cfg]
    [[1]; [2; 2; 6; 7]; [3; 6]; [4]; [5]; []; []; [5; 6]].

Lemma BuildMonolithicGraph_eq fuel cfg arg w lb :
  LbNode_new fuel cfg (stats_ (w_lb w)) 0 1 = Ret lb ->
  BuildMonolithicGraph fuel cfg arg Graph_empty w = Ret (0, mono_graph cfg (port_id arg), set_lb w lb).
Proof. intros E. unfold BuildMonolithicGraph, AddLbNode. rewrite E. reflexivity. Qed.

Definition worker_graph (cfg : Config) (ring_in ring_out : nat) : Graph Lcore :=
  mkGraph [RingRxNode ring_in; Ip4ParseNode cfg; LbNode_node; DnatNode cfg; EtherRewriteNode cfg;
           RingTxNode ring_out; DropNode]
    [[1]; [2; 2; 6; 6]; [3; 6]; [4]; [5]; []; []].

Lemma BuildWorkerGraph_eq fuel cfg arg w lb i e :
  ingress arg = Some i -> egress arg = Some e ->
  LbNode_new fuel cfg (stats_ (w_lb w)) (worker_id arg) (u16 (n_workers arg)) = Ret lb ->
  BuildWorkerGraph fuel cfg arg Graph_empty w = Ret (0, worker_graph cfg i e, set_lb w lb).
Proof. intros Ei Ee E. unfold BuildWorkerGraph, AddLbNode. rewrite Ei, Ee. cbn [deref obind]. rewrite E. reflexivity. Qed.

Definition rx_graph (cfg : Config) (port : Z) (rings : list nat) (n : Z) (ring_out : nat) : Graph Lcore :=
  mkGraph [RxNode port 0; SteerNode cfg rings n; ArpNode cfg; RingTxNode ring_out; DropNode]
    [[1]; [2]; [3; 4]; []; []].

Lemma BuildRxGraph_eq cfg arg e :
  egress arg = Some e ->
  BuildRxGraph cfg arg Graph_empty = Ret (0, rx_graph cfg (port_id arg) (worker_rings arg) (n_workers arg) e).
Proof. intros Ee. unfold BuildRxGraph. rewrite Ee. reflexivity. Qed.

Definition tx_graph (port : Z) (ring_in : nat) : Graph Lcore :=
  mkGraph [RingRxNode ring_in; TxNode port 0] [[1]; []].

Lemma BuildTxGraph_eq arg e :
  egress arg = Some e -> BuildTxGraph arg Graph_empty = Ret (0, tx_graph (port_id arg) e).
Proof. intros Ee. unfold BuildTxGraph. rewrite Ee. reflexivity. Qed.

Lemma mono_graph_ok ports cfg port :
  Forall (fun p => p <> 0) ports -> MacAddr_wf (self_mac cfg) ->
  @graph_ok _ (lcore_world ports) first_source (mono_graph cfg port).
Proof.
  intros Hp Hm. split.
  - simpl. unfold kInvalid. lia.
  - reflexivity.
  - intros v node Hv. each_node v.
    + apply RxNode_ok.
    + apply loop_node_ok, parse_body_ok.
    + now apply LbNode_ok.
    + apply loop_node_ok, dnat_body_ok.
    + now apply loop_node_ok, ether_body_ok.
    + apply TxNode_ok.
    + apply DropNode_ok.
    + now apply loop_node_ok, arp_body_ok.
  - intros v node outs Hv Ho. each_node v; split; (reflexivity || (simpl; unfold kMaxFanout; lia)).
  - intros v outs t Ho Ht. each_node v; targets; (split; [simpl; lia|reflexivity]).
Qed.

Lemma mono_graph_ranked cfg port : ranked (mono_graph cfg port) (rank_of [0; 1; 2; 3; 4; 5; 5; 2]%nat) 5.
Proof. intros v outs t Ho Ht. each_node v; targets; unfold rank_of; simpl; lia. Qed.

Lemma worker_graph_ok ports cfg i e :
  Forall (fun p => p <> 0) ports -> MacAddr_wf (self_mac cfg) ->
  @graph_ok _ (lcore_world ports) first_source (worker_graph cfg i e).
Proof.
  intros Hp Hm. split.
  - simpl. unfold kInvalid. lia.
  - reflexivity.
  - intros v node Hv. each_node v.
    + apply RingRxNode_ok.
    + apply loop_node_ok, parse_body_ok.
    + now apply LbNode_ok.
    + apply loop_node_ok, dnat_body_ok.
    + now apply loop_node_ok, ether_body_ok.
    + apply RingTxNode_ok.
    + apply DropNode_ok.
  - intros v node outs Hv Ho. each_node v; split; (reflexivity || (simpl; unfold kMaxFanout; lia)).
  - intros v outs t Ho Ht. each_node v; targets; (split; [simpl; lia|reflexivity]).
Qed.

Lemma worker_graph_ranked cfg i e : ranked (worker_graph cfg i e) (rank_of [0; 1; 2; 3; 4; 5; 5]%nat) 5.
Proof. intros v outs t Ho Ht. each_node v; targets; unfold rank_of; simpl; lia. Qed.

Lemma rx_graph_ok ports cfg port rings n e :
  MacAddr_wf (self_mac cfg) -> 0 < n -> Z.of_nat (length rings) = n ->
  @graph_ok _ (lcore_world ports) first_source (rx_graph cfg port rings n e).
Proof.
  intros Hm Hn Hr. split.
  - simpl. unfold kInvalid. lia.
  - reflexivity.
  - intros v node Hv. each_node v.
    + apply RxNode_ok.
    + now apply SteerNode_ok.
    + now apply loop_node_ok, arp_body_ok.
    + apply RingTxNode_ok.
    + apply DropNode_ok.
  - intros v node outs Hv Ho. each_node v; split; (reflexivity || (simpl; unfold kMaxFanout; lia)).
  - intros v outs t Ho Ht. each_node v; targets; (split; [simpl; lia|reflexivity]).
Qed.

Lemma rx_graph_ranked cfg port rings n e : ranked (rx_graph cfg port rings n e) (rank_of [0; 1; 2; 3; 3]%nat) 5.
Proof. intros v outs t Ho Ht. each_node v; targets; unfold rank_of; simpl; lia. Qed.

Lemma tx_graph_ok ports port e : @graph_ok _ (lcore_world ports) first_source (tx_graph port e).
Proof.
  split.
  - simpl. unfold kInvalid. lia.
  - reflexivity.
  - intros v node Hv. each_node v; [apply RingRxNode_ok|apply TxNode_ok].
  - intros v node outs Hv Ho. each_node v; split; (reflexivity || (simpl; unfold kMaxFanout; lia)).
  - intros v outs t Ho Ht. each_node v; targets; (split; [simpl; lia|reflexivity]).
Qed.

Lemma tx_graph_ranked port e : ranked (tx_graph port e) (rank_of [0; 1]%nat) 5.
Proof. intros v outs t Ho Ht. each_node v; targets; unfold rank_of; simpl; lia. Qed.

(** ** Roles *)

(** The rings [RunDataplane] creates for the lcores: one per worker and one for egress,
    or none if there is one lcore only. *)
Definition rings_made (lcores : list Z) (rings : list nat) (egress_ring : option nat) : Prop :=
  if (2 <=? length lcores)%nat then length rings = pred (length lcores) /\ is_Some egress_ring
  else rings = [] /\ egress_ring = None.

Definition io_arg (port n : Z) (rings : list nat) (e : nat) : LcoreArg := mkLcoreArg kIo port 0 n 0 rings None (Some e).

(** Worker [i], which has the ring [r]. *)
Definition worker_arg (port n : Z) (rings : list nat) (e : nat) (i r : nat) : LcoreArg :=
  mkLcoreArg kWorker port (Z.of_nat i) n (S i) rings (Some r) (Some e).

Lemma assign_workers lcores port n rings e wid :
  (wid + length lcores = length rings)%nat -> 0 <= n -> (S (length rings) <= kMaxLcores)%nat ->
  assign_loop lcores true port n rings (Some e) (S wid) (Z.of_nat wid) =
    Ret (imap (fun i => worker_arg port n rings e (wid + i)) (drop wid rings)).
Proof.
  revert wid. induction lcores as [|l lcores IH]; intros wid Hl Hn Hr; cbn [assign_loop length] in *.
  { now rewrite drop_ge by lia. }
  destruct (Nat.leb_spec kMaxLcores (S wid)); [lia|]. cbn [negb Nat.eqb]. rewrite Nat2Z.id.
  destruct (lookup_lt_is_Some_2 rings wid ltac:(lia)) as [r Hw].
  rewrite (proj2 (at_Ret _ _ r)) by done. cbn [obind].
  rewrite u16_small by (unfold kMaxLcores in *; lia). replace (Z.of_nat wid + 1) with (Z.of_nat (S wid)) by lia.
  rewrite IH by lia. cbn [obind]. rewrite (drop_S rings r wid Hw). cbn [imap]. rewrite Nat.add_0_r. do 2 f_equal.
  apply imap_ext. intros i x _. simpl. f_equal; lia.
Qed.

Lemma AssignRoles_one l port rings e : AssignRoles [l] port rings e = Ret [base_arg port 1 0].
Proof. reflexivity. Qed.

Lemma plan_lcores_many lcores :
  (2 <= length lcores <= kMaxLcores)%nat -> plan_lcores lcores = Ret (true, Z.of_nat (pred (length lcores))).
Proof.
  intros Hl. unfold plan_lcores. destruct (Z.ltb_spec (Z.of_nat (length lcores)) 1); [lia|].
  destruct (Z.ltb_spec (Z.of_nat kMaxLcores) (Z.of_nat (length lcores))); [lia|].
  destruct (Z.leb_spec 2 (Z.of_nat (length lcores))); [|lia]. cbv zeta. cbn iota. do 2 f_equal. lia.
Qed.

Lemma AssignRoles_many lcores port rings e :
  (2 <= length lcores <= kMaxLcores)%nat -> length rings = pred (length lcores) ->
  AssignRoles lcores port rings (Some e) =
    Ret (io_arg port (Z.of_nat (length rings)) rings e ::
         imap (worker_arg port (Z.of_nat (length rings)) rings e) rings).
Proof.
  intros Hl Hr. unfold AssignRoles. rewrite plan_lcores_many by done. cbn [obind]. rewrite <- Hr.
  destruct lcores as [|l lcores]; [simpl in Hl; lia|]. cbn [assign_loop negb Nat.eqb length pred] in *.
  destruct (Nat.leb_spec kMaxLcores 0); [lia|]. cbn [obind].
  pose proof (assign_workers lcores port (Z.of_nat (length rings)) rings e 0) as Ha. change (Z.of_nat 0) with 0 in Ha.
  rewrite Ha by lia. reflexivity.
Qed.

(** The arguments an lcore can be started with. *)
Lemma AssignRoles_cases lcores port rings egress_ring args :
  rings_made lcores rings egress_ring -> AssignRoles lcores port rings egress_ring = Ret args ->
  (args = [base_arg port 1 0] /\ length lcores = 1%nat) \/
  exists e, egress_ring = Some e /\ (1 <= length rings <= 31)%nat /\ length lcores = S (length rings) /\
    args = io_arg port (Z.of_nat (length rings)) rings e ::
           imap (worker_arg port (Z.of_nat (length rings)) rings e) rings.
Proof.
  intros Hm E. destruct lcores as [|l [|l2 lcores]].
  - discriminate E.
  - left. rewrite AssignRoles_one in E. apply Ret_inj in E as <-. done.
  - right. unfold rings_made in Hm. cbn [length Nat.leb pred] in Hm. destruct Hm as [Hr [e ->]]. exists e. split; [done|].
    destruct (decide (length (l :: l2 :: lcores) <= kMaxLcores)%nat) as [Hl|Hl].
    + rewrite AssignRoles_many in E by (simpl in *; lia). apply Ret_inj in E as <-.
      unfold kMaxLcores in Hl. simpl in *. split_and!; [lia|lia|lia|done].
    + exfalso. unfold AssignRoles, plan_lcores in E. cbn [length] in *.
      destruct (Z.ltb_spec (Z.of_nat (S (S (length lcores)))) 1); [lia|].
      destruct (Z.ltb_spec (Z.of_nat kMaxLcores) (Z.of_nat (S (S (length lcores))))); [done|lia].
Qed.

Lemma elem_of_imap_workers port n rings e arg :
  arg ∈ imap (worker_arg port n rings e) rings ->
  exists i r, rings !! i = Some r /\ arg = worker_arg port n rings e i r.
Proof.
  intros [i Hi]%list_elem_of_lookup_1. rewrite list_lookup_imap in Hi.
  destruct (rings !! i) as [r|] eqn:E; [|done]. injection Hi as <-. eauto.
Qed.

(** ** The loops *)

Lemma no_lb_inv stats : length (backend_flows stats) = kMaxBackends -> LbInv [] (no_lb stats).
Proof.
  intros Hs. split; cbn [nat_ port_pools_ stats_ no_lb].
  - now apply NatTable_new_inv.
  - apply length_replicate.
  - done.
  - intros s f Hsl Ho. apply NatTable_new_slot in Hsl. congruence.
  - intros s f Hsl Hl. apply NatTable_new_slot in Hsl. unfold live in Hl. now rewrite Hsl in Hl.
  - intros s f Hsl. apply lookup_replicate in Hsl as [-> _]. split; (split; [done|repeat constructor; lia]).
  - intros b pool Hb. apply lookup_replicate in Hb as [-> _]. rewrite held_new. done.
Qed.

(** The state an lcore is launched in. *)
Record booted (w : Lcore) : Prop := {
  bo_mem : forall m, mbuf_ok (w_mem w m);
  bo_lb : w_lb w = no_lb (stats_ (w_lb w));
  bo_flows : length (backend_flows (stats_ (w_lb w))) = kMaxBackends;
  bo_new : 0 <= new_flows (stats_ (w_lb w)) < 2 ^ 64;
  bo_pool : forall pool, Load (w_pool w) = Some pool -> pool_ok pool;
}.

Lemma booted_lb fuel cfg w wid n :
  booted w -> 0 < n -> 65536 <= Z.of_nat fuel -> 0 <= conntrack_timeout_ms cfg ->
  exists lb, LbNode_new fuel cfg (stats_ (w_lb w)) wid n = Ret lb /\ lcore_ok (lb_ports wid n) (set_lb w lb).
Proof.
  intros [Hm Hl Hf Hn Hp] Hnw Hfuel Ht.
  assert (E : exists lb, LbNode_new fuel cfg (stats_ (w_lb w)) wid n = Ret lb).
  { unfold LbNode_new. rewrite ForWorker_spec by (unfold kEphemeralLow, kEphemeralHigh; lia). cbn [obind]. eauto. }
  destruct E as [lb E]. exists lb. split; [done|].
  destruct (LbNode_new_inv fuel cfg _ wid n lb Hnw Hfuel Ht Hf E) as (Hi & _ & Hs).
  split; try done. simpl. now rewrite Hs.
Qed.

Lemma booted_ok w : booted w -> lcore_ok [] w.
Proof. intros [Hm Hl Hf Hn Hp]. split; try done. rewrite Hl. now apply no_lb_inv. Qed.

Lemma burst_spec ports fuel g rank d w :
  @graph_ok _ (lcore_world ports) first_source g -> ranked g rank 5 -> (9 ^ 5 <= fuel)%nat ->
  (0 < length (nodes_ g))%nat -> @idle _ first_source g d -> lcore_ok ports w ->
  exists d' w', burst fuel g 0 d w = Ret (d', w') /\ lcore_ok ports w' /\ @idle _ first_source g d' /\
    in_dev (w_dev w') ≡ₚ in_dev (w_dev w).
Proof.
  intros Hg Hr Hfuel Hn Hi Hw. unfold burst.
  destruct (@RunOnce_spec _ (lcore_world ports) first_source g rank 5 fuel 0 d w (Clear Frame_new) Hg Hr Hfuel Hi Hw)
    as (d' & w' & E & Hw' & Hi' & Hp).
  - apply Clear_wf, Frame_new_wf.
  - lia.
  - done.
  - exists d', w'. split; [done|]. split; [done|]. split; [done|].
    rewrite packets_Clear, app_nil_r in Hp. exact Hp.
Qed.

Lemma lcore_loop_spec ports fuel g rank rounds :
  @graph_ok _ (lcore_world ports) first_source g -> ranked g rank 5 -> (9 ^ 5 <= fuel)%nat ->
  (0 < length (nodes_ g))%nat -> forall d w, @idle _ first_source g d -> lcore_ok ports w ->
  exists d' w', lcore_loop rounds fuel g 0 d w = Ret (d', w') /\ lcore_ok ports w' /\
    in_dev (w_dev w') ≡ₚ in_dev (w_dev w).
Proof.
  intros Hg Hr Hfuel Hn. induction rounds as [|rounds IH]; intros d w Hi Hw; cbn [lcore_loop].
  { exists d, w. split; [done|]. split; done. }
  destruct (burst_spec ports fuel g rank d w Hg Hr Hfuel Hn Hi Hw) as (d1 & w1 & -> & Hw1 & Hi1 & Hp1). cbn [obind].
  destruct (IH d1 w1 Hi1 Hw1) as (d' & w' & -> & Hw' & Hp'). exists d', w'. split; [done|]. split; [done|].
  now rewrite Hp', Hp1.
Qed.

Lemma io_loop_spec ports fuel g1 g2 rank1 rank2 rounds :
  @graph_ok _ (lcore_world ports) first_source g1 -> ranked g1 rank1 5 -> (0 < length (nodes_ g1))%nat ->
  @graph_ok _ (lcore_world ports) first_source g2 -> ranked g2 rank2 5 -> (0 < length (nodes_ g2))%nat ->
  (9 ^ 5 <= fuel)%nat ->
  forall d1 d2 w, @idle _ first_source g1 d1 -> @idle _ first_source g2 d2 -> lcore_ok ports w ->
  exists w', io_loop rounds fuel g1 g2 0 0 d1 d2 w = Ret w' /\ lcore_ok ports w' /\
    in_dev (w_dev w') ≡ₚ in_dev (w_dev w).
Proof.
  intros Hg1 Hr1 Hn1 Hg2 Hr2 Hn2 Hfuel.
  induction rounds as [|rounds IH]; intros d1 d2 w Hi1 Hi2 Hw; cbn [io_loop].
  { exists w. split; [done|]. split; done. }
  destruct (burst_spec ports fuel g1 rank1 d1 w Hg1 Hr1 Hfuel Hn1 Hi1 Hw) as (d1' & w1 & -> & Hw1 & Hi1' & Hp1). cbn [obind].
  destruct (burst_spec ports fuel g2 rank2 d2 w1 Hg2 Hr2 Hfuel Hn2 Hi2 Hw1) as (d2' & w2 & -> & Hw2 & Hi2' & Hp2). cbn [obind].
  destruct (IH d1' d2' w2 Hi1' Hi2' Hw2) as (w' & -> & Hw' & Hp'). exists w'. split; [done|]. split; [done|].
  now rewrite Hp', Hp2, Hp1.
Qed.

Lemma fuel_depth fuel : 65536 <= Z.of_nat fuel -> (9 ^ 5 <= fuel)%nat.
Proof. intros Hf. apply Nat2Z.inj_le. rewrite Nat2Z.inj_pow. change (Z.of_nat 9 ^ Z.of_nat 5) with 59049. lia. Qed.

Lemma RunMono_spec rounds fuel cfg arg w :
  booted w -> MacAddr_wf (self_mac cfg) -> 0 <= conntrack_timeout_ms cfg -> 65536 <= Z.of_nat fuel ->
  exists w', RunMono rounds fuel cfg arg w = Ret w' /\ lcore_ok (lb_ports 0 1) w' /\
    in_dev (w_dev w') ≡ₚ in_dev (w_dev w).
Proof.
  intros Hb Hm Ht Hf. destruct (booted_lb fuel cfg w 0 1 Hb ltac:(lia) Hf Ht) as (lb & E & Hw).
  unfold RunMono. rewrite (BuildMonolithicGraph_eq fuel cfg arg w lb E). cbn [obind].
  pose proof (mono_graph_ok _ cfg (port_id arg) (lb_ports_nonzero 0 1) Hm) as Hg.
  destruct (lcore_loop_spec _ fuel _ _ rounds Hg (mono_graph_ranked cfg (port_id arg)) (fuel_depth _ Hf)
    ltac:(simpl; lia) _ _ (Dispatcher_new_idle _ _ Hg) Hw) as (d' & w' & -> & Hw' & Hp).
  cbn [obind]. eauto.
Qed.

Lemma RunWorker_spec rounds fuel cfg port n rings e i r w :
  booted w -> MacAddr_wf (self_mac cfg) -> 0 <= conntrack_timeout_ms cfg -> 65536 <= Z.of_nat fuel ->
  0 < n <= 31 ->
  exists w', RunWorker rounds fuel cfg (worker_arg port n rings e i r) w = Ret w' /\
    lcore_ok (lb_ports (Z.of_nat i) n) w' /\ in_dev (w_dev w') ≡ₚ in_dev (w_dev w).
Proof.
  intros Hb Hm Ht Hf Hn. destruct (booted_lb fuel cfg w (Z.of_nat i) n Hb ltac:(lia) Hf Ht) as (lb & E & Hw).
  unfold RunWorker. rewrite (BuildWorkerGraph_eq fuel cfg (worker_arg port n rings e i r) w lb r e eq_refl eq_refl).
  2: { simpl. now rewrite u16_small by lia. }
  cbn [obind]. pose proof (worker_graph_ok _ cfg r e (lb_ports_nonzero (Z.of_nat i) n) Hm) as Hg.
  destruct (lcore_loop_spec _ fuel _ _ rounds Hg (worker_graph_ranked cfg r e) (fuel_depth _ Hf)
    ltac:(simpl; lia) _ _ (Dispatcher_new_idle _ _ Hg) Hw) as (d' & w' & -> & Hw' & Hp).
  cbn [obind]. eauto.
Qed.

Lemma RunIo_spec rounds fuel cfg port n rings e w :
  booted w -> MacAddr_wf (self_mac cfg) -> 65536 <= Z.of_nat fuel -> 0 < n -> Z.of_nat (length rings) = n ->
  exists w', RunIo rounds fuel cfg (io_arg port n rings e) w = Ret w' /\ in_dev (w_dev w') ≡ₚ in_dev (w_dev w).
Proof.
  intros Hb Hm Hf Hn Hlen. unfold RunIo.
  rewrite (BuildRxGraph_eq cfg (io_arg port n rings e) e eq_refl), (BuildTxGraph_eq (io_arg port n rings e) e eq_refl).
  cbn [obind port_id worker_rings n_workers io_arg].
  pose proof (rx_graph_ok [] cfg port _ n e Hm Hn Hlen) as Hg1.
  pose proof (tx_graph_ok [] port e) as Hg2.
  destruct (io_loop_spec [] fuel _ _ _ _ rounds Hg1 (rx_graph_ranked _ _ _ _ _) ltac:(simpl; lia)
    Hg2 (tx_graph_ranked _ _) ltac:(simpl; lia) (fuel_depth _ Hf) _ _ w
    (Dispatcher_new_idle _ _ Hg1) (Dispatcher_new_idle _ _ Hg2) (booted_ok w Hb)) as (w' & -> & _ & Hp). eauto.
Qed.

(** The SNAT ports of a worker lcore. *)
Definition owns_port (arg : LcoreArg) (port : Z) : Prop := port ∈ lb_ports (worker_id arg) (n_workers arg).

(** ** Properties *)

(** Every lcore the dataplane starts, in whatever role, runs any number of
    rounds of its loop without undefined behaviour, exception or endless loop, and
    every mbuf is back with the device between two rounds: none leaks and none is
    freed or sent twice. *)
Theorem dataplane_lcore_safe lcores port rings egress_ring args arg cfg w rounds fuel :
  rings_made lcores rings egress_ring -> AssignRoles lcores port rings egress_ring = Ret args -> arg ∈ args ->
  MacAddr_wf (self_mac cfg) -> 0 <= conntrack_timeout_ms cfg ->
  booted w -> 65536 <= Z.of_nat fuel ->
  exists w', LcoreMain rounds fuel cfg arg w = Ret w' /\ in_dev (w_dev w') ≡ₚ in_dev (w_dev w).
Proof.
  intros Hr E Hin Hm Ht Hb Hf.
  destruct (AssignRoles_cases lcores port rings egress_ring args Hr E) as [[-> _]|(e & _ & Hn & _ & ->)].
  - apply list_elem_of_singleton in Hin as ->.
    destruct (RunMono_spec rounds fuel cfg (base_arg port 1 0) w Hb Hm Ht Hf) as (w' & ? & _ & ?). eauto.
  - apply elem_of_cons in Hin as [->|(i & r & _ & ->)%elem_of_imap_workers].
    + apply RunIo_spec; try done. lia.
    + destruct (RunWorker_spec rounds fuel cfg port (Z.of_nat (length rings)) rings e i r w Hb Hm Ht Hf ltac:(lia))
        as (w' & ? & _ & ?). eauto.
Qed.

(** A worker's load balancer, after any number of rounds, still has every SNAT
    port of the worker either free or held by one flow, for each backend. *)
Theorem worker_rounds_keep_ports rounds fuel cfg port n rings e i r w :
  booted w -> MacAddr_wf (self_mac cfg) -> 0 <= conntrack_timeout_ms cfg -> 65536 <= Z.of_nat fuel ->
  0 < n <= 31 ->
  exists w', RunWorker rounds fuel cfg (worker_arg port n rings e i r) w = Ret w' /\
    length (port_pools_ (w_lb w')) = kMaxBackends /\
    forall b pool, port_pools_ (w_lb w') !! b = Some pool ->
      free_ pool ++ held b (nat_ (w_lb w')) ≡ₚ lb_ports (Z.of_nat i) n.
Proof.
  intros Hb Hm Ht Hf Hn.
  destruct (RunWorker_spec rounds fuel cfg port n rings e i r w Hb Hm Ht Hf Hn) as (w' & E & Hw & _).
  exists w'. split; [done|]. split; [exact (li_pools _ _ (lo_lb _ _ Hw))|]. exact (li_ports _ _ (lo_lb _ _ Hw)).
Qed.

(** The roles partition the work: with one worker lcore it does everything;
    with more, the first receives and sends, every other one is a worker with its
    own number and its own ring, the numbers are exactly 0 .. n-1, the ring table
    has the ring of worker [i] at [i], and every SNAT port is one worker's. Each lcore
    counts in its own element of the statistics. *)
Theorem roles_partition lcores port rings egress_ring args :
  rings_made lcores rings egress_ring -> AssignRoles lcores port rings egress_ring = Ret args ->
  length args = length lcores /\
  (forall i arg, args !! i = Some arg -> stats_slot arg = i /\ (i < kMaxLcores)%nat) /\
  ((exists arg, args = [arg] /\ role arg = kMono) \/
   exists io workers, args = io :: workers /\ role io = kIo /\ worker_rings io = rings /\
     n_workers io = Z.of_nat (length workers) /\
     (forall i arg, workers !! i = Some arg ->
        role arg = kWorker /\ worker_id arg = Z.of_nat i /\ n_workers arg = n_workers io /\
        egress arg = egress io /\ ingress arg = rings !! i) /\
     (forall port, kEphemeralLow <= port <= kEphemeralHigh ->
        exists arg, arg ∈ workers /\ owns_port arg port /\
          forall arg2, arg2 ∈ workers -> owns_port arg2 port -> arg2 = arg)).
Proof.
  intros Hr E. destruct (AssignRoles_cases lcores port rings egress_ring args Hr E) as [[-> Hl]|(e & -> & Hn & Hl & ->)].
  { split; [done|]. split; [|left; eauto]. intros [|[|i]] arg [= <-]. unfold kMaxLcores. simpl. lia. }
  set (n := Z.of_nat (length rings)). split; [cbn [length]; rewrite length_imap; done|]. split.
  { intros [|i] arg Hi; [injection Hi as <-; unfold kMaxLcores; simpl; lia|]. simpl in Hi. rewrite list_lookup_imap in Hi.
    destruct (rings !! i) as [r|] eqn:Er; [|done]. injection Hi as <-. apply lookup_lt_Some in Er.
    unfold kMaxLcores. simpl. lia. }
  right. exists (io_arg port n rings e), (imap (worker_arg port n rings e) rings). rewrite length_imap.
  split_and!; try done.
  - intros i arg Hi. rewrite list_lookup_imap in Hi. destruct (rings !! i) as [r|]; [|done]. injection Hi as <-. done.
  - intros p Hport. unfold owns_port, lb_ports.
    assert (Hmod : 0 <= p mod n < n) by (apply Z.mod_pos_bound; lia).
    destruct (lookup_lt_is_Some_2 rings (Z.to_nat (p mod n))) as [r Hlk]; [lia|].
    exists (worker_arg port n rings e (Z.to_nat (p mod n)) r). split; [|split].
    + apply list_elem_of_lookup. exists (Z.to_nat (p mod n)). rewrite list_lookup_imap, Hlk. done.
    + cbn [worker_id n_workers worker_arg]. rewrite elem_of_worker_ports. split; [done|]. lia.
    + intros arg2 (j & r2 & Hj & ->)%elem_of_imap_workers Hp2.
      cbn [worker_id n_workers worker_arg] in Hp2. rewrite elem_of_worker_ports in Hp2. destruct Hp2 as [_ Hp2].
      assert (j = Z.to_nat (p mod n)) as -> by lia. congruence.
Qed.

End Spec.
