(* ===== verification/SampleDevice.v ===== *)
(** * A concrete device

    A NIC with a list of packets to receive, rings without limit and a millisecond
    clock of 1 MHz: an instance of [Dpdk], on which the dataplane can be run. *)

From S2P Require Import Prelude NetTypes PacketMeta Graph Packet.

Record Device := mkDevice {
  d_rx : list (mbuf_ptr * list Z);
  d_free : list mbuf_ptr;
  d_sent : list mbuf_ptr;
  d_rings : list (list mbuf_ptr);
  d_cycles : Z;
}.

Definition sample_room : nat := 128.

(** A packet padded to the data room. *)
Definition pad (data : list Z) : list Z :=
  u8 <$> (take sample_room data ++ replicate (sample_room - length data) 0).

Definition dev_mbufs (d : Device) : list mbuf_ptr := (d_rx d).*1 ++ d_free d ++ d_sent d ++ concat (d_rings d).

(** One packet per burst. *)
Definition dev_rx (d : Device) (port queue : Z) (n : nat) : list (mbuf_ptr * list Z) * Device :=
  match d_rx d, n with
  | (m, data) :: rest, S _ => ([(m, pad data)], mkDevice rest (d_free d) (d_sent d) (d_rings d) (d_cycles d))
  | _, _ => ([], d)
  end.

Definition dev_tx (d : Device) (port queue : Z) (l : list mbuf_ptr) : nat * Device :=
  (length l, mkDevice (d_rx d) (d_free d) (l ++ d_sent d) (d_rings d) (d_cycles d)).

Definition dev_enqueue_burst (d : Device) (ring : nat) (l : list mbuf_ptr) : nat * Device :=
  match d_rings d !! ring with
  | Some q => (length l, mkDevice (d_rx d) (d_free d) (d_sent d) (<[ring := q ++ l]> (d_rings d)) (d_cycles d))
  | None => (0%nat, d)
  end.

Definition dev_enqueue (d : Device) (ring : nat) (m : mbuf_ptr) : Z * Device :=
  match d_rings d !! ring with
  | Some q => (0, mkDevice (d_rx d) (d_free d) (d_sent d) (<[ring := q ++ [m]]> (d_rings d)) (d_cycles d))
  | None => (-1, d)
  end.

Definition dev_dequeue_burst (d : Device) (ring n : nat) : list mbuf_ptr * Device :=
  match d_rings d !! ring with
  | Some q => (take n q, mkDevice (d_rx d) (d_free d) (d_sent d) (<[ring := drop n q]> (d_rings d)) (d_cycles d))
  | None => ([], d)
  end.

Definition dev_free (d : Device) (l : list mbuf_ptr) : Device :=
  mkDevice (d_rx d) (l ++ d_free d) (d_sent d) (d_rings d) (d_cycles d).

Definition sample_hdr_len (v : Z) : nat := Z.to_nat (4 * Z.land v 15).

Definition sample_cksum (bs : list Z) : Z := u16 (foldl Z.add 0 bs).

Lemma pad_ok data : length (pad data) = sample_room /\ Forall (fun b => 0 <= b < 256) (pad data).
Proof.
  unfold pad. split.
  - rewrite length_fmap, length_app, length_take, length_replicate. lia.
  - apply Forall_fmap, Forall_forall. intros b _. apply u8_range.
Qed.

Lemma dev_enqueue_burst_law d ring l n d' :
  dev_enqueue_burst d ring l = (n, d') -> (n <= length l)%nat /\ dev_mbufs d' ≡ₚ take n l ++ dev_mbufs d.
Proof.
  unfold dev_enqueue_burst. destruct (d_rings d !! ring) as [q|] eqn:Hq; intros [= <- <-].
  - split; [done|]. rewrite take_ge by done. unfold dev_mbufs. simpl.
    destruct (concat_insert_split _ _ _ Hq) as (rest & -> & ->). rewrite <- !app_assoc. solve_Permutation.
  - split; [lia|]. done.
Qed.

#[refine] Definition sample_dpdk : Dpdk := {|
  data_room := sample_room;
  rte_ipv4_hdr_len := sample_hdr_len;
  rte_ipv4_cksum bs := sample_cksum (take (sample_hdr_len (default 0 (bs !! 0%nat))) bs);
  rte_ipv4_udptcp_cksum bs l4 := sample_cksum (drop l4 bs);
  dev := Device;
  in_dev := dev_mbufs;
  rte_get_timer_cycles := d_cycles;
  rte_get_timer_hz := 1000000;
  rte_eth_rx_burst := dev_rx;
  rte_eth_tx_burst := dev_tx;
  rte_ring_enqueue := dev_enqueue;
  rte_ring_enqueue_burst := dev_enqueue_burst;
  rte_ring_dequeue_burst := dev_dequeue_burst;
  rte_pktmbuf_free_bulk := dev_free;
|}.
Proof.
  - unfold sample_room. lia.
  - done.
  - intros bs. apply u16_range.
  - intros v bs bs' H1 H2 Ht. rewrite H1, H2. cbn [default from_option id]. now rewrite Ht.
  - intros bs l4. apply u16_range.
  - lia.
  - intros d port queue n l d'. unfold dev_rx. destruct (d_rx d) as [|[m data] rest] eqn:Er; [|destruct n as [|n]];
      intros [= <- <-]; (split; [simpl; lia|]); (split; [|repeat constructor; apply pad_ok]); [done..|].
    unfold dev_mbufs. now rewrite Er.
  - intros d port queue l n d' [= <- <-]. split; [done|]. rewrite take_ge by done. unfold dev_mbufs. simpl.
    rewrite <- !app_assoc. solve_Permutation.
  - intros d ring m rc d' E.
    assert (Eb : dev_enqueue_burst d ring [m] = (if rc =? 0 then 1%nat else 0%nat, d')).
    { unfold dev_enqueue, dev_enqueue_burst in *. destruct (d_rings d !! ring); injection E as <- <-; done. }
    apply dev_enqueue_burst_law in Eb as [_ ->]. now destruct (rc =? 0).
  - apply dev_enqueue_burst_law.
  - intros d ring n l d'. unfold dev_dequeue_burst. destruct (d_rings d !! ring) as [q|] eqn:Hq; intros [= <- <-].
    + split; [rewrite length_take; lia|]. unfold dev_mbufs. simpl.
      destruct (concat_insert_split _ _ _ Hq) as (rest & -> & ->). rewrite <- (take_drop n q) at 1.
      rewrite <- !app_assoc. solve_Permutation.
    + split; [simpl; lia|done].
  - intros d l. unfold dev_mbufs. simpl. rewrite <- !app_assoc. solve_Permutation.
Defined.
