(* ===== verification/DataplaneSamples.v ===== *)
(** * The dataplane run on the sample device: witnesses of the graph and lcore theorems *)

From S2P Require Import Prelude FlowKey NetTypes PortPool BackendPool NatTable NatTableFacts NatTableSpec Ipc.
From S2P Require Import PacketMeta LbNode LbFacts LbSpec Graph GraphFacts GraphSpec Packet Nodes NodeFacts.
From S2P Require Import Dataplane DataplaneSpec SampleDevice.

#[local] Opaque worker_ports.

#[local] Existing Instance BackendPool.test_build.
#[local] Existing Instance SampleDevice.sample_dpdk.

(** An Ethernet, IPv4 and TCP header. *)
Definition tcp_packet (src dst sport dport flags : Z) : list Z :=
  [2; 0; 0; 0; 0; 254] ++ [2; 0; 0; 0; 0; 5] ++ be_bytes 2 2048 ++
  [69; 0; 0; 40; 0; 1; 0; 0; 64; 6; 0; 0] ++ be_bytes 4 src ++ be_bytes 4 dst ++
  be_bytes 2 sport ++ be_bytes 2 dport ++ replicate 8 0 ++ [80; flags] ++ replicate 6 0.

Definition client_syn : list Z := tcp_packet 3232235525 (value (vip sample_config)) 40000 80 2.

Definition blank_mbuf : Mbuf := mkMbuf (replicate sample_room 0) (packet_meta 0 0 0 0 0 kForward).

(** One packet to receive, two spare mbufs, three rings. *)
Definition world0 : Lcore :=
  mkLcore (mkDevice [(1, client_syn)] [2; 3] [] [[]; []; []] 1000000) (fun _ => blank_mbuf)
    (no_lb LcoreStats_zero) (mkAtomicRcu (Some LbSamples.pool2)).

Definition fuel0 : nat := Z.to_nat 65536.

Lemma blank_ok : mbuf_ok blank_mbuf.
Proof.
  split_and!; [reflexivity| |split; [reflexivity|repeat constructor; lia]..].
  apply Forall_replicate. lia.
Qed.

Lemma world0_booted : booted world0.
Proof.
  split.
  - intros m. apply blank_ok.
  - reflexivity.
  - reflexivity.
  - simpl. lia.
  - intros pool [= <-]. destruct LbSamples.pool2_usable as (? & ? & _ & ?). split_and!; done.
Qed.

Lemma self_mac_ok : MacAddr_wf (self_mac sample_config).
Proof. split; [reflexivity|]. repeat constructor; lia. Qed.

Lemma dataplane_lcore_safe_witness :
  exists w', LcoreMain 5 fuel0 sample_config (base_arg 0 1 0) world0 = Ret w' /\
    in_dev (w_dev w') ≡ₚ in_dev (w_dev world0).
Proof.
  apply (dataplane_lcore_safe [3] 0 [] None [base_arg 0 1 0]).
  - split; reflexivity.
  - reflexivity.
  - apply list_elem_of_here.
  - apply self_mac_ok.
  - simpl. lia.
  - apply world0_booted.
  - unfold fuel0. lia.
Defined.

(** The state a run ends in. *)
Definition end_of {A} (o : outcome A) (default : A) : A :=
  match o with
  | Ret x => x
  | _ => default
  end.

(** Worker 1 of 31, with the client's packet on its ring. *)
Definition world_w : Lcore :=
  mkLcore (mkDevice [] [2; 3] [] ([] :: [1] :: replicate 30 []) 1000000)
    (fun m => if m =? 1 then mkMbuf (pad client_syn) (mb_meta blank_mbuf) else blank_mbuf)
    (no_lb LcoreStats_zero) (mkAtomicRcu (Some LbSamples.pool2)).

Definition worker1 : LcoreArg := worker_arg 0 31 (seq 0 31) 31 1 1.

Definition worker_end : Lcore := end_of (RunWorker 1 fuel0 sample_config worker1 world_w) world_w.

(** The packet is on the egress ring and a flow was opened. *)
Example worker_end_run :
  (d_rings (w_dev worker_end) !! 31%nat, new_flows (stats_ (w_lb worker_end))) = (Some [1], 1).
Proof. vm_compute. reflexivity. Qed.

Lemma world_w_booted : booted world_w.
Proof.
  split.
  - intros m. simpl. destruct (m =? 1); [|apply blank_ok]. destruct blank_ok as (_ & _ & ? & ?).
    destruct (pad_ok client_syn). split_and!; done.
  - reflexivity.
  - reflexivity.
  - simpl. lia.
  - intros pool [= <-]. destruct LbSamples.pool2_usable as (? & ? & _ & ?). split_and!; done.
Qed.

Lemma worker_rounds_keep_ports_witness :
  exists w', RunWorker 1 fuel0 sample_config worker1 world_w = Ret w' /\
    length (port_pools_ (w_lb w')) = kMaxBackends /\
    forall b pool, port_pools_ (w_lb w') !! b = Some pool ->
      free_ pool ++ held b (nat_ (w_lb w')) ≡ₚ lb_ports (Z.of_nat 1) 31.
Proof.
  apply (worker_rounds_keep_ports 1 fuel0 sample_config 0 31 (seq 0 31) 31 1 1 world_w).
  - apply world_w_booted.
  - apply self_mac_ok.
  - simpl. lia.
  - unfold fuel0. lia.
  - lia.
Defined.

(** Three worker lcores: one for I/O, two workers. *)
Definition io3 : LcoreArg := io_arg 0 2 [5; 6]%nat 7.

Definition workers3 : list LcoreArg := [worker_arg 0 2 [5; 6]%nat 7 0 5; worker_arg 0 2 [5; 6]%nat 7 1 6].

Lemma roles_partition_witness :
  length (io3 :: workers3) = length [1; 2; 3] /\
  (forall i arg, (io3 :: workers3) !! i = Some arg -> stats_slot arg = i /\ (i < kMaxLcores)%nat) /\
  ((exists arg, io3 :: workers3 = [arg] /\ role arg = kMono) \/
   exists io workers, io3 :: workers3 = io :: workers /\ role io = kIo /\ worker_rings io = [5; 6]%nat /\
     n_workers io = Z.of_nat (length workers) /\
     (forall i arg, workers !! i = Some arg ->
        role arg = kWorker /\ worker_id arg = Z.of_nat i /\ n_workers arg = n_workers io /\
        egress arg = egress io /\ ingress arg = [5; 6]%nat !! i) /\
     (forall port, kEphemeralLow <= port <= kEphemeralHigh ->
        exists arg, arg ∈ workers /\ owns_port arg port /\
          forall arg2, arg2 ∈ workers -> owns_port arg2 port -> arg2 = arg)).
Proof.
  apply (roles_partition [1; 2; 3] 0 [5; 6]%nat (Some 7%nat)).
  - split; [reflexivity|]. now exists 7%nat.
  - reflexivity.
Defined.

(** ** Bursts through the single-threaded graph *)

Definition graph1 : Graph Lcore := mono_graph sample_config 0.

Definition ports1 : list Z := [60001; 40001; 20001].

Definition lb_small : LbNode :=
  mkLbNode (NatTable_new 30000) (replicate kMaxBackends (mkPortPool ports1)) LcoreStats_zero.

Lemma lb_small_inv : LbInv ports1 lb_small.
Proof.
  split; cbn [nat_ port_pools_ stats_ lb_small].
  - apply NatTable_new_inv. lia.
  - apply length_replicate.
  - reflexivity.
  - intros s f Hsl Ho. apply NatTable_new_slot in Hsl. congruence.
  - intros s f Hsl Hlv. apply NatTable_new_slot in Hsl. unfold live in Hlv. now rewrite Hsl in Hlv.
  - intros s f Hsl. apply lookup_replicate in Hsl as [-> _]. split; (split; [done|repeat constructor; lia]).
  - intros b pool Hb. apply lookup_replicate in Hb as [-> _]. rewrite held_new. done.
Qed.

Definition world1 : Lcore := set_lb world0 lb_small.

Lemma world1_ok : lcore_ok ports1 world1.
Proof.
  destruct world0_booted as [Hm _ _ _ Hp]. split; [exact Hm|exact lb_small_inv| |exact Hp].
  cbn. lia.
Qed.

Lemma graph1_ok : @graph_ok _ (lcore_world ports1) first_source graph1.
Proof. apply mono_graph_ok; [repeat constructor; lia|apply self_mac_ok]. Qed.

Definition two_frames : list Frame := [Frame_new; Frame_new].

Lemma two_frames_wf : Forall frame_wf two_frames.
Proof. repeat constructor; apply Frame_new_wf. Qed.

Lemma two_frames_empty : Forall (fun f => packets f = []) two_frames.
Proof. repeat constructor. Qed.

Lemma bursts_terminate_witness :
  exists d' w', run_bursts (9 ^ 5) graph1 0 (Dispatcher_new graph1) world1 two_frames = Ret (d', w') /\
    lcore_ok ports1 w'.
Proof.
  apply (@bursts_terminate _ (lcore_world ports1) first_source graph1 (rank_of [0; 1; 2; 3; 4; 5; 5; 2]%nat) 5).
  - apply graph1_ok.
  - apply mono_graph_ranked.
  - simpl. lia.
  - apply two_frames_wf.
  - intros _. apply two_frames_empty.
  - apply world1_ok.
Defined.

(** The state after two bursts: the packet has been sent. *)
Definition end1 : Dispatcher * Lcore :=
  end_of (run_bursts fuel0 graph1 0 (Dispatcher_new graph1) world1 two_frames) (Dispatcher_new graph1, world1).

Example end1_run : (d_sent (w_dev end1.2), tx_packets (stats_ (w_lb end1.2))) = ([1], 1).
Proof. vm_compute. reflexivity. Qed.

Lemma bursts_conserve_packets_witness :
  exists d' w', run_bursts fuel0 graph1 0 (Dispatcher_new graph1) world1 two_frames = Ret (d', w') /\
    in_dev (w_dev w') ≡ₚ in_dev (w_dev world1) ++ (two_frames ≫= packets) /\
    waiting d' = [] /\ Forall (fun p => p = []) (pending_ d').
Proof.
  apply (@bursts_conserve_packets _ (lcore_world ports1) first_source graph1
    (rank_of [0; 1; 2; 3; 4; 5; 5; 2]%nat) 5 0 two_frames world1 fuel0).
  - apply graph1_ok.
  - apply mono_graph_ranked.
  - simpl. lia.
  - apply two_frames_wf.
  - intros _. apply two_frames_empty.
  - apply world1_ok.
  - apply fuel_depth. unfold fuel0. lia.
Defined.

Lemma bursts_return_frames_witness :
  exists d' w', run_bursts fuel0 graph1 0 (Dispatcher_new graph1) world1 two_frames = Ret (d', w') /\
    ffree_ (pool_ d') ≡ₚ seq 0 (length (storage_ (pool_ d'))) /\ NoDup (ffree_ (pool_ d')).
Proof.
  apply (@bursts_return_frames _ (lcore_world ports1) first_source graph1
    (rank_of [0; 1; 2; 3; 4; 5; 5; 2]%nat) 5 0 two_frames world1 fuel0).
  - apply graph1_ok.
  - apply mono_graph_ranked.
  - simpl. lia.
  - apply two_frames_wf.
  - intros _. apply two_frames_empty.
  - apply world1_ok.
  - apply fuel_depth. unfold fuel0. lia.
Defined.

Lemma Wire_spec_witness :
  let n := Z.of_nat (length (nodes_ graph1)) in
  (exists node, nodes_ graph1 !! Z.to_nat 1 = Some node /\ 1 < n /\ 6 < n /\
     3 < Z.of_nat (Z.to_nat (NextCount node)) /\
     exists g', Wire graph1 1 3 6 = Ret g' /\ graph_shape g' /\ nodes_ g' = nodes_ graph1 /\
       Target g' 1 (Z.to_nat 3) = Ret 6 /\
       forall v o, (v, o) <> (1, Z.to_nat 3) -> 0 <= v -> Target g' v o = Target graph1 v o) \/
  (exists what, Wire graph1 1 3 6 = Throw (out_of_range what) /\
     (n <= 1 \/ n <= 6 \/
      exists node, nodes_ graph1 !! Z.to_nat 1 = Some node /\ Z.of_nat (Z.to_nat (NextCount node)) <= 3)).
Proof.
  apply (Wire_spec graph1 1 3 6).
  - split; [reflexivity|]. repeat constructor.
  - lia.
  - lia.
  - lia.
Defined.
