(* ===== verification/Control.v ===== *)
(** * The control channel: [ipc/control_view.hpp] and its users in [dataplane/src/main.cpp]

    The calls as one process executes them; [SeqLock] has their interleaving. *)

From S2P Require Import Prelude FlowKey NetTypes BackendPool Ipc.

Definition kMacBytes : nat := 6.

(** ** [PublishControl] and [ReadControl] *)

Definition set_seq (v : ControlView) (seq : Z) : ControlView :=
  mkControlView (cv_header v) seq (cv_count v) (cv_backends v).

Definition set_count (v : ControlView) (count : Z) : ControlView :=
  mkControlView (cv_header v) (cv_seq v) count (cv_backends v).

Definition set_backends (v : ControlView) (bs : list ControlBackend) : ControlView :=
  mkControlView (cv_header v) (cv_seq v) (cv_count v) bs.

(** [for (i = 0; i < n; ++i) dst[i] = src[i]], from [i]. *)
Fixpoint copy_backends (n : nat) (i : nat) (src dst : list ControlBackend) : outcome (list ControlBackend) :=
  match n with
  | O => Ret dst
  | S n =>
      let! x := at_ src i in
      let! dst := set_at dst i x in
      copy_backends n (S i) src dst
  end.

Definition PublishControl (view : ControlView) (src : list ControlBackend) (count : Z) : outcome ControlView :=
  let start := cv_seq view in
  let view := set_seq view (u32 (start + 1)) in
  let view := set_count view (Z.min count (Z.of_nat kMaxBackends)) in
  let! bs := copy_backends (Z.to_nat (cv_count view)) 0 src (cv_backends view) in
  let view := set_backends view bs in
  Ret (set_seq view (u32 (start + 2))).

(** [ReadControl]: the sequence number, the filled buffer, the count. Alone, the
    second load of [seq] gives what the first gave; an odd number is retried. *)
Fixpoint ReadControl (fuel : nat) (view : ControlView) (out : list ControlBackend)
  : outcome (Z * list ControlBackend * Z) :=
  match fuel with
  | O => OutOfFuel
  | S fuel =>
      let seq_before := cv_seq view in
      if negb (Z.land seq_before 1 =? 0) then ReadControl fuel view out
      else
        let count := Z.min (cv_count view) (Z.of_nat kMaxBackends) in
        let! out := copy_backends (Z.to_nat count) 0 (cv_backends view) out in
        if cv_seq view =? seq_before then Ret (seq_before, out, count)
        else ReadControl fuel view out
  end.

(** ** The dataplane's side *)

(** The body of [BuildPool]'s loop: the probe port keeps its initialiser. *)
Definition backend_of (src : ControlBackend) : BackendInfo :=
  mkBackendInfo (mkIPv4Addr (cb_ip src)) (mkMacAddr (cb_mac src)) (cb_port src) 0.

(** The loop of [BuildPool], from [i]. *)
Fixpoint collect_slots (n i : nat) (src : list ControlBackend) (slots : list BackendInfo) (enabled : list Z)
  : outcome (list BackendInfo * list Z) :=
  match n with
  | O => Ret (slots, enabled)
  | S n =>
      let! b := at_ src i in
      collect_slots n (S i) src (push_back slots (backend_of b)) (push_back enabled (cb_enabled b))
  end.

Definition BuildPool (fuel : nat) (src : list ControlBackend) (count : Z) : outcome BackendPool :=
  let! '(slots, enabled) := collect_slots (Z.to_nat count) 0 src [] [] in
  BackendPool_enabled fuel slots enabled.

(** An entry as [SeedControl] and [MonitorComponent::PublishControl] fill it. *)
Definition control_entry (backend : BackendInfo) (enabled : Z) : ControlBackend :=
  mkControlBackend (value (be_ip backend)) (be_port backend) (bytes (be_mac backend)) enabled.

Definition SeedControl (view : ControlView) (cfg : Config) : outcome ControlView :=
  let entries := (fun b => control_entry b 1) <$> backends cfg in
  PublishControl view entries (u32 (Z.of_nat (length entries))).

(** What [RunControlLoop] keeps between polls. *)
Record ControlLoop := mkControlLoop {
  cl_snapshot : list ControlBackend;
  cl_count : Z;
  cl_applied : Z;
  cl_pool : AtomicRcu BackendPool;
}.

(** One poll. *)
Definition control_poll (fuel : nat) (view : ControlView) (st : ControlLoop) : outcome ControlLoop :=
  let! '(seq, snapshot, count) := ReadControl fuel view (cl_snapshot st) in
  if negb (seq =? cl_applied st) then
    let! pool := BuildPool fuel snapshot count in
    Ret (mkControlLoop snapshot count seq (Store (cl_pool st) (Some pool)))
  else Ret (mkControlLoop snapshot count (cl_applied st) (cl_pool st)).

(** [RunControlLoop]: at its [i]-th turn it finds [running i] in [g_running] and [view i]
    in the segment. It also gives the turn at which it ended; [rounds] bounds the turns. *)
Fixpoint RunControlLoop (rounds fuel : nat) (running : nat -> bool) (view : nat -> ControlView) (i : nat) (st : ControlLoop)
  : outcome (nat * ControlLoop) :=
  match rounds with
  | O => OutOfFuel
  | S rounds =>
      if negb (running i) then Ret (i, st)
      else
        let! st := control_poll fuel (view i) st in
        RunControlLoop rounds fuel running view (S i) st
  end.

(** The start of [RunDataplane]: seed the view, read it back, publish the pool. *)
Definition StartControl (fuel : nat) (view : ControlView) (cfg : Config) : outcome (ControlView * ControlLoop) :=
  let! view := SeedControl view cfg in
  let! '(seq, snapshot, count) := ReadControl fuel view (replicate kMaxBackends ControlBackend_zero) in
  let! pool := BuildPool fuel snapshot count in
  Ret (view, mkControlLoop snapshot count seq (Store (AtomicRcu_new None) (Some pool))).
