(* ===== verification/ControlPlane.v ===== *)
(** * The control plane ([controlplane/]): health checks, statistics, the monitor

    The kernel's sockets are the class [Sockets]. A pass of the health checker is one
    step here; [HealthThread] has its thread and shows that readers see whole passes. The
    userver framework (HTTP server and client, periodic task, JSON printer) is not
    modelled: handlers give the JSON value they hand to it. *)

From S2P Require Import Prelude FlowKey NetTypes BackendPool Ipc Control.

Local Open Scope string_scope.
Local Open Scope Z_scope.

(** ** [backend_state.hpp] *)

Inductive HealthStatus := kUnknown | kUp | kDown | kDraining.

#[export] Instance HealthStatus_eq_dec : EqDecision HealthStatus.
Proof. solve_decision. Defined.

Record BackendState := mkBackendState {
  info : BackendInfo;
  status : HealthStatus;
  fail_count : Z;
  success_count : Z;
  last_check_ns : Z;
}.

(** ** [HealthChecker] *)

(** System calls as state transitions of the kernel [net]; [fds] are the open
    descriptors of the process. [sys_so_error] gives what [getsockopt] leaves in
    [err]. POSIX gives [socket] the lowest descriptor that is not open. *)
Class Sockets := {
  net : Type;
  fds : net -> list Z;
  sys_socket : net -> Z * net;
  sys_connect : net -> Z -> Z -> Z -> Z * Z * net;
  sys_select : net -> Z -> Z * net;
  sys_so_error : net -> Z -> Z * net;
  sys_close : net -> Z -> net;
  clock_ns : net -> Z;
  EINPROGRESS : Z;
  socket_law : forall n fd n', sys_socket n = (fd, n') ->
    fds n' = (if fd <? 0 then fds n else fd :: fds n);
  socket_lowest : forall n fd n', sys_socket n = (fd, n') -> forall k, 0 <= k < fd -> k ∈ fds n;
  connect_law : forall n fd ip port rc err n', sys_connect n fd ip port = (rc, err, n') -> fds n' = fds n;
  select_law : forall n fd rc n', sys_select n fd = (rc, n') -> fds n' = fds n;
  so_error_law : forall n fd err n', sys_so_error n fd = (err, n') -> fds n' = fds n;
  close_law : forall n fd l, fds n = fd :: l -> fds (sys_close n fd) = l;
}.

(** The size of an [fd_set]: [FD_SET] of a larger descriptor is undefined. *)
Definition FD_SETSIZE : Z := 1024.

Section Health.
Context `{Sockets}.

Definition WaitForConnect (n : net) (fdesc : Z) : outcome (bool * net) :=
  if FD_SETSIZE <=? fdesc then Undef
  else
    let '(rc, n) := sys_select n fdesc in
    if rc <=? 0 then Ret (false, n)
    else
      let '(err, n) := sys_so_error n fdesc in
      Ret (err =? 0, n).

Definition Probe (n : net) (backend : BackendInfo) : outcome (bool * net) :=
  let '(fdesc, n) := sys_socket n in
  if fdesc <? 0 then Ret (false, n)
  else
    let '(rc, errno, n) := sys_connect n fdesc (value (be_ip backend)) (be_probe_port backend) in
    let! '(healthy, n) :=
      if rc =? 0 then Ret (true, n)
      else if errno =? EINPROGRESS then WaitForConnect n fdesc
      else Ret (false, n) in
    Ret (healthy, sys_close n fdesc).

(** The constructor: every backend of the configuration, unknown. *)
Definition HealthChecker_new (cfg : Config) : list BackendState :=
  (fun b => mkBackendState b kUnknown 0 0 0) <$> backends cfg.

(** [system_clock::now()] since the epoch, in nanoseconds. *)
Definition NowNs (n : net) : Z := u64 (clock_ns n).

(** The body of the loop over the snapshot. *)
Definition check_backend (n : net) (state : BackendState) : outcome (BackendState * net) :=
  let! '(healthy, n) := Probe n (info state) in
  Ret (mkBackendState (info state) (if healthy then kUp else kDown)
     (if healthy : bool then fail_count state else u32 (fail_count state + 1))
     (if healthy : bool then u32 (success_count state + 1) else success_count state)
     (NowNs n), n).

(** One pass of [RunLoop]: the new [states_]. *)
Fixpoint health_pass (n : net) (states : list BackendState) : outcome (list BackendState * net) :=
  match states with
  | [] => Ret ([], n)
  | state :: states =>
      let! '(state, n) := check_backend n state in
      let! '(states, n) := health_pass n states in
      Ret (state :: states, n)
  end.

(** [RunLoop]: [rounds] is the number of times [running_] was still set. *)
Fixpoint RunLoop (rounds : nat) (n : net) (states : list BackendState) : outcome (list BackendState * net) :=
  match rounds with
  | O => Ret (states, n)
  | S rounds => let! '(states, n) := health_pass n states in RunLoop rounds n states
  end.

End Health.

(** ** [StatsAggregator] *)

Record AggregatedStats := mkAggregatedStats {
  rx_pps : Z;
  tx_pps : Z;
  dropped_pps : Z;
  new_flows_ps : Z;
  agg_active_flows : Z;
  agg_backend_flows : list Z;
}.

Record Snapshot := mkSnapshot { sn_rx : Z; sn_tx : Z; sn_dropped : Z; sn_new_flows : Z }.

Definition Snapshot_zero : Snapshot := mkSnapshot 0 0 0 0.

(** The inner loop over the backends. *)
Definition add_flows (acc flows : list Z) : list Z := zip_with (fun a b => u64 (a + b)) acc flows.

(** The loop over the lcores, from [lcore]: the sums so far. The counters are
    those the relaxed loads gave. *)
Fixpoint sum_lcores (n lcore : nat) (view : StatsView) (current : Snapshot) (active : Z) (flows : list Z)
  : outcome (Snapshot * Z * list Z) :=
  match n with
  | O => Ret (current, active, flows)
  | S n =>
      let! s := at_ (lcores view) lcore in
      sum_lcores n (S lcore) view
        (mkSnapshot (u64 (sn_rx current + rx_packets s)) (u64 (sn_tx current + tx_packets s))
           (u64 (sn_dropped current + dropped s)) (u64 (sn_new_flows current + new_flows s)))
        (u64 (active + active_flows s)) (add_flows flows (backend_flows s))
  end.

(** [Tick]: the statistics and the new [prev_]. *)
Definition Tick (view : StatsView) (n_lcores : nat) (prev : Snapshot) : outcome (AggregatedStats * Snapshot) :=
  let! '(current, active, flows) := sum_lcores n_lcores 0 view Snapshot_zero 0 (replicate kMaxBackends 0) in
  Ret (mkAggregatedStats (u64 (sn_rx current - sn_rx prev)) (u64 (sn_tx current - sn_tx prev))
     (u64 (sn_dropped current - sn_dropped prev)) (u64 (sn_new_flows current - sn_new_flows prev)) active flows,
   current).

(** ** [MonitorComponent] *)

Record Monitor := mkMonitor {
  mo_control : option ControlView;
  mo_published : list Z;
  mo_prev : Snapshot;
  mo_latest : AggregatedStats;
}.

Definition enabled_flag (s : BackendState) : Z := if decide (status s = kUp) then 1 else 0.

(** [MonitorComponent::PublishControl]. *)
Definition MonitorPublish (m : Monitor) (states : list BackendState) : outcome Monitor :=
  match mo_control m with
  | None => Ret m
  | Some control =>
      let enabled := enabled_flag <$> states in
      if decide (enabled = mo_published m) then Ret m
      else
        let entries := (fun s => control_entry (info s) (enabled_flag s)) <$> states in
        let! control := Control.PublishControl control entries (u32 (Z.of_nat (length entries))) in
        Ret (mkMonitor (Some control) enabled (mo_prev m) (mo_latest m))
  end.

(** The flows of backend [i]: none beyond the array. *)
Definition flows_of (stats : AggregatedStats) (i : nat) : Z := default 0 (agg_backend_flows stats !! i).

(** The body [WriteMetrics] posts, in the line protocol. *)
Definition backend_line (stats : AggregatedStats) (i : nat) (s : BackendState) : string :=
  "cerebellum_backend,addr=" ++ ToString (be_ip (info s)) ++ ":" ++ format_unsigned (be_port (info s)) ++
  " flows=" ++ format_unsigned (flows_of stats i) ++ "i,up=" ++ format_unsigned (enabled_flag s) ++ "i
".

Fixpoint backend_lines (stats : AggregatedStats) (i : nat) (states : list BackendState) : string :=
  match states with
  | [] => ""
  | s :: states => backend_line stats i s ++ backend_lines stats (S i) states
  end.

Definition MetricsBody (stats : AggregatedStats) (states : list BackendState) : string :=
  "cerebellum_stats rx_pps=" ++ format_unsigned (rx_pps stats) ++ ",tx_pps=" ++ format_unsigned (tx_pps stats) ++
  ",dropped_pps=" ++ format_unsigned (dropped_pps stats) ++ ",new_flows_ps=" ++ format_unsigned (new_flows_ps stats) ++
  ",active_flows=" ++ format_unsigned (agg_active_flows stats) ++ "
" ++ backend_lines stats 0 states.

(** [WriteMetrics]: what is posted, if anything; a failed post is ignored. *)
Definition WriteMetrics (tsdb_url : string) (stats : AggregatedStats) (states : list BackendState)
  : option (string * string) :=
  if String.eqb tsdb_url "" then None
  else Some (tsdb_url ++ "/write", MetricsBody stats states).

(** The periodic task. [PublishControl] and [WriteMetrics] take a copy of the
    health states each. *)
Definition monitor_poll (tsdb_url : string) (view : StatsView) (states states2 : list BackendState) (m : Monitor)
  : outcome (Monitor * option (string * string)) :=
  let! '(agg, prev) := Tick view kMaxLcores (mo_prev m) in
  let m := mkMonitor (mo_control m) (mo_published m) prev agg in
  let! m := MonitorPublish m states in
  Ret (m, WriteMetrics tsdb_url agg states2).

(** ** The HTTP handlers *)

Inductive Json :=
  | JNum (n : Z)
  | JStr (s : string)
  | JObj (fields : list (string * Json))
  | JArr (items : list Json).

Definition StatusName (s : HealthStatus) : string :=
  match s with
  | kUp => "up"
  | kDown => "down"
  | kDraining => "draining"
  | kUnknown => "unknown"
  end.

Definition kNsPerMs : Z := 1000000.

(** [StatsHandler::HandleRequestThrow]. *)
Definition StatsBody (connected : bool) (stats : AggregatedStats) : Json :=
  JObj [("dataplane", JStr (if connected then "connected" else "detached"));
        ("rx_pps", JNum (rx_pps stats)); ("tx_pps", JNum (tx_pps stats));
        ("dropped_pps", JNum (dropped_pps stats)); ("new_flows_ps", JNum (new_flows_ps stats));
        ("active_flows", JNum (agg_active_flows stats))].

(** One entry of [BackendsHandler::HandleRequestThrow]. *)
Definition backend_entry (now_ms : Z) (stats : AggregatedStats) (i : nat) (s : BackendState) : Json :=
  let last_ms := last_check_ns s / kNsPerMs in
  let age_ms := if last_ms <? now_ms then now_ms - last_ms else 0 in
  JObj [("ip", JStr (ToString (be_ip (info s)))); ("port", JNum (be_port (info s)));
        ("status", JStr (StatusName (status s))); ("fail_count", JNum (fail_count s));
        ("last_check_ms", JNum age_ms); ("flows", JNum (flows_of stats i))].

Definition BackendsBody (cfg : Config) (now_ms : Z) (stats : AggregatedStats) (states : list BackendState) : Json :=
  JObj [("vip", JStr (ToString (vip cfg))); ("vip_port", JNum (vip_port cfg));
        ("backends", JArr (imap (backend_entry now_ms stats) states))].
