(* ===== verification/ControlSpec.v ===== *)
(** * From health checks to the backend pool

    What is published is what is read; the pool the dataplane builds has the
    backends of the configuration at their index, with exactly those enabled that
    the last health pass found up. *)

From S2P Require Import Prelude FlowKey NetTypes PortPool BackendPool NatTable NatTableFacts NatTableSpec Ipc.
From S2P Require Import PacketMeta LbNode LbFacts LbSpec Graph Packet Nodes NodeFacts Control ControlPlane.

(** ** The channel *)

Lemma copy_backends_spec n i src dst :
  (i + n <= length src)%nat -> (i + n <= length dst)%nat ->
  copy_backends n i src dst = Ret (take i dst ++ take n (drop i src) ++ drop (i + n) dst).
Proof.
  revert i dst. induction n as [|n IH]; intros i dst Hs Hd; cbn [copy_backends].
  { simpl. now rewrite Nat.add_0_r, take_drop. }
  destruct (lookup_lt_is_Some_2 src i) as [x Hx]; [lia|]. rewrite (proj2 (at_Ret _ _ x)) by done. cbn [obind].
  destruct (lookup_lt_is_Some_2 dst i) as [y Hy]; [lia|]. unfold set_at. rewrite Hy. cbn [obind].
  rewrite IH by (rewrite ?length_insert; lia). f_equal.
  rewrite (take_S_r _ _ x) by (apply list_lookup_insert_eq; lia). rewrite take_insert_ge by lia.
  rewrite <- app_assoc. f_equal. rewrite (drop_S src x i Hx). simpl. f_equal. f_equal.
  rewrite drop_insert_lt by lia. f_equal. lia.
Qed.

(** A view the channel can use: the array has its size, no publish is under way. *)
Definition view_ok (v : ControlView) : Prop :=
  length (cv_backends v) = kMaxBackends /\ 0 <= cv_seq v < 2 ^ 32 /\ Z.land (cv_seq v) 1 = 0.

Lemma land_1_mod z : Z.land z 1 = z mod 2.
Proof. change 1 with (Z.ones 1). rewrite Z.land_ones by lia. done. Qed.

Lemma u32_even z : Z.land z 1 = 0 -> Z.land (u32 (z + 2)) 1 = 0.
Proof.
  rewrite !land_1_mod. unfold u32. intros Hz. rewrite Z.mod_mod_divide by (exists (2 ^ 31); done).
  rewrite <- Zplus_mod_idemp_l, Hz. done.
Qed.

Lemma u32_odd z : Z.land z 1 = 1 -> Z.land (u32 (z + 2)) 1 = 1.
Proof.
  rewrite !land_1_mod. unfold u32. intros Hz. rewrite Z.mod_mod_divide by (exists (2 ^ 31); done).
  rewrite <- Zplus_mod_idemp_l, Hz. done.
Qed.

(** How many entries are published. *)
Definition published_count (src : list ControlBackend) : nat := Nat.min (length src) kMaxBackends.

Lemma PublishControl_spec v src :
  view_ok v -> Z.of_nat (length src) < 2 ^ 32 ->
  exists v', PublishControl v src (u32 (Z.of_nat (length src))) = Ret v' /\ view_ok v' /\
    cv_seq v' = u32 (cv_seq v + 2) /\ cv_count v' = Z.of_nat (published_count src) /\
    cv_header v' = cv_header v /\
    take (published_count src) (cv_backends v') = take (published_count src) src.
Proof.
  intros (Hl & Hs & He) Hsrc. unfold PublishControl. cbn [cv_count set_count cv_backends set_seq].
  rewrite u32_small by lia.
  replace (Z.min (Z.of_nat (length src)) (Z.of_nat kMaxBackends)) with (Z.of_nat (published_count src))
    by (unfold published_count; lia).
  rewrite Nat2Z.id, copy_backends_spec by (unfold published_count; lia). cbn [obind].
  rewrite take_0, drop_0, app_nil_l, Nat.add_0_l.
  eexists. split; [done|]. unfold view_ok. cbn [cv_seq cv_count cv_header cv_backends set_seq set_count set_backends].
  split_and!; try done.
  - rewrite length_app, length_take, length_drop. unfold published_count. lia.
  - apply u32_range.
  - apply u32_range.
  - now apply u32_even.
  - rewrite take_app_length' by (rewrite length_take; unfold published_count; lia). done.
Qed.

Lemma ReadControl_spec fuel v out :
  view_ok v -> length out = kMaxBackends -> 0 <= cv_count v <= Z.of_nat kMaxBackends ->
  let k := Z.to_nat (cv_count v) in
  ReadControl (S fuel) v out = Ret (cv_seq v, take k (cv_backends v) ++ drop k out, cv_count v).
Proof.
  intros (Hl & Hs & He) Ho Hc k. cbn [ReadControl]. rewrite He. cbn [Z.eqb negb].
  replace (Z.min (cv_count v) (Z.of_nat kMaxBackends)) with (cv_count v) by lia.
  rewrite copy_backends_spec by (subst k; lia). cbn [obind]. rewrite Z.eqb_refl, take_0, drop_0. done.
Qed.

(** A publisher that stopped between its two stores of [seq] leaves an odd number, and
    [ReadControl] then never returns. *)
Lemma ReadControl_odd fuel v out : Z.land (cv_seq v) 1 = 1 -> ReadControl fuel v out = OutOfFuel.
Proof. intros Ho. induction fuel as [|fuel IH]; [done|]. cbn [ReadControl]. now rewrite Ho. Qed.

(** ** The pool built from a snapshot *)

Lemma collect_slots_spec n i src slots enabled :
  (i + n <= length src)%nat ->
  collect_slots n i src slots enabled =
    Ret (slots ++ (backend_of <$> take n (drop i src)), enabled ++ (cb_enabled <$> take n (drop i src))).
Proof.
  revert i slots enabled. induction n as [|n IH]; intros i slots enabled Hl; cbn [collect_slots].
  { simpl. now rewrite !app_nil_r. }
  destruct (lookup_lt_is_Some_2 src i) as [x Hx]; [lia|]. rewrite (proj2 (at_Ret _ _ x)) by done. cbn [obind].
  rewrite IH by lia. rewrite (drop_S src x i Hx). unfold push_back. simpl. now rewrite <- !app_assoc.
Qed.

(** The pool for the entries [l]. *)
Definition pool_of (l : list ControlBackend) : BackendPool :=
  mkBackendPool (backend_of <$> l) (active_spec (Some (cb_enabled <$> l)) (Z.of_nat (length l))).

Lemma BuildPool_spec fuel src k :
  (k <= length src)%nat -> (k <= kMaxBackends)%nat -> (255 <= fuel)%nat ->
  BuildPool fuel src (Z.of_nat k) = Ret (pool_of (take k src)).
Proof.
  intros Hk Hm Hf. unfold BuildPool. rewrite Nat2Z.id, collect_slots_spec by lia. cbn [obind app]. rewrite drop_0.
  rewrite BackendPool_enabled_ok; rewrite ?length_fmap, ?length_take; try (unfold kMaxBackends in *; lia).
  unfold pool_of. now rewrite length_take.
Qed.

Lemma pool_of_slot l i b : l !! i = Some b -> bp_slots (pool_of l) !! i = Some (backend_of b).
Proof. intros Hi. simpl. rewrite list_lookup_fmap, Hi. done. Qed.

Lemma pool_of_active l i b :
  l !! i = Some b -> Z.of_nat i ∈ bp_active (pool_of l) <-> cb_enabled b <> 0.
Proof.
  intros Hi. simpl. rewrite elem_of_active. apply lookup_lt_Some in Hi as Hlt.
  assert (E : enabled_at (Some (cb_enabled <$> l)) (Z.of_nat i) = negb (cb_enabled b =? 0)).
  { unfold enabled_at. now rewrite Nat2Z.id, list_lookup_fmap, Hi. }
  rewrite E, negb_true_iff, Z.eqb_neq. split; [tauto|]. intros; split; [lia|done].
Qed.

Lemma pool_of_ok l :
  (length l <= kMaxBackends)%nat -> Forall (fun b => MacAddr_wf (mkMacAddr (cb_mac b))) l -> pool_ok (pool_of l).
Proof.
  intros Hl Hm. split_and!.
  - pose proof (active_spec_wf (backend_of <$> l) (Some (cb_enabled <$> l))) as Hw. rewrite length_fmap in Hw.
    apply Hw. unfold kMaxBackends in Hl. lia.
  - simpl. now rewrite length_fmap.
  - simpl. apply Forall_fmap. exact Hm.
Qed.

(** A poll of an up-to-date view builds the pool of its entries. *)
Lemma control_poll_spec fuel v st :
  view_ok v -> 0 <= cv_count v <= Z.of_nat kMaxBackends -> length (cl_snapshot st) = kMaxBackends ->
  (255 <= fuel)%nat -> cv_seq v <> cl_applied st ->
  exists st', control_poll fuel v st = Ret st' /\ length (cl_snapshot st') = kMaxBackends /\
    cl_applied st' = cv_seq v /\
    Load (cl_pool st') = Some (pool_of (take (Z.to_nat (cv_count v)) (cv_backends v))).
Proof.
  intros Hv Hc Hl Hf Hne. unfold control_poll. destruct fuel as [|fuel]; [lia|].
  rewrite (ReadControl_spec fuel v (cl_snapshot st) Hv Hl Hc). cbn [obind].
  destruct (Z.eqb_spec (cv_seq v) (cl_applied st)); [done|]. cbn [negb].
  destruct Hv as (Hlb & _ & _). set (k := Z.to_nat (cv_count v)).
  assert (Hsnap : length (take k (cv_backends v) ++ drop k (cl_snapshot st)) = kMaxBackends)
    by (rewrite length_app, length_take, length_drop; subst k; lia).
  replace (cv_count v) with (Z.of_nat k) by (subst k; lia).
  rewrite (BuildPool_spec (S fuel)) by (subst k; lia). cbn [obind].
  eexists. split; [done|]. cbn [cl_snapshot cl_applied cl_pool Load Store ptr_]. split_and!; try done.
  rewrite take_app_length' by (rewrite length_take; subst k; lia). done.
Qed.

Lemma backend_of_entry b e :
  be_ip (backend_of (control_entry b e)) = be_ip b /\ be_mac (backend_of (control_entry b e)) = be_mac b /\
  be_port (backend_of (control_entry b e)) = be_port b.
Proof. destruct b as [[ip] [mac] port pp]. done. Qed.

(** The pool of published states: addresses kept, up means active. *)
Definition pool_follows (pool : BackendPool) (l : list (BackendInfo * bool)) : Prop :=
  length (bp_slots pool) = length l /\
  forall i b up, l !! i = Some (b, up) ->
    (exists s, bp_slots pool !! i = Some s /\ be_ip s = be_ip b /\ be_mac s = be_mac b /\ be_port s = be_port b) /\
    (Z.of_nat i ∈ bp_active pool <-> up = true).

Lemma pool_of_follows (l : list (BackendInfo * bool)) :
  pool_follows (pool_of ((fun x : BackendInfo * bool => control_entry x.1 (if x.2 then 1 else 0)) <$> l)) l.
Proof.
  split; [simpl; now rewrite !length_fmap|]. intros i b up Hi.
  assert (Hl : ((fun x : BackendInfo * bool => control_entry x.1 (if x.2 then 1 else 0)) <$> l) !! i =
    Some (control_entry b (if up then 1 else 0))) by (rewrite list_lookup_fmap, Hi; done).
  split.
  - eexists. split; [apply (pool_of_slot _ _ _ Hl)|]. apply backend_of_entry.
  - rewrite (pool_of_active _ _ _ Hl). simpl. destruct up; split; done.
Qed.

Definition up_states (states : list BackendState) : list (BackendInfo * bool) :=
  (fun s => (info s, bool_decide (status s = kUp))) <$> states.

Lemma entries_up states :
  (fun s => control_entry (info s) (enabled_flag s)) <$> states =
  (fun x : BackendInfo * bool => control_entry x.1 (if x.2 then 1 else 0)) <$> up_states states.
Proof.
  unfold up_states. rewrite <- list_fmap_compose. apply list_fmap_ext. intros i s _. simpl. unfold enabled_flag.
  f_equal. destruct (decide (status s = kUp)); [now rewrite bool_decide_eq_true_2|now rewrite bool_decide_eq_false_2].
Qed.

(** The monitor publishes, then the dataplane polls. *)
Lemma publish_then_poll fuel m v states st :
  mo_control m = Some v -> view_ok v -> (length states <= kMaxBackends)%nat ->
  enabled_flag <$> states <> mo_published m -> (255 <= fuel)%nat ->
  length (cl_snapshot st) = kMaxBackends -> cl_applied st = cv_seq v ->
  exists m' v' st' pool, MonitorPublish m states = Ret m' /\ mo_control m' = Some v' /\ view_ok v' /\
    mo_published m' = enabled_flag <$> states /\
    control_poll fuel v' st = Ret st' /\ cl_applied st' = cv_seq v' /\
    Load (cl_pool st') = Some pool /\ pool_follows pool (up_states states) /\
    pool = pool_of ((fun s => control_entry (info s) (enabled_flag s)) <$> states).
Proof.
  intros Hm Hv Hl Hne Hf Hsn Hap. unfold MonitorPublish. rewrite Hm, decide_False by done.
  set (entries := (fun s => control_entry (info s) (enabled_flag s)) <$> states).
  assert (Hle : length entries = length states) by (subst entries; now rewrite length_fmap).
  destruct (PublishControl_spec v entries Hv) as (v' & -> & Hv' & Hs & Hc & _ & Hb); [unfold kMaxBackends in *; lia|].
  assert (Hpc : published_count entries = length entries) by (unfold published_count; lia). rewrite Hpc in *.
  cbn [obind]. destruct (control_poll_spec fuel v' st Hv' ltac:(lia) Hsn Hf) as (st' & E & _ & Ha & Hp).
  { rewrite Hap, Hs. destruct Hv as (_ & Hr & _). unfold u32. intros E'.
    pose proof (Z.div_mod (cv_seq v + 2) (2 ^ 32) ltac:(lia)). lia. }
  eexists _, v', st', _. split; [done|]. split; [done|]. split; [done|]. split; [done|]. split; [exact E|].
  split; [done|]. split; [exact Hp|]. rewrite Hc, Nat2Z.id, Hb, firstn_all. split; [|done].
  subst entries. rewrite entries_up. apply pool_of_follows.
Qed.

(** ** Properties *)

(** What [PublishControl] publishes is what [ReadControl] returns: all the
    entries (the first 64 of them), their number, and an even sequence number that
    differs from the previous one. *)
Theorem publish_read_roundtrip fuel v src out :
  view_ok v -> Z.of_nat (length src) < 2 ^ 32 -> length out = kMaxBackends ->
  exists v' out' k, PublishControl v src (u32 (Z.of_nat (length src))) = Ret v' /\ view_ok v' /\
    ReadControl (S fuel) v' out = Ret (cv_seq v', out', Z.of_nat k) /\
    k = Nat.min (length src) kMaxBackends /\ take k out' = take k src /\ drop k out' = drop k out /\
    cv_seq v' = u32 (cv_seq v + 2) /\ cv_seq v' <> cv_seq v.
Proof.
  intros Hv Hsrc Ho. destruct (PublishControl_spec v src Hv Hsrc) as (v' & E & Hv' & Hs & Hc & _ & Hb).
  assert (Hk : (published_count src <= kMaxBackends)%nat) by (unfold published_count; lia).
  exists v', (take (published_count src) (cv_backends v') ++ drop (published_count src) out), (published_count src).
  split_and!; try done.
  - rewrite (ReadControl_spec fuel v' out Hv' Ho) by lia. now rewrite Hc, Nat2Z.id.
  - destruct Hv' as (Hl & _). rewrite take_app_length' by (rewrite length_take; lia). exact Hb.
  - destruct Hv' as (Hl & _). rewrite drop_app_length' by (rewrite length_take; lia). done.
  - rewrite Hs. destruct Hv as (_ & Hr & _). unfold u32. intros E'.
    pose proof (Z.div_mod (cv_seq v + 2) (2 ^ 32) ltac:(lia)). lia.
Qed.

(** A dataplane that finds its control segment as a publish cut short has left it
    never starts: seeding keeps the sequence number odd, and reading the view back
    spins for ever. *)
Theorem odd_segment_hangs fuel v cfg :
  length (cv_backends v) = kMaxBackends -> Z.land (cv_seq v) 1 = 1 -> Z.of_nat (length (backends cfg)) < 2 ^ 32 ->
  StartControl fuel v cfg = OutOfFuel.
Proof.
  intros Hl Ho Hn. unfold StartControl, SeedControl, PublishControl. cbn [cv_count set_count cv_backends set_seq].
  rewrite length_fmap, u32_small by lia.
  rewrite copy_backends_spec by (rewrite ?length_fmap; lia). cbn [obind].
  rewrite ReadControl_odd; [done|]. cbn [cv_seq set_seq]. now apply u32_odd.
Qed.

(** The pool the dataplane starts with has the backends of the configuration
    (the first 64) at their index, all enabled, and meets what the load balancer
    expects of a pool whenever there is a backend at all. *)
Theorem start_pool_from_config fuel v cfg :
  view_ok v -> (255 <= fuel)%nat -> (1 <= length (backends cfg) <= kMaxBackends)%nat ->
  Forall BackendInfo_wf (backends cfg) ->
  exists v' st pool, StartControl fuel v cfg = Ret (v', st) /\ view_ok v' /\ cl_applied st = cv_seq v' /\
    Load (cl_pool st) = Some pool /\ usable pool /\
    pool_follows pool ((fun b => (b, true)) <$> backends cfg).
Proof.
  intros Hv Hf Hl Hwf. unfold StartControl, SeedControl.
  set (entries := (fun b => control_entry b 1) <$> backends cfg).
  assert (Hle : length entries = length (backends cfg)) by (subst entries; now rewrite length_fmap).
  destruct (PublishControl_spec v entries Hv) as (v' & -> & Hv' & Hs & Hc & _ & Hb); [unfold kMaxBackends in *; lia|].
  cbn [obind]. destruct fuel as [|fuel]; [lia|].
  assert (Hpc : published_count entries = length entries) by (unfold published_count; lia). rewrite Hpc in *.
  rewrite (ReadControl_spec fuel v' _ Hv') by (try apply length_replicate; rewrite Hc; lia). cbn [obind].
  destruct Hv' as (Hlb & Hv'). rewrite Hc, Nat2Z.id.
  rewrite (BuildPool_spec (S fuel)) by (rewrite ?length_app, ?length_take, ?length_drop, ?length_replicate; lia).
  cbn [obind]. eexists v', _, _. split; [done|]. split; [now split|]. split; [done|]. split; [done|].
  rewrite take_app_length' by (rewrite length_take; lia). rewrite Hb, firstn_all.
  assert (Hfol : pool_follows (pool_of entries) ((fun b => (b, true)) <$> backends cfg)).
  { pose proof (pool_of_follows ((fun b => (b, true)) <$> backends cfg)) as Hp.
    rewrite <- list_fmap_compose in Hp. exact Hp. }
  split; [|done]. destruct (backends cfg) as [|b0 bs] eqn:Eb; [simpl in Hl; lia|].
  destruct Hfol as [_ Hfol]. destruct (Hfol 0%nat b0 true eq_refl) as [_ [_ Hact]].
  assert (Hpo : pool_ok (pool_of entries)).
  { apply pool_of_ok; [lia|]. subst entries. apply Forall_fmap. eapply Forall_impl; [exact Hwf|].
    intros b (_ & Hm & _). destruct b as [ip [mac] p pp]. exact Hm. }
  destruct Hpo as (H1 & H2 & H3). split; [done|]. split; [done|]. split; [|done].
  intros Hn. rewrite Hn in Hact. specialize (Hact eq_refl). now apply elem_of_nil in Hact.
Qed.

(** C25: health reaches the dataplane: when the set of backends that are up has
    changed, the monitor publishes it, and the next poll of the dataplane installs
    a pool with every backend at its index, of which exactly those are active whose
    last probe succeeded. *)
Theorem health_reaches_pool fuel m v states st :
  mo_control m = Some v -> view_ok v -> (length states <= kMaxBackends)%nat ->
  enabled_flag <$> states <> mo_published m -> (255 <= fuel)%nat ->
  length (cl_snapshot st) = kMaxBackends -> cl_applied st = cv_seq v ->
  exists m' v' st' pool, MonitorPublish m states = Ret m' /\ mo_control m' = Some v' /\ view_ok v' /\
    mo_published m' = enabled_flag <$> states /\
    control_poll fuel v' st = Ret st' /\ cl_applied st' = cv_seq v' /\
    Load (cl_pool st') = Some pool /\ pool_follows pool (up_states states).
Proof.
  intros Hm Hv Hl Hne Hf Hsn Hap.
  destruct (publish_then_poll fuel m v states st) as (m' & v' & st' & pool & Hall); try done.
  exists m', v', st', pool. tauto.
Qed.

(** C40: if the first poll of a control plane that has just started comes before its
    health checker has stored the first pass, so that [States] still gives the unprobed
    initial states, it publishes every backend as disabled; and the dataplane, which had
    started with all of them enabled, is left with a pool that has no active backend. *)
Theorem first_publish_disables_all fuel cfg v prev latest st :
  view_ok v -> (1 <= length (backends cfg) <= kMaxBackends)%nat -> (255 <= fuel)%nat ->
  length (cl_snapshot st) = kMaxBackends -> cl_applied st = cv_seq v ->
  exists m' v' st' pool, MonitorPublish (mkMonitor (Some v) [] prev latest) (HealthChecker_new cfg) = Ret m' /\
    mo_control m' = Some v' /\ control_poll fuel v' st = Ret st' /\
    Load (cl_pool st') = Some pool /\ length (bp_slots pool) = length (backends cfg) /\ bp_active pool = [].
Proof.
  intros Hv Hl Hf Hsn Hap. set (states := HealthChecker_new cfg).
  assert (Hls : length states = length (backends cfg)) by (unfold states, HealthChecker_new; now rewrite length_fmap).
  destruct (publish_then_poll fuel (mkMonitor (Some v) [] prev latest) v states st)
    as (m' & v' & st' & pool & E1 & E2 & _ & _ & E3 & _ & E4 & [Hlen _] & Hpool); try done; try lia.
  { cbn [mo_published]. intros E. apply fmap_nil_inv in E. rewrite E in Hls. simpl in Hls. lia. }
  exists m', v', st', pool. split_and!; try done; [rewrite Hlen; unfold up_states; now rewrite length_fmap|].
  destruct (bp_active pool) as [|i l] eqn:Ea; [done|]. exfalso.
  assert (Hi : i ∈ bp_active pool) by (rewrite Ea; apply list_elem_of_here). rewrite Hpool in Hi. cbn [pool_of bp_active] in Hi.
  rewrite elem_of_active in Hi. destruct Hi as [Hr He]. unfold enabled_at in He.
  rewrite <- list_fmap_compose, list_lookup_fmap in He. destruct (states !! Z.to_nat i) as [s|] eqn:Es.
  - unfold states, HealthChecker_new in Es. rewrite list_lookup_fmap in Es.
    destruct (backends cfg !! Z.to_nat i); [|done]. simpl in Es. injection Es as <-. done.
  - apply lookup_ge_None in Es. rewrite length_fmap in Hr. lia.
Qed.

(** A monitor that has nothing new to say leaves the view alone, and a poll of
    an unchanged view keeps the pool. *)
Theorem unchanged_health_keeps_pool fuel m v states st :
  mo_control m = Some v -> view_ok v -> 0 <= cv_count v <= Z.of_nat kMaxBackends ->
  enabled_flag <$> states = mo_published m -> cl_applied st = cv_seq v ->
  length (cl_snapshot st) = kMaxBackends ->
  MonitorPublish m states = Ret m /\
  exists st', control_poll (S fuel) v st = Ret st' /\ cl_pool st' = cl_pool st /\ cl_applied st' = cl_applied st.
Proof.
  intros Hm Hv Hc He Ha Hl. split; [unfold MonitorPublish; now rewrite Hm, decide_True|].
  unfold control_poll. rewrite (ReadControl_spec fuel v (cl_snapshot st) Hv Hl Hc). cbn [obind].
  rewrite Ha, Z.eqb_refl. cbn [negb]. eauto.
Qed.
