(* ===== verification/System.v ===== *)
(** * All lcores of the dataplane at once ([dataplane/src/main.cpp])

    After the launch the worker lcores run [LcoreMain] side by side while the main
    lcore runs [RunControlLoop]. They share the device with its rings, the mbufs and
    the pointer to the backend pool; every worker lcore has its own graphs and its own
    load balancer. A step is one lcore draining one node ([drain_back]), testing
    [g_running] or building its graphs; one poll of the control loop; a publication
    by the control plane; the signal handler; or the NIC at work. Steps of different
    lcores follow each other in any order. [FineSteps] takes the drain of a node apart. *)

From S2P Require Import Prelude FlowKey NetTypes PortPool BackendPool NatTable Ipc PacketMeta LbNode Graph.
From S2P Require Import Packet Nodes Dataplane Control.

Section System.
Context `{BuildParams} `{Dpdk}.

(** A graph, the node its dispatcher starts at, and the dispatcher. *)
Record Engine := mkEngine { en_graph : Graph Lcore; en_root : Z; en_disp : Dispatcher }.

(** Where an lcore is: about to build its graphs, at the head of its loop, in the
    burst of its [j]-th graph, or back from [LcoreMain]. *)
Inductive Pc := PcStart | PcLoop | PcBurst (j : nat) | PcEnd.

#[export] Instance Pc_eq_dec : EqDecision Pc.
Proof. solve_decision. Defined.

Record Thread := mkThread {
  th_arg : LcoreArg;
  th_pc : Pc;
  th_engines : list Engine;
  th_lb : LbNode;
}.

(** The locals of [RunMono], [RunWorker] and [RunIo] before their loop. *)
Definition build_engines (fuel : nat) (cfg : Config) (arg : LcoreArg) (w : Lcore) : outcome (list Engine * Lcore) :=
  match role arg with
  | kMono =>
      let! '(root, g, w) := BuildMonolithicGraph fuel cfg arg Graph_empty w in
      Ret ([mkEngine g root (Dispatcher_new g)], w)
  | kWorker =>
      let! '(root, g, w) := BuildWorkerGraph fuel cfg arg Graph_empty w in
      Ret ([mkEngine g root (Dispatcher_new g)], w)
  | kIo =>
      let! '(rx_root, rx_graph) := BuildRxGraph cfg arg Graph_empty in
      let! '(tx_root, tx_graph) := BuildTxGraph arg Graph_empty in
      Ret ([mkEngine rx_graph rx_root (Dispatcher_new rx_graph); mkEngine tx_graph tx_root (Dispatcher_new tx_graph)], w)
  end.

Definition set_disp (en : Engine) (d : Dispatcher) : Engine := mkEngine (en_graph en) (en_root en) d.

(** [frame.Clear(); dispatcher.RunOnce(frame)], up to the loop of [RunOnce]. *)
Definition begin_burst (th : Thread) (j : nat) : outcome Thread :=
  let! en := at_ (th_engines th) j in
  let! d := seed_root (en_disp en) (en_root en) (Clear Frame_new) in
  Ret (mkThread (th_arg th) (PcBurst j) (<[j := set_disp en d]> (th_engines th)) (th_lb th)).

(** The next step of an lcore; [running] is what it reads from [g_running]. *)
Definition thread_step (fuel : nat) (cfg : Config) (running : bool) (th : Thread) (w : Lcore)
  : outcome (Thread * Lcore) :=
  match th_pc th with
  | PcStart =>
      let! '(engines, w) := build_engines fuel cfg (th_arg th) w in
      Ret (mkThread (th_arg th) PcLoop engines (w_lb w), w)
  | PcLoop =>
      if running then let! th := begin_burst th 0 in Ret (th, w)
      else Ret (mkThread (th_arg th) PcEnd (th_engines th) (th_lb th), w)
  | PcBurst j =>
      let! en := at_ (th_engines th) j in
      match back (queue_ (en_disp en)) with
      | Some node_id =>
          let! '(d, w) := drain_back (en_graph en) (en_disp en) w node_id in
          Ret (mkThread (th_arg th) (PcBurst j) (<[j := set_disp en d]> (th_engines th)) (w_lb w), w)
      | None =>
          if (S j <? length (th_engines th))%nat then let! th := begin_burst th (S j) in Ret (th, w)
          else Ret (mkThread (th_arg th) PcLoop (th_engines th) (th_lb th), w)
      end
  | PcEnd => Ret (th, w)
  end.

(** ** The process *)

Record System := mkSystem {
  y_dev : dev;
  y_mem : mbuf_ptr -> Mbuf;
  y_running : bool;
  y_threads : list Thread;
  y_view : ControlView;
  y_loop : ControlLoop;
}.

(** What lcore [th] sees. *)
Definition world_of (y : System) (th : Thread) : Lcore :=
  mkLcore (y_dev y) (y_mem y) (th_lb th) (cl_pool (y_loop y)).

(** After a step of lcore [i]; no node stores into the shared pool pointer. *)
Definition set_thread (y : System) (i : nat) (th : Thread) (w : Lcore) : System :=
  mkSystem (w_dev w) (w_mem w) (y_running y) (<[i := th]> (y_threads y)) (y_view y) (y_loop y).

(** The steps of the worker lcores. *)
Inductive lcore_step (fuel : nat) (cfg : Config) (i : nat) (y : System) : System -> Prop :=
  | LcoreStep th th' w' :
      y_threads y !! i = Some th -> th_pc th <> PcEnd ->
      thread_step fuel cfg (y_running y) th (world_of y th) = Ret (th', w') ->
      lcore_step fuel cfg i y (set_thread y i th' w').

(** An entry the control plane may publish. *)
Definition entry_ok (b : ControlBackend) : Prop := MacAddr_wf (mkMacAddr (cb_mac b)).

(** What else happens: the NIC and the clock, [OnSignal], the main lcore, the
    control plane. *)
Inductive other_step (fuel : nat) (y : System) : System -> Prop :=
  | DeviceStep d :
      in_dev d ≡ₚ in_dev (y_dev y) ->
      other_step fuel y (mkSystem d (y_mem y) (y_running y) (y_threads y) (y_view y) (y_loop y))
  | SignalStep :
      other_step fuel y (mkSystem (y_dev y) (y_mem y) false (y_threads y) (y_view y) (y_loop y))
  | PollStep loop :
      y_running y = true -> control_poll fuel (y_view y) (y_loop y) = Ret loop ->
      other_step fuel y (mkSystem (y_dev y) (y_mem y) (y_running y) (y_threads y) (y_view y) loop)
  | PublishStep src view :
      Forall entry_ok src -> Z.of_nat (length src) < 2 ^ 32 ->
      PublishControl (y_view y) src (u32 (Z.of_nat (length src))) = Ret view ->
      other_step fuel y (mkSystem (y_dev y) (y_mem y) (y_running y) (y_threads y) view (y_loop y)).

Inductive sys_step (fuel : nat) (cfg : Config) (y y' : System) : Prop :=
  | SysLcore i : lcore_step fuel cfg i y y' -> sys_step fuel cfg y y'
  | SysOther : other_step fuel y y' -> sys_step fuel cfg y y'.

(** The process when the last lcore has been launched; the counters of the lcores are
    those of the statistics segment. *)
Definition launched (d : dev) (mem : mbuf_ptr -> Mbuf) (view : ControlView) (loop : ControlLoop)
    (args : list LcoreArg) (stats : list LcoreStats) : System :=
  mkSystem d mem true (zip_with (fun arg s => mkThread arg PcStart [] (no_lb s)) args stats) view loop.

End System.
