(* ===== verification/DeviceUse.v ===== *)
(** * Which lcore uses which ring and queue

    The graphs of an lcore reach the device only by calls on the rings and the port its
    role gives it: a fact about every step of every lcore, in any interleaving. *)

From S2P Require Import Prelude FlowKey NetTypes PortPool BackendPool NatTable Ipc PacketMeta LbNode Graph.
From S2P Require Import Packet Nodes Dataplane DataplaneSpec Control System.

(** ** What an lcore may use *)

(** The rings the graphs of an lcore send to: steering and ARP in [BuildRxGraph], the
    egress node in [BuildWorkerGraph]. *)
Definition enqueues (arg : LcoreArg) : list nat :=
  match role arg with
  | kMono => []
  | kIo => worker_rings arg ++ option_list (egress arg)
  | kWorker => option_list (egress arg)
  end.

(** The rings they receive from: [BuildTxGraph], [BuildWorkerGraph]. *)
Definition dequeues (arg : LcoreArg) : list nat :=
  match role arg with
  | kMono => []
  | kIo => option_list (egress arg)
  | kWorker => option_list (ingress arg)
  end.

(** Whether they have an [RxNode] and a [TxNode] of the port. *)
Definition polls_port (arg : LcoreArg) : bool :=
  match role arg with
  | kWorker => false
  | _ => true
  end.

(** ** Engines and a relation their nodes keep *)

Section Engine.
Context {W : Type} (R : W -> W -> Prop) `{!PreOrder R}.

Definition node_keeps (node : Node W) : Prop :=
  forall w f nexts w' f' nexts', Process node w f nexts = Ret (w', f', nexts') -> R w w'.

Lemma RunNode_keeps g d w id frame d' w' :
  Forall node_keeps (nodes_ g) -> RunNode g d w id frame = Ret (d', w') -> R w w'.
Proof.
  intros Hn E. unfold RunNode in E. destruct (Fanout g id) as [fanout|e| |]; cbn [obind] in E; try done.
  destruct (_ <? _)%nat; [done|]. destruct (GetNode g id) as [node|e| |] eqn:En; cbn [obind] in E; try done.
  apply at_Ret in En. apply (Forall_lookup_1 _ _ _ _ Hn) in En.
  destruct (at_ _ frame) as [f|e| |]; cbn [obind] in E; try done.
  destruct (Process node w f _) as [[[w1 f1] nexts1]|e| |] eqn:Ep; cbn [obind] in E; try done. apply En in Ep.
  destruct (route_outs _ _ _ _) as [d1|e| |]; cbn [obind] in E; try done. now injection E as _ <-.
Qed.

Lemma drain_loop_keeps g id frames : forall d w d' w',
  Forall node_keeps (nodes_ g) -> drain_loop g id frames d w = Ret (d', w') -> R w w'.
Proof.
  induction frames as [|frame frames IH]; intros d w d' w' Hn E; cbn [drain_loop] in E; [injection E as _ <-; reflexivity|].
  destruct (RunNode g d w id frame) as [[d1 w1]|e| |] eqn:E1; cbn [obind] in E; try done.
  destruct (FRelease _ _) as [p|e| |]; cbn [obind] in E; try done.
  transitivity w1; [exact (RunNode_keeps _ _ _ _ _ _ _ Hn E1)|exact (IH _ _ _ _ Hn E)].
Qed.

Lemma drain_back_keeps g d w id d' w' :
  Forall node_keeps (nodes_ g) -> drain_back g d w id = Ret (d', w') -> R w w'.
Proof.
  intros Hn E. unfold drain_back, DrainNode in E. destruct (set_at _ _ _) as [l|e| |]; cbn [obind] in E; try done.
  destruct (at_ _ _) as [frames|e| |]; cbn [obind] in E; try done. exact (drain_loop_keeps _ _ _ _ _ _ _ Hn E).
Qed.

End Engine.

Section Use.
Context `{BuildParams} `{Dpdk}.

(** ** The nodes of an lcore *)

(** The nodes that the graphs of an lcore are made of. *)
Inductive node_of (cfg : Config) (arg : LcoreArg) : Node Lcore -> Prop :=
  | of_rx : polls_port arg = true -> node_of cfg arg (RxNode (port_id arg) 0)
  | of_tx : polls_port arg = true -> node_of cfg arg (TxNode (port_id arg) 0)
  | of_ring_rx r : r ∈ dequeues arg -> node_of cfg arg (RingRxNode r)
  | of_ring_tx r : r ∈ enqueues arg -> node_of cfg arg (RingTxNode r)
  | of_steer rings n : (forall r, r ∈ rings -> r ∈ enqueues arg) -> node_of cfg arg (SteerNode cfg rings n)
  | of_drop : node_of cfg arg DropNode
  | of_lb : node_of cfg arg LbNode_node
  | of_parse : node_of cfg arg (Ip4ParseNode cfg)
  | of_dnat : node_of cfg arg (DnatNode cfg)
  | of_ether : node_of cfg arg (EtherRewriteNode cfg)
  | of_arp : node_of cfg arg (ArpNode cfg).

Create HintDb nodes.
#[local] Hint Constructors node_of : nodes.

Definition engines_of (cfg : Config) (arg : LcoreArg) (engines : list Engine) : Prop :=
  Forall (fun en => Forall (node_of cfg arg) (nodes_ (en_graph en))) engines.

Ltac all_nodes := cbn [nodes_]; repeat apply List.Forall_cons; try apply List.Forall_nil; auto with nodes.

Lemma mono_graph_nodes cfg arg : role arg = kMono -> Forall (node_of cfg arg) (nodes_ (mono_graph cfg (port_id arg))).
Proof.
  intros Hr. assert (Hp : polls_port arg = true) by (unfold polls_port; now rewrite Hr). unfold mono_graph. all_nodes.
Qed.

Lemma worker_graph_nodes cfg arg i e :
  role arg = kWorker -> ingress arg = Some i -> egress arg = Some e -> Forall (node_of cfg arg) (nodes_ (worker_graph cfg i e)).
Proof.
  intros Hr Hi He.
  assert (Hin : i ∈ dequeues arg) by (unfold dequeues; rewrite Hr, Hi; apply list_elem_of_here).
  assert (Hout : e ∈ enqueues arg) by (unfold enqueues; rewrite Hr, He; apply list_elem_of_here).
  unfold worker_graph. all_nodes.
Qed.

Lemma io_graphs_nodes cfg arg e :
  role arg = kIo -> egress arg = Some e ->
  Forall (node_of cfg arg) (nodes_ (rx_graph cfg (port_id arg) (worker_rings arg) (n_workers arg) e)) /\
  Forall (node_of cfg arg) (nodes_ (tx_graph (port_id arg) e)).
Proof.
  intros Hr He. assert (Hp : polls_port arg = true) by (unfold polls_port; now rewrite Hr).
  assert (Hin : e ∈ dequeues arg) by (unfold dequeues; rewrite Hr, He; apply list_elem_of_here).
  assert (Hout : e ∈ enqueues arg) by (unfold enqueues; rewrite Hr, He; apply elem_of_app; right; apply list_elem_of_here).
  assert (Hrings : forall r, r ∈ worker_rings arg -> r ∈ enqueues arg).
  { intros r Hin'. unfold enqueues. rewrite Hr. apply elem_of_app. now left. }
  unfold rx_graph, tx_graph. split; all_nodes.
Qed.

(** Building the graphs creates the load balancer; its counters are those there were, and
    its table is the one there was or a new one. *)
Definition same_but_lb (w w' : Lcore) : Prop :=
  w_dev w' = w_dev w /\ w_mem w' = w_mem w /\ w_pool w' = w_pool w /\ stats_ (w_lb w') = stats_ (w_lb w) /\
  (nat_ (w_lb w') = nat_ (w_lb w) \/ exists timeout, nat_ (w_lb w') = NatTable_new timeout).

Lemma LbNode_new_fresh fuel cfg stats i n lb :
  LbNode_new fuel cfg stats i n = Ret lb -> stats_ lb = stats /\ exists timeout, nat_ lb = NatTable_new timeout.
Proof. unfold LbNode_new. destruct (ForWorker _ _ _ _ _); cbn [obind]; try done. intros [= <-]. eauto. Qed.

Lemma build_engines_nodes fuel cfg arg w engines w' :
  build_engines fuel cfg arg w = Ret (engines, w') -> engines_of cfg arg engines /\ same_but_lb w w'.
Proof.
  unfold build_engines, engines_of. destruct (role arg) eqn:Er; intros E.
  - destruct (LbNode_new fuel cfg (stats_ (w_lb w)) 0 1) as [lb|e| |] eqn:El.
    2-4: unfold BuildMonolithicGraph, AddLbNode in E; rewrite El in E; discriminate E.
    rewrite (BuildMonolithicGraph_eq _ _ _ _ _ El) in E. cbn [obind] in E. injection E as <- <-.
    split; [|apply LbNode_new_fresh in El as []; split_and!; try done; by right].
    apply List.Forall_cons; [exact (mono_graph_nodes cfg arg Er)|constructor].
  - destruct (egress arg) as [e|] eqn:Ee; cycle 1.
    { unfold BuildRxGraph in E. rewrite Ee in E. discriminate E. }
    rewrite (BuildRxGraph_eq _ _ _ Ee), (BuildTxGraph_eq _ _ Ee) in E. cbn [obind] in E. injection E as <- <-. split; [|split_and!; try done; by left].
    destruct (io_graphs_nodes cfg arg e Er Ee). repeat (apply List.Forall_cons; [done|]). constructor.
  - destruct (ingress arg) as [i|] eqn:Ei; [|unfold BuildWorkerGraph in E; rewrite Ei in E; discriminate E].
    destruct (LbNode_new fuel cfg (stats_ (w_lb w)) (worker_id arg) (u16 (n_workers arg))) as [lb|e| |] eqn:El.
    2-4: unfold BuildWorkerGraph, AddLbNode in E; rewrite Ei in E; cbn [deref obind] in E; rewrite El in E; discriminate E.
    destruct (egress arg) as [e|] eqn:Ee; cycle 1.
    { unfold BuildWorkerGraph, AddLbNode in E. rewrite Ei, Ee in E. cbn [deref obind] in E. rewrite El in E. discriminate E. }
    rewrite (BuildWorkerGraph_eq _ _ _ _ _ _ _ Ei Ee El) in E. cbn [obind] in E. injection E as <- <-.
    split; [|apply LbNode_new_fresh in El as []; split_and!; try done; by right].
    apply List.Forall_cons; [exact (worker_graph_nodes cfg arg i e Er Ei Ee)|constructor].
Qed.

Lemma begin_burst_nodes cfg th j th' :
  engines_of cfg (th_arg th) (th_engines th) -> begin_burst th j = Ret th' ->
  th_arg th' = th_arg th /\ engines_of cfg (th_arg th) (th_engines th') /\ th_lb th' = th_lb th.
Proof.
  intros Hu E. unfold begin_burst in E. destruct (at_ (th_engines th) j) as [en|e| |] eqn:Ea; cbn [obind] in E; try done.
  destruct (seed_root _ _ _) as [d|e| |]; cbn [obind] in E; try done. injection E as <-. cbn. split; [done|]. split; [|done].
  apply Forall_insert; [done|]. apply at_Ret in Ea. exact (Forall_lookup_1 _ _ _ _ Hu Ea).
Qed.

(** Every lcore has its argument, and graphs of its nodes. *)
Definition system_nodes (cfg : Config) (args : list LcoreArg) (y : System) : Prop :=
  forall i th, y_threads y !! i = Some th -> args !! i = Some (th_arg th) /\ engines_of cfg (th_arg th) (th_engines th).

Lemma launched_nodes cfg d mem view loop args stats : system_nodes cfg args (launched d mem view loop args stats).
Proof.
  intros i th Hi. cbn in Hi. rewrite lookup_zip_with in Hi. destruct (args !! i) as [arg|]; [|done]. cbn in Hi.
  destruct (stats !! i) as [s|]; [|done]. injection Hi as <-. split; [done|constructor].
Qed.

(** ** A relation that every node keeps is kept by every step *)

Section Steps.
Context (R : LcoreArg -> Lcore -> Lcore -> Prop) `{!forall arg, PreOrder (R arg)}.
Context (R_nodes : forall cfg arg node, node_of cfg arg node -> node_keeps (R arg) node).
Context (R_build : forall arg w w', same_but_lb w w' -> R arg w w').

Lemma thread_step_keeps fuel cfg running th w th' w' :
  engines_of cfg (th_arg th) (th_engines th) -> w_lb w = th_lb th -> thread_step fuel cfg running th w = Ret (th', w') ->
  th_arg th' = th_arg th /\ engines_of cfg (th_arg th) (th_engines th') /\ R (th_arg th) w w' /\ th_lb th' = w_lb w'.
Proof using Type*.
  intros Hu Hlb E. unfold thread_step in E. destruct (th_pc th) as [| |j|].
  - destruct (build_engines fuel cfg (th_arg th) w) as [[engines w1]|e| |] eqn:Eb; cbn [obind] in E; try done.
    apply build_engines_nodes in Eb as [He Hw]. injection E as <- <-. split_and!; [done|exact He|now apply R_build|done].
  - destruct running; [|injection E as <- <-; split_and!; [done|exact Hu|reflexivity|done]].
    destruct (begin_burst th 0) as [th1|e| |] eqn:Eb; cbn [obind] in E; try done. injection E as <- <-.
    apply (begin_burst_nodes cfg) in Eb as (? & ? & ?); [|done]. split_and!; [done|done|reflexivity|congruence].
  - destruct (at_ (th_engines th) j) as [en|e| |] eqn:Ea; cbn [obind] in E; try done. apply at_Ret in Ea.
    destruct (back (queue_ (en_disp en))) as [id|].
    + destruct (drain_back _ _ _ _) as [[d w1]|e| |] eqn:Ed; cbn [obind] in E; try done. injection E as <- <-. cbn.
      pose proof (Forall_lookup_1 _ _ _ _ Hu Ea) as Hen. split; [done|]. split; [now apply Forall_insert|]. split; [|done].
      refine (drain_back_keeps (R (th_arg th)) _ _ _ _ _ _ _ Ed). eapply Forall_impl; [exact Hen|]. intros node. apply R_nodes.
    + destruct (_ <? _)%nat; [|injection E as <- <-; split_and!; [done|exact Hu|reflexivity|done]].
      destruct (begin_burst th (S j)) as [th1|e| |] eqn:Eb; cbn [obind] in E; try done. injection E as <- <-.
      apply (begin_burst_nodes cfg) in Eb as (? & ? & ?); [|done]. split_and!; [done|done|reflexivity|congruence].
  - injection E as <- <-. split_and!; [done|exact Hu|reflexivity|done].
Qed.

Lemma lcore_step_keeps fuel cfg args i y y' :
  system_nodes cfg args y -> lcore_step fuel cfg i y y' ->
  system_nodes cfg args y' /\ exists arg th th' w',
    args !! i = Some arg /\ y_threads y !! i = Some th /\ y' = set_thread y i th' w' /\
    R arg (world_of y th) w' /\ th_lb th' = w_lb w'.
Proof using Type*.
  intros Hu [th th' w' Hi Hpc E]. destruct (Hu i th Hi) as [Harg Hen].
  destruct (thread_step_keeps _ _ _ _ (world_of y th) _ _ Hen eq_refl E) as (Ha & Hen' & Huse & Hlb).
  split; [|by exists (th_arg th), th, th', w'].
  intros k t Hk. cbn in Hk. destruct (decide (k = i)) as [->|Hne].
  - rewrite list_lookup_insert_eq in Hk by (now apply lookup_lt_Some in Hi). injection Hk as <-. now rewrite Ha.
  - rewrite list_lookup_insert_ne in Hk by done. exact (Hu k t Hk).
Qed.

Lemma sys_step_nodes fuel cfg args y y' : system_nodes cfg args y -> sys_step fuel cfg y y' -> system_nodes cfg args y'.
Proof using Type*.
  intros Hu [i Hl|Ho]; [exact (proj1 (lcore_step_keeps _ _ _ _ _ _ Hu Hl))|]. destruct Ho; exact Hu.
Qed.

Lemma reach_nodes fuel cfg args y y' : system_nodes cfg args y -> rtc (sys_step fuel cfg) y y' -> system_nodes cfg args y'.
Proof using Type*.
  intros Hu Hr. revert Hu. induction Hr as [|y1 y2 y3 Hs _ IH]; [done|]. intros Hu. apply IH. exact (sys_step_nodes _ _ _ _ _ Hu Hs).
Qed.

End Steps.

(** ** Loops whose body keeps a relation *)

Definition body_keeps (R : Lcore -> Lcore -> Prop) (body : Lcore -> list Frame -> mbuf_ptr -> outcome (Lcore * list Frame)) : Prop :=
  forall w nexts m w' nexts', body w nexts m = Ret (w', nexts') -> R w w'.

Lemma each_keeps R `{!PreOrder R} body items : forall w nexts w' nexts',
  body_keeps R body -> each body items w nexts = Ret (w', nexts') -> R w w'.
Proof.
  induction items as [|m items IH]; intros w nexts w' nexts' Hb E; cbn [each] in E; [injection E as <- _; reflexivity|].
  destruct (body w nexts m) as [[w1 nexts1]|e| |] eqn:E1; cbn [obind] in E; try done.
  transitivity w1; [exact (Hb _ _ _ _ _ E1)|exact (IH _ _ _ _ Hb E)].
Qed.

Lemma loop_node_keeps R `{!PreOrder R} name outs body : body_keeps R body -> node_keeps R (loop_node name outs body).
Proof.
  intros Hb w f nexts w' f' nexts' E. cbn in E. destruct (frame_items f) as [items|e| |]; cbn [obind] in E; try done.
  destruct (each body items w nexts) as [[w1 nexts1]|e| |] eqn:E1; cbn [obind] in E; try done. injection E as <- _ _.
  exact (each_keeps R _ _ _ _ _ _ Hb E1).
Qed.

(** *** The load balancer *)

Lemma release_port_stats lb i port lb' : release_port lb i port = Ret lb' -> stats_ lb' = stats_ lb /\ nat_ lb' = nat_ lb.
Proof. unfold release_port. destruct (at_ _ _); cbn [obind]; try done. now intros [= <-]. Qed.

Lemma MaybeTeardown_stats lb s dir flags lb' : MaybeTeardown lb s dir flags = Ret lb' -> stats_ lb' = stats_ lb.
Proof.
  unfold MaybeTeardown. destruct (negb (Z.land flags kTcpFin =? 0)); cbn zeta; destruct (negb _); try (now intros [= <-]);
    destruct (Close _ _) as [[t port] idx]; (destruct (negb _); [|now intros [= <-]]); intros [E _]%release_port_stats; exact E.
Qed.

(** The key of a packet. *)
Definition meta_key (meta : PacketMeta) : FlowKey :=
  flow_key (m_src_ip meta) (m_dst_ip meta) (m_src_port meta) (m_dst_port meta) (m_proto meta).

(** A relation that the operations of [HandlePacket] keep is kept by it. *)
Lemma HandlePacket_keeps (R : LbNode -> LbNode -> Prop) `{!PreOrder R} meta pool now lb b meta' lb' :
  (forall lb, R lb (set_nat lb (LookupForward (nat_ lb) (meta_key meta) now).2)) ->
  (forall lb ip port snat proto, R lb (set_nat lb (LookupReverse (nat_ lb) ip port snat proto now).2)) ->
  (forall lb s dir flags lb', MaybeTeardown lb s dir flags = Ret lb' -> R lb lb') ->
  (forall lb r lb', m_dir meta = kForward -> CreateFlow lb meta (meta_key meta) pool now = Ret (r, lb') -> R lb lb') ->
  HandlePacket lb meta pool now = Ret (b, meta', lb') -> R lb lb'.
Proof.
  intros Rf Rr Rt Rc E. assert (Hfw : forall lb s, forward_flow lb s meta = Ret (b, meta', lb') -> R lb lb').
  { intros lb1 s. unfold forward_flow. destruct (MaybeTeardown _ _ _ _) as [lb2|e| |] eqn:Et; cbn [obind]; try done.
    intros [= _ _ <-]. exact (Rt _ _ _ _ _ Et). }
  unfold HandlePacket in E. destruct (m_dir meta) eqn:Ed.
  - specialize (Rf lb). fold (meta_key meta) in E. destruct (LookupForward _ _ _) as [[s|] t]; cbn [snd] in Rf;
      (etransitivity; [exact Rf|]); [exact (Hfw _ _ E)|].
    destruct (_ && _); [now injection E as _ _ <-|].
    destruct (CreateFlow _ _ _ _ _) as [[[s|] lb1]|e| |] eqn:Ec; cbn [obind] in E; try done; specialize (Rc _ _ _ eq_refl Ec).
    + etransitivity; [exact Rc|exact (Hfw _ _ E)].
    + now injection E as _ _ <-.
  - specialize (Rr lb (m_src_ip meta) (m_src_port meta) (m_dst_port meta) (m_proto meta)).
    destruct (LookupReverse _ _ _ _ _ _) as [[s|] t]; cbn [snd] in Rr; (etransitivity; [exact Rr|]); [|now injection E as _ _ <-].
    destruct (MaybeTeardown _ _ _ _) as [lb1|e| |] eqn:Et; cbn [obind] in E; try done. injection E as _ _ <-. exact (Rt _ _ _ _ _ Et).
Qed.

(** The node's [Process], for the pool it loads. *)
Lemma Lb_Process_keeps R `{!PreOrder R} w f nexts w' f' nexts' :
  body_keeps R lb_drop -> (forall pool now, Load (w_pool w) = Some pool -> body_keeps R (lb_packet pool now)) ->
  (forall w n, R w (count_stat w (fun s => store_active s n))) ->
  Process LbNode_node w f nexts = Ret (w', f', nexts') -> R w w'.
Proof.
  intros Hd Hp Hs E. cbn in E. unfold Lb_Process in E. destruct (frame_items f) as [items|e| |]; cbn [obind] in E; try done.
  assert (Hdrop : forall r, each lb_drop items w nexts = r -> (let! '(w, nexts) := r in Ret (w, f, nexts)) = Ret (w', f', nexts') -> R w w').
  { intros r E1 E2. destruct r as [[w1 nexts1]|e| |]; cbn [obind] in E2; try done. injection E2 as <- _ _.
    exact (each_keeps R _ _ _ _ _ _ Hd E1). }
  destruct (Load (w_pool w)) as [pool|]; [|exact (Hdrop _ eq_refl E)]. destruct (ActiveCount pool =? 0); [exact (Hdrop _ eq_refl E)|].
  destruct (NowMs _ _) as [now|e| |]; cbn [obind] in E; try done.
  destruct (each (lb_packet pool now) items w nexts) as [[w1 nexts1]|e| |] eqn:E1; cbn [obind] in E; try done. injection E as <- _ _.
  etransitivity; [exact (each_keeps R _ _ _ _ _ _ (Hp pool now eq_refl) E1)|apply Hs].
Qed.

(** ** Calls on the device *)

(** A call an lcore with [arg] may make. *)
Inductive dev_call (arg : LcoreArg) (d : dev) : dev -> Prop :=
  | call_rx n l d' : polls_port arg = true -> rte_eth_rx_burst d (port_id arg) 0 n = (l, d') -> dev_call arg d d'
  | call_tx l n d' : polls_port arg = true -> rte_eth_tx_burst d (port_id arg) 0 l = (n, d') -> dev_call arg d d'
  | call_enqueue r m rc d' : r ∈ enqueues arg -> rte_ring_enqueue d r m = (rc, d') -> dev_call arg d d'
  | call_enqueue_burst r l n d' : r ∈ enqueues arg -> rte_ring_enqueue_burst d r l = (n, d') -> dev_call arg d d'
  | call_dequeue r n l d' : r ∈ dequeues arg -> rte_ring_dequeue_burst d r n = (l, d') -> dev_call arg d d'
  | call_free l : dev_call arg d (rte_pktmbuf_free_bulk d l).

(** The device changes by such calls only. *)
Definition uses (arg : LcoreArg) (w w' : Lcore) : Prop := rtc (dev_call arg) (w_dev w) (w_dev w').

#[export] Instance uses_preorder arg : PreOrder (uses arg).
Proof. split; [intros w; apply rtc_refl|]. intros w1 w2 w3 H1' H2'. unfold uses in *. now transitivity (w_dev w2). Qed.

Lemma uses_same arg w w' : w_dev w' = w_dev w -> uses arg w w'.
Proof. intros E. unfold uses. now rewrite E. Qed.

Lemma uses_call arg w d : dev_call arg (w_dev w) d -> uses arg w (set_dev w d).
Proof. intros Hc. now apply rtc_once. Qed.

(** ** The nodes *)

Section Nodes.
Context (arg : LcoreArg).

(** A body that does not touch the device. *)
Ltac no_call :=
  intros w nexts m w' nexts' E;
  repeat match type of E with
  | obind ?x _ = Ret _ => destruct x as [?|?| |]; cbn [obind] in E; try done
  | (let '(_, _) := ?p in _) = Ret _ => destruct p
  end; injection E as <- _; now apply uses_same.

Lemma parse_uses cfg : body_keeps (uses arg) (parse_packet cfg).
Proof. unfold parse_packet. no_call. Qed.

Lemma dnat_uses cfg : body_keeps (uses arg) (dnat_packet cfg).
Proof. unfold dnat_packet. no_call. Qed.

Lemma ether_uses cfg : body_keeps (uses arg) (ether_packet cfg).
Proof. unfold ether_packet. no_call. Qed.

Lemma arp_uses cfg : body_keeps (uses arg) (arp_packet cfg).
Proof. unfold arp_packet. no_call. Qed.

Lemma parse_node_uses cfg : node_keeps (uses arg) (Ip4ParseNode cfg).
Proof. apply (loop_node_keeps (uses arg)), parse_uses. Qed.

Lemma dnat_node_uses cfg : node_keeps (uses arg) (DnatNode cfg).
Proof. apply (loop_node_keeps (uses arg)), dnat_uses. Qed.

Lemma ether_node_uses cfg : node_keeps (uses arg) (EtherRewriteNode cfg).
Proof. apply (loop_node_keeps (uses arg)), ether_uses. Qed.

Lemma arp_node_uses cfg : node_keeps (uses arg) (ArpNode cfg).
Proof. apply (loop_node_keeps (uses arg)), arp_uses. Qed.

Lemma rx_forward_uses : body_keeps (uses arg) rx_forward.
Proof. unfold rx_forward. no_call. Qed.

Lemma lb_drop_uses : body_keeps (uses arg) lb_drop.
Proof. unfold lb_drop. no_call. Qed.

Lemma lb_packet_uses pool now : body_keeps (uses arg) (lb_packet pool now).
Proof. unfold lb_packet. no_call. Qed.

Lemma LbNode_uses : node_keeps (uses arg) LbNode_node.
Proof.
  intros w f nexts w' f' nexts'. apply (Lb_Process_keeps (uses arg)); [apply lb_drop_uses|intros; apply lb_packet_uses|].
  intros. now apply uses_same.
Qed.

Lemma DropNode_uses : node_keeps (uses arg) DropNode.
Proof.
  intros w f nexts w' f' nexts' E. cbn in E. destruct (frame_items f) as [items|e| |]; cbn [obind] in E; try done. injection E as <- _ _.
  apply uses_call, call_free.
Qed.

Lemma TxNode_uses : polls_port arg = true -> node_keeps (uses arg) (TxNode (port_id arg) 0).
Proof.
  intros Hp w f nexts w' f' nexts' E. cbn in E. destruct (frame_items f) as [items|e| |]; cbn [obind] in E; try done.
  destruct (rte_eth_tx_burst (w_dev w) (port_id arg) 0 items) as [sent d] eqn:Et. injection E as <- _ _.
  transitivity (set_dev w d); [eapply uses_call, call_tx; [exact Hp|exact Et]|].
  destruct (0 <? _); [|now apply uses_same]. unfold uses. cbn. apply rtc_once, call_free.
Qed.

Lemma RingTxNode_uses r : r ∈ enqueues arg -> node_keeps (uses arg) (RingTxNode r).
Proof.
  intros Hr w f nexts w' f' nexts' E. cbn in E. destruct (frame_items f) as [items|e| |]; cbn [obind] in E; try done.
  destruct (rte_ring_enqueue_burst (w_dev w) r items) as [sent d] eqn:Et. injection E as <- _ _.
  transitivity (set_dev w d); [eapply uses_call, call_enqueue_burst; [exact Hr|exact Et]|].
  destruct (_ <? _); [|now apply uses_same]. unfold uses. cbn. apply rtc_once, call_free.
Qed.

Lemma fill_mem_dev l : forall w, w_dev (fill_mem w l) = w_dev w.
Proof. induction l as [|[m data] l IH]; intros w; cbn [fill_mem]; [done|]. now rewrite IH. Qed.

Lemma RxNode_uses : polls_port arg = true -> node_keeps (uses arg) (RxNode (port_id arg) 0).
Proof.
  intros Hp w f nexts w' f' nexts' E. cbn in E.
  destruct (rte_eth_rx_burst (w_dev w) (port_id arg) 0 _) as [l d] eqn:Et.
  destruct (frame_items _) as [items|e| |]; cbn [obind] in E; try done.
  destruct (each rx_forward items _ nexts) as [[w1 nexts1]|e| |] eqn:E1; cbn [obind] in E; try done. injection E as <- _ _.
  apply (each_keeps (uses arg)) in E1; [|apply rx_forward_uses]. transitivity (set_dev w d); [eapply uses_call, call_rx; [exact Hp|exact Et]|].
  etransitivity; [|exact E1]. apply uses_same. cbn. now rewrite fill_mem_dev.
Qed.

Lemma RingRxNode_uses r : r ∈ dequeues arg -> node_keeps (uses arg) (RingRxNode r).
Proof.
  intros Hr w f nexts w' f' nexts' E. cbn in E. destruct (rte_ring_dequeue_burst (w_dev w) r _) as [l d] eqn:Et.
  destruct (frame_items _) as [items|e| |]; cbn [obind] in E; try done.
  destruct (each rx_forward items _ nexts) as [[w1 nexts1]|e| |] eqn:E1; cbn [obind] in E; try done. injection E as <- _ _.
  apply (each_keeps (uses arg)) in E1; [|apply rx_forward_uses]. etransitivity; [|exact E1]. eapply uses_call, call_dequeue; [exact Hr|exact Et].
Qed.

Lemma steer_uses cfg rings n : (forall r, r ∈ rings -> r ∈ enqueues arg) -> body_keeps (uses arg) (steer_packet cfg rings n).
Proof.
  intros Hr w nexts m w' nexts' E. unfold steer_packet in E.
  destruct (ClassifyForSteer _ _ _) as [[cls worker]|e| |]; cbn [obind] in E; try done. destruct cls.
  - destruct (at_ rings _) as [r|e| |] eqn:Er; cbn [obind] in E; try done. apply at_Ret, list_elem_of_lookup_2, Hr in Er.
    destruct (rte_ring_enqueue (w_dev w) r m) as [rc d] eqn:Et.
    transitivity (set_dev w d); [eapply uses_call, call_enqueue; [exact Er|exact Et]|].
    destruct (negb _); injection E as <- _; [|reflexivity]. unfold uses. cbn. apply rtc_once, call_free.
  - destruct (move_to _ _ _); cbn [obind] in E; try done. injection E as <- _. reflexivity.
  - injection E as <- _. apply uses_call, call_free.
Qed.

Lemma SteerNode_uses cfg rings n : (forall r, r ∈ rings -> r ∈ enqueues arg) -> node_keeps (uses arg) (SteerNode cfg rings n).
Proof.
  intros Hr w f nexts w' f' nexts' E. cbn in E. destruct (frame_items f) as [items|e| |]; cbn [obind] in E; try done.
  destruct (each _ items w nexts) as [[w1 nexts1]|e| |] eqn:E1; cbn [obind] in E; try done. injection E as <- _ _.
  exact (each_keeps (uses arg) _ _ _ _ _ _ (steer_uses cfg rings n Hr) E1).
Qed.

End Nodes.

Lemma node_of_uses cfg arg node : node_of cfg arg node -> node_keeps (uses arg) node.
Proof.
  intros []; eauto using RxNode_uses, TxNode_uses, RingRxNode_uses, RingTxNode_uses, DropNode_uses, LbNode_uses, SteerNode_uses,
    parse_node_uses, dnat_node_uses, ether_node_uses, arp_node_uses.
Qed.

Lemma same_but_lb_uses arg w w' : same_but_lb w w' -> uses arg w w'.
Proof. intros [Hd _]. now apply uses_same. Qed.

(** ** The process *)

Lemma launched_reach_nodes fuel cfg d mem view loop args stats y :
  rtc (sys_step fuel cfg) (launched d mem view loop args stats) y -> system_nodes cfg args y.
Proof. exact (reach_nodes uses node_of_uses same_but_lb_uses _ _ _ _ _ (launched_nodes cfg _ _ _ _ args _)). Qed.

(** Each lcore keeps to itself: in any interleaving a step of an lcore changes the
    device only by bursts on its port, if its role has the port, by putting packets on
    rings it may fill, by taking packets from rings it may empty, and by freeing. *)
Theorem lcore_device_use fuel cfg d mem view loop args stats y i y' :
  rtc (sys_step fuel cfg) (launched d mem view loop args stats) y -> lcore_step fuel cfg i y y' ->
  exists arg, args !! i = Some arg /\ rtc (dev_call arg) (y_dev y) (y_dev y').
Proof.
  intros Hu%launched_reach_nodes Hl.
  destruct (lcore_step_keeps uses node_of_uses same_but_lb_uses _ _ _ _ _ _ Hu Hl) as (_ & arg & th & th' & w' & Ha & _ & -> & Huse & _).
  exists arg. split; [exact Ha|exact Huse].
Qed.

End Use.
