(* ===== verification/TableKeys.v ===== *)
(** * The entries of a translation table

    What the operations of the table and of the load balancer put into it: the key and the
    backend of every entry in use stay in a set that the packets and the pool determine. *)

From S2P Require Import Prelude FlowKey NetTypes PortPool BackendPool NatTable NatTableFacts NatTableSpec Ipc PacketMeta LbNode LbFacts.
From S2P Require Import Graph Packet Nodes Dataplane System DeviceUse.

Section Keys.
Context `{BuildParams} (K : FlowKey -> Z -> Prop).

Lemma Select_active pool key j : Select pool key = Ret j -> j ∈ bp_active pool.
Proof. unfold Select. destruct (_ =? _)%nat; [done|]. intros E%at_Ret. by eapply list_elem_of_lookup_2. Qed.

(** Every entry in use, expired or not, has its key and backend in [K]. *)
Definition entries_in (t : NatTable) : Prop :=
  forall s f, slots_ t !! s = Some f -> nf_occupied f = true -> K (nf_fwd_key f) (nf_backend_idx f).

Lemma entries_in_total t s : entries_in t -> nf_occupied (slots_ t !!! s) = true -> K (nf_fwd_key (slots_ t !!! s)) (nf_backend_idx (slots_ t !!! s)).
Proof.
  intros Hk Ho. destruct (slots_ t !! s) as [f|] eqn:E.
  - rewrite (list_lookup_total_correct _ _ _ E) in *. exact (Hk s f E Ho).
  - rewrite list_lookup_total_alt, E in Ho. discriminate Ho.
Qed.

Lemma entries_in_slots t t' : slots_ t' = slots_ t -> entries_in t -> entries_in t'.
Proof. unfold entries_in. now intros ->. Qed.

Lemma entries_in_set t s f : entries_in t -> (nf_occupied f = true -> K (nf_fwd_key f) (nf_backend_idx f)) -> entries_in (set_slot t s f).
Proof.
  intros Hk Hf i g Hi. cbn in Hi. destruct (decide (i = s)) as [->|Hne].
  - destruct (decide (s < length (slots_ t))%nat) as [Hlt|Hge].
    + rewrite list_lookup_insert_eq in Hi by done. injection Hi as <-. exact Hf.
    + rewrite list_insert_ge in Hi by lia. exact (Hk s g Hi).
  - rewrite list_lookup_insert_ne in Hi by done. exact (Hk i g Hi).
Qed.

Lemma entries_in_Reap t s : entries_in t -> entries_in (Reap t s).
Proof.
  intros Hk. unfold Reap. destruct (negb _); [|done].
  assert (Hs : entries_in (set_slot t s (set_reaped (slots_ t !!! s)))) by (apply entries_in_set; [done|]; apply entries_in_total, Hk).
  destruct (0 <? _); [|done]. exact (entries_in_slots _ _ eq_refl Hs).
Qed.

Lemma entries_in_Forward key now t : entries_in t -> entries_in (LookupForward t key now).2.
Proof.
  unfold LookupForward. generalize (Z.to_nat kCapacity) at 1 as n. generalize 0%nat as i. generalize (Z.land (Hash key) kMask) as start.
  intros start i n. revert i t. induction n as [|n IH]; intros i t Hk; cbn [LookupForward_loop]; [done|].
  destruct (negb _); [done|]. destruct (Expired _ _ _); [apply IH, entries_in_Reap, Hk|]. destruct (FlowKey_eqb _ _); [|now apply IH].
  apply entries_in_set; [done|]. apply entries_in_total, Hk.
Qed.

Lemma entries_in_Reverse ip port snat proto now t : entries_in t -> entries_in (LookupReverse t ip port snat proto now).2.
Proof.
  unfold LookupReverse. generalize (Z.to_nat kCapacity) at 1 as n. generalize 0%nat as i.
  generalize (Z.land (RevHash ip port snat proto) kMask) as start.
  intros start i n. revert i t. induction n as [|n IH]; intros i t Hk; cbn [LookupReverse_loop]; [done|].
  destruct (_ =? 0); [done|]. destruct (_ && _); [apply IH, entries_in_Reap, Hk|]. destruct (rev_match _ _ _ _ _); [|now apply IH].
  apply entries_in_set; [done|]. apply entries_in_total, Hk.
Qed.

Lemma entries_in_Close t s : entries_in t -> entries_in (Close t s).1.1.
Proof.
  intros Hk. unfold Close. destruct (_ || _); [done|]. cbn. apply entries_in_set; [now apply entries_in_Reap|].
  intros Ho. apply (entries_in_total (Reap t s)); [now apply entries_in_Reap|exact Ho].
Qed.

Lemma entries_in_Insert flow now t : entries_in t -> K (nf_fwd_key flow) (nf_backend_idx flow) -> entries_in (Insert t flow now).2.
Proof.
  intros Hk Hf. unfold Insert. generalize (Z.to_nat kCapacity) at 1 as n. generalize 0%nat as i.
  generalize (Z.land (Hash (nf_fwd_key flow)) kMask) as start. intros start i n. revert i.
  assert (Hat : forall t' slot, slots_ t' = slots_ t -> entries_in (Insert_at t' slot flow now)).
  { intros t' slot E. unfold Insert_at. apply (entries_in_slots (set_slot t' slot (set_last_seen (set_occupied flow) now))).
    - apply IndexReverse_slots.
    - apply entries_in_set; [exact (entries_in_slots _ _ E Hk)|]. intros _. exact Hf. }
  induction n as [|n IH]; intros i; cbn [Insert_loop]; [done|].
  destruct (negb _); [now apply Hat|]. destruct (Expired _ _ _); [|apply IH]. cbn. apply Hat. now destruct (nf_reaped _).
Qed.

Lemma entries_in_Teardown lb s dir flags lb' : MaybeTeardown lb s dir flags = Ret lb' -> entries_in (nat_ lb) -> entries_in (nat_ lb').
Proof.
  unfold MaybeTeardown. intros E Hk.
  assert (Hfin : forall fin, entries_in (set_slot (nat_ lb) s (set_fin_seen (slots_ (nat_ lb) !!! s) fin))).
  { intros fin. apply entries_in_set; [done|]. apply entries_in_total, Hk. }
  assert (Hclose : forall lb0, entries_in (nat_ lb0) ->
    (let '(t, p, b) := Close (nat_ lb0) s in
     if negb (p =? 0) then release_port (set_nat lb0 t) b p else Ret (set_nat lb0 t)) = Ret lb' -> entries_in (nat_ lb')).
  { intros lb0 H0. pose proof (entries_in_Close _ s H0) as Hc. destruct (Close (nat_ lb0) s) as [[t p] b]. cbn in Hc.
    destruct (negb (p =? 0)); [intros [_ ->]%release_port_stats; exact Hc|now intros [= <-]]. }
  destruct (negb (Z.land flags kTcpFin =? 0)); cbn zeta in E; destruct (negb _) in E; try (now injection E as <-).
  - injection E as <-. apply Hfin.
  - refine (Hclose _ _ E). apply Hfin.
  - exact (Hclose _ Hk E).
Qed.

Lemma entries_in_Create lb meta key pool now r lb' :
  CreateFlow lb meta key pool now = Ret (r, lb') -> (forall j, j ∈ bp_active pool -> K key j) -> entries_in (nat_ lb) -> entries_in (nat_ lb').
Proof.
  intros E HK Hk. unfold CreateFlow in E. destruct (Select pool key) as [j|e| |] eqn:Es; cbn [obind] in E; try done.
  apply Select_active in Es.
  destruct (At pool j) as [b|e| |]; cbn [obind] in E; try done. destruct (at_ _ _) as [ports|e| |]; cbn [obind] in E; try done.
  destruct (Acquire ports) as [snat ports']. destruct (snat =? 0); [now injection E as _ <-|].
  match type of E with context [Insert ?t ?f now] => pose proof (entries_in_Insert f now t Hk (HK j Es)) as Hi end.
  destruct (Insert _ _ _) as [[[inserted evp] evi] t]. cbn in Hi.
  destruct (if negb (evp =? 0) then _ else _) as [lb1|e| |] eqn:E1; cbn [obind] in E; try done.
  assert (Ho : nat_ lb1 = t) by (destruct (negb (evp =? 0)); [now apply release_port_stats in E1 as [_ ->]|now injection E1 as <-]).
  destruct inserted as [s|].
  - destruct (add_backend_flows _ _ _); cbn [obind] in E; try done. injection E as _ <-. cbn. by rewrite Ho.
  - destruct (release_port lb1 j snat) as [lb2|e| |] eqn:E2; cbn [obind] in E; try done. injection E as _ <-.
    apply release_port_stats in E2 as [_ ->]. by rewrite Ho.
Qed.

(** A packet opens connections of its own key, to a backend the pool offers. *)
Lemma entries_in_Handle lb meta pool now b meta' lb' :
  HandlePacket lb meta pool now = Ret (b, meta', lb') -> (m_dir meta = kForward -> forall j, j ∈ bp_active pool -> K (meta_key meta) j) ->
  entries_in (nat_ lb) -> entries_in (nat_ lb').
Proof.
  intros E HK. revert E. assert (Hpre : PreOrder (fun lb lb' : LbNode => entries_in (nat_ lb) -> entries_in (nat_ lb'))) by (split; unfold Transitive; auto).
  apply (HandlePacket_keeps (fun lb lb' => entries_in (nat_ lb) -> entries_in (nat_ lb'))).
  - intros lb1. apply entries_in_Forward.
  - intros lb1 ip port snat proto. apply entries_in_Reverse.
  - intros lb1 s dir flags lb2. apply entries_in_Teardown.
  - intros lb1 r lb2 Hd Hc. exact (entries_in_Create _ _ _ _ _ _ _ Hc (HK Hd)).
Qed.

Lemma entries_in_new timeout : entries_in (NatTable_new timeout).
Proof. intros s f Hs. cbn in Hs. apply lookup_replicate in Hs as [-> _]. discriminate. Qed.

Lemma LbNode_new_entries fuel cfg stats i n lb : LbNode_new fuel cfg stats i n = Ret lb -> entries_in (nat_ lb).
Proof. unfold LbNode_new. destruct (ForWorker _ _ _ _ _); cbn [obind]; try done. intros [= <-]. apply entries_in_new. Qed.

End Keys.
