(* ===== verification/SystemSpec.v ===== *)
(** * The dataplane as a whole: what holds in every reachable state

    [sys_ok] is kept by every step of every lcore, of the control loop, of the control
    plane and of the device, so the theorems hold however the steps interleave. *)

From stdpp Require Import relations.
From S2P Require Import Prelude FlowKey NetTypes PortPool BackendPool NatTable NatTableFacts NatTableSpec Ipc.
From S2P Require Import PacketMeta LbNode LbFacts LbSpec Graph GraphFacts GraphSpec Packet Nodes NodeFacts.
From S2P Require Import Dataplane DataplaneSpec Control ControlPlane ControlSpec System DeviceUse.

(** 64 K ports: never unfold the list. *)
#[local] Opaque worker_ports.

Section Spec.
Context `{BuildParams} `{Dpdk}.

(** ** One lcore *)

(** The SNAT ports of an lcore. *)
Definition arg_ports (arg : LcoreArg) : list Z :=
  match role arg with
  | kMono => lb_ports 0 1
  | kIo => []
  | kWorker => lb_ports (worker_id arg) (n_workers arg)
  end.

Definition thread_ports (th : Thread) : list Z :=
  match th_pc th with
  | PcStart => []
  | _ => arg_ports (th_arg th)
  end.

(** Depths of the nodes of the graphs an lcore builds. *)
Definition ranks_of (arg : LcoreArg) : list (Z -> nat) :=
  match role arg with
  | kMono => [rank_of [0; 1; 2; 3; 4; 5; 5; 2]%nat]
  | kIo => [rank_of [0; 1; 2; 3; 3]%nat; rank_of [0; 1]%nat]
  | kWorker => [rank_of [0; 1; 2; 3; 4; 5; 5]%nat]
  end.

(** A burst drains at most this many nodes. *)
Definition burst_cost : nat := 9 ^ 5.

Lemma burst_cost_value : Z.of_nat burst_cost = 59049.
Proof. unfold burst_cost. rewrite Nat2Z.inj_pow. reflexivity. Qed.

#[local] Opaque burst_cost.

Record engine_ok (ports : list Z) (rank : Z -> nat) (en : Engine) : Prop := {
  eo_root : en_root en = 0;
  eo_graph : @graph_ok _ (lcore_world ports) first_source (en_graph en);
  eo_rank : ranked (en_graph en) rank 5;
  eo_nodes : (0 < length (nodes_ (en_graph en)))%nat;
  eo_disp : @DInv _ first_source (en_graph en) (en_disp en) [];
  eo_weight : (weight rank 5 (queue_ (en_disp en)) <= burst_cost)%nat;
}.

(** What [RunDataplane] puts into the argument of an lcore. *)
Definition arg_ok (arg : LcoreArg) : Prop :=
  match role arg with
  | kMono => True
  | kIo => is_Some (egress arg) /\ 0 < n_workers arg /\ Z.of_nat (length (worker_rings arg)) = n_workers arg
  | kWorker => is_Some (ingress arg) /\ is_Some (egress arg) /\ 0 < n_workers arg <= 31
  end.

(** Engines of an lcore at [pc]: all are between two bursts but the one at work. *)
Definition engines_ok (arg : LcoreArg) (pc : Pc) (engines : list Engine) : Prop :=
  Forall2 (engine_ok (arg_ports arg)) (ranks_of arg) engines /\
  (forall j, pc = PcBurst j -> (j < length engines)%nat) /\
  (forall k en, engines !! k = Some en -> pc <> PcBurst k -> queue_ (en_disp en) = []).

Record thread_ok (th : Thread) : Prop := {
  to_lb : LbInv (thread_ports th) (th_lb th);
  to_new : 0 <= new_flows (stats_ (th_lb th)) < 2 ^ 64;
  to_arg : arg_ok (th_arg th);
  to_pc : match th_pc th with
    | PcStart => th_engines th = [] /\ th_lb th = no_lb (stats_ (th_lb th))
    | pc => engines_ok (th_arg th) pc (th_engines th)
    end;
}.

(** The packets an lcore holds. *)
Definition engine_packets (en : Engine) : list mbuf_ptr := waiting (en_disp en).

Definition thread_packets (th : Thread) : list mbuf_ptr := concat (engine_packets <$> th_engines th).

Lemma idle_packets ports rank en :
  engine_ok ports rank en -> queue_ (en_disp en) = [] -> engine_packets en = [].
Proof.
  intros He Hq. unfold engine_packets, waiting.
  now rewrite (@idle_pending _ first_source (en_graph en) (en_disp en) (conj (eo_disp _ _ _ He) Hq)).
Qed.

Lemma idle_engines_packets ports ranks engines :
  Forall2 (engine_ok ports) ranks engines -> Forall (fun en => queue_ (en_disp en) = []) engines ->
  concat (engine_packets <$> engines) = [].
Proof.
  induction 1 as [|rank en ranks engines He _ IH]; [done|]. intros [Hq1 Hq2]%Forall_cons.
  cbn [fmap list_fmap concat]. rewrite (idle_packets _ _ en He Hq1). now apply IH.
Qed.

Lemma new_engine_ok ports rank g :
  @graph_ok _ (lcore_world ports) first_source g -> ranked g rank 5 -> (0 < length (nodes_ g))%nat ->
  engine_ok ports rank (mkEngine g 0 (Dispatcher_new g)).
Proof.
  intros Hg Hr Hn. split; try done; [apply (Dispatcher_new_idle _ _ Hg)|apply Nat.le_0_l].
Qed.

(** What a start needs of the configuration. *)
Record cfg_ok (cfg : Config) : Prop := {
  co_mac : MacAddr_wf (self_mac cfg);
  co_timeout : 0 <= conntrack_timeout_ms cfg;
}.

Lemma build_engines_spec fuel cfg arg w :
  arg_ok arg -> booted w -> cfg_ok cfg -> 65536 <= Z.of_nat fuel ->
  exists engines w', build_engines fuel cfg arg w = Ret (engines, w') /\ lcore_ok (arg_ports arg) w' /\
    Forall2 (engine_ok (arg_ports arg)) (ranks_of arg) engines /\
    Forall (fun en => queue_ (en_disp en) = []) engines /\ w_dev w' = w_dev w /\ w_mem w' = w_mem w.
Proof.
  intros Ha Hb [Hm Ht] Hf. unfold build_engines, arg_ok, arg_ports, ranks_of in *. destruct (role arg).
  - destruct (booted_lb fuel cfg w 0 1 Hb ltac:(lia) Hf Ht) as (lb & E & Hw).
    rewrite (BuildMonolithicGraph_eq fuel cfg arg w lb E). cbn [obind]. eexists _, _. split; [done|]. split_and!; try done.
    + constructor; [|done]. apply new_engine_ok; [now apply mono_graph_ok; [apply lb_ports_nonzero|]|apply mono_graph_ranked|simpl; lia].
    + now repeat constructor.
  - destruct Ha as ([e He] & Hn & Hl). rewrite (BuildRxGraph_eq cfg arg e He), (BuildTxGraph_eq arg e He). cbn [obind].
    eexists _, _. split; [done|]. split_and!; try done; [now apply booted_ok| |now repeat constructor].
    constructor; [|constructor; [|done]]; apply new_engine_ok; try (simpl; lia).
    + now apply rx_graph_ok.
    + apply rx_graph_ranked.
    + apply tx_graph_ok.
    + apply tx_graph_ranked.
  - destruct Ha as ([i Hi] & [e He] & Hn).
    destruct (booted_lb fuel cfg w (worker_id arg) (n_workers arg) Hb ltac:(lia) Hf Ht) as (lb & E & Hw).
    rewrite (BuildWorkerGraph_eq fuel cfg arg w lb i e Hi He) by (now rewrite u16_small by lia). cbn [obind].
    eexists _, _. split; [done|]. split_and!; try done.
    + constructor; [|done]. apply new_engine_ok; [now apply worker_graph_ok; [apply lb_ports_nonzero|]|apply worker_graph_ranked|simpl; lia].
    + now repeat constructor.
Qed.

Lemma weight_root rank : (weight rank 5 [0%Z] <= burst_cost)%nat.
Proof.
  unfold weight. cbn [sum_list_with]. rewrite Nat.add_0_r. apply (Nat.pow_le_mono_r (S kMaxFanout) (5 - rank 0%Z) 5); [done|lia].
Qed.

(** Replacing the engine at work. *)
Lemma packets_insert engines j en en' :
  engines !! j = Some en -> exists rest,
    concat (engine_packets <$> engines) ≡ₚ engine_packets en ++ rest /\
    concat (engine_packets <$> <[j := en']> engines) ≡ₚ engine_packets en' ++ rest.
Proof.
  intros Hj. destruct (concat_insert_split (engine_packets <$> engines) j (engine_packets en)) as (rest & H1 & H2).
  { now rewrite list_lookup_fmap, Hj. }
  exists rest. split; [done|]. rewrite list_fmap_insert. apply H2.
Qed.

Lemma engines_ok_insert arg pc pc' engines j en d rank :
  engines_ok arg pc engines -> engines !! j = Some en -> ranks_of arg !! j = Some rank ->
  engine_ok (arg_ports arg) rank (set_disp en d) ->
  (pc' = PcBurst j \/ (queue_ d = [] /\ forall k, pc' <> PcBurst k)) ->
  (forall k, k <> j -> pc <> PcBurst k) ->
  engines_ok arg pc' (<[j := set_disp en d]> engines).
Proof.
  intros (Hall & Hj & Hidle) Hen Hrank He Hpc Hoth. split_and!.
  - rewrite <- (list_insert_id (ranks_of arg) j rank) by done. now apply Forall2_insert.
  - intros k ->. rewrite length_insert. destruct Hpc as [[= ->]|[_ Hn]]; [now apply lookup_lt_Some in Hen|now destruct (Hn k)].
  - intros k en' Hk Hne. destruct (decide (k = j)) as [->|Hkj].
    + rewrite list_lookup_insert_eq in Hk by now apply lookup_lt_Some in Hen. injection Hk as <-. simpl.
      destruct Hpc as [->|[Hq _]]; [congruence|done].
    + rewrite list_lookup_insert_ne in Hk by done. eauto.
Qed.

Lemma begin_burst_spec th pc j :
  th_pc th <> PcStart -> engines_ok (th_arg th) pc (th_engines th) ->
  (forall k, pc = PcBurst k -> S k = j /\ forall en, th_engines th !! k = Some en -> queue_ (en_disp en) = []) ->
  (j < length (th_engines th))%nat ->
  exists th', begin_burst th j = Ret th' /\ th_arg th' = th_arg th /\ th_lb th' = th_lb th /\ th_pc th' = PcBurst j /\
    engines_ok (th_arg th) (PcBurst j) (th_engines th') /\ thread_packets th' ≡ₚ thread_packets th /\
    (exists en', th_engines th' !! j = Some en' /\ queue_ (en_disp en') = [0]) /\
    length (th_engines th') = length (th_engines th) /\
    (forall k, k <> j -> th_engines th' !! k = th_engines th !! k).
Proof.
  intros Hns (Hall & Hj & Hidle) Hpc Hlt. destruct (lookup_lt_is_Some_2 _ _ Hlt) as [en Hen].
  destruct (Forall2_lookup_r _ _ _ _ _ Hall Hen) as (rank & Hrank & He).
  assert (Hq : queue_ (en_disp en) = []) by (apply (Hidle j en Hen); intros Hpj; destruct (Hpc j Hpj); lia).
  unfold begin_burst. rewrite (proj2 (at_Ret _ _ en)) by done. cbn [obind]. rewrite (eo_root _ _ _ He).
  destruct (@seed_spec _ first_source (en_graph en) 0 (en_disp en) (Clear Frame_new)) as (d & -> & Hd & Hqd & Hwd).
  { split; [apply (eo_disp _ _ _ He)|done]. }
  { apply Clear_wf, Frame_new_wf. }
  { pose proof (eo_nodes _ _ _ He). lia. }
  { done. }
  cbn [obind]. eexists. split; [done|]. cbn [th_arg th_lb th_pc th_engines]. split_and!; try done.
  - apply (engines_ok_insert _ PcLoop _ _ _ en _ rank); try done; [|destruct He; split; try done; cbn; rewrite Hqd; apply weight_root|by left].
    split_and!; try done. intros k en' Hk _. destruct pc as [| |k2|]; try (eapply Hidle; [done|congruence]).
    destruct (Hpc k2 eq_refl) as [_ Hk2]. destruct (decide (k2 = k)) as [->|]; [now apply Hk2|].
    eapply Hidle; [done|congruence].
  - unfold thread_packets. cbn [th_engines].
    destruct (packets_insert _ j en (set_disp en d) Hen) as (rest & -> & ->).
    rewrite (idle_packets _ _ en He Hq). unfold engine_packets. cbn [en_disp set_disp]. now rewrite Hwd, packets_Clear.
  - exists (set_disp en d). rewrite list_lookup_insert_eq by done. done.
  - apply length_insert.
  - intros k Hk. now rewrite list_lookup_insert_ne by done.
Qed.

(** What all lcores share. *)
Record shared_ok (w : Lcore) : Prop := {
  sh_mem : forall m, mbuf_ok (w_mem w m);
  sh_pool : forall pool, Load (w_pool w) = Some pool -> pool_ok pool;
}.

Lemma lcore_shared ports w : lcore_ok ports w -> shared_ok w.
Proof. intros []. now split. Qed.

Lemma thread_world th w : thread_ok th -> shared_ok w -> w_lb w = th_lb th -> lcore_ok (thread_ports th) w.
Proof. intros [Hl Hn _ _] [Hm Hp] E. split; try done; now rewrite E. Qed.

(** A bound on the steps an lcore still takes once [g_running] is false. *)
Definition rank_at (arg : LcoreArg) (j : nat) : Z -> nat := nth j (ranks_of arg) (fun _ => 0%nat).

Definition steps_left (th : Thread) : nat :=
  match th_pc th with
  | PcStart => 2
  | PcLoop => 1
  | PcBurst j =>
      2 + match th_engines th !! j with
          | Some en => weight (rank_at (th_arg th) j) 5 (queue_ (en_disp en))
          | None => 0
          end + (length (th_engines th) - S j) * S burst_cost
  | PcEnd => 0
  end.

(** What a step of an lcore leaves. *)
Definition steps_to (th : Thread) (w : Lcore) (th' : Thread) (w' : Lcore) : Prop :=
  thread_ok th' /\ shared_ok w' /\ th_arg th' = th_arg th /\
  in_dev (w_dev w') ++ thread_packets th' ≡ₚ in_dev (w_dev w) ++ thread_packets th /\
  (th_pc th <> PcLoop -> (steps_left th' < steps_left th)%nat).

Lemma start_step fuel cfg running th w :
  thread_ok th -> cfg_ok cfg -> 65536 <= Z.of_nat fuel -> shared_ok w -> w_lb w = th_lb th -> th_pc th = PcStart ->
  exists th' w', thread_step fuel cfg running th w = Ret (th', w') /\ steps_to th w th' w'.
Proof.
  intros Hth Hc Hf Hs El Hpc. pose proof (thread_world th w Hth Hs El) as Hw. destruct Hth as [Hl Hn Ha Hp].
  unfold thread_step. rewrite Hpc in *. destruct Hp as [Hen Hno].
  destruct (build_engines_spec fuel cfg (th_arg th) w Ha) as (engines & w' & -> & Hw' & Hall & Hq & Hd & Hm); try done.
  { destruct Hs. split; try done; rewrite El; try done. apply (li_stats _ _ Hl). }
  cbn [obind]. eexists _, _. split; [done|]. unfold steps_to, steps_left. rewrite Hpc. cbn [th_arg th_pc]. split_and!; try done.
  - split; cbn [th_lb th_arg th_pc th_engines].
    + exact (lo_lb _ _ Hw').
    + exact (lo_stats _ _ Hw').
    + done.
    + split_and!; try done. intros k en Hk _. exact (Forall_lookup_1 _ _ _ _ Hq Hk).
  - exact (lcore_shared _ _ Hw').
  - rewrite Hd. apply Permutation_app_head. unfold thread_packets. rewrite Hen. cbn [th_engines].
    now rewrite (idle_engines_packets _ _ _ Hall Hq).
  - intros _. lia.
Qed.

(** Entering the burst of graph [j], from the head of the loop or from the burst
    before. *)
Lemma begin_step th w pc j :
  thread_ok th -> shared_ok w -> w_lb w = th_lb th -> th_pc th <> PcStart -> th_pc th <> PcEnd ->
  pc = th_pc th -> engines_ok (th_arg th) pc (th_engines th) ->
  (forall k, pc = PcBurst k -> S k = j /\ forall en, th_engines th !! k = Some en -> queue_ (en_disp en) = []) ->
  (j < length (th_engines th))%nat ->
  exists th', begin_burst th j = Ret th' /\ steps_to th w th' w.
Proof.
  intros Hth Hs El Hns Hne -> He Hk Hj. destruct (begin_burst_spec th (th_pc th) j Hns He Hk Hj)
    as (th' & E & Ea & Elb & Epc & He' & Hperm & (en' & Hen' & Hq') & Hlen & Hoth).
  destruct Hth as [Hl Hn Ha _]. exists th'. split; [done|]. split_and!; try done.
  - split; unfold thread_ports in *; rewrite ?Epc, ?Elb, ?Ea; try done. destruct (th_pc th); try done.
  - now rewrite Hperm.
  - intros Hnl. unfold steps_left at 1. rewrite Epc, Hen', Hq', Hlen, Ea. pose proof (weight_root (rank_at (th_arg th) j)).
    unfold steps_left. destruct (th_pc th) as [| |k|]; try done. destruct (Hk k eq_refl) as [<- Hqk].
    replace (length (th_engines th) - S k)%nat with (S (length (th_engines th) - S (S k))) by lia. lia.
Qed.

Lemma rank_at_lookup arg j rank : ranks_of arg !! j = Some rank -> rank_at arg j = rank.
Proof. intros Hj. unfold rank_at. rewrite nth_lookup, Hj. done. Qed.

(** Draining a node. *)
Lemma burst_step th w j en v :
  thread_ok th -> shared_ok w -> w_lb w = th_lb th -> th_pc th = PcBurst j ->
  th_engines th !! j = Some en -> back (queue_ (en_disp en)) = Some v ->
  exists d w', drain_back (en_graph en) (en_disp en) w v = Ret (d, w') /\
    steps_to th w (mkThread (th_arg th) (PcBurst j) (<[j := set_disp en d]> (th_engines th)) (w_lb w')) w'.
Proof.
  intros Hth Hs El Hpc Hen Hv. pose proof (thread_world th w Hth Hs El) as Hw. destruct Hth as [Hl Hn Ha Hp].
  unfold thread_ports in *. rewrite Hpc in *. pose proof Hp as (Hall & _ & _).
  destruct (Forall2_lookup_r _ _ _ _ _ Hall Hen) as (rank & Hrank & He).
  destruct (@drain_step _ (lcore_world (arg_ports (th_arg th))) first_source (en_graph en) (en_disp en) w v)
    as (T & d & w' & new & HT & Hv0 & Ed & Hw' & Hd & Hq & Hnd & Hin & Hc); try done; try apply He.
  exists d, w'. split; [done|]. pose proof (weight_drop _ _ rank 5 v T new (eo_graph _ _ _ He) (eo_rank _ _ _ He) Hv0 HT Hnd Hin) as Hlt.
  split_and!.
  - split; unfold thread_ports; cbn [th_lb th_arg th_pc th_engines]; try done; [apply Hw'|apply Hw'|].
    eapply engines_ok_insert; try done; [|by left|congruence]. destruct He as [? ? ? ? ? Hwt]. split; try done. cbn.
    rewrite Hq, weight_app. apply back_pop_back in Hv. rewrite Hv, weight_app in Hwt. lia.
  - exact (lcore_shared _ _ Hw').
  - done.
  - unfold thread_packets. cbn [th_engines]. destruct (packets_insert _ j en (set_disp en d) Hen) as (rest & -> & ->).
    rewrite !app_assoc. apply Permutation_app_tail. exact Hc.
  - intros _. unfold steps_left. rewrite Hpc. cbn [th_pc th_engines th_arg]. rewrite Hen, length_insert.
    rewrite list_lookup_insert_eq by now apply lookup_lt_Some in Hen. cbn [en_disp set_disp].
    rewrite (rank_at_lookup _ _ _ Hrank), Hq, weight_app. apply back_pop_back in Hv. rewrite Hv at 2. rewrite weight_app. lia.
Qed.

(** Every step an lcore takes is defined, keeps its invariant, and neither loses
    nor duplicates a packet. *)
Lemma thread_step_spec fuel cfg running th w :
  thread_ok th -> cfg_ok cfg -> 65536 <= Z.of_nat fuel -> shared_ok w -> w_lb w = th_lb th -> th_pc th <> PcEnd ->
  exists th' w', thread_step fuel cfg running th w = Ret (th', w') /\ steps_to th w th' w' /\
    (running = false -> (steps_left th' < steps_left th)%nat).
Proof.
  intros Hth Hc Hf Hs El Hne. pose proof Hth as [Hl Hn Ha Hp]. destruct (th_pc th) as [| |j|] eqn:Hpc; [| | |done].
  - destruct (start_step fuel cfg running th w Hth Hc Hf Hs El Hpc) as (th' & w' & E & Hst).
    exists th', w'. split_and!; try done. intros _. apply Hst. congruence.
  - unfold thread_step. rewrite Hpc. destruct running.
    + destruct (begin_step th w PcLoop 0 Hth Hs El) as (th' & -> & Hst); try done; try congruence.
      { destruct Hp as (Hall & _). apply Forall2_length in Hall. rewrite <- Hall. unfold ranks_of. destruct (role _); simpl; lia. }
      cbn [obind]. exists th', w. done.
    + eexists _, _. split; [done|]. unfold steps_left. rewrite Hpc. cbn [th_pc]. split; [|lia]. split_and!; try done.
      split; unfold thread_ports in *; rewrite ?Hpc in Hl; try done. destruct Hp as (? & _ & Hi). split_and!; try done.
      intros k en Hk _. now apply (Hi k en Hk).
  - pose proof Hp as (Hall & Hj & Hi). destruct (lookup_lt_is_Some_2 _ _ (Hj j eq_refl)) as [en Hen].
    unfold thread_step. rewrite Hpc, (proj2 (at_Ret _ _ en)) by done. cbn [obind].
    destruct (back (queue_ (en_disp en))) as [v|] eqn:Hv.
    + destruct (burst_step th w j en v) as (d & w' & -> & Hst); try done. cbn [obind]. eexists _, _. split; [done|].
      split; [done|]. intros _. apply Hst. congruence.
    + apply back_None in Hv. destruct (Nat.ltb_spec (S j) (length (th_engines th))) as [Hlt|Hge].
      * destruct (begin_step th w (PcBurst j) (S j) Hth Hs El) as (th' & -> & Hst); try done; try congruence.
        { intros k [= <-]. split; [done|]. intros en' Hk. congruence. }
        cbn [obind]. eexists _, _. split; [done|]. split; [done|]. intros _. apply Hst. congruence.
      * eexists _, _. split; [done|].
        assert (Hlt : (steps_left (mkThread (th_arg th) PcLoop (th_engines th) (th_lb th)) < steps_left th)%nat)
          by (unfold steps_left; rewrite Hpc; simpl; lia).
        split; [|done]. split_and!; try done. split; unfold thread_ports in *; rewrite ?Hpc in Hl; try done.
        split_and!; try done. cbn [th_engines]. intros k en' Hk _.
        destruct (decide (k = j)) as [->|]; [congruence|]. apply (Hi k en' Hk). congruence.
Qed.

Lemma steps_left_bound th : thread_ok th -> Z.of_nat (steps_left th) <= 118101.
Proof.
  intros [_ _ _ Hp]. unfold steps_left. destruct (th_pc th) as [| |j|]; try lia.
  destruct Hp as (Hall & Hj & _). destruct (lookup_lt_is_Some_2 _ _ (Hj j eq_refl)) as [en Hen]. rewrite Hen.
  destruct (Forall2_lookup_r _ _ _ _ _ Hall Hen) as (rank & Hrank & He).
  rewrite (rank_at_lookup _ _ _ Hrank). pose proof (eo_weight _ _ _ He) as Hw.
  apply Forall2_length in Hall. assert (Hl : (length (th_engines th) <= 2)%nat)
    by (rewrite <- Hall; unfold ranks_of; destruct (role _); simpl; lia).
  pose proof burst_cost_value.
  assert ((length (th_engines th) - S j) * S burst_cost <= 1 * S burst_cost)%nat by (apply Nat.mul_le_mono_r; lia). lia.
Qed.

(** ** All lcores *)

Record sys_ok (args : list LcoreArg) (total : list mbuf_ptr) (y : System) : Prop := {
  so_mem : forall m, mbuf_ok (y_mem y m);
  so_pool : forall pool, Load (cl_pool (y_loop y)) = Some pool -> pool_ok pool;
  so_threads : Forall thread_ok (y_threads y);
  so_args : th_arg <$> y_threads y = args;
  so_view : view_ok (y_view y) /\ 0 <= cv_count (y_view y) <= Z.of_nat kMaxBackends /\
    Forall entry_ok (take (Z.to_nat (cv_count (y_view y))) (cv_backends (y_view y)));
  so_snapshot : length (cl_snapshot (y_loop y)) = kMaxBackends;
  so_packets : in_dev (y_dev y) ++ concat (thread_packets <$> y_threads y) ≡ₚ total;
}.

Lemma sys_shared args total y th : sys_ok args total y -> shared_ok (world_of y th).
Proof. intros []. now split. Qed.

Lemma sys_lcore_total fuel cfg args total y i th :
  sys_ok args total y -> cfg_ok cfg -> 65536 <= Z.of_nat fuel ->
  y_threads y !! i = Some th -> th_pc th <> PcEnd ->
  exists th' w', thread_step fuel cfg (y_running y) th (world_of y th) = Ret (th', w') /\
    steps_to th (world_of y th) th' w' /\ (y_running y = false -> (steps_left th' < steps_left th)%nat).
Proof.
  intros Hy Hc Hf Hi Hne. apply thread_step_spec; try done; [|exact (sys_shared _ _ _ _ Hy)].
  exact (Forall_lookup_1 _ _ _ _ (so_threads _ _ _ Hy) Hi).
Qed.

Lemma lcore_step_ok fuel cfg args total i y y' :
  sys_ok args total y -> cfg_ok cfg -> 65536 <= Z.of_nat fuel -> lcore_step fuel cfg i y y' -> sys_ok args total y'.
Proof.
  intros Hy Hc Hf [th th' w' Hi Hne E].
  destruct (sys_lcore_total fuel cfg args total y i th Hy Hc Hf Hi Hne) as (th2 & w2 & E2 & (Hth & Hsh & Ha & Hp & _) & _).
  rewrite E in E2. injection E2 as <- <-. destruct Hy as [Hm Hpo Ht Har Hv Hs Hpk]. split; try done; cbn [set_thread y_mem y_threads y_dev].
  - apply Hsh.
  - now apply Forall_insert.
  - rewrite list_fmap_insert, Ha. rewrite list_insert_id; [done|]. now rewrite list_lookup_fmap, Hi.
  - destruct (concat_insert_split (thread_packets <$> y_threads y) i (thread_packets th)) as (rest & Hc1 & Hc2).
    { now rewrite list_lookup_fmap, Hi. }
    rewrite list_fmap_insert, Hc2, app_assoc, Hp, <- app_assoc. cbn [world_of w_dev]. now rewrite <- Hc1.
Qed.

(** A poll of an unchanged view keeps the pool. *)
Lemma control_poll_total fuel v st :
  view_ok v -> 0 <= cv_count v <= Z.of_nat kMaxBackends -> length (cl_snapshot st) = kMaxBackends -> (255 <= fuel)%nat ->
  exists st', control_poll fuel v st = Ret st' /\ length (cl_snapshot st') = kMaxBackends /\
    (cl_pool st' = cl_pool st \/
     Load (cl_pool st') = Some (pool_of (take (Z.to_nat (cv_count v)) (cv_backends v)))).
Proof.
  intros Hv Hc Hl Hf. destruct (decide (cv_seq v = cl_applied st)) as [He|Hne].
  - unfold control_poll. destruct fuel as [|fuel]; [lia|]. rewrite (ReadControl_spec fuel v (cl_snapshot st) Hv Hl Hc).
    cbn [obind]. rewrite He, Z.eqb_refl. cbn [negb]. eexists. split; [done|]. cbn [cl_snapshot cl_pool]. split; [|by left].
    destruct Hv as (Hlb & _). rewrite length_app, length_take, length_drop. lia.
  - destruct (control_poll_spec fuel v st Hv Hc Hl Hf Hne) as (st' & ? & ? & _ & ?). eauto 6.
Qed.

Lemma other_step_ok fuel args total y y' :
  sys_ok args total y -> (255 <= fuel)%nat -> other_step fuel y y' -> sys_ok args total y'.
Proof.
  intros [Hm Hpo Ht Har (Hv & Hc & He) Hs Hpk] Hf Hst. destruct Hst as [d Hd| |loop _ E|src view Hsrc Hlen E].
  - split; try done. cbn [y_dev y_threads]. now rewrite Hd.
  - split; done.
  - destruct (control_poll_total fuel _ _ Hv Hc Hs Hf) as (st' & E' & Hl' & Hpool). rewrite E in E'. injection E' as <-.
    split; try done. cbn [y_loop]. intros pool Hp. destruct Hpool as [Hq|Hq]; rewrite Hq in Hp; [now apply Hpo|].
    injection Hp as <-. apply pool_of_ok; [|done]. destruct Hv as (Hlb & _). rewrite length_take, Hlb. lia.
  - destruct (PublishControl_spec _ src Hv Hlen) as (v' & E' & Hv' & _ & Hc' & _ & Hb). rewrite E in E'. injection E' as <-.
    split; try done. cbn [y_view]. rewrite Hc', Nat2Z.id, Hb. split_and!; try done.
    + unfold published_count. lia.
    + unfold published_count. lia.
    + now apply Forall_take.
Qed.

Lemma sys_step_ok fuel cfg args total y y' :
  cfg_ok cfg -> 65536 <= Z.of_nat fuel -> sys_ok args total y -> sys_step fuel cfg y y' -> sys_ok args total y'.
Proof.
  intros Hc Hf Hy [i Hst|Hst]; [eapply lcore_step_ok; eauto|].
  apply (other_step_ok fuel args total y y' Hy); [lia|done].
Qed.

Lemma sys_reach_ok fuel cfg args total y y' :
  cfg_ok cfg -> 65536 <= Z.of_nat fuel -> sys_ok args total y -> rtc (sys_step fuel cfg) y y' -> sys_ok args total y'.
Proof. intros Hc Hf Hy Hr. induction Hr as [|y1 y2 y3 Hst _ IH]; [done|]. apply IH. eapply sys_step_ok; eauto. Qed.

(** ** The launch *)

(** What the main lcore has prepared when it launches the others. *)
Record prepared (mem : mbuf_ptr -> Mbuf) (view : ControlView) (loop : ControlLoop) (stats : list LcoreStats) : Prop := {
  pr_mem : forall m, mbuf_ok (mem m);
  pr_pool : forall pool, Load (cl_pool loop) = Some pool -> pool_ok pool;
  pr_view : view_ok view /\ 0 <= cv_count view <= Z.of_nat kMaxBackends /\
    Forall entry_ok (take (Z.to_nat (cv_count view)) (cv_backends view));
  pr_snapshot : length (cl_snapshot loop) = kMaxBackends;
  pr_slots : length stats = kMaxLcores;
  pr_stats : Forall (fun s => length (backend_flows s) = kMaxBackends /\ 0 <= new_flows s < 2 ^ 64) stats;
}.

Lemma assigned_ok lcores port rings egress_ring args :
  rings_made lcores rings egress_ring -> AssignRoles lcores port rings egress_ring = Ret args ->
  Forall arg_ok args /\ (length args <= kMaxLcores)%nat.
Proof.
  intros Hr E. unfold kMaxLcores.
  destruct (AssignRoles_cases _ _ _ _ _ Hr E) as [[-> _]|(e & _ & Hn & _ & ->)]; [split; [now repeat constructor|simpl; lia]|].
  split; [|simpl; rewrite length_imap; lia]. constructor; [split_and!; simpl; try done; lia|].
  apply Forall_forall. intros arg (i & r & _ & ->)%elem_of_imap_workers. split_and!; simpl; try done; lia.
Qed.

Lemma launched_ok d mem view loop args stats :
  prepared mem view loop stats -> Forall arg_ok args -> (length args <= kMaxLcores)%nat ->
  sys_ok args (in_dev d) (launched d mem view loop args stats).
Proof.
  intros [Hm Hp Hv Hs Hl Hst] Ha Hlen. split; try done; cbn [launched y_threads y_dev].
  - apply Forall_lookup_2. intros i th Hi. apply lookup_zip_with_Some in Hi as (arg & st & -> & Harg & Hst').
    destruct (Forall_lookup_1 _ _ _ _ Hst Hst') as [Hf Hn].
    split; cbn; try done; [now apply no_lb_inv|exact (Forall_lookup_1 _ _ _ _ Ha Harg)].
  - rewrite fmap_zip_with_l; [done|done|lia].
  - clear. rewrite <- (app_nil_r (in_dev d)) at 2. apply Permutation_app_head.
    revert stats. induction args as [|a args IH]; intros [|st stats]; try done. simpl. apply IH.
Qed.

Context (fuel : nat) (Hfuel : 65536 <= Z.of_nat fuel) (cfg : Config) (Hcfg : cfg_ok cfg).

(** The states of the process after the launch. *)
Definition reachable (lcores : list Z) (args : list LcoreArg) (d : dev) (y : System) : Prop :=
  exists port rings egress_ring mem view loop stats,
    rings_made lcores rings egress_ring /\ AssignRoles lcores port rings egress_ring = Ret args /\
    prepared mem view loop stats /\ rtc (sys_step fuel cfg) (launched d mem view loop args stats) y.

Lemma reachable_ok lcores args d y : reachable lcores args d y -> sys_ok args (in_dev d) y.
Proof.
  intros (port & rings & e & mem & view & loop & stats & Hr & E & Hp & Hst).
  destruct (assigned_ok _ _ _ _ _ Hr E) as [Ha Hl]. eapply sys_reach_ok; eauto. now apply launched_ok.
Qed.

(** Every lcore has graphs of its own nodes. *)
Lemma reachable_nodes lcores args d y : reachable lcores args d y -> system_nodes cfg args y.
Proof. intros (port & rings & e & mem & view & loop & stats & _ & _ & _ & Hst). exact (launched_reach_nodes _ _ _ _ _ _ _ _ _ Hst). Qed.

(** Workers have different ports. *)
Lemma arg_ports_disjoint lcores port rings e args i j a b p :
  rings_made lcores rings e -> AssignRoles lcores port rings e = Ret args ->
  args !! i = Some a -> args !! j = Some b -> p ∈ arg_ports a -> p ∈ arg_ports b -> i = j.
Proof.
  intros Hr E Hi Hj Ha Hb. destruct (AssignRoles_cases _ _ _ _ _ Hr E) as [[-> _]|(e' & _ & Hn & _ & ->)].
  { apply lookup_lt_Some in Hi, Hj. simpl in *. lia. }
  assert (Hw : forall k c, (io_arg port (Z.of_nat (length rings)) rings e' ::
      imap (worker_arg port (Z.of_nat (length rings)) rings e') rings) !! k = Some c ->
      p ∈ arg_ports c -> Z.of_nat k = p mod Z.of_nat (length rings) + 1).
  { intros [|k] c Hk Hc; simpl in Hk; [injection Hk as <-; now apply elem_of_nil in Hc|].
    rewrite list_lookup_imap in Hk. destruct (rings !! k) as [r|]; [|done]. injection Hk as <-.
    unfold arg_ports, lb_ports in Hc. cbn [role worker_arg worker_id n_workers] in Hc.
    rewrite elem_of_worker_ports in Hc. lia. }
  pose proof (Hw _ _ Hi Ha). pose proof (Hw _ _ Hj Hb). lia.
Qed.

Lemma NoDup_thread_ports th : NoDup (thread_ports th).
Proof.
  unfold thread_ports, arg_ports. destruct (th_pc th), (role (th_arg th)); try apply NoDup_nil_2; apply NoDup_lb_ports.
Qed.

(** A port a flow of an lcore holds is one of the lcore's ports. *)
Lemma held_own th s f :
  thread_ok th -> slots_ (nat_ (th_lb th)) !! s = Some f -> nf_occupied f = true -> nf_snat_port f <> 0 ->
  nf_snat_port f ∈ arg_ports (th_arg th).
Proof.
  intros [Hl _ _ _] Hs Ho Hz. pose proof (li_idx _ _ Hl s f Hs Ho) as Hr.
  destruct (lookup_lt_is_Some_2 (port_pools_ (th_lb th)) (Z.to_nat (nf_backend_idx f))) as [pool Hp].
  { rewrite (li_pools _ _ Hl). lia. }
  assert (Hin : nf_snat_port f ∈ thread_ports th).
  { rewrite <- (li_ports _ _ Hl _ _ Hp). apply elem_of_app. right. apply list_elem_of_omap. exists f.
    split; [eapply list_elem_of_lookup_2; eauto|]. now apply held_port_idx. }
  unfold thread_ports in Hin. destruct (th_pc th); [now apply elem_of_nil in Hin|done..].
Qed.

(** ** Properties *)

(** C3: the dataplane runs safely however its lcores interleave: in every state the
    process can reach, every lcore that has not left can take its next step (no
    access out of range, no failed assertion, no exception), the control loop's next
    poll returns, and the mbufs in the device and in front of the nodes of all lcores
    are together exactly those the process started with. *)
Theorem system_safe lcores args d y :
  reachable lcores args d y ->
  (forall i th, y_threads y !! i = Some th -> th_pc th <> PcEnd -> exists y', lcore_step fuel cfg i y y') /\
  (exists loop, control_poll fuel (y_view y) (y_loop y) = Ret loop) /\
  in_dev (y_dev y) ++ concat (thread_packets <$> y_threads y) ≡ₚ in_dev d.
Proof.
  intros Hy%reachable_ok. split; [|split; [|apply Hy]].
  - intros i th Hi Hne. destruct (sys_lcore_total fuel cfg _ _ y i th Hy Hcfg Hfuel Hi Hne) as (th' & w' & E & _).
    eexists. econstructor; eauto.
  - destruct Hy as [_ _ _ _ (Hv & Hc & _) Hs _].
    destruct (control_poll_total fuel _ _ Hv Hc Hs ltac:(lia)) as (loop & E & _). eauto.
Qed.

(** C4: an mbuf has exactly one owner: if the device held no mbuf twice to begin with,
    then in every reachable state every mbuf of the start, and no other, is once in the
    device (pool, queues, rings) and with no lcore, or once in front of a node of one
    lcore, with no other lcore and not in the device. So no packet is lost and two lcores
    never touch the same packet. *)
Theorem mbuf_single_owner lcores args d y :
  reachable lcores args d y -> NoDup (in_dev d) ->
  NoDup (in_dev (y_dev y)) /\ Forall (fun th => NoDup (thread_packets th)) (y_threads y) /\
  forall m, m ∈ in_dev d <->
    ((m ∈ in_dev (y_dev y) /\ Forall (fun th => m ∉ thread_packets th) (y_threads y)) \/
     (m ∉ in_dev (y_dev y) /\ exists i th, y_threads y !! i = Some th /\ m ∈ thread_packets th /\
        forall j th', y_threads y !! j = Some th' -> m ∈ thread_packets th' -> j = i)).
Proof.
  intros Hy%reachable_ok Hnd. pose proof (so_packets _ _ _ Hy) as Hp. rewrite <- Hp in Hnd.
  apply NoDup_app in Hnd as (Hdev & Hdis & Hnd). split; [done|]. split.
  { apply Forall_lookup. intros i th Hi. apply (NoDup_concat_elem (thread_packets <$> y_threads y) i); [done|].
    now rewrite list_lookup_fmap, Hi. }
  assert (Hthr : forall m i th, y_threads y !! i = Some th -> m ∈ thread_packets th -> m ∈ concat (thread_packets <$> y_threads y)).
  { intros m i th Hi Hm. apply (elem_of_concat_lookup _ i (thread_packets th)); [|done]. now rewrite list_lookup_fmap, Hi. }
  intros m. rewrite <- Hp, elem_of_app. split; [intros [Hm|Hm]|intros [[Hm _]|(_ & i & th & Hi & Hm & _)]; eauto].
  - left. split; [done|]. apply Forall_lookup. intros i th Hi Hth. exact (Hdis m Hm (Hthr m i th Hi Hth)).
  - right. split; [intros Hd; exact (Hdis m Hd Hm)|]. apply elem_of_concat_lookup_1 in Hm as (i & l & Hl & Hm).
    rewrite list_lookup_fmap in Hl. destruct (y_threads y !! i) as [th|] eqn:Hi; simplify_eq/=. exists i, th. split_and!; try done.
    intros j th' Hj Hm'. eapply (NoDup_concat_lookup (thread_packets <$> y_threads y)); rewrite ?list_lookup_fmap, ?Hi, ?Hj; done.
Qed.

(** C5: an SNAT port belongs to one connection: in every reachable state, two flows
    of whichever lcores that go to the same backend from the same SNAT port are one
    flow of one lcore. The tuple a backend answers to is unique in the process. *)
Theorem snat_ports_exclusive lcores args d y i j thi thj s t f g :
  reachable lcores args d y -> y_threads y !! i = Some thi -> y_threads y !! j = Some thj ->
  slots_ (nat_ (th_lb thi)) !! s = Some f -> slots_ (nat_ (th_lb thj)) !! t = Some g ->
  nf_occupied f = true -> nf_occupied g = true -> nf_snat_port f <> 0 ->
  nf_backend_idx f = nf_backend_idx g -> nf_snat_port f = nf_snat_port g -> i = j /\ s = t.
Proof.
  intros Hy Hi Hj Hs Ht Of Og Hz Eb Ep. pose proof (reachable_ok _ _ _ _ Hy) as [_ _ Hth Har _ _ _].
  pose proof (Forall_lookup_1 _ _ _ _ Hth Hi) as Hti. pose proof (Forall_lookup_1 _ _ _ _ Hth Hj) as Htj.
  destruct Hy as (port & rings & e & mem & view & loop & stats & Hr & E & _).
  assert (Hij : i = j).
  { eapply (arg_ports_disjoint lcores port rings e args); [exact Hr|exact E| | | |].
    - rewrite <- Har, list_lookup_fmap, Hi. done.
    - rewrite <- Har, list_lookup_fmap, Hj. done.
    - exact (held_own thi s f Hti Hs Of Hz).
    - rewrite Ep in *. exact (held_own thj t g Htj Ht Og Hz). }
  split; [done|]. subst j. assert (thj = thi) as -> by congruence.
  eapply (port_owner _ (th_lb thi)); eauto using NoDup_thread_ports, to_lb.
Qed.

(** ** Shutdown *)

Lemma ended_packets th : thread_ok th -> th_pc th = PcEnd -> thread_packets th = [].
Proof.
  intros [_ _ _ Hp] E. rewrite E in Hp. destruct Hp as (Hall & _ & Hi). unfold thread_packets.
  assert (Hq : Forall (fun en => queue_ (en_disp en) = []) (th_engines th)).
  { apply Forall_lookup_2. intros k en Hk. now apply (Hi k en Hk). }
  now apply (idle_engines_packets _ _ _ Hall).
Qed.


(** [sys_run n y y']: from [y] to [y'] with [n] steps of worker lcores, anything else
    in between. *)
Inductive sys_run : nat -> System -> System -> Prop :=
  | run_refl y : sys_run 0 y y
  | run_lcore n i y y1 y2 : lcore_step fuel cfg i y y1 -> sys_run n y1 y2 -> sys_run (S n) y y2
  | run_other n y y1 y2 : other_step fuel y y1 -> sys_run n y1 y2 -> sys_run n y y2.

Definition total_left (y : System) : nat := sum_list_with steps_left (y_threads y).

Lemma sum_insert (l : list Thread) i th th' :
  l !! i = Some th -> (steps_left th' < steps_left th)%nat ->
  (sum_list_with steps_left (<[i := th']> l) < sum_list_with steps_left l)%nat.
Proof.
  revert i. induction l as [|x l IH]; intros i Hi Hlt; [done|]. destruct i as [|i]; simpl in *; [simplify_eq; lia|].
  specialize (IH i Hi Hlt). lia.
Qed.

Lemma sys_run_bound args total n y y' :
  sys_ok args total y -> y_running y = false -> sys_run n y y' ->
  sys_ok args total y' /\ y_running y' = false /\ (n + total_left y' <= total_left y)%nat.
Proof.
  intros Hy Hr Hrun. induction Hrun as [y|n i y y1 y2 Hst _ IH|n y y1 y2 Hst _ IH]; [done| |].
  - pose proof (lcore_step_ok fuel cfg _ _ i y y1 Hy Hcfg Hfuel Hst) as Hy1. destruct Hst as [th th' w' Hi Hne E].
    destruct (sys_lcore_total fuel cfg args total y i th Hy Hcfg Hfuel Hi Hne) as (th2 & w2 & E2 & _ & Hlt).
    rewrite E in E2. injection E2 as <- <-. destruct (IH Hy1 Hr) as (Hy2 & Hr2 & Hle). split_and!; try done.
    pose proof (sum_insert _ _ _ _ Hi (Hlt Hr)). unfold total_left in *. cbn [set_thread y_threads] in Hle. lia.
  - pose proof (other_step_ok fuel _ _ y y1 Hy ltac:(lia) Hst) as Hy1.
    assert (Hsame : y_running y1 = false /\ y_threads y1 = y_threads y) by (destruct Hst; done).
    destruct Hsame as [Hr1 Ht1]. destruct (IH Hy1 Hr1) as (Hy2 & Hr2 & Hle). split_and!; try done.
    unfold total_left in *. now rewrite Ht1 in Hle.
Qed.

Lemma total_left_bound args total y :
  sys_ok args total y -> Z.of_nat (total_left y) <= 118101 * Z.of_nat (length (y_threads y)).
Proof.
  intros [_ _ Ht _ _ _ _]. unfold total_left. induction Ht as [|th l Hth _ IH]; [done|].
  pose proof (steps_left_bound th Hth). cbn [sum_list_with length]. lia.
Qed.

(** C21: the process stops: once a signal has cleared [g_running], the worker lcores
    take together at most 118101 more steps each, whatever else happens in between;
    and when none of them can go on, each has returned from [LcoreMain] and every
    mbuf is back with the device. *)
Theorem shutdown_completes lcores args d y n y' :
  reachable lcores args d y -> y_running y = false -> sys_run n y y' ->
  Z.of_nat n <= 118101 * Z.of_nat (length args) /\
  ((forall i y2, ~ lcore_step fuel cfg i y' y2) ->
   Forall (fun th => th_pc th = PcEnd) (y_threads y') /\ in_dev (y_dev y') ≡ₚ in_dev d).
Proof.
  intros Hy%reachable_ok Hr Hrun. destruct (sys_run_bound _ _ n y y' Hy Hr Hrun) as (Hy' & _ & Hle).
  pose proof (total_left_bound _ _ y Hy) as Hb. rewrite <- (so_args _ _ _ Hy), length_fmap. split; [lia|]. intros Hstuck.
  assert (Hend : Forall (fun th => th_pc th = PcEnd) (y_threads y')).
  { apply Forall_lookup_2. intros i th Hi. destruct (decide (th_pc th = PcEnd)) as [|Hne]; [done|]. exfalso.
    destruct (sys_lcore_total fuel cfg _ _ y' i th Hy' Hcfg Hfuel Hi Hne) as (th' & w' & E & _).
    eapply Hstuck. econstructor; eauto. }
  split; [done|]. rewrite <- (so_packets _ _ _ Hy').
  assert (Hnil : concat (thread_packets <$> y_threads y') = []); [|now rewrite Hnil, app_nil_r].
  pose proof (so_threads _ _ _ Hy') as Hth. clear -Hth Hend. induction Hth as [|th l Hok _ IH]; [done|].
  apply Forall_cons in Hend as [He Hend]. cbn [fmap list_fmap concat]. rewrite ended_packets by done. now apply IH.
Qed.

End Spec.
