(* ===== verification/FairRun.v ===== *)
(** * Runs of the process in which every lcore goes on

    An infinite sequence of steps of the process ([System]) in which a signal arrives and
    no lcore that was launched is left out for ever. In such a run the launched lcores
    come back; and from every state of the process there is such a run. *)

From stdpp Require Import relations.
From S2P Require Import Prelude FlowKey NetTypes BackendPool Ipc Graph Packet Nodes Dataplane DataplaneSpec Control ControlSpec.
From S2P Require Import System SystemSpec.

#[export] Instance Role_eq_dec : EqDecision Role.
Proof. solve_decision. Defined.

#[export] Instance LcoreArg_eq_dec : EqDecision LcoreArg.
Proof. solve_decision. Defined.

Section FairRun.
Context `{BuildParams} `{Dpdk}.
Context (fuel : nat) (Hfuel : 65536 <= Z.of_nat fuel) (cfg : Config) (Hcfg : cfg_ok cfg).

(** The lcores with the arguments [working] are those that were launched. *)
Record fair_run (working : list LcoreArg) (f : nat -> System) : Prop := {
  fr_step : forall n, sys_step fuel cfg (f n) (f (S n));
  fr_fair : forall n i th, y_threads (f n) !! i = Some th -> th_arg th ∈ working -> th_pc th <> PcEnd ->
    exists m, (n <= m)%nat /\ lcore_step fuel cfg i (f m) (f (S m));
  fr_signal : exists n, y_running (f n) = false;
}.

(** The launched lcores are back from [LcoreMain]. *)
Definition back (working : list LcoreArg) (y : System) : Prop :=
  Forall (fun th => th_arg th ∈ working -> th_pc th = PcEnd) (y_threads y).

#[export] Instance back_dec working y : Decision (back working y).
Proof. unfold back. apply _. Defined.

(** ** They come back *)

Lemma sys_step_running y y' : sys_step fuel cfg y y' -> y_running y = false -> y_running y' = false.
Proof. intros [i [th th' w' _ _ _]|Hst]; [done|]. by destruct Hst. Qed.

Lemma sys_step_threads y y' :
  sys_step fuel cfg y y' -> y_threads y' = y_threads y \/ exists i, lcore_step fuel cfg i y y'.
Proof. intros [i Hst|Hst]; [eauto|]. left. by destruct Hst. Qed.

Lemma sys_step_back args total working y y' :
  sys_ok args total y -> sys_step fuel cfg y y' -> back working y -> back working y'.
Proof.
  intros Hy Hst Hb. unfold back. destruct (sys_step_threads y y' Hst) as [->|[i [th th' w' Hi Hne E]]]; [done|].
  apply Forall_insert; [done|]. intros Ha.
  destruct (sys_lcore_total fuel cfg _ _ y i th Hy Hcfg Hfuel Hi Hne) as (th2 & w2 & E2 & (_ & _ & Harg & _) & _).
  rewrite E in E2. injection E2 as <- <-. rewrite Harg in Ha. destruct Hne. exact (Forall_lookup_1 _ _ _ _ Hb Hi Ha).
Qed.

Lemma sys_step_left args total y y' :
  sys_ok args total y -> y_running y = false -> sys_step fuel cfg y y' -> (total_left y' <= total_left y)%nat.
Proof.
  intros Hy Hr Hst. destruct (sys_step_threads y y' Hst) as [Ht|[i Hl]]; [unfold total_left; by rewrite Ht|].
  destruct (sys_run_bound fuel Hfuel cfg Hcfg args total 1 y y' Hy Hr) as (_ & _ & Hle); [|lia].
  eapply run_lcore; [exact Hl|apply run_refl].
Qed.

Section Run.
Context (working args : list LcoreArg) (total : list mbuf_ptr) (f : nat -> System).
Context (Hf : fair_run working f) (Hinit : sys_ok args total (f 0%nat)).

Lemma run_ok n : sys_ok args total (f n).
Proof. induction n as [|n IH]; [done|]. eapply sys_step_ok; [exact Hcfg|exact Hfuel|exact IH|apply (fr_step _ _ Hf)]. Qed.

Lemma run_stopped n m : (n <= m)%nat -> y_running (f n) = false -> y_running (f m) = false.
Proof. intros Hle Hr. induction Hle as [|m _ IH]; [done|]. eapply sys_step_running; [apply (fr_step _ _ Hf)|done]. Qed.

Lemma run_back n m : (n <= m)%nat -> back working (f n) -> back working (f m).
Proof. intros Hle Hb. induction Hle as [|m _ IH]; [done|]. eapply sys_step_back; [apply run_ok|apply (fr_step _ _ Hf)|done]. Qed.

Lemma run_left n m : (n <= m)%nat -> y_running (f n) = false -> (total_left (f m) <= total_left (f n))%nat.
Proof.
  intros Hle Hr. induction Hle as [|m Hle IH]; [done|]. etransitivity; [|exact IH].
  eapply sys_step_left; [apply run_ok|exact (run_stopped n m Hle Hr)|apply (fr_step _ _ Hf)].
Qed.

Lemma run_comes_back k n :
  y_running (f n) = false -> (total_left (f n) <= k)%nat -> exists m, (n <= m)%nat /\ back working (f m).
Proof.
  revert n. induction k as [k IH] using lt_wf_ind. intros n Hr Hk.
  destruct (decide (back working (f n))) as [Hb|Hb]; [eauto|].
  apply not_Forall_Exists, Exists_exists in Hb as (th & [i Hi]%list_elem_of_lookup & Hth); [|apply _].
  assert (Hw : th_arg th ∈ working /\ th_pc th <> PcEnd) 
    by (destruct (decide (th_arg th ∈ working)); [|by destruct Hth]; split; [done|]; intros He; by destruct Hth).
  destruct (fr_fair _ _ Hf n i th Hi (proj1 Hw) (proj2 Hw)) as (m & Hnm & Hst).
  pose proof (run_stopped n m Hnm Hr) as Hrm. pose proof (run_left n m Hnm Hr) as Hlm.
  destruct (sys_run_bound fuel Hfuel cfg Hcfg args total 1 (f m) (f (S m)) (run_ok m) Hrm) as (_ & Hrs & Hle).
  { eapply run_lcore; [exact Hst|apply run_refl]. }
  destruct (IH (total_left (f (S m))) ltac:(lia) (S m) Hrs ltac:(lia)) as (m' & Hle' & Hb). exists m'. split; [lia|done].
Qed.

(** From some point on the signal has arrived and the launched lcores are back. *)
Lemma fair_run_settles : exists N, forall n, (N <= n)%nat -> y_running (f n) = false /\ back working (f n).
Proof.
  destruct (fr_signal _ _ Hf) as [n Hn]. destruct (run_comes_back (total_left (f n)) n Hn (le_n _)) as (m & Hnm & Hb).
  exists m. intros k Hk. split; [apply (run_stopped n k); [lia|done]|exact (run_back m k Hk Hb)].
Qed.

End Run.

(** ** Such runs exist *)

(** The lcores in turn, one step each; an lcore that is back does nothing. *)
Definition turn (n : nat) (y : System) : System :=
  let i := (n mod length (y_threads y))%nat in
  match y_threads y !! i with
  | Some th =>
      if decide (th_pc th = PcEnd) then y
      else
        match thread_step fuel cfg (y_running y) th (world_of y th) with
        | Ret (th', w') => set_thread y i th' w'
        | _ => y
        end
  | None => y
  end.

(** The signal first, then the turns. *)
Fixpoint in_turn (y : System) (n : nat) : System :=
  match n with
  | O => y
  | S O => mkSystem (y_dev y) (y_mem y) false (y_threads y) (y_view y) (y_loop y)
  | S n => turn n (in_turn y n)
  end.

Lemma stutter y : sys_step fuel cfg y y.
Proof. apply SysOther. destruct y as [d m r t v l]. by apply (DeviceStep fuel (mkSystem d m r t v l) d). Qed.

Lemma turn_step n y : sys_step fuel cfg y (turn n y).
Proof.
  unfold turn. set (i := (n mod length (y_threads y))%nat). destruct (y_threads y !! i) as [th|] eqn:Hi; [|apply stutter].
  case_decide; [apply stutter|]. destruct (thread_step _ _ _ _ _) as [[th' w']| | |] eqn:E; try apply stutter.
  apply (SysLcore _ _ _ _ i). econstructor; eauto.
Qed.

Lemma turn_lcore args total n i y th :
  sys_ok args total y -> (n mod length (y_threads y))%nat = i -> y_threads y !! i = Some th -> th_pc th <> PcEnd ->
  lcore_step fuel cfg i y (turn n y).
Proof.
  intros Hy Hn Hi Hne. destruct (sys_lcore_total fuel cfg _ _ y i th Hy Hcfg Hfuel Hi Hne) as (th' & w' & E & _).
  unfold turn. rewrite Hn, Hi, decide_False, E by done. econstructor; eauto.
Qed.

Lemma turn_length n y : length (y_threads (turn n y)) = length (y_threads y).
Proof. unfold turn. repeat case_match; cbn [set_thread y_threads]; by rewrite ?length_insert. Qed.

Lemma in_turn_S y n : in_turn y (S (S n)) = turn (S n) (in_turn y (S n)).
Proof. done. Qed.

Lemma in_turn_step y n : sys_step fuel cfg (in_turn y n) (in_turn y (S n)).
Proof. destruct n as [|n]; [apply SysOther, SignalStep|]. rewrite in_turn_S. apply turn_step. Qed.

Lemma in_turn_length y n : length (y_threads (in_turn y n)) = length (y_threads y).
Proof. induction n as [|[|n] IH]; [done|done|]. rewrite in_turn_S, turn_length. done. Qed.

Lemma in_turn_view y n : y_view (in_turn y n) = y_view y.
Proof. induction n as [|[|n] IH]; [done|done|]. rewrite in_turn_S, <- IH. unfold turn. by repeat case_match. Qed.

(** The next turn of an lcore. *)
Lemma turn_of args total y gap n i th :
  (forall n, sys_ok args total (in_turn y n)) -> (1 <= n)%nat -> ((n + gap) mod length (y_threads y))%nat = i ->
  y_threads (in_turn y n) !! i = Some th -> th_pc th <> PcEnd ->
  exists m, (n <= m)%nat /\ lcore_step fuel cfg i (in_turn y m) (in_turn y (S m)).
Proof.
  intros Hok. revert n. induction gap as [|gap IH]; intros n Hn Hi Hth Hne; (destruct n as [|n]; [lia|]);
    (destruct (decide (S n mod length (y_threads y) = i)%nat) as [Hd|Hd];
      [exists (S n); split; [done|]; rewrite in_turn_S; rewrite <- (in_turn_length y (S n)) in Hd; by eapply turn_lcore|]).
  - by rewrite Nat.add_0_r in Hi.
  - destruct (IH (S (S n)) ltac:(lia)) as (m & Hm & Hst); [by rewrite <- Nat.add_succ_comm in Hi| |done|].
    { rewrite in_turn_S. unfold turn. rewrite in_turn_length. repeat case_match; try done. cbn [set_thread y_threads].
      by rewrite list_lookup_insert_ne. }
    exists m. split; [lia|done].
Qed.

Lemma fair_run_exists args total working y : sys_ok args total y -> fair_run working (in_turn y).
Proof.
  intros Hy. assert (Hok : forall n, sys_ok args total (in_turn y n)).
  { induction n as [|n IH]; [done|]. eapply sys_step_ok; [exact Hcfg|exact Hfuel|exact IH|apply in_turn_step]. }
  split; [apply in_turn_step| |by exists 1%nat].
  intros n i th Hi _ Hne. pose proof (lookup_lt_Some _ _ _ Hi) as Hlt. rewrite in_turn_length in Hlt.
  assert (Hn : exists n', (1 <= n')%nat /\ (n <= n')%nat /\ y_threads (in_turn y n') !! i = Some th).
  { destruct n as [|n]; [exists 1%nat|exists (S n)]; (split_and!; [lia|lia|done]). }
  destruct Hn as (n' & H1 & Hle & Hi').
  destruct (turn_of args total y (S n' * length (y_threads y) + i - n') n' i th Hok H1) as (m & Hm & Hst); [|done|done|].
  { replace (n' + (S n' * length (y_threads y) + i - n'))%nat with (i + S n' * length (y_threads y))%nat by nia.
    rewrite Nat.Div0.mod_add. by apply Nat.mod_small. }
  exists m. split; [lia|done].
Qed.

End FairRun.
