(* ===== verification/FineSteps.v ===== *)
(** * The lcores frame by frame

    The steps of [System], with the drain of a node taken apart: the frames that wait are
    taken, then for each of them the node loads the pool ([LbNode::Process], its first
    line) and, in a later step, handles the frame with the pool it has loaded. A poll of
    the main lcore or a step of another lcore may come in between. *)

From stdpp Require Import relations.
From S2P Require Import Prelude FlowKey NetTypes PortPool BackendPool NatTable Ipc PacketMeta LbNode Graph.
From S2P Require Import Packet Nodes Dataplane DataplaneSpec Control ControlSpec System DeviceUse SystemSpec.

Section Fine.
Context `{BuildParams} `{Dpdk}.

(** The locals of [DrainNode] and [Process]: the node, the frames left, the pool that has
    been loaded for the first of them. *)
Record Local := mkLocal { lc_node : Z; lc_frames : list nat; lc_pool : option (AtomicRcu BackendPool) }.

(** The process, and for each lcore its locals while it drains a node. *)
Record FSystem := mkFSystem { fs_sys : System; fs_local : list (option Local) }.

Definition world_with (y : System) (th : Thread) (pool : AtomicRcu BackendPool) : Lcore :=
  mkLcore (y_dev y) (y_mem y) (th_lb th) pool.

Definition put_disp (th : Thread) (j : nat) (en : Engine) (d : Dispatcher) (lb : LbNode) : Thread :=
  mkThread (th_arg th) (PcBurst j) (<[j := set_disp en d]> (th_engines th)) lb.

(** [DrainNode] up to its loop. *)
Definition begin_drain (d : Dispatcher) (node_id : Z) : outcome (list nat * Dispatcher) :=
  let! scheduled := set_at (scheduled_ d) (Z.to_nat node_id) 0 in
  let d := set_queue d scheduled (pop_back (queue_ d)) in
  let! frames := at_ (pending_ d) (Z.to_nat node_id) in
  Ret (frames, set_pending d (<[Z.to_nat node_id := []]> (pending_ d))).

Inductive fine_lcore (fuel : nat) (cfg : Config) (i : nat) (x : FSystem) : FSystem -> Prop :=
  | FineStep th th' w' :
      y_threads (fs_sys x) !! i = Some th -> fs_local x !! i = Some None -> th_pc th <> PcEnd ->
      (forall j en, th_pc th = PcBurst j -> th_engines th !! j = Some en -> back (queue_ (en_disp en)) = None) ->
      thread_step fuel cfg (y_running (fs_sys x)) th (world_of (fs_sys x) th) = Ret (th', w') ->
      fine_lcore fuel cfg i x (mkFSystem (set_thread (fs_sys x) i th' w') (fs_local x))
  | FineBegin th j en node_id frames d :
      y_threads (fs_sys x) !! i = Some th -> fs_local x !! i = Some None ->
      th_pc th = PcBurst j -> th_engines th !! j = Some en -> back (queue_ (en_disp en)) = Some node_id ->
      begin_drain (en_disp en) node_id = Ret (frames, d) ->
      fine_lcore fuel cfg i x
        (mkFSystem (set_thread (fs_sys x) i (put_disp th j en d (th_lb th)) (world_of (fs_sys x) th))
           (<[i := Some (mkLocal node_id frames None)]> (fs_local x)))
  | FineLoad node_id frame frames :
      fs_local x !! i = Some (Some (mkLocal node_id (frame :: frames) None)) ->
      fine_lcore fuel cfg i x
        (mkFSystem (fs_sys x) (<[i := Some (mkLocal node_id (frame :: frames) (Some (cl_pool (y_loop (fs_sys x)))))]> (fs_local x)))
  | FineRun th j en node_id frame frames pool d w p :
      y_threads (fs_sys x) !! i = Some th -> fs_local x !! i = Some (Some (mkLocal node_id (frame :: frames) (Some pool))) ->
      th_pc th = PcBurst j -> th_engines th !! j = Some en ->
      RunNode (en_graph en) (en_disp en) (world_with (fs_sys x) th pool) node_id frame = Ret (d, w) ->
      FRelease (pool_ d) frame = Ret p ->
      fine_lcore fuel cfg i x
        (mkFSystem (set_thread (fs_sys x) i (put_disp th j en (set_pool d p) (w_lb w)) w)
           (<[i := Some (mkLocal node_id frames None)]> (fs_local x)))
  | FineEnd node_id :
      fs_local x !! i = Some (Some (mkLocal node_id [] None)) ->
      fine_lcore fuel cfg i x (mkFSystem (fs_sys x) (<[i := None]> (fs_local x))).

Inductive fine_step (fuel : nat) (cfg : Config) (x x' : FSystem) : Prop :=
  | FineLcore i : fine_lcore fuel cfg i x x' -> fine_step fuel cfg x x'
  | FineOther y' : other_step fuel (fs_sys x) y' -> x' = mkFSystem y' (fs_local x) -> fine_step fuel cfg x x'.

(** The states after the launch. *)
Definition fine_reachable (fuel : nat) (cfg : Config) (lcores : list Z) (args : list LcoreArg) (d : dev) (x : FSystem) : Prop :=
  exists port rings egress_ring mem view loop stats,
    rings_made lcores rings egress_ring /\ AssignRoles lcores port rings egress_ring = Ret args /\
    prepared mem view loop stats /\
    rtc (fine_step fuel cfg) (mkFSystem (launched d mem view loop args stats) (replicate (length args) None)) x.

(** The step of an lcore, executed: what it is about to do is determined by where it is. *)
Definition play_lcore (fuel : nat) (cfg : Config) (i : nat) (x : FSystem) : option FSystem :=
  let y := fs_sys x in
  match y_threads y !! i, fs_local x !! i with
  | Some th, Some None =>
      match th_pc th with
      | PcEnd => None
      | PcBurst j =>
          en ← th_engines th !! j;
          match back (queue_ (en_disp en)) with
          | Some node_id =>
              match begin_drain (en_disp en) node_id with
              | Ret (frames, d) => Some (mkFSystem (set_thread y i (put_disp th j en d (th_lb th)) (world_of y th))
                  (<[i := Some (mkLocal node_id frames None)]> (fs_local x)))
              | _ => None
              end
          | None =>
              match thread_step fuel cfg (y_running y) th (world_of y th) with
              | Ret (th', w') => Some (mkFSystem (set_thread y i th' w') (fs_local x))
              | _ => None
              end
          end
      | _ =>
          match thread_step fuel cfg (y_running y) th (world_of y th) with
          | Ret (th', w') => Some (mkFSystem (set_thread y i th' w') (fs_local x))
          | _ => None
          end
      end
  | _, Some (Some (mkLocal node_id [] None)) => Some (mkFSystem y (<[i := None]> (fs_local x)))
  | _, Some (Some (mkLocal node_id (frame :: frames) None)) =>
      Some (mkFSystem y (<[i := Some (mkLocal node_id (frame :: frames) (Some (cl_pool (y_loop y))))]> (fs_local x)))
  | Some th, Some (Some (mkLocal node_id (frame :: frames) (Some pool))) =>
      match th_pc th with
      | PcBurst j =>
          en ← th_engines th !! j;
          match RunNode (en_graph en) (en_disp en) (world_with y th pool) node_id frame with
          | Ret (d, w) =>
              match FRelease (pool_ d) frame with
              | Ret p => Some (mkFSystem (set_thread y i (put_disp th j en (set_pool d p) (w_lb w)) w)
                  (<[i := Some (mkLocal node_id frames None)]> (fs_local x)))
              | _ => None
              end
          | _ => None
          end
      | _ => None
      end
  | _, _ => None
  end.

Lemma play_lcore_ok fuel cfg i x x' : play_lcore fuel cfg i x = Some x' -> fine_lcore fuel cfg i x x'.
Proof.
  unfold play_lcore. intros E.
  destruct (y_threads (fs_sys x) !! i) as [th|] eqn:Hi, (fs_local x !! i) as [[[node [|frame frames] [pool|]]|]|] eqn:Hl; try done;
    try (injection E as <-; first [by eapply FineEnd|by eapply FineLoad]).
  - destruct (th_pc th) as [| |j|] eqn:Hpc; try done. apply bind_Some in E as (en & Hj & E).
    destruct (RunNode _ _ _ _ _) as [[d w]|e| |] eqn:Er; try done. destruct (FRelease _ _) as [p|e| |] eqn:Ep; try done.
    injection E as <-. by eapply FineRun.
  - assert (Hstep : forall r, thread_step fuel cfg (y_running (fs_sys x)) th (world_of (fs_sys x) th) = r ->
      match r with Ret (th', w') => Some (mkFSystem (set_thread (fs_sys x) i th' w') (fs_local x)) | _ => None end = Some x' ->
      th_pc th <> PcEnd -> (forall j en, th_pc th = PcBurst j -> th_engines th !! j = Some en -> back (queue_ (en_disp en)) = None) ->
      fine_lcore fuel cfg i x x').
    { intros r Er E2 Hne Hq. destruct r as [[th' w']|e| |]; try done. injection E2 as <-. by eapply FineStep. }
    destruct (th_pc th) as [| |j|] eqn:Hpc; try done; [by eapply Hstep..|]. apply bind_Some in E as (en & Hj & E).
    destruct (back (queue_ (en_disp en))) as [node|] eqn:Hq.
    + destruct (begin_drain _ _) as [[frames d]|e| |] eqn:Eb; try done. injection E as <-. by eapply FineBegin.
    + eapply Hstep; [reflexivity|exact E|done|]. intros j' en' [= <-] Hj'. congruence.
Qed.

(** ** What the steps keep *)

(** The control view and the buffer of the control loop. *)
Definition control_ok (y : System) : Prop :=
  view_ok (y_view y) /\ 0 <= cv_count (y_view y) <= Z.of_nat kMaxBackends /\ length (cl_snapshot (y_loop y)) = kMaxBackends.

Lemma other_step_control fuel y y' : (255 <= fuel)%nat -> control_ok y -> other_step fuel y y' -> control_ok y'.
Proof.
  intros Hf (Hv & Hc & Hs) Hst. destruct Hst as [d Hd| |loop _ E|src view Hsrc Hlen E]; try done.
  - destruct (control_poll_total fuel _ _ Hv Hc Hs Hf) as (st' & E' & Hl' & _). rewrite E in E'. by injection E' as <-.
  - destruct (PublishControl_spec _ src Hv Hlen) as (v' & E' & Hv' & _ & Hc' & _). rewrite E in E'. injection E' as <-.
    split; [done|]. split; [cbn [y_view]; rewrite Hc'; unfold published_count; lia|done].
Qed.

Lemma fine_lcore_shared fuel cfg i x x' :
  fine_lcore fuel cfg i x x' -> y_view (fs_sys x') = y_view (fs_sys x) /\ y_loop (fs_sys x') = y_loop (fs_sys x).
Proof. by intros []. Qed.

Lemma set_thread_nodes cfg args y i th th' w' :
  system_nodes cfg args y -> y_threads y !! i = Some th -> th_arg th' = th_arg th -> engines_of cfg (th_arg th) (th_engines th') ->
  system_nodes cfg args (set_thread y i th' w').
Proof.
  intros Hu Hi Ha He k t Hk. cbn in Hk. destruct (decide (k = i)) as [->|Hne].
  - rewrite list_lookup_insert_eq in Hk by (by eapply lookup_lt_Some). injection Hk as <-. rewrite Ha. split; [apply (Hu i th Hi)|done].
  - rewrite list_lookup_insert_ne in Hk by done. exact (Hu k t Hk).
Qed.

Lemma put_disp_engines cfg th j en d lb :
  engines_of cfg (th_arg th) (th_engines th) -> th_engines th !! j = Some en ->
  engines_of cfg (th_arg th) (th_engines (put_disp th j en d lb)).
Proof. intros Hu Hj. apply Forall_insert; [done|]. exact (Forall_lookup_1 _ _ _ _ Hu Hj). Qed.

Section Keeps.
Context (R : LcoreArg -> Lcore -> Lcore -> Prop) `{!forall arg, PreOrder (R arg)}.
Context (R_nodes : forall cfg arg node, node_of cfg arg node -> node_keeps (R arg) node).
Context (R_build : forall arg w w', same_but_lb w w' -> R arg w w').

(** A step of lcore [i]: the pool it uses is the current one or the one it has loaded, the
    other lcores stay as they are. *)
Lemma fine_lcore_keeps fuel cfg args i x x' :
  system_nodes cfg args (fs_sys x) -> fine_lcore fuel cfg i x x' ->
  system_nodes cfg args (fs_sys x') /\
  (forall k, k <> i -> y_threads (fs_sys x') !! k = y_threads (fs_sys x) !! k /\ fs_local x' !! k = fs_local x !! k) /\
  forall th th', y_threads (fs_sys x) !! i = Some th -> y_threads (fs_sys x') !! i = Some th' ->
    th_lb th' = th_lb th \/
    exists pool w', R (th_arg th) (world_with (fs_sys x) th pool) w' /\ th_lb th' = w_lb w' /\
      (pool = cl_pool (y_loop (fs_sys x)) \/ exists node frames, fs_local x !! i = Some (Some (mkLocal node frames (Some pool)))).
Proof using Type*.
  intros Hu Hst. assert (Hset : forall th th' w', y_threads (fs_sys x) !! i = Some th ->
    y_threads (set_thread (fs_sys x) i th' w') !! i = Some th').
  { intros th th' w' Hi. cbn. apply list_lookup_insert_eq. by eapply lookup_lt_Some. }
  destruct Hst as [th th' w' Hi Hl Hpc _ E|th j en node frames d Hi Hl Hpc Hj _ _|node frame frames Hl
    |th j en node frame frames pool d w p Hi Hl Hpc Hj E _|node Hl]; cbn [fs_sys fs_local].
  - destruct (Hu i th Hi) as [_ Hen].
    destruct (thread_step_keeps R R_nodes R_build _ _ _ _ (world_of (fs_sys x) th) _ _ Hen eq_refl E) as (Ha & Hen' & Huse & Hlb).
    split; [by eapply set_thread_nodes|]. split; [intros k Hk; cbn; by rewrite list_lookup_insert_ne|].
    intros t t' Ht Ht'. rewrite (Hset _ _ _ Hi) in Ht'. simplify_eq. right. exists (cl_pool (y_loop (fs_sys x))), w'. split_and!; try done. by left.
  - destruct (Hu i th Hi) as [_ Hen]. split; [eapply set_thread_nodes; [done|done|done|by apply put_disp_engines]|].
    split; [intros k Hk; cbn; by rewrite !list_lookup_insert_ne|].
    intros t t' Ht Ht'. rewrite (Hset _ _ _ Hi) in Ht'. simplify_eq. by left.
  - split; [done|]. split; [intros k Hk; by rewrite list_lookup_insert_ne|]. intros t t' Ht Ht'. left. congruence.
  - destruct (Hu i th Hi) as [_ Hen]. split; [eapply set_thread_nodes; [done|done|done|by apply put_disp_engines]|].
    split; [intros k Hk; cbn; by rewrite !list_lookup_insert_ne|].
    intros t t' Ht Ht'. rewrite (Hset _ _ _ Hi) in Ht'. simplify_eq. right. exists pool, w. split; [|split; [done|right; eauto]].
    refine (RunNode_keeps (R (th_arg th)) _ _ _ _ _ _ _ _ E). eapply Forall_impl; [exact (Forall_lookup_1 _ _ _ _ Hen Hj)|].
    intros node'. apply R_nodes.
  - split; [done|]. split; [intros k Hk; by rewrite list_lookup_insert_ne|]. intros t t' Ht Ht'. left. congruence.
Qed.

Lemma fine_reachable_ok fuel cfg lcores args d x :
  (255 <= fuel)%nat -> fine_reachable fuel cfg lcores args d x -> control_ok (fs_sys x) /\ system_nodes cfg args (fs_sys x).
Proof using Type*.
  intros Hf (port & rings & e & mem & view & loop & stats & _ & _ & [_ _ (Hv & Hc & _) Hs _ _] & Hst).
  revert Hst. apply (rtc_ind_r (fun x => control_ok (fs_sys x) /\ system_nodes cfg args (fs_sys x))).
  - split; [done|apply launched_nodes].
  - intros x1 x2 _ [i Hl|y' Ho ->] [Hok Hn].
    + destruct (fine_lcore_shared _ _ _ _ _ Hl) as [Ev El]. split; [unfold control_ok; by rewrite Ev, El|].
      exact (proj1 (fine_lcore_keeps _ _ _ _ _ _ Hn Hl)).
    + split; [by eapply other_step_control|]. by destruct Ho.
Qed.

End Keeps.

End Fine.
