(* ===== verification/Drain.v ===== *)
(** * Taking a backend out of service

    The path of a health verdict through the whole process: the control plane publishes
    a backend as disabled, the main lcore polls and stores a pool without it, and from
    then on no lcore opens a connection to it, however the steps interleave, except with
    a pool that it had loaded before for the frame it is in. The steps are those of
    [FineSteps]; what is observed is the table and the counter of each lcore. *)

From stdpp Require Import relations.
From S2P Require Import Prelude FlowKey NetTypes PortPool BackendPool NatTable Ipc PacketMeta LbNode Graph.
From S2P Require Import Packet Nodes Dataplane DataplaneSpec Control ControlSpec System DeviceUse TableKeys SystemSpec FineSteps.

Section Drain.
Context `{BuildParams} `{Dpdk}.

(** The connections opened to each backend. *)
Definition opened (lb : LbNode) : list Z := backend_flows (stats_ lb).

(** The pool, if there is one, does not offer slot [i]. *)
Definition slot_off (i : nat) (rcu : AtomicRcu BackendPool) : Prop :=
  forall pool, Load rcu = Some pool -> Forall (fun j => Z.to_nat j <> i) (bp_active pool).

(** The published set does not offer slot [i]. *)
Definition view_off (i : nat) (view : ControlView) : Prop :=
  forall b, take (Z.to_nat (cv_count view)) (cv_backends view) !! i = Some b -> cb_enabled b = 0.

(** ** One packet *)

Lemma add_backend_flows_other s j n s' i : add_backend_flows s j n = Ret s' -> j <> i -> backend_flows s' !! i = backend_flows s !! i.
Proof.
  unfold add_backend_flows. destruct (at_ _ _); cbn [obind]; try done. intros [= <-] Hne. cbn. by rewrite list_lookup_insert_ne.
Qed.

Lemma CreateFlow_opened lb meta key pool now r lb' i :
  CreateFlow lb meta key pool now = Ret (r, lb') -> Forall (fun j => Z.to_nat j <> i) (bp_active pool) ->
  opened lb' !! i = opened lb !! i.
Proof.
  intros E Hoff. unfold CreateFlow in E. destruct (Select pool key) as [j|e| |] eqn:Es; cbn [obind] in E; try done.
  apply Select_active in Es. rewrite Forall_forall in Hoff. specialize (Hoff j Es).
  destruct (At pool j) as [b|e| |]; cbn [obind] in E; try done. destruct (at_ _ _) as [ports|e| |]; cbn [obind] in E; try done.
  destruct (Acquire ports) as [snat ports']. destruct (snat =? 0); [now injection E as _ <-|].
  destruct (Insert _ _ _) as [[[inserted evp] evi] t].
  destruct (if negb (evp =? 0) then _ else _) as [lb1|e| |] eqn:E1; cbn [obind] in E; try done.
  assert (Ho : opened lb1 = opened lb).
  { destruct (negb (evp =? 0)); [apply release_port_stats in E1 as [E1 _]; unfold opened; now rewrite E1|now injection E1 as <-]. }
  destruct inserted as [s|].
  - destruct (add_backend_flows _ _ _) as [st|e| |] eqn:Ea; cbn [obind] in E; try done. injection E as _ <-.
    apply (add_backend_flows_other _ _ _ _ i) in Ea; [|done]. unfold opened in *. cbn in *. rewrite Ea. cbn. by rewrite Ho.
  - destruct (release_port lb1 j snat) as [lb2|e| |] eqn:E2; cbn [obind] in E; try done. injection E as _ <-.
    apply release_port_stats in E2 as [E2 _]. unfold opened in *. by rewrite E2, Ho.
Qed.

(** No packet opens a connection to a slot that the pool does not offer. *)
Lemma HandlePacket_opened lb meta pool now b meta' lb' i :
  HandlePacket lb meta pool now = Ret (b, meta', lb') -> Forall (fun j => Z.to_nat j <> i) (bp_active pool) ->
  opened lb' !! i = opened lb !! i.
Proof.
  intros E Hoff. assert (Hpre : PreOrder (fun lb lb' : LbNode => opened lb' !! i = opened lb !! i)) by (split; congruence).
  revert E. apply (HandlePacket_keeps (fun lb lb' => opened lb' !! i = opened lb !! i)); try done.
  - intros lb1 s dir flags lb2 E%MaybeTeardown_stats. unfold opened. by rewrite E.
  - intros lb1 r lb2 _ E. exact (CreateFlow_opened _ _ _ _ _ _ _ i E Hoff).
Qed.

(** A set of entries that leaves slot [i] alone: it may exclude entries of that slot only. *)
Definition about_slot (i : nat) (K : FlowKey -> Z -> Prop) : Prop := forall key j, Z.to_nat j <> i -> K key j.

Lemma HandlePacket_entries i K lb meta pool now b meta' lb' :
  about_slot i K -> HandlePacket lb meta pool now = Ret (b, meta', lb') -> Forall (fun j => Z.to_nat j <> i) (bp_active pool) ->
  entries_in K (nat_ lb) -> entries_in K (nat_ lb').
Proof.
  intros HK E Hoff. apply (entries_in_Handle K _ _ _ _ _ _ _ E). intros _ j Hj. apply HK. rewrite Forall_forall in Hoff. auto.
Qed.

(** ** One node *)

(** Nothing but the load balancer touches the table and the counters of connections. *)
Definition frozen (w w' : Lcore) : Prop :=
  w_pool w' = w_pool w /\ opened (w_lb w') = opened (w_lb w) /\ nat_ (w_lb w') = nat_ (w_lb w).

#[local] Instance frozen_preorder : PreOrder frozen.
Proof. split; [done|]. intros w1 w2 w3 (? & ? & ?) (? & ? & ?). split_and!; congruence. Qed.

(** No connection to slot [i] has been opened: its counter is the same, and so are the
    entries for it but for those that have gone. *)
Definition none_opened (i : nat) (lb lb' : LbNode) : Prop :=
  opened lb' !! i = opened lb !! i /\ forall K, about_slot i K -> entries_in K (nat_ lb) -> entries_in K (nat_ lb').

#[export] Instance none_opened_preorder i : PreOrder (none_opened i).
Proof. split; [by split|]. intros lb1 lb2 lb3 [O1 K1] [O2 K2]. split; [congruence|eauto]. Qed.

Definition no_new (i : nat) (w w' : Lcore) : Prop :=
  w_pool w' = w_pool w /\ (slot_off i (w_pool w) -> none_opened i (w_lb w) (w_lb w')).

#[export] Instance no_new_preorder i : PreOrder (no_new i).
Proof.
  split; [done|]. intros w1 w2 w3 [H1 H1'] [H2 H2']. split; [congruence|]. intros Hoff.
  transitivity (w_lb w2); [auto|]. apply H2'. by rewrite H1.
Qed.

Lemma frozen_no_new i w w' : frozen w w' -> no_new i w w'.
Proof. intros (Hp & Ho & Ht). split; [done|]. intros _. split; [by rewrite Ho|]. by rewrite Ht. Qed.

(** Takes apart the result of a body or of a node. *)
Ltac split_result E :=
  repeat match type of E with
  | obind ?x _ = Ret _ => destruct x as [?|?| |] eqn:?; cbn [obind] in E; try done
  | (let '(_, _) := ?p in _) = Ret _ => destruct p
  | (if ?b then _ else _) = Ret _ => destruct b
  end.

Ltac frozen_body := intros w nexts m w' nexts' E; split_result E; injection E as <- _; done.

Lemma parse_frozen cfg : body_keeps frozen (parse_packet cfg).
Proof. unfold parse_packet. frozen_body. Qed.

Lemma dnat_frozen cfg : body_keeps frozen (dnat_packet cfg).
Proof. unfold dnat_packet. frozen_body. Qed.

Lemma ether_frozen cfg : body_keeps frozen (ether_packet cfg).
Proof. unfold ether_packet. frozen_body. Qed.

Lemma arp_frozen cfg : body_keeps frozen (arp_packet cfg).
Proof. unfold arp_packet. frozen_body. Qed.

Lemma rx_forward_frozen : body_keeps frozen rx_forward.
Proof. unfold rx_forward. frozen_body. Qed.

Lemma lb_drop_frozen : body_keeps frozen lb_drop.
Proof. unfold lb_drop. frozen_body. Qed.

Lemma steer_frozen cfg rings n : body_keeps frozen (steer_packet cfg rings n).
Proof.
  intros w nexts m w' nexts' E. unfold steer_packet in E. destruct (ClassifyForSteer _ _ _) as [[[] worker]|e| |]; cbn [obind] in E; try done.
  - destruct (at_ _ _); cbn [obind] in E; try done. destruct (rte_ring_enqueue _ _ _). destruct (negb _); injection E as <- _; done.
  - destruct (move_to _ _ _); cbn [obind] in E; try done. injection E as <- _. done.
  - injection E as <- _. done.
Qed.

Lemma fill_mem_frozen l : forall w, frozen w (fill_mem w l).
Proof. induction l as [|[m data] l IH]; intros w; cbn [fill_mem]; [done|]. etransitivity; [|apply IH]. done. Qed.

Lemma rx_frozen port q : node_keeps frozen (RxNode port q).
Proof.
  intros w f nexts w' f' nexts' E. cbn in E. destruct (rte_eth_rx_burst _ _ _ _) as [l d].
  destruct (frame_items _) as [items|e| |]; cbn [obind] in E; try done.
  destruct (each rx_forward items _ nexts) as [[w1 nexts1]|e| |] eqn:E1; cbn [obind] in E; try done. injection E as <- _ _.
  apply (each_keeps frozen) in E1; [|apply rx_forward_frozen]. etransitivity; [|exact E1].
  transitivity (fill_mem (set_dev w d) l); [|done]. etransitivity; [|apply fill_mem_frozen]. done.
Qed.

Lemma ring_rx_frozen r : node_keeps frozen (RingRxNode r).
Proof.
  intros w f nexts w' f' nexts' E. cbn in E. destruct (rte_ring_dequeue_burst _ _ _) as [l d].
  destruct (frame_items _) as [items|e| |]; cbn [obind] in E; try done.
  destruct (each rx_forward items _ nexts) as [[w1 nexts1]|e| |] eqn:E1; cbn [obind] in E; try done. injection E as <- _ _.
  apply (each_keeps frozen) in E1; [|apply rx_forward_frozen]. etransitivity; [|exact E1]. done.
Qed.

Lemma tx_frozen port q : node_keeps frozen (TxNode port q).
Proof.
  intros w f nexts w' f' nexts' E. cbn in E. destruct (frame_items f); cbn [obind] in E; try done.
  destruct (rte_eth_tx_burst _ _ _ _). injection E as <- _ _. destruct (0 <? _); done.
Qed.

Lemma ring_tx_frozen r : node_keeps frozen (RingTxNode r).
Proof.
  intros w f nexts w' f' nexts' E. cbn in E. destruct (frame_items f); cbn [obind] in E; try done.
  destruct (rte_ring_enqueue_burst _ _ _). injection E as <- _ _. destruct (_ <? _); done.
Qed.

Lemma drop_frozen : node_keeps frozen DropNode.
Proof. intros w f nexts w' f' nexts' E. cbn in E. destruct (frame_items f); cbn [obind] in E; try done. injection E as <- _ _. done. Qed.

Lemma steer_node_frozen cfg rings n : node_keeps frozen (SteerNode cfg rings n).
Proof.
  intros w f nexts w' f' nexts' E. cbn in E. destruct (frame_items f) as [items|e| |]; cbn [obind] in E; try done.
  destruct (each _ items w nexts) as [[w1 nexts1]|e| |] eqn:E1; cbn [obind] in E; try done. injection E as <- _ _.
  exact (each_keeps frozen _ _ _ _ _ _ (steer_frozen cfg rings n) E1).
Qed.

Definition same_pool (w w' : Lcore) : Prop := w_pool w' = w_pool w.

Definition same_slot (i : nat) (w w' : Lcore) : Prop := none_opened i (w_lb w) (w_lb w').

#[local] Instance same_slot_preorder i : PreOrder (same_slot i).
Proof. split; [intros w; unfold same_slot; reflexivity|]. intros w1 w2 w3. unfold same_slot. intros. by transitivity (w_lb w2). Qed.

#[local] Instance same_pool_preorder : PreOrder same_pool.
Proof. split; [done|]. unfold same_pool. intros ? ? ?. congruence. Qed.

Lemma lb_packet_no_new i pool now : Forall (fun j => Z.to_nat j <> i) (bp_active pool) -> body_keeps (same_slot i) (lb_packet pool now).
Proof.
  intros Hoff w nexts m w' nexts' E. unfold lb_packet in E.
  destruct (HandlePacket _ _ _ _) as [[[ok meta] lb]|e| |] eqn:Eh; cbn [obind] in E; try done.
  destruct (move_to _ _ _); cbn [obind] in E; try done. injection E as <- _.
  split; [exact (HandlePacket_opened _ _ _ _ _ _ _ i Eh Hoff)|]. intros K HK. exact (HandlePacket_entries i K _ _ _ _ _ _ _ HK Eh Hoff).
Qed.

Lemma lb_packet_pool pool now : body_keeps same_pool (lb_packet pool now).
Proof.
  intros w nexts m w' nexts' E. unfold lb_packet in E.
  destruct (HandlePacket _ _ _ _) as [[[ok meta] lb]|e| |]; cbn [obind] in E; try done.
  destruct (move_to _ _ _); cbn [obind] in E; try done. now injection E as <- _.
Qed.

Lemma lb_no_new i : node_keeps (no_new i) LbNode_node.
Proof.
  intros w f nexts w' f' nexts' E.
  assert (Hd : forall (R : Lcore -> Lcore -> Prop), (forall w w', frozen w w' -> R w w') -> body_keeps R lb_drop).
  { intros R HR w0 n0 m0 w1 n1 E0. apply HR. exact (lb_drop_frozen _ _ _ _ _ E0). }
  split.
  - revert E. apply (Lb_Process_keeps same_pool); [apply Hd; now intros ? ? []|intros; apply lb_packet_pool|done].
  - intros Hoff. revert E. apply (Lb_Process_keeps (same_slot i)); [apply Hd; intros ? ? (_ & Ho & Ht)| |done].
    + split; [by rewrite Ho|]. by rewrite Ht.
    + intros pool now Hl. apply lb_packet_no_new. exact (Hoff pool Hl).
Qed.

Lemma node_of_no_new i cfg (arg : LcoreArg) node : node_of cfg arg node -> node_keeps (no_new i) node.
Proof.
  assert (Hf : forall node, node_keeps frozen node -> node_keeps (no_new i) node).
  { intros nd Hk w f nexts w' f' nexts' E. apply frozen_no_new. exact (Hk _ _ _ _ _ _ E). }
  intros []; eauto using rx_frozen, tx_frozen, ring_rx_frozen, ring_tx_frozen, drop_frozen, steer_node_frozen, lb_no_new;
    apply Hf, (loop_node_keeps frozen); eauto using parse_frozen, dnat_frozen, ether_frozen, arp_frozen.
Qed.

Lemma same_but_lb_no_new i (arg : LcoreArg) w w' : same_but_lb w w' -> no_new i w w'.
Proof.
  intros (_ & _ & Hp & Hs & Ht). split; [done|]. intros _. unfold none_opened, opened. rewrite Hs. split; [done|].
  intros K _ Hk. destruct Ht as [->|[timeout ->]]; [done|apply entries_in_new].
Qed.

(** ** The control loop *)

Lemma pool_of_off i l : (forall b, l !! i = Some b -> cb_enabled b = 0) -> Forall (fun j => Z.to_nat j <> i) (bp_active (pool_of l)).
Proof.
  intros Hoff. apply Forall_forall. intros j Hj Hi. cbn in Hj. apply elem_of_active in Hj as Hr. destruct Hr as [Hr _].
  destruct (lookup_lt_is_Some_2 l i) as [b Eb]; [lia|]. assert (Hji : Z.of_nat i = j) by lia.
  apply (proj1 (pool_of_active l i b Eb)); [cbn; by rewrite Hji|by apply Hoff].
Qed.

Section Run.
Context (fuel : nat) (Hfuel : (255 <= fuel)%nat) (cfg : Config).

(** A step after which slot [i] is not published as enabled. *)
Definition off_step (i : nat) (x x' : FSystem) : Prop := fine_step fuel cfg x x' /\ view_off i (y_view (fs_sys x')).

(** The pool lcore [k] has loaded, if it is in the middle of a frame. *)
Definition loaded (x : FSystem) (k : nat) : option (AtomicRcu BackendPool) :=
  match fs_local x !! k with
  | Some (Some l) => lc_pool l
  | _ => None
  end.

(** The backend is off in the view and in the pool, and lcore [k] holds no older pool. *)
Record off_for (i k : nat) (args : list LcoreArg) (x : FSystem) : Prop := {
  of_control : control_ok (fs_sys x);
  of_nodes : system_nodes cfg args (fs_sys x);
  of_view : view_off i (y_view (fs_sys x));
  of_pool : slot_off i (cl_pool (y_loop (fs_sys x)));
  of_loaded : forall pool, loaded x k = Some pool -> slot_off i pool;
}.

Lemma other_step_off i y y' :
  control_ok y -> view_off i (y_view y) -> slot_off i (cl_pool (y_loop y)) -> other_step fuel y y' ->
  slot_off i (cl_pool (y_loop y')) /\ y_threads y' = y_threads y.
Proof using Hfuel.
  intros (Hvo & Hc & Hsn) Hv Hs Ho. destruct Ho as [d Hd| |loop _ E|src view Hsrc Hlen E]; (split; [|done]); try exact Hs.
  cbn [y_loop y_view] in *. destruct (control_poll_total fuel _ _ Hvo Hc Hsn Hfuel) as (st' & E' & _ & Hpool). rewrite E in E'. injection E' as <-.
  destruct Hpool as [->|Hp]; [exact Hs|]. intros pool Hl. rewrite Hp in Hl. injection Hl as <-. by apply pool_of_off.
Qed.

(** What lcore [j] has loaded after a step was loaded before, or is the current pool. *)
Lemma loaded_step j x x' k pool :
  fine_lcore fuel cfg j x x' -> loaded x' k = Some pool -> loaded x k = Some pool \/ pool = cl_pool (y_loop (fs_sys x)).
Proof.
  intros Hst. unfold loaded. destruct Hst as [th th' w' Hi Hl _ _ _|th i en node frames d Hi Hl _ _ _ _|node frame frames Hl
    |th i en node frame frames pool' d w p Hi Hl _ _ _ _|node Hl]; cbn [fs_local]; [by left|..];
    (destruct (decide (k = j)) as [->|Hne];
      [rewrite list_lookup_insert_eq by (by eapply lookup_lt_Some); intros [= <-]; by right|rewrite list_lookup_insert_ne by done; by left]).
Qed.

(** A step keeps it so and opens no connection on lcore [k]. *)
Lemma off_step_keeps args i k x x' :
  off_for i k args x -> off_step i x x' ->
  off_for i k args x' /\
  forall th th', y_threads (fs_sys x) !! k = Some th -> y_threads (fs_sys x') !! k = Some th' -> none_opened i (th_lb th) (th_lb th').
Proof using Hfuel.
  intros [Hc Hn Hv Hs Hld] [Hst Hv']. destruct Hst as [j Hl|y' Ho ->].
  - destruct (fine_lcore_shared _ _ _ _ _ Hl) as [Ev El].
    destruct (fine_lcore_keeps (fun _ => no_new i) (node_of_no_new i) (same_but_lb_no_new i) _ _ _ _ _ _ Hn Hl) as (Hn' & Hoth & Hown).
    split.
    + split; [unfold control_ok; by rewrite Ev, El|done|by rewrite Ev|by rewrite El|].
      intros pool Hp. destruct (loaded_step _ _ _ _ _ Hl Hp) as [Hp' | ->]; auto.
    + intros th th' Hk Hk'. destruct (decide (k = j)) as [->|Hne]; [|destruct (Hoth k Hne) as [Ek _]; rewrite Ek, Hk in Hk'; by injection Hk' as <-].
      destruct (Hown th th' Hk Hk') as [->|(pool & w' & [_ Hnn] & -> & Hp)]; [done|]. apply Hnn. cbn.
      destruct Hp as [-> |(node & frames & Hloc)]; [done|]. apply Hld. unfold loaded. by rewrite Hloc.
  - destruct (other_step_off i _ _ Hc Hv Hs Ho) as [Hs' Ht]. split.
    + split; [by eapply other_step_control|by destruct Ho|done|done|done].
    + cbn [fs_sys]. rewrite Ht. intros th th' Hk Hk'. by simplify_eq.
Qed.

Lemma off_step_length i x x' k : off_step i x x' -> is_Some (y_threads (fs_sys x) !! k) -> is_Some (y_threads (fs_sys x') !! k).
Proof.
  intros [Hst _]. rewrite !lookup_lt_is_Some. intros Hk. destruct Hst as [j Hl|y' Ho ->]; [|by destruct Ho].
  destruct Hl; cbn; by rewrite ?length_insert.
Qed.

Lemma off_run args i k x x' :
  rtc (off_step i) x x' -> off_for i k args x ->
  off_for i k args x' /\
  forall th th', y_threads (fs_sys x) !! k = Some th -> y_threads (fs_sys x') !! k = Some th' -> none_opened i (th_lb th) (th_lb th').
Proof using Hfuel.
  induction 1 as [x|x x1 x2 Hst Hr IH]; intros Hx; [split; [done|]; intros; by simplify_eq|].
  destruct (off_step_keeps args i k x x1 Hx Hst) as [Hx1 Hop]. destruct (IH Hx1) as [Hx2 Hop2]. split; [done|]. intros th th' Hk Hk'.
  destruct (off_step_length i x x1 k Hst) as [th1 Hk1]; [by exists th|]. transitivity (th_lb th1); [by apply Hop|by apply Hop2].
Qed.

(** C11: a backend that is down gets no new connections: when the control plane has
    published slot [i] as disabled and the main lcore has polled, then in any interleaving
    of what follows, until it is published as enabled again, an lcore opens no connection
    to it from the moment on at which it is not in the middle of a frame of [Process] (for
    that frame it may still have an older pool, loaded at its beginning): the counter of
    connections opened to it stays what it is, and every entry of the table for it is one
    that was there. *)
Theorem down_backend_drains lcores args d x loop i x1 k x2 th th' :
  let y := fs_sys x in
  fine_reachable fuel cfg lcores args d x ->
  view_off i (y_view y) -> cv_seq (y_view y) <> cl_applied (y_loop y) ->
  control_poll fuel (y_view y) (y_loop y) = Ret loop ->
  rtc (off_step i) (mkFSystem (mkSystem (y_dev y) (y_mem y) (y_running y) (y_threads y) (y_view y) loop) (fs_local x)) x1 ->
  loaded x1 k = None -> rtc (off_step i) x1 x2 ->
  y_threads (fs_sys x1) !! k = Some th -> y_threads (fs_sys x2) !! k = Some th' ->
  opened (th_lb th') !! i = opened (th_lb th) !! i /\
  forall s f, slots_ (nat_ (th_lb th')) !! s = Some f -> nf_occupied f = true -> Z.to_nat (nf_backend_idx f) = i ->
    exists s0 f0, slots_ (nat_ (th_lb th)) !! s0 = Some f0 /\ nf_occupied f0 = true /\
      Z.to_nat (nf_backend_idx f0) = i /\ nf_fwd_key f0 = nf_fwd_key f.
Proof using Hfuel.
  intros y Hr Hv Hne E Hrun Hnone Hrun2 Hk Hk'.
  destruct (fine_reachable_ok (fun _ => no_new i) (node_of_no_new i) (same_but_lb_no_new i) _ _ _ _ _ _ Hfuel Hr) as [(Hvo & Hc & Hsn) Hn].
  destruct (control_poll_spec fuel _ _ Hvo Hc Hsn Hfuel Hne) as (st & E' & Hl & _ & Hp). fold y in E'. rewrite E in E'. injection E' as <-.
  destruct (off_run args i (length (fs_local x)) _ x1 Hrun) as [[Hc1 Hn1 Hv1 Hs1 _] _].
  { split; [split; [done|split; [done|exact Hl]]|exact Hn|exact Hv| |].
    - intros pool Hpool. cbn [fs_sys y_loop] in Hpool. rewrite Hp in Hpool. injection Hpool as <-. by apply pool_of_off.
    - intros pool. unfold loaded. cbn [fs_local]. by rewrite lookup_ge_None_2. }
  destruct (off_run args i k x1 x2 Hrun2) as [_ Hop]; [split; try done; by rewrite Hnone|].
  destruct (Hop th th' Hk Hk') as [Ho Hent]. split; [exact Ho|]. intros s f Hs Hocc Hi.
  refine (Hent (fun key j => Z.to_nat j = i -> exists s0 f0, slots_ (nat_ (th_lb th)) !! s0 = Some f0 /\ nf_occupied f0 = true /\
    Z.to_nat (nf_backend_idx f0) = i /\ nf_fwd_key f0 = key) _ _ s f Hs Hocc Hi).
  - by intros key j Hj Hj'.
  - intros s0 f0 Hs0 Ho0 Hi0. by exists s0, f0.
Qed.

(** ** Whole drains are such steps *)

Section Whole.
Context (i : nat) (args : list LcoreArg).

Lemma drain_loop_fine en j node_id l frames : forall d y th dd w,
  y_threads y !! i = Some th -> th_pc th = PcBurst j -> th_engines th !! j = Some (set_disp en d) -> (i < length l)%nat ->
  Forall (node_of cfg (th_arg th)) (nodes_ (en_graph en)) ->
  drain_loop (en_graph en) node_id frames d (world_of y th) = Ret (dd, w) ->
  rtc (fine_lcore fuel cfg i) (mkFSystem y (<[i := Some (mkLocal node_id frames None)]> l))
    (mkFSystem (set_thread y i (put_disp th j en dd (w_lb w)) w) (<[i := None]> l)).
Proof.
  induction frames as [|frame frames IH]; intros d y th dd w Hi Hpc Hj Hlen Hn E; cbn [drain_loop] in E.
  - injection E as <- <-. eapply rtc_l; [apply (FineEnd fuel cfg i _ node_id), list_lookup_insert_eq; done|]. cbn [fs_sys fs_local].
    rewrite list_insert_insert_eq.
    assert (Hsame : set_thread y i (put_disp th j en d (w_lb (world_of y th))) (world_of y th) = y); [|by rewrite Hsame].
    destruct y as [dv mem run ths v lp], th as [a pc ens lb]. cbn in *. subst pc. unfold set_thread, put_disp. cbn. f_equal.
    rewrite (list_insert_id ens) by exact Hj. by apply list_insert_id.
  - destruct (RunNode _ _ _ _ _) as [[d1 w1]|e| |] eqn:E1; cbn [obind] in E; try done.
    destruct (FRelease _ _) as [p|e| |] eqn:Ep; cbn [obind] in E; try done.
    assert (Hpool : w_pool w1 = cl_pool (y_loop y)).
    { refine (proj1 (RunNode_keeps (no_new 0) _ _ _ _ _ _ _ _ E1)). eapply Forall_impl; [exact Hn|]. intros node. apply node_of_no_new. }
    eapply rtc_l; [apply (FineLoad fuel cfg i _ node_id frame frames), list_lookup_insert_eq; done|]. cbn [fs_sys fs_local].
    rewrite list_insert_insert_eq. eapply rtc_l.
    { apply (FineRun fuel cfg i _ th j (set_disp en d) node_id frame frames (cl_pool (y_loop y)) d1 w1 p); try done.
      by apply list_lookup_insert_eq. }
    cbn [fs_sys fs_local]. rewrite list_insert_insert_eq.
    set (th1 := put_disp th j (set_disp en d) (set_pool d1 p) (w_lb w1)).
    assert (Hw : world_of (set_thread y i th1 w1) th1 = w1).
    { unfold world_of, th1. cbn. rewrite <- Hpool. by destruct w1. }
    rewrite <- Hw in E.
    specialize (IH (set_pool d1 p) (set_thread y i th1 w1) th1 dd w). cbn [set_thread y_threads] in IH.
    rewrite list_lookup_insert_eq in IH by (by eapply lookup_lt_Some). specialize (IH eq_refl eq_refl).
    assert (Hth1 : th_engines th1 !! j = Some (set_disp en (set_pool d1 p))) by (cbn; apply list_lookup_insert_eq; by eapply lookup_lt_Some).
    specialize (IH Hth1 Hlen Hn E).
    assert (Hset : set_thread (set_thread y i th1 w1) i (put_disp th1 j en dd (w_lb w)) w = set_thread y i (put_disp th j en dd (w_lb w)) w).
    { unfold set_thread. cbn. rewrite list_insert_insert_eq. unfold put_disp, th1. cbn. by rewrite list_insert_insert_eq. }
    by rewrite Hset in IH.
Qed.

(** Every step of the process is a run of fine steps. *)
Lemma lcore_step_fine y y' l :
  system_nodes cfg args y -> l !! i = Some None -> lcore_step fuel cfg i y y' ->
  rtc (fine_lcore fuel cfg i) (mkFSystem y l) (mkFSystem y' l).
Proof.
  intros Hn Hl [th th' w' Hi Hpc E]. destruct (Hn i th Hi) as [_ Hen].
  destruct (th_pc th) as [| |j|] eqn:Ep; try done.
  1, 2: apply rtc_once; eapply (FineStep fuel cfg i (mkFSystem y l)); try done; by rewrite Ep.
  pose proof E as E0. unfold thread_step in E. rewrite Ep in E. destruct (at_ (th_engines th) j) as [en|e| |] eqn:Ea; cbn [obind] in E; try done.
  apply at_Ret in Ea. destruct (back (queue_ (en_disp en))) as [node|] eqn:Eq.
  - destruct (drain_back _ _ _ _) as [[dd w]|e| |] eqn:Ed; cbn [obind] in E; try done. injection E as <- <-.
    unfold drain_back, DrainNode in Ed. destruct (set_at _ _ _) as [sch|e| |] eqn:Es; cbn [obind] in Ed; try done.
    destruct (at_ _ _) as [frames|e| |] eqn:Ef; cbn [obind] in Ed; try done.
    set (d0 := set_pending _ _) in Ed.
    assert (Hb : begin_drain (en_disp en) node = Ret (frames, d0)).
    { unfold begin_drain. rewrite Es. cbn [obind]. rewrite Ef. done. }
    eapply rtc_l; [by apply (FineBegin fuel cfg i (mkFSystem y l) th j en node frames d0)|]. cbn [fs_sys fs_local].
    set (th0 := put_disp th j en d0 (th_lb th)). set (y0 := set_thread y i th0 (world_of y th)).
    assert (Hy0 : y_threads y0 !! i = Some th0) by (cbn; apply list_lookup_insert_eq; by eapply lookup_lt_Some).
    assert (Hj0 : th_engines th0 !! j = Some (set_disp en d0)) by (cbn; apply list_lookup_insert_eq; by eapply lookup_lt_Some).
    pose proof (drain_loop_fine en j node l frames d0 y0 th0 dd w Hy0 eq_refl Hj0 ltac:(by eapply lookup_lt_Some)
      (Forall_lookup_1 _ _ _ _ Hen Ea) Ed) as Hrun.
    rewrite (list_insert_id l i None Hl) in Hrun.
    assert (Hset : set_thread y0 i (put_disp th0 j en dd (w_lb w)) w = set_thread y i (put_disp th j en dd (w_lb w)) w).
    { unfold y0, th0, set_thread, put_disp. cbn. by rewrite !list_insert_insert_eq. }
    rewrite Hset in Hrun. exact Hrun.
  - apply rtc_once. eapply (FineStep fuel cfg i (mkFSystem y l)); try done; [by rewrite Ep|]. intros j' en' Hj' He'. rewrite Ep in Hj'. by simplify_eq.
Qed.

End Whole.

End Run.
End Drain.
