(* ===== verification/SystemRefine.v ===== *)
(** * The steps of an lcore are those of [LcoreMain]

    [LcoreMain] as the program has it, a call that runs its loop to the end, and the
    steps of [System], which can be interleaved, are the same computation: an lcore
    that is left alone gets through the rounds of its loop step by step. *)

From S2P Require Import Prelude FlowKey NetTypes PortPool BackendPool NatTable Ipc PacketMeta LbNode Graph.
From S2P Require Import Packet Nodes Dataplane Control System.

Section Refine.
Context `{BuildParams} `{Dpdk}.
Context (fuel : nat) (cfg : Config).

(** [k] steps of an lcore that reads [g_running] as set. *)
Fixpoint thread_steps (k : nat) (th : Thread) (w : Lcore) : outcome (Thread * Lcore) :=
  match k with
  | O => Ret (th, w)
  | S k => let! '(th, w) := thread_step fuel cfg true th w in thread_steps k th w
  end.

(** [th] gets to [th'] in some number of steps. *)
Definition gets_to (th : Thread) (w : Lcore) (th' : Thread) (w' : Lcore) : Prop :=
  exists k, thread_steps k th w = Ret (th', w').

Lemma gets_to_refl th w : gets_to th w th w.
Proof. now exists 0%nat. Qed.

Lemma gets_to_step th w th1 w1 th2 w2 :
  thread_step fuel cfg true th w = Ret (th1, w1) -> gets_to th1 w1 th2 w2 -> gets_to th w th2 w2.
Proof. intros E [k Hk]. exists (S k). cbn [thread_steps]. now rewrite E. Qed.

Lemma gets_to_trans th w th1 w1 th2 w2 : gets_to th w th1 w1 -> gets_to th1 w1 th2 w2 -> gets_to th w th2 w2.
Proof.
  intros [k Hk] Hr. revert th w Hk. induction k as [|k IH]; intros th w Hk; cbn [thread_steps] in Hk.
  { injection Hk as -> ->. done. }
  destruct (thread_step fuel cfg true th w) as [[th0 w0]| | |] eqn:E; try discriminate Hk. cbn [obind] in Hk.
  eapply gets_to_step; eauto.
Qed.

(** The loop of [RunOnce], a step per node. *)
Lemma run_queue_steps n arg j engines en d w d' w' :
  engines !! j = Some en -> run_queue n (en_graph en) d w = Ret (d', w') ->
  gets_to (mkThread arg (PcBurst j) (<[j := set_disp en d]> engines) (w_lb w)) w
    (mkThread arg (PcBurst j) (<[j := set_disp en d']> engines) (w_lb w')) w' /\ queue_ d' = [].
Proof.
  intros Hen. apply lookup_lt_Some in Hen as Hlt.
  revert d w. induction n as [|n IH]; intros d w; cbn [run_queue]; destruct (back (queue_ d)) as [v|] eqn:Hv; try done.
  1, 3: intros [= <- <-]; apply back_None in Hv; split; [apply gets_to_refl|done].
  destruct (drain_back (en_graph en) d w v) as [[d1 w1]| | |] eqn:E; try done. cbn [obind]. intros Hrun.
  destruct (IH d1 w1 Hrun) as [Hr Hq]. split; [|done]. eapply gets_to_step; [|exact Hr].
  unfold thread_step. cbn [th_pc th_engines th_arg].
  rewrite (proj2 (at_Ret _ _ (set_disp en d))) by now rewrite list_lookup_insert_eq. cbn [obind en_disp en_graph set_disp].
  rewrite Hv, E. cbn [obind]. now rewrite list_insert_insert_eq.
Qed.

(** The burst of graph [j], once it has begun. *)
Lemma burst_steps arg engines j en w d' w' :
  engines !! j = Some en -> burst fuel (en_graph en) (en_root en) (en_disp en) w = Ret (d', w') ->
  exists th, begin_burst (mkThread arg PcLoop engines (w_lb w)) j = Ret th /\
    (forall pc, begin_burst (mkThread arg pc engines (w_lb w)) j = Ret th) /\
    gets_to th w (mkThread arg (PcBurst j) (<[j := set_disp en d']> engines) (w_lb w')) w' /\ queue_ d' = [].
Proof.
  intros Hen E. unfold burst, RunOnce in E. unfold begin_burst. cbn [th_engines th_arg th_lb].
  rewrite (proj2 (at_Ret _ _ en)) by done. cbn [obind].
  destruct (seed_root (en_disp en) (en_root en) (Clear Frame_new)) as [d0| | |]; try discriminate E. cbn [obind] in *.
  eexists. split; [done|]. split; [done|]. eapply run_queue_steps; eauto.
Qed.

(** One round of the loop of [RunMono] and [RunWorker]. *)
Lemma round_steps arg en w d' w' :
  burst fuel (en_graph en) (en_root en) (en_disp en) w = Ret (d', w') ->
  gets_to (mkThread arg PcLoop [en] (w_lb w)) w (mkThread arg PcLoop [set_disp en d'] (w_lb w')) w'.
Proof.
  intros E. destruct (burst_steps arg [en] 0 en w d' w' eq_refl E) as (th & Eb & _ & Hr & Hq).
  eapply gets_to_step; [unfold thread_step; cbn [th_pc]; rewrite Eb; done|].
  eapply gets_to_trans; [exact Hr|]. eapply gets_to_step; [|apply gets_to_refl].
  unfold thread_step. cbn. now rewrite Hq.
Qed.

Lemma lcore_loop_steps arg rounds en w d' w' :
  lcore_loop rounds fuel (en_graph en) (en_root en) (en_disp en) w = Ret (d', w') ->
  gets_to (mkThread arg PcLoop [en] (w_lb w)) w (mkThread arg PcLoop [set_disp en d'] (w_lb w')) w'.
Proof.
  revert en w. induction rounds as [|rounds IH]; intros en w; cbn [lcore_loop].
  { intros [= <- <-]. destruct en. apply gets_to_refl. }
  destruct (burst fuel (en_graph en) (en_root en) (en_disp en) w) as [[d1 w1]| | |] eqn:E; try done. cbn [obind].
  intros Hl. eapply gets_to_trans; [exact (round_steps arg en w d1 w1 E)|]. exact (IH (set_disp en d1) w1 Hl).
Qed.

(** One round of [RunIo]. *)
Lemma io_round_steps arg rx tx w d1 w1 d2 w2 :
  burst fuel (en_graph rx) (en_root rx) (en_disp rx) w = Ret (d1, w1) ->
  burst fuel (en_graph tx) (en_root tx) (en_disp tx) w1 = Ret (d2, w2) ->
  gets_to (mkThread arg PcLoop [rx; tx] (w_lb w)) w
    (mkThread arg PcLoop [set_disp rx d1; set_disp tx d2] (w_lb w2)) w2.
Proof.
  intros E1 E2. destruct (burst_steps arg [rx; tx] 0 rx w d1 w1 eq_refl E1) as (th1 & Eb1 & _ & Hr1 & Hq1).
  destruct (burst_steps arg [set_disp rx d1; tx] 1 tx w1 d2 w2 eq_refl E2) as (th2 & _ & Eb2 & Hr2 & Hq2).
  eapply gets_to_step; [unfold thread_step; cbn [th_pc]; rewrite Eb1; done|].
  eapply gets_to_trans; [exact Hr1|]. eapply gets_to_step.
  { unfold thread_step. cbn [th_pc th_engines list_insert insert at_ lookup list_lookup obind en_disp set_disp]. rewrite Hq1.
    cbn [back last length Nat.ltb Nat.leb]. rewrite Eb2. done. }
  eapply gets_to_trans; [exact Hr2|]. eapply gets_to_step; [|apply gets_to_refl]. unfold thread_step. cbn. now rewrite Hq2.
Qed.

Lemma io_loop_steps arg rounds rx tx w w' :
  io_loop rounds fuel (en_graph rx) (en_graph tx) (en_root rx) (en_root tx) (en_disp rx) (en_disp tx) w = Ret w' ->
  exists engines, gets_to (mkThread arg PcLoop [rx; tx] (w_lb w)) w (mkThread arg PcLoop engines (w_lb w')) w'.
Proof.
  revert rx tx w. induction rounds as [|rounds IH]; intros rx tx w; cbn [io_loop].
  { intros [= <-]. eexists. apply gets_to_refl. }
  destruct (burst fuel (en_graph rx) (en_root rx) (en_disp rx) w) as [[d1 w1]| | |] eqn:E1; try done. cbn [obind].
  destruct (burst fuel (en_graph tx) (en_root tx) (en_disp tx) w1) as [[d2 w2]| | |] eqn:E2; try done. cbn [obind].
  intros Hl. destruct (IH (set_disp rx d1) (set_disp tx d2) w2 Hl) as [engines Hr].
  exists engines. eapply gets_to_trans; [exact (io_round_steps arg rx tx w d1 w1 d2 w2 E1 E2)|exact Hr].
Qed.

(** The interleaved model and the program agree on one lcore: if [LcoreMain],
    with [g_running] set for [rounds] rounds, ends in [w'], then the lcore gets step by
    step from its start to the head of its loop in exactly the state [w'], and the
    next step, with the flag cleared, leaves the loop. *)
Theorem lcore_steps_are_LcoreMain rounds arg w w' :
  LcoreMain rounds fuel cfg arg w = Ret w' ->
  exists engines, gets_to (mkThread arg PcStart [] (w_lb w)) w (mkThread arg PcLoop engines (w_lb w')) w' /\
    thread_step fuel cfg false (mkThread arg PcLoop engines (w_lb w')) w' =
      Ret (mkThread arg PcEnd engines (w_lb w'), w').
Proof.
  intros E. cut (exists engines, gets_to (mkThread arg PcStart [] (w_lb w)) w (mkThread arg PcLoop engines (w_lb w')) w').
  { intros [engines Hr]. now exists engines. }
  assert (Hstart : forall engines w0, build_engines fuel cfg arg w = Ret (engines, w0) ->
    thread_step fuel cfg true (mkThread arg PcStart [] (w_lb w)) w = Ret (mkThread arg PcLoop engines (w_lb w0), w0)).
  { intros engines w0 Eb. unfold thread_step. cbn [th_pc th_arg]. now rewrite Eb. }
  unfold LcoreMain in E. unfold build_engines in Hstart. destruct (role arg).
  - unfold RunMono in E. destruct (BuildMonolithicGraph fuel cfg arg Graph_empty w) as [[[root g] w0]| | |]; try done.
    cbn [obind] in *. destruct (lcore_loop rounds fuel g root (Dispatcher_new g) w0) as [[d1 w1]| | |] eqn:El; try done.
    injection E as <-. eexists. eapply gets_to_step; [now apply Hstart|].
    exact (lcore_loop_steps arg rounds (mkEngine g root (Dispatcher_new g)) w0 d1 w1 El).
  - unfold RunIo in E. destruct (BuildRxGraph cfg arg Graph_empty) as [[r1 g1]| | |]; try done. cbn [obind] in *.
    destruct (BuildTxGraph arg Graph_empty) as [[r2 g2]| | |]; try done. cbn [obind] in *.
    destruct (io_loop_steps arg rounds (mkEngine g1 r1 (Dispatcher_new g1)) (mkEngine g2 r2 (Dispatcher_new g2)) w w' E)
      as [engines Hr]. exists engines. eapply gets_to_step; [now apply Hstart|exact Hr].
  - unfold RunWorker in E. destruct (BuildWorkerGraph fuel cfg arg Graph_empty w) as [[[root g] w0]| | |]; try done.
    cbn [obind] in *. destruct (lcore_loop rounds fuel g root (Dispatcher_new g) w0) as [[d1 w1]| | |] eqn:El; try done.
    injection E as <-. eexists. eapply gets_to_step; [now apply Hstart|].
    exact (lcore_loop_steps arg rounds (mkEngine g root (Dispatcher_new g)) w0 d1 w1 El).
Qed.

End Refine.
