(* ===== verification/SystemSamples.v ===== *)
(** * An I/O lcore and 31 workers on the sample device

    A client's first packet is received and steered by the I/O lcore, taken from its
    ring by a worker and sent back to the I/O lcore, which transmits it. *)

From stdpp Require Import relations.
From S2P Require Import Prelude FlowKey NetTypes PortPool BackendPool NatTable NatTableFacts NatTableSpec Ipc.
From S2P Require Import PacketMeta LbNode LbFacts LbSpec Graph GraphFacts GraphSpec Packet Nodes NodeFacts.
From S2P Require Import Dataplane DataplaneSpec SampleDevice DataplaneSamples Control ControlPlane ControlSpec.
From S2P Require Import System DeviceUse SystemSpec FineSteps Drain SystemRefine.

#[local] Opaque worker_ports.

(** ** Schedules *)

Section Schedules.
Context `{BuildParams} `{Dpdk}.

(** One step of lcore [i], if it can take one. *)
Definition sched_step (i : nat) (y : System) : option System :=
  match y_threads y !! i with
  | Some th =>
      if decide (th_pc th = PcEnd) then None
      else
        match thread_step fuel0 sample_config (y_running y) th (world_of y th) with
        | Ret (th', w') => Some (set_thread y i th' w')
        | _ => None
        end
  | None => None
  end.

Fixpoint run_sched (sched : list nat) (y : System) : System :=
  match sched with
  | [] => y
  | i :: sched => match sched_step i y with Some y' => run_sched sched y' | None => y end
  end.

Lemma sched_step_ok i y y' : sched_step i y = Some y' -> lcore_step fuel0 sample_config i y y'.
Proof.
  unfold sched_step. destruct (y_threads y !! i) as [th|] eqn:Hi; [|done]. case_decide; [done|].
  destruct (thread_step fuel0 sample_config (y_running y) th (world_of y th)) as [[th' w']| | |] eqn:E; try done.
  intros [= <-]. econstructor; eauto.
Qed.

Lemma run_sched_ok sched y : rtc (sys_step fuel0 sample_config) y (run_sched sched y).
Proof.
  revert y. induction sched as [|i sched IH]; intros y; cbn [run_sched]; [done|].
  destruct (sched_step i y) as [y'|] eqn:E; [|done]. apply rtc_l with y'; [|apply IH].
  apply (SysLcore _ _ _ _ i). now apply sched_step_ok.
Qed.

End Schedules.

#[local] Existing Instance BackendPool.test_build.
#[local] Existing Instance SampleDevice.sample_dpdk.

(** ** The process *)

Definition dev3 : dev := mkDevice [(1, client_syn)] [2; 3] [] (replicate 32 []) 1000000.

Definition view3 : ControlView := mkControlView (mkShmHeader kShmMagic kShmVersion) 2 0 (replicate kMaxBackends ControlBackend_zero).

Definition loop3 : ControlLoop := mkControlLoop (replicate kMaxBackends ControlBackend_zero) 0 2 (mkAtomicRcu (Some LbSamples.pool2)).

Definition stats3 : list LcoreStats := replicate kMaxLcores LcoreStats_zero.

Definition rings3 : list nat := seq 0 31.

Definition lcores3 : list Z := seqZ 1 32.

Definition args3 : list LcoreArg := io_arg 0 31 rings3 31 :: imap (worker_arg 0 31 rings3 31) rings3.

Definition start3 : System := launched dev3 (fun _ => blank_mbuf) view3 loop3 args3 stats3.

(** The I/O lcore up to the ring of worker 3, that worker, the I/O lcore again. *)
Definition sched3 : list nat := replicate 8 0%nat ++ replicate 12 4%nat ++ replicate 16 0%nat.

Definition running3 : System := run_sched sched3 start3.

(** After a signal. *)
Definition signalled (y : System) : System :=
  mkSystem (y_dev y) (y_mem y) false (y_threads y) (y_view y) (y_loop y).

Definition stopped3 : System := signalled running3.

Lemma prepared3 : prepared (fun _ => blank_mbuf) view3 loop3 stats3.
Proof.
  split.
  - intros _. apply blank_ok.
  - intros pool [= <-]. destruct LbSamples.pool2_usable as (? & ? & _ & ?). split_and!; done.
  - split; [split_and!; simpl; try done; lia|]. split; [simpl; lia|done].
  - reflexivity.
  - reflexivity.
  - apply Forall_replicate. split; [reflexivity|]. simpl. lia.
Qed.

Lemma cfg3_ok : cfg_ok sample_config.
Proof. split; [apply self_mac_ok|simpl; lia]. Qed.

Lemma fuel0_enough : 65536 <= Z.of_nat fuel0.
Proof. unfold fuel0. lia. Qed.

Lemma reachable3 y : rtc (sys_step fuel0 sample_config) start3 y -> reachable fuel0 sample_config lcores3 args3 dev3 y.
Proof.
  intros Hy. exists 0, rings3, (Some 31%nat), (fun _ => blank_mbuf), view3, loop3, stats3.
  split; [split; [reflexivity|now exists 31%nat]|]. split; [reflexivity|]. split; [apply prepared3|exact Hy].
Qed.

Lemma running3_reachable : reachable fuel0 sample_config lcores3 args3 dev3 running3.
Proof. apply reachable3, run_sched_ok. Qed.

Lemma signalled_reachable y :
  rtc (sys_step fuel0 sample_config) start3 y ->
  reachable fuel0 sample_config lcores3 args3 dev3 (signalled y).
Proof. intros Hy. apply reachable3. eapply rtc_r; [exact Hy|]. apply SysOther, SignalStep. Qed.

Lemma stopped3_reachable : reachable fuel0 sample_config lcores3 args3 dev3 stopped3.
Proof. exact (signalled_reachable running3 (run_sched_ok sched3 start3)). Qed.

(** Worker 3, its flow, and what matters of a state. *)
Definition worker3 (y : System) : Thread := default (mkThread worker1 PcEnd [] (no_lb LcoreStats_zero)) (y_threads y !! 4%nat).

Definition flow3 (y : System) : NatFlow := slots_ (nat_ (th_lb (worker3 y))) !!! 2%nat.

Definition summary3 (y : System) : list mbuf_ptr * nat * nat * bool * Z * Z :=
  (d_sent (y_dev y), length (y_threads y), length (slots_ (nat_ (th_lb (worker3 y)))),
   nf_occupied (flow3 y), nf_snat_port (flow3 y), nf_backend_idx (flow3 y)).

(** The packet has been sent and its flow is in the table. *)
Definition done3 : list mbuf_ptr * nat * nat * bool * Z * Z := ([1], 32%nat, 4%nat, true, 1026, 0).

Lemma running3_run : summary3 running3 = done3.
Proof. vm_compute. reflexivity. Qed.

Lemma done3_worker y : summary3 y = done3 -> y_threads y !! 4%nat = Some (worker3 y).
Proof.
  intros [= _ Hl _ _ _ _]. unfold worker3. destruct (y_threads y !! 4%nat) as [th|] eqn:E; [done|].
  apply lookup_ge_None in E. lia.
Qed.

Lemma done3_flow y :
  summary3 y = done3 ->
  slots_ (nat_ (th_lb (worker3 y))) !! 2%nat = Some (flow3 y) /\ nf_occupied (flow3 y) = true /\ nf_snat_port (flow3 y) <> 0.
Proof.
  intros [= _ _ Hl Ho Hp _]. split; [|split; [done|lia]]. apply list_lookup_lookup_total_lt. lia.
Qed.

(** ** Witnesses *)

Lemma system_safe_witness :
  (forall i th, y_threads running3 !! i = Some th -> th_pc th <> PcEnd ->
     exists y', lcore_step fuel0 sample_config i running3 y') /\
  (exists loop, control_poll fuel0 (y_view running3) (y_loop running3) = Ret loop) /\
  in_dev (y_dev running3) ++ concat (thread_packets <$> y_threads running3) ≡ₚ in_dev dev3.
Proof. exact (system_safe fuel0 fuel0_enough sample_config cfg3_ok lcores3 args3 dev3 running3 running3_reachable). Defined.

Lemma dev3_NoDup : NoDup (in_dev dev3).
Proof. apply (bool_decide_unpack (NoDup (in_dev dev3))). vm_compute. exact I. Qed.

Lemma mbuf_single_owner_witness :
  NoDup (in_dev (y_dev running3)) /\ Forall (fun th => NoDup (thread_packets th)) (y_threads running3) /\
  forall m, m ∈ in_dev dev3 <->
    ((m ∈ in_dev (y_dev running3) /\ Forall (fun th => m ∉ thread_packets th) (y_threads running3)) \/
     (m ∉ in_dev (y_dev running3) /\ exists i th, y_threads running3 !! i = Some th /\ m ∈ thread_packets th /\
        forall j th', y_threads running3 !! j = Some th' -> m ∈ thread_packets th' -> j = i)).
Proof.
  exact (mbuf_single_owner fuel0 fuel0_enough sample_config cfg3_ok lcores3 args3 dev3 running3 running3_reachable dev3_NoDup).
Defined.

Lemma snat_ports_exclusive_witness : (4 = 4)%nat /\ (2 = 2)%nat.
Proof.
  destruct (done3_flow running3 running3_run) as (Hf & Ho & Hp). pose proof (done3_worker running3 running3_run) as Hw.
  exact (snat_ports_exclusive fuel0 fuel0_enough sample_config cfg3_ok lcores3 args3 dev3 running3 4 4
    (worker3 running3) (worker3 running3) 2 2 (flow3 running3) (flow3 running3) running3_reachable Hw Hw Hf Hf Ho Ho Hp
    eq_refl eq_refl).
Defined.

Lemma shutdown_completes_witness :
  Z.of_nat 0 <= 118101 * Z.of_nat (length args3) /\
  ((forall i y2, ~ lcore_step fuel0 sample_config i stopped3 y2) ->
   Forall (fun th => th_pc th = PcEnd) (y_threads stopped3) /\ in_dev (y_dev stopped3) ≡ₚ in_dev dev3).
Proof.
  exact (shutdown_completes fuel0 fuel0_enough sample_config cfg3_ok lcores3 args3 dev3 stopped3 0 stopped3
    stopped3_reachable eq_refl (run_refl fuel0 sample_config stopped3)).
Defined.

Lemma worker_end_eq : RunWorker 1 fuel0 sample_config worker1 world_w = Ret worker_end.
Proof.
  destruct (RunWorker_spec 1 fuel0 sample_config 0 31 (seq 0 31) 31 1 1 world_w) as (w' & E & _);
    [apply world_w_booted|apply self_mac_ok|simpl; lia|apply fuel0_enough|lia|].
  unfold worker_end, worker1. rewrite E. reflexivity.
Qed.

(** Worker 1 of [DataplaneSamples], alone. *)
Lemma lcore_steps_are_LcoreMain_witness :
  exists engines,
    gets_to fuel0 sample_config (mkThread worker1 PcStart [] (w_lb world_w)) world_w
      (mkThread worker1 PcLoop engines (w_lb worker_end)) worker_end /\
    thread_step fuel0 sample_config false (mkThread worker1 PcLoop engines (w_lb worker_end)) worker_end =
      Ret (mkThread worker1 PcEnd engines (w_lb worker_end), worker_end).
Proof. apply (lcore_steps_are_LcoreMain fuel0 sample_config 1 worker1 world_w worker_end). exact worker_end_eq. Defined.

(** A further step of worker 3. *)
Definition can_step (i : nat) (y : System) : bool := match sched_step i y with Some _ => true | None => false end.

Lemma running3_can_step : can_step 4 running3 = true.
Proof. vm_compute. reflexivity. Qed.

Lemma can_step_lcore i y : can_step i y = true -> exists y', lcore_step fuel0 sample_config i y y'.
Proof. unfold can_step. destruct (sched_step i y) as [y'|] eqn:E; [|done]. intros _. exists y'. now apply sched_step_ok. Qed.

Lemma running3_steps : rtc (sys_step fuel0 sample_config) start3 running3.
Proof. exact (run_sched_ok sched3 start3). Qed.

Lemma lcore_device_use_witness :
  exists y' arg, args3 !! 4%nat = Some arg /\ rtc (dev_call arg) (y_dev running3) (y_dev y').
Proof.
  destruct (can_step_lcore 4 running3 running3_can_step) as [y' Hs]. exists y'.
  exact (lcore_device_use fuel0 sample_config dev3 (fun _ => blank_mbuf) view3 loop3 args3 stats3 running3 4 y' running3_steps Hs).
Defined.

(** ** A backend goes down

    Backend 0 is published as disabled and the main lcore polls before the client's
    packet is received: the connection goes to backend 1. *)

Definition pub4 : list ControlBackend :=
  [mkControlBackend 167772417 8080 [2; 0; 0; 0; 0; 1] 0; mkControlBackend 167772418 8080 [2; 0; 0; 0; 0; 2] 1].

Definition view4 : ControlView := match PublishControl view3 pub4 (u32 (Z.of_nat (length pub4))) with Ret v => v | _ => view3 end.

Definition loop4 : ControlLoop := match control_poll fuel0 view4 loop3 with Ret l => l | _ => loop3 end.

Definition with_control (y : System) (view : ControlView) (loop : ControlLoop) : System :=
  mkSystem (y_dev y) (y_mem y) (y_running y) (y_threads y) view loop.

Lemma view4_off : view_off 0 view4.
Proof. intros b Hb. vm_compute in Hb. injection Hb as <-. reflexivity. Qed.

Lemma poll4 : control_poll fuel0 view4 loop3 = Ret loop4.
Proof. vm_compute. reflexivity. Qed.

(** Fine steps of the lcores in the order of [sched], as far as they can be taken. *)
Fixpoint play (sched : list nat) (x : FSystem) : FSystem :=
  match sched with
  | [] => x
  | i :: sched => match play_lcore fuel0 sample_config i x with Some x' => play sched x' | None => x end
  end.

Lemma play_off i sched : forall x, view_off i (y_view (fs_sys x)) -> rtc (off_step fuel0 sample_config i) x (play sched x).
Proof.
  induction sched as [|k sched IH]; intros x Hv; cbn [play]; [done|].
  destruct (play_lcore fuel0 sample_config k x) as [x'|] eqn:E; [|done]. apply play_lcore_ok in E.
  destruct (fine_lcore_shared _ _ _ _ _ E) as [Ev _].
  apply rtc_l with x'; [|apply IH; by rewrite Ev]. split; [by apply (FineLcore _ _ _ _ k)|by rewrite Ev].
Qed.

Definition at_rest (y : System) : FSystem := mkFSystem y (replicate 32 None).

Definition published4 : FSystem := at_rest (with_control start3 view4 loop3).

Definition polled4 : FSystem := at_rest (with_control start3 view4 loop4).

Definition down4 : FSystem := play (replicate 20 0%nat ++ replicate 40 4%nat) polled4.

Lemma published4_reachable : fine_reachable fuel0 sample_config lcores3 args3 dev3 published4.
Proof.
  exists 0, rings3, (Some 31%nat), (fun _ => blank_mbuf), view3, loop3, stats3.
  split; [split; [reflexivity|now exists 31%nat]|]. split; [reflexivity|]. split; [apply prepared3|]. apply rtc_once.
  eapply FineOther; [|reflexivity]. apply (PublishStep fuel0 start3 pub4); [|vm_compute; reflexivity..].
  repeat constructor; vm_compute; congruence.
Qed.

Definition opened4 (x : FSystem) : option (list Z) := take 2 ∘ opened ∘ th_lb <$> y_threads (fs_sys x) !! 4%nat.

Lemma opened4_run : opened4 polled4 = Some [0; 0] /\ opened4 down4 = Some [0; 1].
Proof. vm_compute. split; reflexivity. Qed.

Lemma down_backend_drains_witness :
  opened4 polled4 = Some [0; 0] /\ opened4 down4 = Some [0; 1] /\
  forall th th', y_threads (fs_sys polled4) !! 4%nat = Some th -> y_threads (fs_sys down4) !! 4%nat = Some th' ->
    opened (th_lb th') !! 0%nat = opened (th_lb th) !! 0%nat /\
    forall s f, slots_ (nat_ (th_lb th')) !! s = Some f -> nf_occupied f = true -> Z.to_nat (nf_backend_idx f) = 0%nat ->
      exists s0 f0, slots_ (nat_ (th_lb th)) !! s0 = Some f0 /\ nf_occupied f0 = true /\
        Z.to_nat (nf_backend_idx f0) = 0%nat /\ nf_fwd_key f0 = nf_fwd_key f.
Proof.
  split; [apply opened4_run|]. split; [apply opened4_run|]. intros th th'.
  assert (Hfuel : (255 <= fuel0)%nat) by (pose proof fuel0_enough; lia).
  apply (down_backend_drains fuel0 Hfuel sample_config lcores3 args3 dev3 published4 loop4 0 polled4 4 down4 th th').
  - apply published4_reachable.
  - exact view4_off.
  - vm_compute. discriminate.
  - exact poll4.
  - apply rtc_refl.
  - vm_compute. reflexivity.
  - exact (play_off 0 (replicate 20 0%nat ++ replicate 40 4%nat) polled4 view4_off).
Defined.

(** The exception is real: a worker that has loaded the pool for its frame when the main
    lcore polls still opens a connection to the backend. *)
Definition mid_frame : FSystem := play (replicate 20 0%nat ++ replicate 12 4%nat) published4.

Definition mid_polled : FSystem := mkFSystem (with_control (fs_sys mid_frame) view4 loop4) (fs_local mid_frame).

Example stale_pool_opens :
  control_poll fuel0 (y_view (fs_sys mid_frame)) (y_loop (fs_sys mid_frame)) = Ret loop4 /\
  opened4 mid_polled = Some [0; 0] /\ opened4 (play [4%nat] mid_polled) = Some [1; 0].
Proof. vm_compute. split_and!; reflexivity. Qed.
