(* ===== verification/Sharding.v ===== *)
(** * A connection belongs to one worker

    The I/O lcore steers every packet to a worker by a hash of its flow or, for an answer,
    by its SNAT port. Through the rings and in any interleaving, the packets in front of
    the load balancer of a worker are those steered to it; so no two workers have an entry
    for the same connection, and an answer meets the table that has its connection. *)

From stdpp Require Import relations.
From S2P Require Import Prelude FlowKey NetTypes PortPool BackendPool NatTable NatTableFacts NatTableSpec Ipc PacketMeta LbNode LbFacts LbSpec.
From S2P Require Import Graph GraphFacts GraphTyped Packet Nodes NodeFacts Dataplane DataplaneSpec Control ControlPlane ControlSpec.
From S2P Require Import System DeviceUse TableKeys SystemSpec.

(** ** Rings are queues *)

(** The packets on each ring, oldest first: enqueuing appends what was taken, dequeuing
    takes from the front, no other call touches a ring. *)
Class RingFifo `{Dpdk} := {
  ring_items : dev -> nat -> list mbuf_ptr;
  ring_in_dev : forall d r m, m ∈ ring_items d r -> m ∈ in_dev d;
  ring_rx : forall d port queue n l d' r, rte_eth_rx_burst d port queue n = (l, d') -> ring_items d' r = ring_items d r;
  ring_tx : forall d port queue l n d' r, rte_eth_tx_burst d port queue l = (n, d') -> ring_items d' r = ring_items d r;
  ring_free : forall d l r, ring_items (rte_pktmbuf_free_bulk d l) r = ring_items d r;
  ring_enqueue : forall d ring m rc d' r, rte_ring_enqueue d ring m = (rc, d') ->
    ring_items d' r = ring_items d r ++ (if decide (r = ring) then (if rc =? 0 then [m] else []) else []);
  ring_enqueue_burst : forall d ring l n d' r, rte_ring_enqueue_burst d ring l = (n, d') ->
    ring_items d' r = ring_items d r ++ (if decide (r = ring) then take n l else []);
  ring_dequeue : forall d ring n l d' r, rte_ring_dequeue_burst d ring n = (l, d') ->
    ring_items d r = (if decide (r = ring) then l else []) ++ ring_items d' r;
}.

(** ** Keys in a table *)

Definition keys_in (K : FlowKey -> Prop) : NatTable -> Prop := entries_in (fun key _ => K key).

#[local] Instance Role_eq_dec : EqDecision Role.
Proof. solve_decision. Defined.

(** 64 K ports: never unfold the list. *)
#[local] Opaque worker_ports.

Section Sharding.
Context `{BuildParams} `{Dpdk} `{!RingFifo}.

(** ** What is steered to worker [k] of [n] *)

Definition steers (cfg : Config) (n k : Z) (data : list Z) : Prop := ClassifyForSteer cfg n data = Ret (kSteer, k).

(** A parsed packet that belongs to the worker: by its flow, or by the SNAT port it is
    addressed to. *)
Definition meta_own (n k : Z) (meta : PacketMeta) : Prop :=
  match m_dir meta with
  | kForward => SteerWorker (meta_key meta) n = k
  | kReverse => m_dst_port meta mod n = k
  end.

(** The headers that the two classifiers read, one after the other. *)
Ltac read_headers data ty proto l4 sp dp src dst :=
  destruct (load_be 2 data kEthType) as [ty|?| |]; cbn [obind] in *; try done;
  destruct (ty =? RTE_ETHER_TYPE_ARP); [done|]; destruct (negb (ty =? RTE_ETHER_TYPE_IPV4)); [done|];
  destruct (load8 data kIpProto) as [proto|?| |]; cbn [obind] in *; try done;
  destruct (negb (proto =? IPPROTO_TCP) && negb (proto =? IPPROTO_UDP)); [done|];
  destruct (l4_offset data) as [l4|?| |]; cbn [obind] in *; try done;
  rewrite ?ReadL4Ports_eq in *; destruct (ReadPorts data l4 proto) as [[sp dp]|?| |]; cbn [obind] in *; try done;
  destruct (load_be 4 data kIpSrc) as [src|?| |]; cbn [obind] in *; try done;
  destruct (load_be 4 data kIpDst) as [dst|?| |]; cbn [obind] in *; try done.

Lemma Classify_own cfg n k meta data out meta' :
  steers cfg n k data -> Classify cfg meta data = Ret (out, meta') -> meta_own n k meta'.
Proof.
  unfold steers, ClassifyForSteer, Classify, ClassifyIpv4. intros Hs E.
  read_headers data ty proto l4 sp dp src dst.
  destruct (ReadTcpFlags data l4 proto) as [flags|e| |]; cbn [obind] in *; try done.
  destruct (load_bytes data kEthSrc kEthAddrLen) as [mac|e| |]; cbn [obind] in *; try done.
  destruct ((dst =? value (vip cfg)) && (dp =? vip_port cfg)).
  - destruct (n =? 0); [done|]. injection Hs as <-. injection E as <- <-. reflexivity.
  - destruct (dst =? value (self_ip cfg)); [|done]. destruct (n =? 0); [done|]. injection Hs as <-. injection E as <- <-. reflexivity.
Qed.

Lemma steers_nonneg cfg n k data : steers cfg n k data -> 0 < n -> 0 <= k < n.
Proof.
  unfold steers, ClassifyForSteer. intros E Hn.
  read_headers data ty proto l4 sp dp src dst.
  destruct ((dst =? value (vip cfg)) && (dp =? vip_port cfg)).
  - destruct (n =? 0); [done|]. injection E as <-. unfold SteerWorker. apply Z.mod_pos_bound. lia.
  - destruct (dst =? value (self_ip cfg)); [|done]. destruct (n =? 0); [done|]. injection E as <-. apply Z.mod_pos_bound. lia.
Qed.

(** ** What an lcore keeps true *)

Section Lcore.
Context (cfg : Config) (arg : LcoreArg).

(** On the ring of worker [k] are packets steered to it. *)
Definition rings_own (d : dev) (mem : mbuf_ptr -> Mbuf) : Prop :=
  forall k r m, worker_rings arg !! k = Some r -> m ∈ ring_items d r -> steers cfg (n_workers arg) (Z.of_nat k) (mb_data (mem m)).

(** The connections of the lcore: a worker has those steered to it, the I/O lcore none. *)
Definition own_key (key : FlowKey) : Prop :=
  match role arg with
  | kMono => True
  | kIo => False
  | kWorker => SteerWorker key (n_workers arg) = worker_id arg
  end.

Definition table_own (lb : LbNode) : Prop := keys_in own_key (nat_ lb).

Definition extra_own (w : Lcore) : Prop := rings_own (w_dev w) (w_mem w) /\ table_own (w_lb w).

(** The packets in front of node [v] of a worker's graph: the ones the parse node (1)
    gets were steered here, the ones the load balancer (2) gets belong here. *)
Definition type_of (v : nat) (b : Mbuf) : Prop :=
  match role arg, v with
  | kWorker, 1%nat => steers cfg (n_workers arg) (worker_id arg) (mb_data b)
  | kWorker, 2%nat => meta_own (n_workers arg) (worker_id arg) (mb_meta b)
  | _, _ => True
  end.

(** The body of a node's loop: it touches the packet [m] only, and sends it on as
    [Pout] says or not at all. *)
Definition body_typed (Pin : Mbuf -> Prop) (Pout : nat -> Mbuf -> Prop)
    (body : Lcore -> list Frame -> mbuf_ptr -> outcome (Lcore * list Frame)) : Prop :=
  forall w nexts m w' nexts', extra_own w -> m ∉ in_dev (w_dev w) -> Pin (w_mem w m) -> body w nexts m = Ret (w', nexts') ->
  extra_own w' /\ (forall q, q <> m -> w_mem w' q = w_mem w q) /\
  (forall q, q ∈ in_dev (w_dev w') -> q ∈ in_dev (w_dev w) \/ q = m) /\
  (nexts' = nexts \/ exists k f f', nexts !! k = Some f /\ Push f m = Ret f' /\ nexts' = <[k := f']> nexts /\ Pout k (w_mem w' m)).

(** The packets in the outputs, so far. *)
Definition outs_typed (Pout : nat -> Mbuf -> Prop) (w : Lcore) (items : list mbuf_ptr) (nexts : list Frame) : Prop :=
  forall k o, nexts !! k = Some o -> frame_wf o /\ Forall (fun q => Pout k (w_mem w q) /\ q ∉ items) (packets o).

Lemma each_typed Pin Pout body items : forall w nexts w' nexts',
  body_typed Pin Pout body -> extra_own w -> NoDup items -> (forall m, m ∈ items -> m ∉ in_dev (w_dev w)) ->
  Forall (fun m => Pin (w_mem w m)) items -> outs_typed Pout w items nexts -> each body items w nexts = Ret (w', nexts') ->
  extra_own w' /\ (forall q, q ∉ items -> w_mem w' q = w_mem w q) /\ outs_typed Pout w' [] nexts'.
Proof.
  induction items as [|m items IH]; intros w nexts w' nexts' Hb Hx Hnd Hdis Hin Ho E; cbn [each] in E; [injection E as <- <-; done|].
  destruct (body w nexts m) as [[w1 nexts1]|e| |] eqn:E1; cbn [obind] in E; try done.
  apply NoDup_cons in Hnd as [Hm Hnd]. apply Forall_cons in Hin as [Hpm Hin].
  destruct (Hb w nexts m w1 nexts1 Hx (Hdis m (list_elem_of_here _ _)) Hpm E1) as (Hx1 & Hmem & Hdev & Hout).
  assert (Hmem' : forall q, q ∈ items -> w_mem w1 q = w_mem w q) by (intros q Hq; apply Hmem; congruence).
  destruct (IH w1 nexts1 w' nexts' Hb Hx1 Hnd) as (Hx' & Hm' & Ho'); try done.
  - intros q Hq Hd. destruct (Hdev q Hd) as [Hd'| ->]; [|done]. exact (Hdis q (list_elem_of_further _ _ _ Hq) Hd').
  - rewrite Forall_forall in Hin |- *. intros q Hq. rewrite Hmem' by done. auto.
  - assert (Hold : forall k o, nexts !! k = Some o -> frame_wf o /\ Forall (fun q => Pout k (w_mem w1 q) /\ q ∉ items) (packets o)).
    { intros k o Hk. destruct (Ho k o Hk) as [Hwf Hf]. split; [done|]. eapply Forall_impl; [exact Hf|]. intros q [Hq Hn].
      apply not_elem_of_cons in Hn as [Hne Hn]. by rewrite Hmem. }
    destruct Hout as [->|(k & f & f' & Hk & Ep & -> & Hp)]; [exact Hold|]. intros j o Hj.
    destruct (decide (j = k)) as [->|Hne]; [|rewrite list_lookup_insert_ne in Hj by done; exact (Hold j o Hj)].
    rewrite list_lookup_insert_eq in Hj by (by eapply lookup_lt_Some). injection Hj as <-. destruct (Hold k f Hk) as [Hwf Hf].
    destruct (Full f) eqn:Hfull; [now rewrite (Push_full_undef f m Hfull) in Ep|].
    destruct (Push_spec f m Hwf Hfull) as (f2 & Ep2 & Hwf2 & Hpk & _). rewrite Ep in Ep2. injection Ep2 as <-. split; [done|].
    rewrite Hpk. apply Forall_app. split; [exact Hf|]. by repeat constructor.
  - split_and!; try done. intros q Hq. apply not_elem_of_cons in Hq as [Hne Hq]. by rewrite Hm', Hmem.
Qed.

(** *** Nodes *)

Definition node_typed (src : bool) (Pin : Mbuf -> Prop) (Pout : nat -> Mbuf -> Prop) (node : Node Lcore) : Prop :=
  forall w f nexts w' f' nexts', extra_own w -> frame_wf f -> (src = true -> packets f = []) ->
  NoDup (in_dev (w_dev w) ++ packets f) -> Forall (fun m => Pin (w_mem w m)) (packets f) ->
  Forall (fun o => frame_wf o /\ count o = 0) nexts -> Process node w f nexts = Ret (w', f', nexts') ->
  extra_own w' /\ (forall m, m ∉ in_dev (w_dev w) ++ packets f -> w_mem w' m = w_mem w m) /\ outs_typed Pout w' [] nexts'.

(** A node in its place in a graph. *)
Lemma node_typed_at ports v outs node Pout :
  node_typed (first_source v) (type_of v) Pout node ->
  (forall k t b, outs !! k = Some t -> Pout k b -> type_of (Z.to_nat t) b) ->
  @Node_typed _ (lcore_world ports) first_source _ w_mem extra_own type_of v outs node.
Proof.
  intros Hn Hp w f nexts w' f' nexts' _ Hx Hf Hs Hnd Hin He E. destruct (Hn w f nexts w' f' nexts' Hx Hf Hs Hnd Hin He E) as (Hx' & Hm & Ho).
  split_and!; try done. intros k o t Hk Ht. destruct (Ho k o Hk) as [_ Hall]. eapply Forall_impl; [exact Hall|]. intros q [Hq _]. exact (Hp k t _ Ht Hq).
Qed.

Lemma outs_empty Pout w items nexts : Forall (fun o => frame_wf o /\ count o = 0) nexts -> outs_typed Pout w items nexts.
Proof.
  intros He k o Hk. destruct (Forall_lookup_1 _ _ _ _ He Hk) as [Hwf Hc]. split; [done|]. apply packets_nil in Hc as ->; [constructor|done].
Qed.

(** A loop over the whole input. *)
Lemma loop_typed Pin Pout body w f nexts w' nexts' :
  body_typed Pin Pout body -> extra_own w -> NoDup (in_dev (w_dev w) ++ packets f) ->
  Forall (fun m => Pin (w_mem w m)) (packets f) -> Forall (fun o => frame_wf o /\ count o = 0) nexts ->
  each body (packets f) w nexts = Ret (w', nexts') ->
  extra_own w' /\ (forall m, m ∉ in_dev (w_dev w) ++ packets f -> w_mem w' m = w_mem w m) /\ outs_typed Pout w' [] nexts'.
Proof.
  intros Hb Hx Hnd Hin He E. apply NoDup_app in Hnd as (_ & Hdis & Hnd).
  destruct (each_typed Pin Pout body (packets f) w nexts w' nexts' Hb Hx Hnd) as (Hx' & Hm & Ho); try done.
  - intros m Hm Hd. exact (Hdis m Hd Hm).
  - now apply outs_empty.
  - split_and!; try done. intros m Hq. apply Hm. intros Hin'. apply Hq, elem_of_app. now right.
Qed.

Lemma loop_node_typed src Pin Pout name n body : body_typed Pin Pout body -> node_typed src Pin Pout (loop_node name n body).
Proof.
  intros Hb w f nexts w' f' nexts' Hx Hf _ Hnd Hin He E. cbn in E. rewrite frame_items_wf in E by done. cbn [obind] in E.
  destruct (each body (packets f) w nexts) as [[w1 nexts1]|e| |] eqn:E1; cbn [obind] in E; try done. injection E as <- _ <-.
  exact (loop_typed Pin Pout body w f nexts w1 nexts1 Hb Hx Hnd Hin He E1).
Qed.

Lemma move_to_cases nexts k m nexts' :
  move_to nexts k m = Ret nexts' -> exists f f', nexts !! k = Some f /\ Push f m = Ret f' /\ nexts' = <[k := f']> nexts.
Proof.
  unfold move_to. destruct (at_ nexts k) as [f|e| |] eqn:E; cbn [obind]; try done. apply at_Ret in E.
  destruct (Push f m) as [f'|e| |] eqn:Ep; cbn [obind]; try done. intros [= <-]. eauto.
Qed.

Lemma extra_set_mbuf w m b : extra_own w -> m ∉ in_dev (w_dev w) -> extra_own (set_mbuf w m b).
Proof.
  intros [Hr Ht] Hm. split; [|exact Ht]. intros k r q Hk Hq. cbn. destruct (Z.eqb_spec q m) as [->|_]; [|exact (Hr k r q Hk Hq)].
  exfalso. apply Hm. exact (ring_in_dev _ _ _ Hq).
Qed.

(** A body that rewrites the packet and sends it on. *)
Lemma rewrite_typed (Pout : nat -> Mbuf -> Prop) w nexts m b k nexts' :
  extra_own w -> m ∉ in_dev (w_dev w) -> Pout k b -> move_to nexts k m = Ret nexts' ->
  extra_own (set_mbuf w m b) /\ (forall q, q <> m -> w_mem (set_mbuf w m b) q = w_mem w q) /\
  (forall q, q ∈ in_dev (w_dev (set_mbuf w m b)) -> q ∈ in_dev (w_dev w) \/ q = m) /\
  (nexts' = nexts \/ exists k f f', nexts !! k = Some f /\ Push f m = Ret f' /\ nexts' = <[k := f']> nexts /\
    Pout k (w_mem (set_mbuf w m b) m)).
Proof.
  intros Hx Hm Hp (f & f' & Hk & Ep & ->)%move_to_cases. split; [now apply extra_set_mbuf|]. split_and!.
  - intros q Hq. cbn. now destruct (Z.eqb_spec q m).
  - intros q Hq. now left.
  - right. exists k, f, f'. split_and!; try done. cbn. now rewrite Z.eqb_refl.
Qed.

(** *** The bodies *)

Definition anything (k : nat) (b : Mbuf) : Prop := True.

Lemma parse_typed Pin (Pout : nat -> Mbuf -> Prop) :
  (forall b out meta', Pin b -> Classify cfg (mb_meta b) (mb_data b) = Ret (out, meta') -> Pout out (mkMbuf (mb_data b) meta')) ->
  body_typed Pin Pout (parse_packet cfg).
Proof.
  intros Hp w nexts m w' nexts' Hx Hm Hin E. unfold parse_packet in E.
  destruct (Classify _ _ _) as [[out meta]|e| |] eqn:Ec; cbn [obind] in E; try done.
  destruct (move_to _ _ _) as [n1|e| |] eqn:Em; cbn [obind] in E; try done. injection E as <- <-.
  exact (rewrite_typed Pout w nexts m _ out n1 Hx Hm (Hp _ _ _ Hin Ec) Em).
Qed.

Lemma dnat_typed Pin : body_typed Pin anything (dnat_packet cfg).
Proof.
  intros w nexts m w' nexts' Hx Hm Hin E. unfold dnat_packet in E.
  destruct (Rewrite _ _ _) as [data|e| |]; cbn [obind] in E; try done.
  destruct (move_to _ _ _) as [n1|e| |] eqn:Em; cbn [obind] in E; try done. injection E as <- <-.
  exact (rewrite_typed anything w nexts m _ _ n1 Hx Hm I Em).
Qed.

Lemma ether_typed Pin : body_typed Pin anything (ether_packet cfg).
Proof.
  intros w nexts m w' nexts' Hx Hm Hin E. unfold ether_packet in E.
  destruct (ether_rewrite _ _ _) as [data|e| |]; cbn [obind] in E; try done.
  destruct (move_to _ _ _) as [n1|e| |] eqn:Em; cbn [obind] in E; try done. injection E as <- <-.
  exact (rewrite_typed anything w nexts m _ _ n1 Hx Hm I Em).
Qed.

Lemma arp_typed Pin : body_typed Pin anything (arp_packet cfg).
Proof.
  intros w nexts m w' nexts' Hx Hm Hin E. unfold arp_packet in E.
  destruct (BuildReply _ _) as [[reply data]|e| |]; cbn [obind] in E; try done.
  destruct (move_to _ _ _) as [n1|e| |] eqn:Em; cbn [obind] in E; try done. injection E as <- <-.
  exact (rewrite_typed anything w nexts m _ _ n1 Hx Hm I Em).
Qed.

(** A body that only sends the packet on. *)
Lemma forward_typed (Pout : nat -> Mbuf -> Prop) w nexts m k nexts' :
  extra_own w -> Pout k (w_mem w m) -> move_to nexts k m = Ret nexts' ->
  extra_own w /\ (forall q, q <> m -> w_mem w q = w_mem w q) /\
  (forall q, q ∈ in_dev (w_dev w) -> q ∈ in_dev (w_dev w) \/ q = m) /\
  (nexts' = nexts \/ exists k f f', nexts !! k = Some f /\ Push f m = Ret f' /\ nexts' = <[k := f']> nexts /\ Pout k (w_mem w m)).
Proof. intros Hx Hp (f & f' & Hk & Ep & ->)%move_to_cases. split_and!; try done; [intros q Hq; now left|right; eauto 8]. Qed.

Lemma rx_forward_typed (Pin : Mbuf -> Prop) : body_typed Pin (fun _ => Pin) rx_forward.
Proof.
  intros w nexts m w' nexts' Hx _ Hin E. unfold rx_forward in E. destruct (move_to _ _ _) as [n1|e| |] eqn:Em; cbn [obind] in E; try done.
  injection E as <- <-. exact (forward_typed (fun _ => Pin) w nexts m 0 n1 Hx Hin Em).
Qed.

Lemma lb_drop_typed Pin : body_typed Pin anything lb_drop.
Proof.
  intros w nexts m w' nexts' Hx _ _ E. unfold lb_drop in E. destruct (move_to _ _ _) as [n1|e| |] eqn:Em; cbn [obind] in E; try done.
  injection E as <- <-. exact (forward_typed anything w nexts m _ n1 Hx I Em).
Qed.

(** What the load balancer needs of its packets. *)
Definition lb_in (b : Mbuf) : Prop := m_dir (mb_meta b) = kForward -> own_key (meta_key (mb_meta b)).

Lemma lb_packet_typed pool now : body_typed lb_in anything (lb_packet pool now).
Proof.
  intros w nexts m w' nexts' Hx Hm Hin E. unfold lb_packet in E.
  destruct (HandlePacket _ _ _ _) as [[[ok meta] lb]|e| |] eqn:Eh; cbn [obind] in E; try done.
  destruct (move_to _ _ _) as [n1|e| |] eqn:Em; cbn [obind] in E; try done. injection E as <- <-.
  refine (rewrite_typed anything (set_lb w lb) nexts m _ _ n1 _ Hm I Em). destruct Hx as [Hr Ht]. split; [exact Hr|].
  exact (entries_in_Handle _ _ _ _ _ _ _ _ Eh (fun Hd _ _ => Hin Hd) Ht).
Qed.

Lemma extra_stat w f : extra_own w -> extra_own (count_stat w f).
Proof. intros [Hr Ht]. split; [exact Hr|exact Ht]. Qed.

Lemma lb_node_typed src : node_typed src lb_in anything LbNode_node.
Proof.
  intros w f nexts w' f' nexts' Hx Hf _ Hnd Hin He E. cbn in E. unfold Lb_Process in E. rewrite frame_items_wf in E by done. cbn [obind] in E.
  assert (Hdrop : (let! '(w, nexts) := each lb_drop (packets f) w nexts in Ret (w, f, nexts)) = Ret (w', f', nexts') ->
    extra_own w' /\ (forall m, m ∉ in_dev (w_dev w) ++ packets f -> w_mem w' m = w_mem w m) /\ outs_typed anything w' [] nexts').
  { destruct (each lb_drop (packets f) w nexts) as [[w1 n1]|e| |] eqn:E1; cbn [obind]; try done. intros [= <- _ <-].
    exact (loop_typed lb_in anything lb_drop w f nexts w1 n1 (lb_drop_typed _) Hx Hnd Hin He E1). }
  destruct (Load (w_pool w)) as [pool|]; [|exact (Hdrop E)]. destruct (ActiveCount pool =? 0); [exact (Hdrop E)|].
  destruct (NowMs _ _) as [now|e| |]; cbn [obind] in E; try done.
  destruct (each (lb_packet pool now) (packets f) w nexts) as [[w1 n1]|e| |] eqn:E1; cbn [obind] in E; try done. injection E as <- _ <-.
  destruct (loop_typed lb_in anything _ w f nexts w1 n1 (lb_packet_typed pool now) Hx Hnd Hin He E1) as (Hx1 & Hm1 & Ho1).
  split; [now apply extra_stat|]. split; [exact Hm1|exact Ho1].
Qed.

(** *** Nodes that send or free all they get *)

(** A change of the device that leaves the worker rings alone. *)
Lemma extra_dev w d : extra_own w -> (forall r, r ∈ worker_rings arg -> ring_items d r = ring_items (w_dev w) r) -> extra_own (set_dev w d).
Proof.
  intros [Hr Ht] Hd. split; [|exact Ht]. intros k r m Hk Hm. cbn in Hm. rewrite Hd in Hm by (by eapply list_elem_of_lookup_2). exact (Hr k r m Hk Hm).
Qed.

Lemma extra_free w l : extra_own w -> extra_own (set_dev w (rte_pktmbuf_free_bulk (w_dev w) l)).
Proof. intros Hx. apply extra_dev; [done|]. intros r _. apply ring_free. Qed.

(** Without outputs. *)
Lemma sink_typed Pout w f w' nexts :
  extra_own w' -> w_mem w' = w_mem w -> Forall (fun o => frame_wf o /\ count o = 0) nexts ->
  extra_own w' /\ (forall m, m ∉ in_dev (w_dev w) ++ packets f -> w_mem w' m = w_mem w m) /\ outs_typed Pout w' [] nexts.
Proof. intros Hx Hm He. split; [done|]. split; [by rewrite Hm|now apply outs_empty]. Qed.

Lemma drop_typed src Pin : node_typed src Pin anything DropNode.
Proof.
  intros w f nexts w' f' nexts' Hx Hf _ _ _ He E. cbn in E. rewrite frame_items_wf in E by done. cbn [obind] in E. injection E as <- _ <-.
  apply sink_typed; [now apply extra_free|done..].
Qed.

Lemma tx_typed src Pin port q : node_typed src Pin anything (TxNode port q).
Proof.
  intros w f nexts w' f' nexts' Hx Hf _ _ _ He E. cbn in E. rewrite frame_items_wf in E by done. cbn [obind] in E.
  destruct (rte_eth_tx_burst _ _ _ _) as [n d] eqn:Et. injection E as <- _ <-.
  assert (Hd : extra_own (set_dev w d)) by (apply extra_dev; [done|]; intros r _; exact (ring_tx _ _ _ _ _ _ r Et)).
  destruct (0 <? _); (apply sink_typed; [do 2 apply extra_stat|done..]); [exact (extra_free _ _ Hd)|exact Hd].
Qed.

Lemma ring_tx_typed src Pin ring : ring ∉ worker_rings arg -> node_typed src Pin anything (RingTxNode ring).
Proof.
  intros Hring w f nexts w' f' nexts' Hx Hf _ _ _ He E. cbn in E. rewrite frame_items_wf in E by done. cbn [obind] in E.
  destruct (rte_ring_enqueue_burst _ _ _) as [n d] eqn:Et. injection E as <- _ <-.
  assert (Hd : extra_own (set_dev w d)).
  { apply extra_dev; [done|]. intros r Hr. rewrite (ring_enqueue_burst _ _ _ _ _ r Et). case_decide; [congruence|]. apply app_nil_r. }
  destruct (_ <? _); (apply sink_typed; [|done..]); [apply extra_stat; exact (extra_free _ _ Hd)|exact Hd].
Qed.

(** *** Steering *)

Lemma steer_typed Pin :
  0 < n_workers arg -> NoDup (worker_rings arg) ->
  body_typed Pin anything (steer_packet cfg (worker_rings arg) (n_workers arg)).
Proof.
  intros Hn Hnd w nexts m w' nexts' Hx Hm _ E. unfold steer_packet in E.
  destruct (ClassifyForSteer _ _ _) as [[cls worker]|e| |] eqn:Ec; cbn [obind] in E; try done. destruct cls.
  - destruct (at_ _ _) as [ring|e| |] eqn:Er; cbn [obind] in E; try done. apply at_Ret in Er.
    destruct (rte_ring_enqueue (w_dev w) ring m) as [rc d] eqn:Ee. pose proof (steers_nonneg _ _ _ _ Ec Hn) as Hk.
    assert (Hd : extra_own (set_dev w d)).
    { destruct Hx as [Hr Ht]. split; [|exact Ht]. intros k r q Hkr Hq. cbn in Hq. rewrite (ring_enqueue _ _ _ _ _ r Ee) in Hq.
      apply elem_of_app in Hq as [Hq|Hq]; [exact (Hr k r q Hkr Hq)|]. case_decide; [subst r|by apply elem_of_nil in Hq].
      destruct (rc =? 0); [|by apply elem_of_nil in Hq]. apply list_elem_of_singleton in Hq as ->.
      rewrite (NoDup_lookup _ _ _ _ Hnd Hkr Er), Z2Nat.id by lia. exact Ec. }
    assert (Hdev : forall q, q ∈ in_dev d -> q ∈ in_dev (w_dev w) \/ q = m).
    { intros q Hq. apply enqueue_law in Ee. rewrite Ee in Hq. apply elem_of_app in Hq as [Hq|Hq]; [right|by left].
      destruct (rc =? 0); [by apply list_elem_of_singleton in Hq|by apply elem_of_nil in Hq]. }
    destruct (negb _); injection E as <- <-; split_and!; try done; try (by left).
    + apply extra_stat. exact (extra_free _ _ Hd).
    + intros q Hq. cbn in Hq. rewrite free_law in Hq. apply elem_of_app in Hq as [Hq|Hq]; [right; by apply list_elem_of_singleton in Hq|auto].
  - destruct (move_to _ _ _) as [n1|e| |] eqn:Em; cbn [obind] in E; try done. injection E as <- <-.
    exact (forward_typed anything w nexts m _ n1 Hx I Em).
  - injection E as <- <-. split_and!; try done; [now apply extra_free| |by left].
    intros q Hq. cbn in Hq. rewrite free_law in Hq. apply elem_of_app in Hq as [Hq|Hq]; [right; by apply list_elem_of_singleton in Hq|auto].
Qed.

Lemma steer_node_typed src Pin :
  0 < n_workers arg -> NoDup (worker_rings arg) -> node_typed src Pin anything (SteerNode cfg (worker_rings arg) (n_workers arg)).
Proof.
  intros Hn Hnd w f nexts w' f' nexts' Hx Hf _ Hown Hin He E. cbn in E. rewrite frame_items_wf in E by done. cbn [obind] in E.
  destruct (each _ (packets f) w nexts) as [[w1 n1]|e| |] eqn:E1; cbn [obind] in E; try done. injection E as <- _ <-.
  exact (loop_typed Pin anything _ w f nexts w1 n1 (steer_typed Pin Hn Hnd) Hx Hown Hin He E1).
Qed.

(** *** Receiving *)

Lemma fill_mem_other l : forall w,
  w_dev (fill_mem w l) = w_dev w /\ w_lb (fill_mem w l) = w_lb w /\ forall q, q ∉ l.*1 -> w_mem (fill_mem w l) q = w_mem w q.
Proof.
  induction l as [|[m data] l IH]; intros w; cbn [fill_mem]; [done|].
  destruct (IH (set_mbuf w m (mkMbuf data (mb_meta (w_mem w m))))) as (Hd & Hl & Hm). split; [exact Hd|]. split; [exact Hl|].
  intros q Hq. rewrite fmap_cons in Hq. apply not_elem_of_cons in Hq as [Hne Hq]. rewrite Hm by done. cbn. now destruct (Z.eqb_spec q m).
Qed.

(** The frame has been filled: its packets are sent on. *)
Lemma received_typed (Pin : Mbuf -> Prop) w w0 f nexts items w' f' nexts' :
  extra_own w0 -> frame_wf f -> (length items <= Z.to_nat kBurstSize)%nat -> in_dev (w_dev w) ≡ₚ items ++ in_dev (w_dev w0) ->
  NoDup (in_dev (w_dev w)) -> (forall q, q ∉ items -> w_mem w0 q = w_mem w q) -> Forall (fun m => Pin (w_mem w0 m)) items ->
  Forall (fun o => frame_wf o /\ count o = 0) nexts ->
  (let! l := frame_items (filled f items) in
   let! '(w, nexts) := each rx_forward l w0 nexts in Ret (w, filled f items, nexts)) = Ret (w', f', nexts') ->
  extra_own w' /\ (forall m, m ∉ in_dev (w_dev w) ++ packets f -> w_mem w' m = w_mem w m) /\ outs_typed (fun _ => Pin) w' [] nexts'.
Proof.
  intros Hx Hf Hlen Hown Hnd Hmem Hin He E. destruct (filled_wf f items Hf Hlen) as [Hff Hpk].
  rewrite frame_items_wf in E by done. cbn [obind] in E. rewrite Hpk in E.
  destruct (each rx_forward items w0 nexts) as [[w1 n1]|e| |] eqn:E1; cbn [obind] in E; try done. injection E as <- _ <-.
  rewrite Hown in Hnd. apply NoDup_app in Hnd as (Hnd & Hdis & _).
  destruct (each_typed Pin (fun _ => Pin) rx_forward items w0 nexts w1 n1 (rx_forward_typed Pin) Hx Hnd Hdis Hin (outs_empty _ _ _ _ He) E1)
    as (Hx1 & Hm1 & Ho1). split_and!; try done. intros m Hm.
  assert (Hmi : m ∉ items) by (intros Hi; apply Hm, elem_of_app; left; rewrite Hown; apply elem_of_app; by left). by rewrite Hm1, Hmem.
Qed.

Lemma rx_typed Pin port q : node_typed true Pin anything (RxNode port q).
Proof.
  intros w f nexts w' f' nexts' Hx Hf Hs Hnd _ He E. cbn in E. destruct (rte_eth_rx_burst _ _ _ _) as [l d] eqn:Er.
  pose proof (fun r => ring_rx _ _ _ _ _ _ r Er) as Hrings. apply rx_law in Er as (Hlen & Hown & _).
  destruct (fill_mem_other l (set_dev w d)) as (Hd0 & Hl0 & Hm0). apply NoDup_app in Hnd as (Hnd & _ & _).
  refine (received_typed (fun _ => True) w (count_stat (fill_mem (set_dev w d) l) _) f nexts l.*1 w' f' nexts' _ Hf _ _ Hnd Hm0 _ He E).
  - apply extra_stat. destruct Hx as [Hr Ht]. split; [|unfold table_own; rewrite Hl0; exact Ht].
    intros k r m Hk Hm. rewrite Hd0 in Hm. cbn in Hm. rewrite Hm0; [cbn; rewrite Hrings in Hm; exact (Hr k r m Hk Hm)|].
    rewrite Hown in Hnd. apply NoDup_app in Hnd as (_ & Hdis & _). intros Hin. exact (Hdis m Hin (ring_in_dev _ _ _ Hm)).
  - now rewrite length_fmap.
  - cbn. rewrite Hd0. exact Hown.
  - apply Forall_true. done.
Qed.

(** From a ring: what is known of its packets is known of the packets received. *)
Lemma ring_rx_typed (Pin : Mbuf -> Prop) Pin0 ring :
  (forall w m, extra_own w -> m ∈ ring_items (w_dev w) ring -> Pin (w_mem w m)) ->
  node_typed true Pin0 (fun _ => Pin) (RingRxNode ring).
Proof.
  intros HP w f nexts w' f' nexts' Hx Hf Hs Hnd _ He E. cbn in E. destruct (rte_ring_dequeue_burst _ _ _) as [l d] eqn:Er.
  pose proof (fun r => ring_dequeue _ _ _ _ _ r Er) as Hrings. apply dequeue_burst_law in Er as (Hlen & Hown).
  apply NoDup_app in Hnd as (Hnd & _ & _).
  refine (received_typed Pin w (set_dev w d) f nexts l w' f' nexts' _ Hf Hlen Hown Hnd _ _ He E); [|done|].
  - destruct Hx as [Hr Ht]. split; [|exact Ht]. intros k r m Hk Hm. apply (Hr k r m Hk). rewrite Hrings. apply elem_of_app. by right.
  - apply Forall_forall. intros m Hm. apply (HP w m Hx). rewrite Hrings, decide_True by done. apply elem_of_app. by left.
Qed.

(** *** Graphs *)

(** What [RunDataplane] gives an lcore with rings. *)
Record arg_rings : Prop := {
  ar_nodup : NoDup (worker_rings arg);
  ar_egress : forall e, egress arg = Some e -> e ∉ worker_rings arg;
  ar_ingress : forall i, role arg = kWorker -> ingress arg = Some i ->
    0 <= worker_id arg /\ worker_rings arg !! Z.to_nat (worker_id arg) = Some i;
}.

Lemma type_of_any v b : role arg <> kWorker -> type_of v b.
Proof. unfold type_of. destruct (role arg); try done. Qed.

Lemma lb_in_type b : role arg <> kIo -> type_of 2 b -> lb_in b.
Proof. unfold type_of, lb_in, own_key, meta_own. intros Hio Ht Hd. destruct (role arg); try done. by rewrite Hd in Ht. Qed.

Lemma node_typed_weaken src (Pin Pin' : Mbuf -> Prop) Pout node :
  (forall b, Pin' b -> Pin b) -> node_typed src Pin Pout node -> node_typed src Pin' Pout node.
Proof.
  intros HP Hn w f nexts w' f' nexts' Hx Hf Hs Hnd Hin. apply Hn; try done. eapply Forall_impl; [exact Hin|]. intros m. apply HP.
Qed.

(** The graphs of the lcore. *)
Definition graphs_of : list (Graph Lcore) :=
  match role arg, ingress arg, egress arg with
  | kMono, _, _ => [mono_graph cfg (port_id arg)]
  | kIo, _, Some e => [rx_graph cfg (port_id arg) (worker_rings arg) (n_workers arg) e; tx_graph (port_id arg) e]
  | kWorker, Some i, Some e => [worker_graph cfg i e]
  | _, _, _ => []
  end.

Definition lcore_graph_typed (ports : list Z) (g : Graph Lcore) : Prop :=
  @graph_typed _ (lcore_world ports) first_source _ w_mem extra_own type_of g.

(** Outputs about which there is nothing to know. *)
Ltac at_node Pout := apply (node_typed_at _ _ _ _ Pout);
  [|intros k t b Hk _; first [by apply type_of_any | by (destruct k as [|[|[|[|]]]]; simplify_eq/=; unfold type_of; by destruct (role arg))]].

Lemma worker_graph_typed ports i e :
  role arg = kWorker -> ingress arg = Some i -> egress arg = Some e -> arg_rings -> lcore_graph_typed ports (worker_graph cfg i e).
Proof.
  intros Hr Hi He [Hnd Heg Hin]. destruct (Hin i Hr Hi) as [Hw0 Hlk]. intros v node outs Hv Ho. each_node v.
  - apply (node_typed_at _ _ _ _ (fun _ => type_of 1)); [|intros k t b Hk Hb; destruct k; by simplify_eq/=].
    apply ring_rx_typed. intros w m [Hrings _] Hm. unfold type_of. rewrite Hr.
    specialize (Hrings _ _ _ Hlk Hm). by rewrite Z2Nat.id in Hrings by lia.
  - apply (node_typed_at _ _ _ _ (fun _ b => meta_own (n_workers arg) (worker_id arg) (mb_meta b)));
      [|intros k t b Hk Hb; unfold type_of; rewrite Hr; destruct k as [|[|[|[|]]]]; by simplify_eq/=].
    apply loop_node_typed, parse_typed. intros b out meta' Hb Ec. unfold type_of in Hb. rewrite Hr in Hb. exact (Classify_own _ _ _ _ _ _ _ Hb Ec).
  - at_node anything. apply (node_typed_weaken _ lb_in); [intros b; apply lb_in_type; congruence|apply lb_node_typed].
  - at_node anything. apply loop_node_typed, dnat_typed.
  - at_node anything. apply loop_node_typed, ether_typed.
  - at_node anything. apply ring_tx_typed. exact (Heg e He).
  - at_node anything. apply drop_typed.
Qed.

Lemma rx_graph_typed ports e :
  role arg = kIo -> egress arg = Some e -> arg_rings -> 0 < n_workers arg ->
  lcore_graph_typed ports (rx_graph cfg (port_id arg) (worker_rings arg) (n_workers arg) e).
Proof.
  intros Hr He [Hnd Heg _] Hn. assert (Hnw : role arg <> kWorker) by congruence. intros v node outs Hv Ho. each_node v.
  - at_node anything. apply rx_typed.
  - at_node anything. now apply steer_node_typed.
  - at_node anything. apply loop_node_typed, arp_typed.
  - at_node anything. apply ring_tx_typed. exact (Heg e He).
  - at_node anything. apply drop_typed.
Qed.

Lemma tx_graph_typed ports e : role arg = kIo -> lcore_graph_typed ports (tx_graph (port_id arg) e).
Proof.
  intros Hr. assert (Hnw : role arg <> kWorker) by congruence. intros v node outs Hv Ho. each_node v.
  - at_node (fun (_ : nat) (_ : Mbuf) => True). now apply ring_rx_typed.
  - at_node anything. apply tx_typed.
Qed.

Lemma mono_graph_typed ports : role arg = kMono -> lcore_graph_typed ports (mono_graph cfg (port_id arg)).
Proof.
  intros Hr. assert (Hnw : role arg <> kWorker) by congruence. intros v node outs Hv Ho. each_node v.
  - at_node anything. apply rx_typed.
  - at_node anything. now apply loop_node_typed, parse_typed.
  - at_node anything. apply (node_typed_weaken _ lb_in); [intros b; apply lb_in_type; congruence|apply lb_node_typed].
  - at_node anything. apply loop_node_typed, dnat_typed.
  - at_node anything. apply loop_node_typed, ether_typed.
  - at_node anything. apply tx_typed.
  - at_node anything. apply drop_typed.
  - at_node anything. apply loop_node_typed, arp_typed.
Qed.

Lemma graphs_typed ports g : arg_ok arg -> arg_rings -> g ∈ graphs_of -> lcore_graph_typed ports g.
Proof.
  unfold arg_ok, graphs_of. intros Ha Hrings Hg. destruct (role arg) eqn:Hr.
  - apply list_elem_of_singleton in Hg as ->. now apply mono_graph_typed.
  - destruct Ha as ([e He] & Hn & _). rewrite He in Hg. apply elem_of_cons in Hg as [->|Hg]; [now apply rx_graph_typed|].
    apply list_elem_of_singleton in Hg as ->. now apply tx_graph_typed.
  - destruct Ha as ([i Hi] & [e He] & _). rewrite Hi, He in Hg. apply list_elem_of_singleton in Hg as ->. now apply worker_graph_typed.
Qed.

End Lcore.

(** ** One step of an lcore *)

Lemma typed_any cfg arg d (w : Lcore) : role arg <> kWorker -> typed w_mem (type_of cfg arg) d w.
Proof. intros Hr v pend _. apply Forall_forall. intros m _. by apply type_of_any. Qed.

Lemma new_waiting (g : Graph Lcore) : waiting (Dispatcher_new g) = [].
Proof. unfold waiting, Dispatcher_new. cbn. by rewrite concat_replicate_nil. Qed.

(** What building the graphs gives. *)
Lemma build_engines_own fuel cfg arg w engines w' :
  arg_ok arg -> table_own arg (w_lb w) -> build_engines fuel cfg arg w = Ret (engines, w') ->
  en_graph <$> engines = graphs_of cfg arg /\ Forall (fun en => waiting (en_disp en) = []) engines /\ table_own arg (w_lb w') /\
  w_dev w' = w_dev w /\ w_mem w' = w_mem w.
Proof.
  unfold build_engines, arg_ok, graphs_of. intros Ha Ht E. destruct (role arg) eqn:Er.
  - destruct (LbNode_new fuel cfg (stats_ (w_lb w)) 0 1) as [lb|e| |] eqn:El.
    2-4: unfold BuildMonolithicGraph, AddLbNode in E; rewrite El in E; discriminate E.
    rewrite (BuildMonolithicGraph_eq _ _ _ _ _ El) in E. cbn [obind] in E. injection E as <- <-.
    split_and!; try done; [|exact (LbNode_new_entries _ _ _ _ _ _ _ El)]. repeat constructor; apply new_waiting.
  - destruct Ha as ([e He] & _). rewrite (BuildRxGraph_eq _ _ _ He), (BuildTxGraph_eq _ _ He) in E. cbn [obind] in E. injection E as <- <-.
    rewrite He. split_and!; try done. repeat constructor; apply new_waiting.
  - destruct Ha as ([i Hi] & [e He] & _).
    destruct (LbNode_new fuel cfg (stats_ (w_lb w)) (worker_id arg) (u16 (n_workers arg))) as [lb|e0| |] eqn:El.
    2-4: unfold BuildWorkerGraph, AddLbNode in E; rewrite Hi in E; cbn [deref obind] in E; rewrite El in E; discriminate E.
    rewrite (BuildWorkerGraph_eq _ _ _ _ _ _ _ Hi He El) in E. cbn [obind] in E. injection E as <- <-. rewrite Hi, He.
    split_and!; try done; [|exact (LbNode_new_entries _ _ _ _ _ _ _ El)]. repeat constructor; apply new_waiting.
Qed.

(** The graphs of a thread, and what is known of the packets in them. *)
Record thread_own (cfg : Config) (th : Thread) (w : Lcore) : Prop := {
  tw_graphs : th_pc th <> PcStart -> en_graph <$> th_engines th = graphs_of cfg (th_arg th);
  tw_typed : Forall (fun en => typed w_mem (type_of cfg (th_arg th)) (en_disp en) w) (th_engines th);
}.

Lemma engine_waiting th en m : en ∈ th_engines th -> m ∈ waiting (en_disp en) -> m ∈ thread_packets th.
Proof.
  intros Hen Hm. apply list_elem_of_lookup_1 in Hen as [k Hk]. apply (elem_of_concat_lookup _ k (engine_packets en)); [|exact Hm].
  by rewrite list_lookup_fmap, Hk.
Qed.

Lemma empty_typed cfg arg engines (w : Lcore) :
  Forall (fun en => waiting (en_disp en) = []) engines -> Forall (fun en => typed w_mem (type_of cfg arg) (en_disp en) w) engines.
Proof. intros Hall. eapply Forall_impl; [exact Hall|]. intros en Hen. by apply typed_empty. Qed.

Lemma no_packets th : thread_packets th = [] -> Forall (fun en => waiting (en_disp en) = []) (th_engines th).
Proof.
  intros Hp. apply Forall_forall. intros en Hen. destruct (waiting (en_disp en)) as [|m l] eqn:E; [done|]. exfalso.
  assert (Hm : m ∈ thread_packets th) by (apply (engine_waiting th en); [done|]; rewrite E; apply list_elem_of_here).
  rewrite Hp in Hm. by apply elem_of_nil in Hm.
Qed.

Lemma begin_burst_graphs th j th' : begin_burst th j = Ret th' -> en_graph <$> th_engines th' = en_graph <$> th_engines th /\ th_pc th' <> PcStart.
Proof.
  unfold begin_burst. destruct (at_ (th_engines th) j) as [en|e| |] eqn:Ea; cbn [obind]; try done. apply at_Ret in Ea.
  destruct (seed_root _ _ _) as [d|e| |]; cbn [obind]; try done. intros [= <-]. split; [|done]. cbn.
  rewrite list_fmap_insert. apply list_insert_id. by rewrite list_lookup_fmap, Ea.
Qed.

(** Starting a burst: nothing waits yet. *)
Lemma begin_burst_own cfg th w j th' :
  thread_ok th -> th_pc th <> PcStart -> engines_ok (th_arg th) (th_pc th) (th_engines th) ->
  (forall k, th_pc th = PcBurst k -> S k = j /\ forall en, th_engines th !! k = Some en -> queue_ (en_disp en) = []) ->
  (j < length (th_engines th))%nat -> thread_own cfg th w -> begin_burst th j = Ret th' ->
  th_lb th' = th_lb th /\ th_arg th' = th_arg th /\ thread_own cfg th' w.
Proof.
  intros Hth Hs He Hk Hj [Hg _] E. destruct (begin_burst_graphs th j th' E) as [Hg' Hs'].
  destruct (begin_burst_spec th (th_pc th) j Hs He Hk Hj) as (th2 & E2 & Ea & El & _ & _ & Hperm & _). rewrite E in E2. injection E2 as <-.
  split; [done|]. split; [done|]. split; [intros _; rewrite Hg', Ea; auto|]. apply empty_typed, no_packets.
  assert (Hnil : thread_packets th = []).
  { destruct He as (Hall & _ & Hidle). apply (idle_engines_packets _ _ _ Hall). apply Forall_lookup_2. intros k en Hen.
    destruct (decide (th_pc th = PcBurst k)) as [Hpc|Hpc]; [exact (proj2 (Hk k Hpc) en Hen)|exact (Hidle k en Hen Hpc)]. }
  rewrite Hnil in Hperm. by apply Permutation_nil_r in Hperm.
Qed.

Lemma single_engine cfg th en j :
  role (th_arg th) = kWorker -> en_graph <$> th_engines th = graphs_of cfg (th_arg th) -> th_engines th !! j = Some en ->
  j = 0%nat /\ th_engines th = [en].
Proof.
  intros Hr Hg Hj. unfold graphs_of in Hg. rewrite Hr in Hg.
  destruct (th_engines th) as [|en0 [|en1 l]]; [done| |by destruct (ingress (th_arg th)), (egress (th_arg th))].
  destruct j as [|j]; cbn in Hj; [by simplify_eq|done].
Qed.

(** Draining a node: what waits in other graphs, of the I/O lcore, is not typed. *)
Lemma burst_own cfg th w j en v d w' :
  thread_ok th -> shared_ok w -> w_lb w = th_lb th -> arg_rings (th_arg th) -> extra_own cfg (th_arg th) w -> thread_own cfg th w ->
  NoDup (in_dev (w_dev w) ++ thread_packets th) -> th_pc th = PcBurst j -> th_engines th !! j = Some en ->
  back (queue_ (en_disp en)) = Some v -> drain_back (en_graph en) (en_disp en) w v = Ret (d, w') ->
  extra_own cfg (th_arg th) w' /\
  thread_own cfg (mkThread (th_arg th) (PcBurst j) (<[j := set_disp en d]> (th_engines th)) (w_lb w')) w' /\
  forall m, m ∉ in_dev (w_dev w) ++ thread_packets th -> w_mem w' m = w_mem w m.
Proof.
  intros Hth Hsh Hlb Hrings Hx [Hg Hty] Hnd Hpc Hen Hv E. pose proof (thread_world th w Hth Hsh Hlb) as Hw. pose proof Hth as [_ _ Ha Hp].
  unfold thread_ports in Hw. rewrite Hpc in *. specialize (Hg ltac:(done)). pose proof Hp as (Hall & _ & _).
  destruct (Forall2_lookup_r _ _ _ _ _ Hall Hen) as (rank & _ & He). assert (Hin : en ∈ th_engines th) by (by eapply list_elem_of_lookup_2).
  assert (Hsub : forall m, m ∈ waiting (en_disp en) -> m ∈ thread_packets th) by (intros m; by apply engine_waiting).
  destruct (@drain_back_typed _ (lcore_world (arg_ports (th_arg th))) first_source _ w_mem (extra_own cfg (th_arg th)) (type_of cfg (th_arg th))
    (en_graph en) (en_disp en) w v d w') as (Hx' & Hty' & Hf); try done; try apply He.
  - apply (graphs_typed cfg (th_arg th)); try done. rewrite <- Hg. by apply list_elem_of_fmap_2.
  - exact (Forall_lookup_1 _ _ _ _ Hty Hen).
  - destruct (packets_insert _ j en en Hen) as (rest & Hpk & _). unfold thread_packets in Hnd. rewrite Hpk, app_assoc in Hnd.
    by apply NoDup_app in Hnd as (Hnd & _ & _).
  - split; [exact Hx'|]. split; [split; cbn [th_arg th_engines]|].
    + intros _. rewrite list_fmap_insert, <- Hg. apply list_insert_id. by rewrite list_lookup_fmap, Hen.
    + destruct (decide (role (th_arg th) = kWorker)) as [Hr|Hr]; [|apply Forall_forall; intros en' _; by apply typed_any].
      destruct (single_engine cfg th en j Hr Hg Hen) as [-> ->]. by repeat constructor.
    + intros m Hm. apply Hf. intros Hi. apply Hm. apply elem_of_app in Hi as [Hi|Hi]; apply elem_of_app; [by left|right; auto].
Qed.

(** What a step of the lcore leaves. *)
Lemma thread_step_own fuel cfg running th w th' w' :
  thread_ok th -> shared_ok w -> w_lb w = th_lb th -> arg_rings (th_arg th) -> extra_own cfg (th_arg th) w -> thread_own cfg th w ->
  NoDup (in_dev (w_dev w) ++ thread_packets th) -> thread_step fuel cfg running th w = Ret (th', w') ->
  extra_own cfg (th_arg th) w' /\ th_lb th' = w_lb w' /\ th_arg th' = th_arg th /\ thread_own cfg th' w' /\
  forall m, m ∉ in_dev (w_dev w) ++ thread_packets th -> w_mem w' m = w_mem w m.
Proof.
  intros Hth Hsh Hlb Hrings Hx Hown Hnd E. pose proof Hth as [_ _ Harg Hp]. unfold thread_step in E. destruct (th_pc th) as [| |j|] eqn:Hpc.
  - destruct (build_engines fuel cfg (th_arg th) w) as [[engines w1]|e| |] eqn:Eb; cbn [obind] in E; try done. injection E as <- <-.
    destruct Hx as [Hr Ht]. apply build_engines_own in Eb as (Hg & Hem & Ht' & Hd & Hm); try done.
    split_and!; try done; [split; [by rewrite Hd, Hm|done]|split; [done|by apply empty_typed]|by rewrite Hm].
  - destruct running; [|injection E as <- <-; split_and!; try done; split; [intros _; apply Hown; congruence|apply Hown]].
    destruct (begin_burst th 0) as [th1|e| |] eqn:Eb; cbn [obind] in E; try done. injection E as <- <-.
    destruct (begin_burst_own cfg th w 0 th1 Hth) as (Hl1 & Ha1 & Ho1); try congruence; [|split_and!; congruence || done].
    destruct Hp as (Hall & _). apply Forall2_length in Hall. rewrite <- Hall. unfold ranks_of. destruct (role _); simpl; lia.
  - destruct (at_ (th_engines th) j) as [en|e| |] eqn:Ea; cbn [obind] in E; try done. apply at_Ret in Ea.
    destruct (back (queue_ (en_disp en))) as [id|] eqn:Eb.
    + destruct (drain_back _ _ _ _) as [[d w1]|e| |] eqn:Ed; cbn [obind] in E; try done. injection E as <- <-.
      destruct (burst_own cfg th w j en id d w1) as (Hx1 & Ho1 & Hf1); done.
    + apply back_None in Eb. destruct (Nat.ltb_spec (S j) (length (th_engines th))) as [Hlt|Hge].
      * destruct (begin_burst th (S j)) as [th1|e| |] eqn:E1; cbn [obind] in E; try done. injection E as <- <-.
        destruct (begin_burst_own cfg th w (S j) th1 Hth) as (Hl1 & Ha1 & Ho1); try congruence; [|split_and!; congruence || done].
        intros k Hk. rewrite Hpc in Hk. injection Hk as <-. split; [done|]. intros en' Hk. congruence.
      * injection E as <- <-. split_and!; try done. split; [intros _; apply Hown; congruence|apply Hown].
  - injection E as <- <-. done.
Qed.

(** ** The lcores of a launch *)

Section Launch.
Context (lcores : list Z) (port : Z) (rings : list nat) (e : option nat) (args : list LcoreArg).
Context (Hmade : rings_made lcores rings e) (Hassign : AssignRoles lcores port rings e = Ret args).

(** Worker number [k], or the only lcore. *)
Definition shard (arg : LcoreArg) (k : Z) : Prop :=
  match role arg with
  | kMono => True
  | kIo => False
  | kWorker => worker_id arg = k
  end.

Lemma shard_unique i j a b k : args !! i = Some a -> args !! j = Some b -> shard a k -> shard b k -> i = j.
Proof using Hmade Hassign.
  destruct (AssignRoles_cases _ _ _ _ _ Hmade Hassign) as [[-> _]|(e' & _ & _ & _ & ->)].
  { intros Hi Hj _ _. apply lookup_lt_Some in Hi, Hj. simpl in *. lia. }
  assert (Hw : forall i a, (io_arg port (Z.of_nat (length rings)) rings e' ::
      imap (worker_arg port (Z.of_nat (length rings)) rings e') rings) !! i = Some a -> shard a k -> Z.of_nat i = k + 1).
  { intros [|i'] a' Hi Hs; simpl in Hi; [by simplify_eq|]. rewrite list_lookup_imap in Hi.
    destruct (rings !! i'); [|done]. injection Hi as <-. cbn in Hs. lia. }
  intros Hi Hj Ha Hb. pose proof (Hw _ _ Hi Ha). pose proof (Hw _ _ Hj Hb). lia.
Qed.

(** All lcores know the same rings. *)
Lemma args_share a b : a ∈ args -> b ∈ args -> worker_rings a = worker_rings b /\ n_workers a = n_workers b.
Proof using Hmade Hassign.
  destruct (AssignRoles_cases _ _ _ _ _ Hmade Hassign) as [[-> _]|(e' & _ & _ & _ & ->)].
  { intros ->%list_elem_of_singleton ->%list_elem_of_singleton. done. }
  assert (Hw : forall a, a ∈ io_arg port (Z.of_nat (length rings)) rings e' ::
      imap (worker_arg port (Z.of_nat (length rings)) rings e') rings -> worker_rings a = rings /\ n_workers a = Z.of_nat (length rings)).
  { intros a' [->|(i & r & _ & ->)%elem_of_imap_workers]%elem_of_cons; done. }
  intros [-> ->]%Hw [-> ->]%Hw. done.
Qed.

Lemma args_rings : NoDup (rings ++ option_list e) -> Forall (fun arg => arg_rings arg /\ (worker_rings arg = rings \/ worker_rings arg = [])) args.
Proof using Hmade Hassign.
  intros Hnd. destruct (AssignRoles_cases _ _ _ _ _ Hmade Hassign) as [[-> _]|(e' & -> & _ & _ & ->)].
  { constructor; [|done]. split; [split; cbn; try done; constructor|by right]. }
  apply NoDup_app in Hnd as (Hnd & Hdis & _).
  assert (Heg : e' ∉ rings) by (intros Hin; apply (Hdis e' Hin), list_elem_of_here).
  apply Forall_forall. intros arg [->|(i & r & Hi & ->)%elem_of_imap_workers]%elem_of_cons; (split; [|by left]); split; cbn; try done.
  - by intros ? [= <-].
  - by intros ? [= <-].
  - intros r' _ [= <-]. split; [lia|]. by rewrite Nat2Z.id.
Qed.

(** ** The process *)

(** A step of the process in which nobody but the lcores touches the rings. *)
Inductive ring_step (fuel : nat) (cfg : Config) (y y' : System) : Prop :=
  | RingLcore i : lcore_step fuel cfg i y y' -> ring_step fuel cfg y y'
  | RingOther : other_step fuel y y' -> (forall r, ring_items (y_dev y') r = ring_items (y_dev y) r) -> ring_step fuel cfg y y'.

Lemma ring_step_sys fuel cfg y y' : ring_step fuel cfg y y' -> sys_step fuel cfg y y'.
Proof. intros [i Hl|Ho _]; [by eapply SysLcore|by apply SysOther]. Qed.

Definition sys_own (cfg : Config) (y : System) : Prop :=
  Forall (fun th => extra_own cfg (th_arg th) (world_of y th) /\ thread_own cfg th (world_of y th)) (y_threads y).

(** The worlds in which an lcore owns what it did. *)
Lemma own_same cfg th w w' :
  rings_own cfg (th_arg th) (w_dev w') (w_mem w') -> w_lb w' = w_lb w ->
  (forall m, m ∈ thread_packets th -> w_mem w' m = w_mem w m) ->
  extra_own cfg (th_arg th) w -> thread_own cfg th w -> extra_own cfg (th_arg th) w' /\ thread_own cfg th w'.
Proof.
  intros Hr Hl Hm [_ Ht] [Hg Hty]. split; [split; [done|by rewrite Hl]|]. split; [done|].
  apply Forall_forall. intros en Hen. rewrite Forall_forall in Hty. apply (typed_same _ _ _ w); [by apply Hty|].
  intros m Hq. apply Hm. exact (engine_waiting th en m Hen Hq).
Qed.

Context (fuel : nat) (Hfuel : 65536 <= Z.of_nat fuel) (cfg : Config) (Hcfg : cfg_ok cfg).
Context (Hrings : NoDup (rings ++ option_list e)).

Lemma lcore_step_own total i y y' :
  NoDup total -> sys_ok args total y -> sys_own cfg y -> lcore_step fuel cfg i y y' -> sys_own cfg y'.
Proof using Hmade Hassign Hrings.
  intros Hnd Hy Ho [th th' w' Hi Hne E]. pose proof Hy as [_ _ Hth Hargs _ _ Hpk]. pose proof (Forall_lookup_1 _ _ _ _ Ho Hi) as [Hx Hown].
  assert (Hin : forall k t, y_threads y !! k = Some t -> th_arg t ∈ args).
  { intros k t Hk. rewrite <- Hargs. apply list_elem_of_fmap_2. by eapply list_elem_of_lookup_2. }
  assert (Har : arg_rings (th_arg th)).
  { pose proof (args_rings Hrings) as Ha. rewrite Forall_forall in Ha. exact (proj1 (Ha _ (Hin i th Hi))). }
  rewrite <- Hpk in Hnd. destruct (concat_insert_split (thread_packets <$> y_threads y) i (thread_packets th)) as (rest & Hc & _).
  { by rewrite list_lookup_fmap, Hi. }
  assert (Hnd1 : NoDup (in_dev (y_dev y) ++ thread_packets th)).
  { rewrite Hc, app_assoc in Hnd. by apply NoDup_app in Hnd as (Hnd1 & _ & _). }
  destruct (thread_step_own fuel cfg (y_running y) th (world_of y th) th' w') as ([Hr' Ht'] & Hl' & Ha' & [Hg' Hty'] & Hf'); try done.
  { exact (Forall_lookup_1 _ _ _ _ Hth Hi). }
  { exact (sys_shared _ _ _ _ Hy). }
  apply Forall_lookup_2. intros k t Hk. cbn in Hk. destruct (decide (k = i)) as [->|Hki].
  - rewrite list_lookup_insert_eq in Hk by (by eapply lookup_lt_Some). injection Hk as <-. rewrite Ha'.
    split; [split; [exact Hr'|cbn; by rewrite Hl']|split; [exact Hg'|exact Hty']].
  - rewrite list_lookup_insert_ne in Hk by done. destruct (Forall_lookup_1 _ _ _ _ Ho Hk) as [Hxk Hok].
    apply (own_same cfg t (world_of y t)); try done.
    + destruct (args_share _ _ (Hin k t Hk) (Hin i th Hi)) as [Ew En]. unfold rings_own in *. rewrite Ew, En. exact Hr'.
    + intros m Hm. cbn. apply Hf'. cbn. apply NoDup_app in Hnd as (_ & Hdis & Hnd). rewrite elem_of_app. intros [Hd|Hp].
      * apply (Hdis m Hd). apply (elem_of_concat_lookup _ k (thread_packets t)); [|done]. by rewrite list_lookup_fmap, Hk.
      * apply Hki. eapply (NoDup_concat_lookup (thread_packets <$> y_threads y)); rewrite ?list_lookup_fmap, ?Hi, ?Hk; done.
Qed.

Lemma other_step_own y y' :
  sys_own cfg y -> other_step fuel y y' -> (forall r, ring_items (y_dev y') r = ring_items (y_dev y) r) -> sys_own cfg y'.
Proof.
  intros Ho Hst Hr. assert (Hsame : y_threads y' = y_threads y /\ y_mem y' = y_mem y) by (by destruct Hst).
  destruct Hsame as [Ht Hm]. unfold sys_own. rewrite Ht. eapply Forall_impl; [exact Ho|]. intros th [Hx Hth].
  apply (own_same cfg th (world_of y th)); try done; cbn; rewrite Hm; [|done].
  intros k r m Hk Hq. rewrite Hr in Hq. exact (proj1 Hx k r m Hk Hq).
Qed.

Lemma reach_own total y y' :
  NoDup total -> sys_ok args total y -> sys_own cfg y -> rtc (ring_step fuel cfg) y y' -> sys_ok args total y' /\ sys_own cfg y'.
Proof using Hmade Hassign Hrings Hfuel Hcfg.
  intros Hnd Hy Ho Hst. induction Hst as [|y1 y2 y3 Hst _ IH]; [done|]. apply IH.
  - eapply sys_step_ok; eauto using ring_step_sys.
  - destruct Hst as [i Hl|Hot Hr]; [by eapply lcore_step_own|by eapply other_step_own].
Qed.

Lemma launched_own d mem view loop stats :
  (forall r, r ∈ rings -> ring_items d r = []) -> sys_own cfg (launched d mem view loop args stats).
Proof using Hmade Hassign Hrings.
  intros Hempty. apply Forall_lookup_2. intros i th Hi. apply lookup_zip_with_Some in Hi as (arg & st & -> & Harg & _).
  destruct (Forall_lookup_1 _ _ _ _ (args_rings Hrings) Harg) as [_ Hw].
  split; [split; [|apply entries_in_new]|split; [done|constructor]]. intros k r m Hk Hm. cbn in *. exfalso.
  destruct Hw as [Hw|Hw]; rewrite Hw in Hk; [|done]. rewrite Hempty in Hm by (by eapply list_elem_of_lookup_2). by apply elem_of_nil in Hm.
Qed.

(** *** What the lcores have *)

(** An entry in use, expired or not. *)
Definition has_flow (th : Thread) (f : NatFlow) : Prop := f ∈ slots_ (nat_ (th_lb th)) /\ nf_occupied f = true.

(** The packet is in front of the load balancer. *)
Definition at_lb (th : Thread) (m : mbuf_ptr) : Prop :=
  exists en v node pend, en ∈ th_engines th /\ nodes_ (en_graph en) !! v = Some node /\ Name node = "lb"%string /\
    pending_ (en_disp en) !! v = Some pend /\ m ∈ pkts (pool_ (en_disp en)) pend.

Lemma flow_shard n th w f :
  n_workers (th_arg th) = n -> extra_own cfg (th_arg th) w -> w_lb w = th_lb th -> has_flow th f -> shard (th_arg th) (SteerWorker (nf_fwd_key f) n).
Proof.
  intros <- [_ Ht] Hl [[s Hs]%list_elem_of_lookup_1 Ho]. unfold table_own in Ht. rewrite Hl in Ht. specialize (Ht s f Hs Ho).
  unfold own_key in Ht. unfold shard. by destruct (role (th_arg th)).
Qed.

Lemma port_shard n th f :
  n_workers (th_arg th) = n -> thread_ok th -> has_flow th f -> nf_snat_port f <> 0 -> shard (th_arg th) (nf_snat_port f mod n).
Proof.
  intros <- Hth [[s Hs]%list_elem_of_lookup_1 Ho] Hz. assert (Hp : nf_snat_port f ∈ arg_ports (th_arg th)) by (by eapply held_own).
  unfold arg_ports, lb_ports, shard in *. destruct (role (th_arg th)); [done|by apply elem_of_nil in Hp|].
  apply elem_of_worker_ports in Hp as [_ <-]. done.
Qed.

(** The load balancer of a worker is node 2 of its graph; the I/O lcore has none. *)
Lemma packet_shard n th w m meta :
  n_workers (th_arg th) = n -> th_pc th <> PcStart -> thread_own cfg th w -> at_lb th m -> mb_meta (w_mem w m) = meta ->
  shard (th_arg th) (match m_dir meta with kForward => SteerWorker (meta_key meta) n | kReverse => m_dst_port meta mod n end).
Proof.
  intros <- Hpc [Hg Hty] (en & v & node & pend & Hen & Hv & Hname & Hpend & Hm) <-. specialize (Hg Hpc).
  assert (Hin : en_graph en ∈ graphs_of cfg (th_arg th)) by (rewrite <- Hg; by apply list_elem_of_fmap_2).
  rewrite Forall_forall in Hty. specialize (Hty en Hen v pend Hpend). unfold all_sat in Hty. rewrite Forall_forall in Hty.
  specialize (Hty m Hm). unfold graphs_of, type_of, shard in *. destruct (role (th_arg th)); [done| |].
  - exfalso. destruct (egress (th_arg th)); [|by apply elem_of_nil in Hin].
    apply elem_of_cons in Hin as [Hin|Hin%list_elem_of_singleton]; rewrite Hin in Hv; each_node v; done.
  - destruct (ingress (th_arg th)), (egress (th_arg th)); try (by apply elem_of_nil in Hin).
    apply list_elem_of_singleton in Hin. rewrite Hin in Hv. each_node v; try done. unfold meta_own in Hty. by destruct (m_dir _).
Qed.

(** C14: a connection belongs to one worker: the lcores share no table, and in any
    interleaving, through the rings, no two of them have an entry for the same flow; a
    client's packet in front of the load balancer of one lcore never has its flow in the
    table of another; and neither has a backend's answer the connection whose SNAT port
    it is addressed to. *)
Theorem connections_sharded d mem view loop stats y i j thi thj :
  prepared mem view loop stats -> NoDup (in_dev d) -> (forall r, r ∈ rings -> ring_items d r = []) ->
  rtc (ring_step fuel cfg) (launched d mem view loop args stats) y -> y_threads y !! i = Some thi -> y_threads y !! j = Some thj ->
  (forall f g, has_flow thi f -> has_flow thj g -> nf_fwd_key f = nf_fwd_key g -> i = j) /\
  (forall m f, at_lb thi m -> has_flow thj f ->
    let meta := mb_meta (y_mem y m) in
    (m_dir meta = kForward -> nf_fwd_key f = meta_key meta -> i = j) /\
    (m_dir meta = kReverse -> nf_snat_port f <> 0 -> nf_snat_port f = m_dst_port meta -> i = j)).
Proof using Hmade Hassign Hrings Hfuel Hcfg.
  intros Hp Hnd Hempty Hst Hi Hj. destruct (assigned_ok _ _ _ _ _ Hmade Hassign) as [Ha Hlen].
  destruct (reach_own (in_dev d) _ y Hnd (launched_ok _ _ _ _ _ _ Hp Ha Hlen) (launched_own d mem view loop stats Hempty) Hst) as [Hy Ho].
  pose proof Hy as [_ _ Hth Hargs _ _ _]. destruct (Forall_lookup_1 _ _ _ _ Ho Hi) as [Hxi Hoi].
  destruct (Forall_lookup_1 _ _ _ _ Ho Hj) as [Hxj _]. pose proof (Forall_lookup_1 _ _ _ _ Hth Hj) as Htj.
  assert (Hai : args !! i = Some (th_arg thi)) by (by rewrite <- Hargs, list_lookup_fmap, Hi).
  assert (Haj : args !! j = Some (th_arg thj)) by (by rewrite <- Hargs, list_lookup_fmap, Hj).
  destruct (args_share (th_arg thi) (th_arg thj)) as [_ Hn]; [by eapply list_elem_of_lookup_2..|].
  assert (Hsame : forall k k', shard (th_arg thi) k -> shard (th_arg thj) k' -> k = k' -> i = j)
    by (intros k k' Hki Hkj ->; exact (shard_unique i j _ _ k' Hai Haj Hki Hkj)).
  split.
  - intros f g Hf Hg Ek. eapply Hsame; [exact (flow_shard _ _ _ _ Hn Hxi eq_refl Hf)|exact (flow_shard _ _ _ _ eq_refl Hxj eq_refl Hg)|].
    by rewrite Ek.
  - intros m f Hm Hf meta. assert (Hpc : th_pc thi <> PcStart).
    { intros Epc. pose proof (to_pc _ (Forall_lookup_1 _ _ _ _ Hth Hi)) as Hs. rewrite Epc in Hs. destruct Hs as [Hs _].
      destruct Hm as (en & ? & ? & ? & Hen & _). rewrite Hs in Hen. by apply elem_of_nil in Hen. }
    pose proof (packet_shard _ _ _ _ meta Hn Hpc Hoi Hm eq_refl) as Hsm. split.
    + intros Hd Ek. rewrite Hd in Hsm. eapply Hsame; [exact Hsm|exact (flow_shard _ _ _ _ eq_refl Hxj eq_refl Hf)|]. by rewrite Ek.
    + intros Hd Hz Ek. rewrite Hd in Hsm. eapply Hsame; [exact Hsm|exact (port_shard _ _ _ eq_refl Htj Hf Hz)|]. by rewrite Ek.
Qed.

End Launch.

End Sharding.
