(* ===== verification/ShardingSamples.v ===== *)
(** * Two packets of one client on the sample device

    The second packet is in front of the load balancer of the worker that has the
    connection of the first. *)

From stdpp Require Import relations.
From S2P Require Import Prelude FlowKey NetTypes PortPool BackendPool NatTable NatTableFacts NatTableSpec Ipc.
From S2P Require Import PacketMeta LbNode LbFacts LbSpec Graph GraphFacts GraphSpec Packet Nodes NodeFacts.
From S2P Require Import Dataplane DataplaneSpec SampleDevice DataplaneSamples Control ControlPlane ControlSpec.
From S2P Require Import System DeviceUse SystemSpec Drain SystemRefine SystemSamples Sharding.

#[local] Opaque worker_ports.

#[local] Existing Instance BackendPool.test_build.
#[local] Existing Instance SampleDevice.sample_dpdk.

(** ** The rings of the sample device *)

Definition dev_ring (d : Device) (r : nat) : list mbuf_ptr := default [] (d_rings d !! r).

Lemma dev_ring_insert rx free sent rings cycles ring q r :
  is_Some (rings !! ring) ->
  dev_ring (mkDevice rx free sent (<[ring := q]> rings) cycles) r = if decide (r = ring) then q else default [] (rings !! r).
Proof.
  intros [q0 Hq]. unfold dev_ring. cbn. case_decide as Hr; [subst r|by rewrite list_lookup_insert_ne].
  by rewrite list_lookup_insert_eq by (by eapply lookup_lt_Some).
Qed.

Lemma dev_enqueue_ring d ring l n d' r :
  dev_enqueue_burst d ring l = (n, d') -> dev_ring d' r = dev_ring d r ++ (if decide (r = ring) then take n l else []).
Proof.
  unfold dev_enqueue_burst. destruct (d_rings d !! ring) as [q|] eqn:Hq; intros [= <- <-].
  - rewrite dev_ring_insert by eauto. unfold dev_ring. rewrite take_ge by done. case_decide; [subst; by rewrite Hq|by rewrite app_nil_r].
  - rewrite take_0. case_decide; by rewrite app_nil_r.
Qed.

#[refine] Definition sample_rings : RingFifo := {| ring_items := dev_ring |}.
Proof.
  - intros d r m Hm. change (m ∈ dev_mbufs d). unfold dev_mbufs. rewrite !elem_of_app. do 3 right. unfold dev_ring in Hm.
    destruct (d_rings d !! r) as [q|] eqn:Hq; [|by apply elem_of_nil in Hm]. exact (elem_of_concat_lookup _ r q m Hq Hm).
  - intros d port queue n l d' r. cbn. unfold dev_rx. destruct (d_rx d) as [|[m data] rest], n; by intros [= <- <-].
  - intros d port queue l n d' r. cbn. by intros [= <- <-].
  - done.
  - intros d ring m rc d' r E. cbn in E. rewrite (dev_enqueue_ring d ring [m] (if rc =? 0 then 1%nat else 0%nat) d' r).
    + by destruct (rc =? 0).
    + unfold dev_enqueue, dev_enqueue_burst in *. destruct (d_rings d !! ring); injection E as <- <-; done.
  - exact dev_enqueue_ring.
  - intros d ring n l d' r. cbn. unfold dev_dequeue_burst. destruct (d_rings d !! ring) as [q|] eqn:Hq; intros [= <- <-].
    + rewrite dev_ring_insert by eauto. unfold dev_ring. case_decide; [subst; by rewrite Hq, take_drop|done].
    + by case_decide.
Defined.

#[local] Existing Instance sample_rings.

(** ** The run *)

Definition dev6 : dev := mkDevice [(1, client_syn); (4, client_syn)] [2; 3] [] (replicate 32 []) 1000000.

Definition start6 : System := launched dev6 (fun _ => blank_mbuf) view3 loop3 args3 stats3.

(** As [sched3], until worker 3 has parsed the second packet. *)
Definition sched6 : list nat := replicate 8 0%nat ++ replicate 12 4%nat ++ replicate 12 0%nat ++ replicate 3 4%nat.

Definition end6 : System := run_sched sched6 start6.

(** The packets in front of node 2 of worker 3, and the name of the node. *)
Definition before_lb (y : System) : option (string * list mbuf_ptr) :=
  en ← th_engines (worker3 y) !! 0%nat;
  node ← nodes_ (en_graph en) !! 2%nat;
  pend ← pending_ (en_disp en) !! 2%nat;
  Some (Name node, pkts (pool_ (en_disp en)) pend).

Definition summary6 (y : System) : option (string * list mbuf_ptr) * Direction * FlowKey * nat * nat * bool :=
  (before_lb y, m_dir (mb_meta (y_mem y 4)), nf_fwd_key (flow3 y), length (y_threads y),
   length (slots_ (nat_ (th_lb (worker3 y)))), nf_occupied (flow3 y)).

Definition done6 (y : System) : Prop :=
  summary6 y = (Some ("lb"%string, [4]), kForward, meta_key (mb_meta (y_mem y 4)), 32%nat, 4%nat, true).

Lemma end6_run : done6 end6.
Proof. vm_compute. reflexivity. Qed.

Lemma done6_facts y :
  done6 y -> y_threads y !! 4%nat = Some (worker3 y) /\ at_lb (worker3 y) 4 /\ has_flow (worker3 y) (flow3 y) /\
    m_dir (mb_meta (y_mem y 4)) = kForward /\ nf_fwd_key (flow3 y) = meta_key (mb_meta (y_mem y 4)).
Proof.
  intros [= Hb Hd Hk Hl Hs Ho]. split_and!; try done.
  - unfold worker3. destruct (y_threads y !! 4%nat) as [th|] eqn:E; [done|]. apply lookup_ge_None in E. lia.
  - unfold before_lb in Hb. destruct (th_engines (worker3 y) !! 0%nat) as [en|] eqn:He; [|done]. cbn in Hb.
    destruct (nodes_ (en_graph en) !! 2%nat) as [node|] eqn:Hn; [|done]. cbn in Hb.
    destruct (pending_ (en_disp en) !! 2%nat) as [pend|] eqn:Hp; [|done]. injection Hb as Hname Hpk.
    exists en, 2%nat, node, pend. split_and!; try done; [by eapply list_elem_of_lookup_2|].
    rewrite Hpk. apply list_elem_of_here.
  - split; [|done]. apply (list_elem_of_lookup_2 _ 2). apply list_lookup_lookup_total_lt. lia.
Qed.

Lemma run_sched_rings sched y : rtc (ring_step fuel0 sample_config) y (run_sched sched y).
Proof.
  revert y. induction sched as [|i sched IH]; intros y; cbn [run_sched]; [done|].
  destruct (sched_step i y) as [y'|] eqn:E; [|done]. apply rtc_l with y'; [|apply IH].
  apply (RingLcore _ _ _ _ i). now apply sched_step_ok.
Qed.

Lemma end6_steps : rtc (ring_step fuel0 sample_config) start6 end6.
Proof. exact (run_sched_rings sched6 start6). Qed.

Lemma dev6_NoDup : NoDup (in_dev dev6).
Proof. apply (bool_decide_unpack (NoDup (in_dev dev6))). vm_compute. exact I. Qed.

Lemma dev6_rings r : ring_items dev6 r = [].
Proof. cbn. unfold dev_ring. cbn [d_rings dev6]. destruct (replicate 32 [] !! r) eqn:E; [|done]. by apply lookup_replicate in E as [-> _]. Qed.

Lemma made3 : rings_made lcores3 rings3 (Some 31%nat).
Proof. split; [reflexivity|now exists 31%nat]. Qed.

Lemma rings3_NoDup : NoDup (rings3 ++ option_list (Some 31%nat)).
Proof. apply (bool_decide_unpack (NoDup (rings3 ++ option_list (Some 31%nat)))). vm_compute. exact I. Qed.

(** Worker 3 has the flow, and no other lcore has it or gets a packet of it. *)
Lemma connections_sharded_witness :
  at_lb (worker3 end6) 4 /\ has_flow (worker3 end6) (flow3 end6) /\ nf_fwd_key (flow3 end6) = meta_key (mb_meta (y_mem end6 4)) /\
  forall i th, y_threads end6 !! i = Some th ->
    (forall f, has_flow th f -> nf_fwd_key f = nf_fwd_key (flow3 end6) -> i = 4%nat) /\ (at_lb th 4 -> i = 4%nat).
Proof.
  destruct (done6_facts end6 end6_run) as (Hw & Hat & Hf & Hd & Hk). split; [exact Hat|]. split; [exact Hf|]. split; [exact Hk|].
  intros i th Hi.
  destruct (connections_sharded lcores3 0 rings3 (Some 31%nat) args3 made3 eq_refl fuel0 fuel0_enough sample_config cfg3_ok rings3_NoDup
    dev6 (fun _ => blank_mbuf) view3 loop3 stats3 end6 i 4 th (worker3 end6) prepared3 dev6_NoDup (fun r _ => dev6_rings r) end6_steps Hi Hw)
    as [Hkey Hpkt].
  split; [intros f Hth Ek; exact (Hkey f _ Hth Hf Ek)|]. intros Hm. exact (proj1 (Hpkt 4 _ Hm Hf) Hd Hk).
Defined.
