(* ===== verification/ControlPlaneSpec.v ===== *)
(** * Health checks and statistics, proved *)

From S2P Require Import Prelude FlowKey NetTypes BackendPool Ipc Control ControlPlane.

(** ** Health *)

Section Health.
Context `{Sockets}.

Lemma WaitForConnect_fds n fd : fd < FD_SETSIZE -> exists b n', WaitForConnect n fd = Ret (b, n') /\ fds n' = fds n.
Proof.
  intros Hfd. unfold WaitForConnect. destruct (Z.leb_spec FD_SETSIZE fd); [lia|].
  destruct (sys_select n fd) as [rc n1] eqn:E1. apply select_law in E1.
  destruct (rc <=? 0); [by eauto|].
  destruct (sys_so_error n1 fd) as [err n2] eqn:E2. apply so_error_law in E2. eexists _, _. split; [done|congruence].
Qed.

(** A new descriptor is at most the number of those already open. *)
Lemma socket_small n fd n' : sys_socket n = (fd, n') -> fd <= Z.of_nat (length (fds n)).
Proof.
  intros E. destruct (Z.le_gt_cases fd 0); [lia|].
  assert (Hsub : seqZ 0 fd ⊆+ fds n).
  { apply NoDup_submseteq; [apply NoDup_seqZ|]. intros k Hk%elem_of_seqZ. eapply socket_lowest; [exact E|lia]. }
  apply submseteq_length in Hsub. rewrite length_seqZ in Hsub. lia.
Qed.

Definition few_fds (n : net) : Prop := Z.of_nat (length (fds n)) < FD_SETSIZE.

(** A probe is defined while the descriptors fit an [fd_set], and leaves none open. *)
Lemma Probe_fds n b : few_fds n -> exists h n', Probe n b = Ret (h, n') /\ fds n' = fds n.
Proof.
  intros Hn. unfold Probe. destruct (sys_socket n) as [fd n1] eqn:E1. pose proof (socket_small n fd n1 E1) as Hfd.
  apply socket_law in E1. destruct (fd <? 0); [by eauto|].
  destruct (sys_connect n1 fd _ _) as [[rc err] n2] eqn:E2. apply connect_law in E2.
  assert (Hw : exists h n3, (if rc =? 0 then Ret (true, n2) else if err =? EINPROGRESS then WaitForConnect n2 fd
    else Ret (false, n2)) = Ret (h, n3) /\ fds n3 = fds n2).
  { destruct (rc =? 0); [by eauto|]. destruct (err =? EINPROGRESS); [|by eauto].
    apply WaitForConnect_fds. unfold few_fds in Hn. lia. }
  destruct Hw as (h & n3 & -> & Hn3). cbn [obind]. eexists _, _. split; [done|]. apply close_law. congruence.
Qed.

(** What one probe makes of a state. *)
Definition checked (s s' : BackendState) : Prop :=
  info s' = info s /\
  ((status s' = kUp /\ success_count s' = u32 (success_count s + 1) /\ fail_count s' = fail_count s) \/
   (status s' = kDown /\ fail_count s' = u32 (fail_count s + 1) /\ success_count s' = success_count s)).

Lemma check_backend_spec n s :
  few_fds n -> exists s' n', check_backend n s = Ret (s', n') /\ fds n' = fds n /\ checked s s'.
Proof.
  intros Hn. unfold check_backend. destruct (Probe_fds n (info s) Hn) as (h & n' & -> & Hf). cbn [obind].
  eexists _, _. split; [done|]. split; [done|]. split; [done|]. destruct h; [left|right]; done.
Qed.

Lemma health_pass_spec states n :
  few_fds n -> exists states' n', health_pass n states = Ret (states', n') /\ fds n' = fds n /\ Forall2 checked states states'.
Proof.
  revert n. induction states as [|s states IH]; intros n Hn; cbn [health_pass].
  { eexists _, _. split; [done|]. split; [done|constructor]. }
  destruct (check_backend_spec n s Hn) as (s1 & n1 & -> & F1 & C1). cbn [obind].
  destruct (IH n1) as (states1 & n2 & -> & F2 & C2); [unfold few_fds in *; congruence|]. cbn [obind].
  eexists _, _. split; [done|]. split; [congruence|]. now constructor.
Qed.

(** What [rounds] passes make of a state. *)
Definition checked_times (rounds : nat) (s s' : BackendState) : Prop :=
  info s' = info s /\ (rounds = 0%nat -> s' = s) /\
  ((1 <= rounds)%nat -> status s' = kUp \/ status s' = kDown) /\
  exists ups, (ups <= rounds)%nat /\
    success_count s' = u32 (success_count s + Z.of_nat ups) /\
    fail_count s' = u32 (fail_count s + Z.of_nat (rounds - ups)).

Definition counts_ok (s : BackendState) : Prop :=
  0 <= success_count s < 2 ^ 32 /\ 0 <= fail_count s < 2 ^ 32.

Lemma checked_counts_ok s s' : counts_ok s -> checked s s' -> counts_ok s'.
Proof.
  intros [Hs Hf] (_ & [(_ & E1 & E2)|(_ & E1 & E2)]); unfold counts_ok; rewrite E1, E2; split; done || apply u32_range.
Qed.

Lemma u32_add_l a b : u32 (u32 a + b) = u32 (a + b).
Proof. unfold u32. apply Zplus_mod_idemp_l. Qed.

Lemma checked_step rounds s s1 s2 :
  checked s s1 -> checked_times rounds s1 s2 -> checked_times (S rounds) s s2.
Proof.
  intros [Hi Hc] (Hi2 & Hz & Hst & ups & Hu & Hsc & Hfc). split; [congruence|]. split; [done|]. split.
  { intros _. destruct rounds; [|apply Hst; lia]. rewrite Hz by done. destruct Hc as [(-> & _)|(-> & _)]; auto. }
  destruct Hc as [(_ & E1 & E2)|(_ & E1 & E2)]; [exists (S ups)|exists ups]; rewrite Hsc, Hfc, E1, E2, ?u32_add_l;
    split_and!; try lia; f_equal; lia.
Qed.

Lemma checked_times_0 s : counts_ok s -> checked_times 0 s s.
Proof.
  intros [Hs Hf]. split; [done|]. split; [done|]. split; [lia|]. exists 0%nat. rewrite !Z.add_0_r, !u32_small by done.
  split_and!; done.
Qed.

(** While the process has fewer than 1024 open descriptors the health checker
    runs for any number of passes without undefined behaviour, leaves no socket
    open, keeps every backend at its place, leaves each one up or down, and counts
    every probe in exactly one of its two counters. *)
Theorem health_loop_correct rounds n states :
  few_fds n -> Forall counts_ok states ->
  exists states' n', RunLoop rounds n states = Ret (states', n') /\ fds n' = fds n /\
    Forall2 (checked_times rounds) states states'.
Proof.
  revert n states. induction rounds as [|rounds IH]; intros n states Hn Hc; cbn [RunLoop].
  { eexists _, _. split; [done|]. split; [done|]. apply Forall_Forall2_diag.
    eapply Forall_impl; [exact Hc|]. apply checked_times_0. }
  destruct (health_pass_spec states n Hn) as (s1 & n1 & -> & F1 & C1). cbn [obind].
  destruct (IH n1 s1) as (s2 & n2 & E2 & F2 & C2).
  { unfold few_fds in *. congruence. }
  { eapply Forall2_Forall_r; [exact C1|]. eapply Forall_impl; [exact Hc|]. simpl. eauto using checked_counts_ok. }
  exists s2, n2. split; [done|]. split; [congruence|].
  eapply Forall2_trans; [|exact C1|exact C2]. simpl. eauto using checked_step.
Qed.

End Health.

(** A backend is found up exactly when a socket could be opened and the
    connection was made, at once or within the wait without a pending error. *)
Theorem Probe_correct `{Sockets} n b fd n1 rc errno n2 :
  few_fds n ->
  sys_socket n = (fd, n1) -> sys_connect n1 fd (value (be_ip b)) (be_probe_port b) = (rc, errno, n2) ->
  exists h n', Probe n b = Ret (h, n') /\ (h = true <->
  0 <= fd /\ (rc = 0 \/ (rc <> 0 /\ errno = EINPROGRESS /\ 0 < (sys_select n2 fd).1 /\
    (sys_so_error (sys_select n2 fd).2 fd).1 = 0))).
Proof.
  intros Hn E1 E2. pose proof (socket_small n fd n1 E1) as Hfd. unfold few_fds in Hn. unfold Probe. rewrite E1.
  destruct (Z.ltb_spec fd 0); [eexists _, _; split; [done|]; split; [done|lia]|]. rewrite E2.
  destruct (Z.eqb_spec rc 0) as [->|Hrc]; cbn [obind]; [eexists _, _; split; [done|]; split; [auto|done]|].
  destruct (Z.eqb_spec errno EINPROGRESS) as [->|He]; cbn [obind].
  - unfold WaitForConnect. destruct (Z.leb_spec FD_SETSIZE fd); [lia|]. destruct (sys_select n2 fd) as [sr n3]. simpl.
    destruct (Z.leb_spec sr 0); cbn [obind].
    { eexists _, _. split; [done|]. split; [done|]. intros (_ & [?|(_ & _ & ? & _)]); [done|lia]. }
    destruct (sys_so_error n3 fd) as [err n4]. cbn [obind fst]. eexists _, _. split; [done|]. rewrite Z.eqb_eq.
    split; [intros ->; auto 10|]. intros (_ & [?|(_ & _ & _ & ?)]); done.
  - eexists _, _. split; [done|]. split; [done|]. intros (_ & [?|(_ & ? & _)]); done.
Qed.

(** ** Statistics *)

(** The exact total of a counter over the lcores. *)
Definition total (f : LcoreStats -> Z) (l : list LcoreStats) : Z := foldr (fun s acc => f s + acc) 0 l.

Definition flows_at (i : nat) (s : LcoreStats) : Z := default 0 (backend_flows s !! i).

Lemma u64_add_l a b : u64 (u64 a + b) = u64 (a + b).
Proof. unfold u64. apply Zplus_mod_idemp_l. Qed.

Lemma u64_add_r a b : u64 (a + u64 b) = u64 (a + b).
Proof. unfold u64. apply Zplus_mod_idemp_r. Qed.

Lemma u64_sub a b : u64 (u64 a - u64 b) = u64 (a - b).
Proof. unfold u64. rewrite Zminus_mod_idemp_l, Zminus_mod_idemp_r. done. Qed.

Lemma add_flows_at acc flows i :
  length acc = kMaxBackends -> length flows = kMaxBackends -> (i < kMaxBackends)%nat ->
  exists a b, acc !! i = Some a /\ flows !! i = Some b /\ add_flows acc flows !! i = Some (u64 (a + b)).
Proof.
  intros Ha Hf Hi. destruct (lookup_lt_is_Some_2 acc i) as [a Hla]; [lia|].
  destruct (lookup_lt_is_Some_2 flows i) as [b Hlb]; [lia|]. exists a, b. split_and!; try done.
  unfold add_flows. rewrite lookup_zip_with, Hla. simpl. rewrite Hlb. done.
Qed.

(** The sums, from accumulators that are reduced already. *)
Lemma sum_lcores_spec v n : forall i a b c d act flows,
  (i + n <= length (lcores v))%nat ->
  length flows = kMaxBackends -> Forall (fun s => length (backend_flows s) = kMaxBackends) (lcores v) ->
  let l := take n (drop i (lcores v)) in
  exists flows',
    sum_lcores n i v (mkSnapshot (u64 a) (u64 b) (u64 c) (u64 d)) (u64 act) flows =
      Ret (mkSnapshot (u64 (a + total rx_packets l)) (u64 (b + total tx_packets l))
         (u64 (c + total dropped l)) (u64 (d + total new_flows l)),
       u64 (act + total active_flows l), flows') /\
    length flows' = kMaxBackends /\
    forall k x, (k < kMaxBackends)%nat -> flows !! k = Some (u64 x) ->
      flows' !! k = Some (u64 (x + total (flows_at k) l)).
Proof.
  induction n as [|n IH]; intros i a b c d act flows Hn Hl Hs l; cbn [sum_lcores sn_rx sn_tx sn_dropped sn_new_flows].
  { exists flows. subst l. cbn [take total foldr]. rewrite !Z.add_0_r. split_and!; try done.
    intros k x _ Hx. now rewrite Z.add_0_r. }
  destruct (lookup_lt_is_Some_2 (lcores v) i) as [s Hi]; [lia|]. rewrite (proj2 (at_Ret _ _ s)) by done. cbn [obind].
  pose proof (Forall_lookup_1 _ _ _ _ Hs Hi) as Hsl. simpl in Hsl. rewrite !u64_add_l.
  destruct (IH (S i) (a + rx_packets s) (b + tx_packets s) (c + dropped s) (d + new_flows s) (act + active_flows s)
    (add_flows flows (backend_flows s))) as (flows' & -> & Hl' & Hf').
  { lia. }
  { unfold add_flows. rewrite length_zip_with. lia. }
  { done. }
  subst l. rewrite (drop_S _ s i Hi). cbn [take total foldr].
  exists flows'. rewrite <- !Z.add_assoc. split_and!; try done. intros k x Hk Hx.
  destruct (add_flows_at flows (backend_flows s) k Hl Hsl Hk) as (y & z & Hy & Hz & Hyz).
  rewrite Hx in Hy. injection Hy as <-. rewrite u64_add_l in Hyz. rewrite (Hf' k _ Hk Hyz). do 2 f_equal.
  unfold flows_at at 2. rewrite Hz. simpl. unfold total. lia.
Qed.

Definition stats_view_ok (v : StatsView) : Prop :=
  length (lcores v) = kMaxLcores /\ Forall (fun s => length (backend_flows s) = kMaxBackends) (lcores v).

Lemma Tick_spec v prev :
  stats_view_ok v ->
  let l := lcores v in
  exists flows, Tick v kMaxLcores prev =
    Ret (mkAggregatedStats (u64 (u64 (total rx_packets l) - sn_rx prev)) (u64 (u64 (total tx_packets l) - sn_tx prev))
       (u64 (u64 (total dropped l) - sn_dropped prev)) (u64 (u64 (total new_flows l) - sn_new_flows prev))
       (u64 (total active_flows l)) flows,
     mkSnapshot (u64 (total rx_packets l)) (u64 (total tx_packets l)) (u64 (total dropped l)) (u64 (total new_flows l))) /\
    forall i, (i < kMaxBackends)%nat -> flows !! i = Some (u64 (total (flows_at i) l)).
Proof.
  intros [Hv Hb] l. unfold Tick.
  destruct (sum_lcores_spec v kMaxLcores 0 0 0 0 0 0 (replicate kMaxBackends 0)) as (flows & E & Hl & Hf);
    [lia|apply length_replicate|done|].
  rewrite !Z.add_0_l in E. rewrite drop_0, firstn_all2 in E, Hf by lia. fold l in E, Hf.
  change (u64 0) with 0 in E at 1 2 3 4 5. fold Snapshot_zero in E. rewrite E. exists flows. split; [done|].
  intros i Hi. rewrite <- (Z.add_0_l (total (flows_at i) l)). apply Hf; [done|].
  apply lookup_replicate. done.
Qed.

(** The rates of a tick are the exact growth of the summed counters since the
    tick before, also when a 64-bit counter or sum has wrapped in between; the
    gauges are the sums over the lcores, the flows of each backend among them. *)
Theorem tick_rates_exact v1 v2 prev :
  stats_view_ok v1 -> stats_view_ok v2 ->
  exists out1 p1 out2 p2, Tick v1 kMaxLcores prev = Ret (out1, p1) /\ Tick v2 kMaxLcores p1 = Ret (out2, p2) /\
  rx_pps out2 = u64 (total rx_packets (lcores v2) - total rx_packets (lcores v1)) /\
  tx_pps out2 = u64 (total tx_packets (lcores v2) - total tx_packets (lcores v1)) /\
  dropped_pps out2 = u64 (total dropped (lcores v2) - total dropped (lcores v1)) /\
  new_flows_ps out2 = u64 (total new_flows (lcores v2) - total new_flows (lcores v1)) /\
  agg_active_flows out2 = u64 (total active_flows (lcores v2)) /\
  forall i, (i < kMaxBackends)%nat -> agg_backend_flows out2 !! i = Some (u64 (total (flows_at i) (lcores v2))).
Proof.
  intros H1 H2. destruct (Tick_spec v1 prev H1) as (f1 & T1 & _).
  destruct (Tick_spec v2 (mkSnapshot (u64 (total rx_packets (lcores v1))) (u64 (total tx_packets (lcores v1)))
    (u64 (total dropped (lcores v1))) (u64 (total new_flows (lcores v1)))) H2) as (f2 & T2 & Hf2).
  eexists _, _, _, _. split; [exact T1|]. split; [exact T2|].
  cbn [rx_pps tx_pps dropped_pps new_flows_ps agg_active_flows agg_backend_flows
    sn_rx sn_tx sn_dropped sn_new_flows]. rewrite !u64_sub. split_and!; done.
Qed.
