(* ===== verification/Accounting.v ===== *)
(** * What the counters of an lcore count

    A device that keeps a log of the calls on it. In any interleaving the statistics of
    an lcore are the sums over its own calls, every packet it took is accounted for, and
    the rates of the control plane are those sums between two of its ticks. *)

From stdpp Require Import relations.
From S2P Require Import Prelude FlowKey NetTypes PortPool BackendPool NatTable Ipc PacketMeta LbNode Graph GraphFacts.
From S2P Require Import LbFacts Packet Nodes NodeFacts Dataplane DataplaneSpec Control ControlPlane ControlSpec ControlPlaneSpec.
From S2P Require Import System DeviceUse SystemSpec.

(** ** A log of the calls *)

(** The calls of [Dpdk] with what the device took or gave, and what it refused. *)
Inductive Event :=
  | Received (l : list mbuf_ptr)
  | Sent (taken refused : list mbuf_ptr)
  | Enqueued (ring : nat) (taken refused : list mbuf_ptr)
  | Dequeued (ring : nat) (l : list mbuf_ptr)
  | Freed (l : list mbuf_ptr).

#[export] Instance Event_eq_dec : EqDecision Event.
Proof. solve_decision. Defined.

(** A device with a log. *)
Class DeviceLog `{Dpdk} := {
  log : dev -> list Event;
  log_rx : forall d port queue n l d', rte_eth_rx_burst d port queue n = (l, d') -> log d' = log d ++ [Received l.*1];
  log_tx : forall d port queue l n d', rte_eth_tx_burst d port queue l = (n, d') ->
    log d' = log d ++ [Sent (take n l) (drop n l)];
  log_enqueue : forall d ring m rc d', rte_ring_enqueue d ring m = (rc, d') ->
    log d' = log d ++ [if rc =? 0 then Enqueued ring [m] [] else Enqueued ring [] [m]];
  log_enqueue_burst : forall d ring l n d', rte_ring_enqueue_burst d ring l = (n, d') ->
    log d' = log d ++ [Enqueued ring (take n l) (drop n l)];
  log_dequeue : forall d ring n l d', rte_ring_dequeue_burst d ring n = (l, d') -> log d' = log d ++ [Dequeued ring l];
  log_free : forall d l, log (rte_pktmbuf_free_bulk d l) = log d ++ [Freed l];
}.

(** Every device can be given one: the log is beside its state. *)
#[refine] Definition logged (D : Dpdk) : Dpdk := {|
  data_room := data_room;
  rte_ipv4_hdr_len := rte_ipv4_hdr_len;
  rte_ipv4_cksum := rte_ipv4_cksum;
  rte_ipv4_udptcp_cksum := rte_ipv4_udptcp_cksum;
  dev := dev * list Event;
  in_dev d := in_dev d.1;
  rte_get_timer_cycles d := rte_get_timer_cycles d.1;
  rte_get_timer_hz := rte_get_timer_hz;
  rte_eth_rx_burst d port queue n :=
    let '(l, d') := rte_eth_rx_burst d.1 port queue n in (l, (d', d.2 ++ [Received l.*1]));
  rte_eth_tx_burst d port queue l :=
    let '(n, d') := rte_eth_tx_burst d.1 port queue l in (n, (d', d.2 ++ [Sent (take n l) (drop n l)]));
  rte_ring_enqueue d ring m :=
    let '(rc, d') := rte_ring_enqueue d.1 ring m in
    (rc, (d', d.2 ++ [if rc =? 0 then Enqueued ring [m] [] else Enqueued ring [] [m]]));
  rte_ring_enqueue_burst d ring l :=
    let '(n, d') := rte_ring_enqueue_burst d.1 ring l in (n, (d', d.2 ++ [Enqueued ring (take n l) (drop n l)]));
  rte_ring_dequeue_burst d ring n :=
    let '(l, d') := rte_ring_dequeue_burst d.1 ring n in (l, (d', d.2 ++ [Dequeued ring l]));
  rte_pktmbuf_free_bulk d l := (rte_pktmbuf_free_bulk d.1 l, d.2 ++ [Freed l]);
|}.
Proof.
  - exact data_room_min.
  - exact hdr_len_law.
  - exact cksum_law.
  - exact cksum_header_law.
  - exact udptcp_cksum_law.
  - exact timer_law.
  - intros [d h] port queue n l d'. cbn. destruct (rte_eth_rx_burst d port queue n) eqn:E. intros [= -> <-]. exact (rx_law _ _ _ _ _ _ E).
  - intros [d h] port queue l n d'. cbn. destruct (rte_eth_tx_burst d port queue l) eqn:E. intros [= -> <-]. exact (tx_law _ _ _ _ _ _ E).
  - intros [d h] ring m rc d'. cbn. destruct (rte_ring_enqueue d ring m) eqn:E. intros [= -> <-]. exact (enqueue_law _ _ _ _ _ E).
  - intros [d h] ring l n d'. cbn. destruct (rte_ring_enqueue_burst d ring l) eqn:E. intros [= -> <-]. exact (enqueue_burst_law _ _ _ _ _ E).
  - intros [d h] ring n l d'. cbn. destruct (rte_ring_dequeue_burst d ring n) eqn:E. intros [= -> <-]. exact (dequeue_burst_law _ _ _ _ _ E).
  - intros [d h] l. apply free_law.
Defined.

Definition logged_log (D : Dpdk) : @DeviceLog (logged D).
Proof.
  refine (@Build_DeviceLog (logged D) snd _ _ _ _ _ _).
  - intros [d h] port queue n l d'. cbn. destruct (rte_eth_rx_burst d port queue n). now intros [= -> <-].
  - intros [d h] port queue l n d'. cbn. destruct (rte_eth_tx_burst d port queue l). now intros [= -> <-].
  - intros [d h] ring m rc d'. cbn. destruct (rte_ring_enqueue d ring m). now intros [= -> <-].
  - intros [d h] ring l n d'. cbn. destruct (rte_ring_enqueue_burst d ring l). now intros [= -> <-].
  - intros [d h] ring n l d'. cbn. destruct (rte_ring_dequeue_burst d ring n). now intros [= -> <-].
  - done.
Defined.

(** ** Sums over a log *)

Definition received (e : Event) : nat := match e with Received l => length l | _ => 0%nat end.

Definition sent (e : Event) : nat := match e with Sent l _ => length l | _ => 0%nat end.

Definition enqueued (e : Event) : nat := match e with Enqueued _ l _ => length l | _ => 0%nat end.

Definition dequeued (e : Event) : nat := match e with Dequeued _ l => length l | _ => 0%nat end.

Definition freed (e : Event) : nat := match e with Freed l => length l | _ => 0%nat end.

(** What the NIC or a ring did not take. *)
Definition refused (e : Event) : nat := match e with Sent _ l | Enqueued _ _ l => length l | _ => 0%nat end.

Definition tally (f : Event -> nat) (evs : list Event) : Z := Z.of_nat (sum_list_with f evs).

Lemma tally_app f e1 e2 : tally f (e1 ++ e2) = tally f e1 + tally f e2.
Proof. unfold tally. rewrite sum_list_with_app. lia. Qed.

Lemma tally_cons f e evs : tally f (e :: evs) = Z.of_nat (f e) + tally f evs.
Proof. unfold tally. simpl. lia. Qed.

Lemma tally_nil f : tally f [] = 0.
Proof. done. Qed.

Lemma u64_add a b x y z : u64 b = u64 (a + x) -> u64 z = u64 (b + y) -> u64 z = u64 (a + (x + y)).
Proof.
  unfold u64. intros E ->. rewrite <- Z.add_mod_idemp_l, E, Z.add_mod_idemp_l by lia. f_equal. lia.
Qed.

(** The counters have grown by what the calls say; every packet that was refused has
    been freed. *)
Record counted (evs : list Event) (s s' : LcoreStats) : Prop := {
  ct_rx : u64 (rx_packets s') = u64 (rx_packets s + tally received evs);
  ct_tx : u64 (tx_packets s') = u64 (tx_packets s + tally sent evs);
  ct_dropped : u64 (dropped s') = u64 (dropped s + tally refused evs);
  ct_freed : tally refused evs <= tally freed evs;
}.

Lemma counted_app e1 e2 s1 s2 s3 : counted e1 s1 s2 -> counted e2 s2 s3 -> counted (e1 ++ e2) s1 s3.
Proof. intros [? ? ? ?] [? ? ? ?]. split; rewrite !tally_app; try (eapply u64_add; eassumption). lia. Qed.

(** The counters the packets of other nodes do not touch. *)
Definition same_counts (s s' : LcoreStats) : Prop :=
  rx_packets s' = rx_packets s /\ tx_packets s' = tx_packets s /\ dropped s' = dropped s.

Lemma counted_nil s s' : same_counts s s' -> counted [] s s'.
Proof. intros (E1 & E2 & E3). now split; rewrite ?tally_nil, ?Z.add_0_r, ?E1, ?E2, ?E3. Qed.

(** One counter goes up. *)
Lemma u64_bump a n : u64 (u64 (a + n)) = u64 (a + n).
Proof. apply Z.mod_mod. lia. Qed.

(** ** Relations that nodes keep on well-formed frames *)

Section Rel.
Context {W : Type} (Wd : World W) (R : W -> W -> Prop) `{!PreOrder R} (source : nat -> bool).

Definition node_keeps_wf (node : Node W) : Prop :=
  forall w f nexts w' f' nexts', frame_wf f -> Process node w f nexts = Ret (w', f', nexts') -> R w w'.

Lemma node_keeps_weaken node : node_keeps R node -> node_keeps_wf node.
Proof. intros Hk w f nexts w' f' nexts' _. apply Hk. Qed.

(** The worlds that are related to [w0]: the engine's contract over them gives the
    relation for a whole drained node. *)
Definition from_world (w0 : W) : World W := {| owned := @owned _ Wd; world_ok w := @world_ok _ Wd w /\ R w0 w |}.

Lemma Node_ok_from w0 b node : @Node_ok _ Wd b node -> node_keeps_wf node -> @Node_ok _ (from_world w0) b node.
Proof using PreOrder0.
  intros Hok Hk w f nexts [Hw HR] Hf Hs Hl He. destruct (Hok w f nexts Hw Hf Hs Hl He) as (w' & f' & nexts' & E & Hw' & Hrest).
  exists w', f', nexts'. split; [exact E|]. split; [|exact Hrest]. split; [exact Hw'|]. etransitivity; [exact HR|exact (Hk _ _ _ _ _ _ Hf E)].
Qed.

Lemma graph_ok_from w0 g :
  @graph_ok _ Wd source g -> Forall node_keeps_wf (nodes_ g) -> @graph_ok _ (from_world w0) source g.
Proof using PreOrder0.
  intros [Hc Hr Hn Hf Ht] Hk. split; try done. intros v node Hv. apply Node_ok_from; [now apply Hn|exact (Forall_lookup_1 _ _ _ _ Hk Hv)].
Qed.

Lemma drain_back_keeps_wf g d w v d' w' :
  @graph_ok _ Wd source g -> Forall node_keeps_wf (nodes_ g) -> @DInv _ source g d [] -> @world_ok _ Wd w ->
  back (queue_ d) = Some v -> drain_back g d w v = Ret (d', w') -> R w w'.
Proof using PreOrder0.
  intros Hg Hk Hd Hw Hb E.
  destruct (@drain_step _ (from_world w) source g d w v (graph_ok_from w g Hg Hk) Hd ltac:(by split) Hb)
    as (T & d2 & w2 & new & _ & _ & E2 & [_ HR] & _). rewrite E in E2. now injection E2 as <- <-.
Qed.

End Rel.

Section Accounting.
Context `{BuildParams} `{Dpdk} `{!DeviceLog}.

(** ** One call *)

(** From [d] to [d'] by the calls [evs]: they are in the log, and mbufs went to and
    from the device as they say. *)
Record calls (d : dev) (evs : list Event) (d' : dev) : Prop := {
  ca_log : log d' = log d ++ evs;
  ca_balance : Z.of_nat (length (in_dev d')) + tally received evs + tally dequeued evs =
    Z.of_nat (length (in_dev d)) + tally sent evs + tally enqueued evs + tally freed evs;
}.

Lemma calls_nil d : calls d [] d.
Proof. split; [now rewrite app_nil_r|]. rewrite !tally_nil. lia. Qed.

Lemma calls_app d1 e1 d2 e2 d3 : calls d1 e1 d2 -> calls d2 e2 d3 -> calls d1 (e1 ++ e2) d3.
Proof. intros [L1 B1] [L2 B2]. split; [now rewrite L2, L1, app_assoc|]. rewrite !tally_app. lia. Qed.

Ltac one_call L P := split; [exact L|apply Permutation_length in P; rewrite !length_app in P;
  rewrite !tally_cons, !tally_nil; unfold received, sent, enqueued, dequeued, freed;
  cbn [length] in *; rewrite ?length_fmap in *; lia].

Lemma calls_rx d port queue n l d' : rte_eth_rx_burst d port queue n = (l, d') -> calls d [Received l.*1] d'.
Proof. intros E. pose proof (log_rx _ _ _ _ _ _ E) as L. apply rx_law in E as (_ & P & _). one_call L P. Qed.

Lemma calls_tx d port queue l n d' : rte_eth_tx_burst d port queue l = (n, d') -> calls d [Sent (take n l) (drop n l)] d'.
Proof. intros E. pose proof (log_tx _ _ _ _ _ _ E) as L. apply tx_law in E as (_ & P). one_call L P. Qed.

Lemma calls_enqueue d ring m rc d' :
  rte_ring_enqueue d ring m = (rc, d') -> calls d [if rc =? 0 then Enqueued ring [m] [] else Enqueued ring [] [m]] d'.
Proof. intros E. pose proof (log_enqueue _ _ _ _ _ E) as L. apply enqueue_law in E as P. destruct (rc =? 0); one_call L P. Qed.

Lemma calls_enqueue_burst d ring l n d' :
  rte_ring_enqueue_burst d ring l = (n, d') -> calls d [Enqueued ring (take n l) (drop n l)] d'.
Proof. intros E. pose proof (log_enqueue_burst _ _ _ _ _ E) as L. apply enqueue_burst_law in E as (_ & P). one_call L P. Qed.

Lemma calls_dequeue d ring n l d' : rte_ring_dequeue_burst d ring n = (l, d') -> calls d [Dequeued ring l] d'.
Proof. intros E. pose proof (log_dequeue _ _ _ _ _ E) as L. apply dequeue_burst_law in E as (_ & P). one_call L P. Qed.

Lemma calls_free d l : calls d [Freed l] (rte_pktmbuf_free_bulk d l).
Proof. pose proof (log_free d l) as L. pose proof (free_law d l) as P. one_call L P. Qed.

(** ** One node *)

(** Calls, and counters that tell of them. *)
Definition accounts (w w' : Lcore) : Prop :=
  exists evs, calls (w_dev w) evs (w_dev w') /\ counted evs (stats_ (w_lb w)) (stats_ (w_lb w')).

#[local] Instance accounts_preorder : PreOrder accounts.
Proof.
  split; [intros w; exists []; split; [apply calls_nil|now apply counted_nil]|].
  intros w1 w2 w3 (e1 & C1 & S1) (e2 & C2 & S2). exists (e1 ++ e2). eauto using calls_app, counted_app.
Qed.

Lemma accounts_same w w' : w_dev w' = w_dev w -> same_counts (stats_ (w_lb w)) (stats_ (w_lb w')) -> accounts w w'.
Proof. intros E S. exists []. rewrite E. split; [apply calls_nil|now apply counted_nil]. Qed.

(** Calls with nothing to count. *)
Lemma accounts_calls w d evs :
  calls (w_dev w) evs d -> tally received evs = 0 -> tally sent evs = 0 -> tally refused evs = 0 -> accounts w (set_dev w d).
Proof.
  intros Hc E1 E2 E3. exists evs. split; [exact Hc|]. split; cbn; rewrite ?E1, ?E2, ?E3, ?Z.add_0_r; try done. unfold tally. lia.
Qed.

Ltac no_count := intros w nexts m w' nexts' E;
  repeat match type of E with
  | obind ?x _ = Ret _ => destruct x as [?|?| |]; cbn [obind] in E; try done
  | (let '(_, _) := ?p in _) = Ret _ => destruct p
  end; injection E as <- _; now apply accounts_same.

Lemma parse_accounts cfg : body_keeps accounts (parse_packet cfg).
Proof. unfold parse_packet. no_count. Qed.

Lemma dnat_accounts cfg : body_keeps accounts (dnat_packet cfg).
Proof. unfold dnat_packet. no_count. Qed.

Lemma ether_accounts cfg : body_keeps accounts (ether_packet cfg).
Proof. unfold ether_packet. no_count. Qed.

Lemma arp_accounts cfg : body_keeps accounts (arp_packet cfg).
Proof. unfold arp_packet. no_count. Qed.

Lemma rx_forward_accounts : body_keeps accounts rx_forward.
Proof. unfold rx_forward. no_count. Qed.

Lemma lb_drop_accounts : body_keeps accounts lb_drop.
Proof. unfold lb_drop. no_count. Qed.

Lemma steer_accounts cfg rings n : body_keeps accounts (steer_packet cfg rings n).
Proof.
  intros w nexts m w' nexts' E. unfold steer_packet in E. destruct (ClassifyForSteer _ _ _) as [[[] worker]|e| |]; cbn [obind] in E; try done.
  - destruct (at_ _ _) as [ring|e| |]; cbn [obind] in E; try done. destruct (rte_ring_enqueue _ _ _) as [rc d] eqn:Ee.
    apply calls_enqueue in Ee. destruct (rc =? 0); cbn [negb] in E; injection E as <- _; [by apply (accounts_calls w d _ Ee)|].
    exists [Enqueued ring [] [m]; Freed [m]]. split; [exact (calls_app _ _ _ _ _ Ee (calls_free _ _))|].
    split; cbn; rewrite ?tally_cons, ?tally_nil; cbn; rewrite ?Z.add_0_r, ?u64_bump; try done.
  - destruct (move_to _ _ _); cbn [obind] in E; try done. injection E as <- _. done.
  - injection E as <- _. by apply (accounts_calls w _ [Freed [m]] (calls_free _ _)).
Qed.

(** *** The load balancer: other counters only *)

#[local] Instance same_counts_preorder : PreOrder (fun lb lb' : LbNode => same_counts (stats_ lb) (stats_ lb')).
Proof. split; [done|]. intros l1 l2 l3 (? & ? & ?) (? & ? & ?). repeat split; congruence. Qed.

Lemma CreateFlow_counts lb meta key pool now r lb' :
  CreateFlow lb meta key pool now = Ret (r, lb') -> same_counts (stats_ lb) (stats_ lb').
Proof.
  intros E. unfold CreateFlow in E. destruct (Select pool key) as [j|e| |]; cbn [obind] in E; try done.
  destruct (At pool j) as [b|e| |]; cbn [obind] in E; try done. destruct (at_ _ _) as [ports|e| |]; cbn [obind] in E; try done.
  destruct (Acquire ports) as [snat ports']. destruct (snat =? 0); [now injection E as _ <-|].
  destruct (Insert _ _ _) as [[[inserted evp] evi] t].
  destruct (if negb (evp =? 0) then _ else _) as [lb1|e| |] eqn:E1; cbn [obind] in E; try done.
  assert (Ho : stats_ lb1 = stats_ lb) by (destruct (negb (evp =? 0)); [now apply release_port_stats in E1 as [-> _]|now injection E1 as <-]).
  destruct inserted as [s|].
  - unfold add_backend_flows in E. destruct (at_ _ _); cbn [obind] in E; try done. injection E as _ <-. cbn. rewrite Ho. done.
  - destruct (release_port lb1 j snat) as [lb2|e| |] eqn:E2; cbn [obind] in E; try done. injection E as _ <-.
    apply release_port_stats in E2 as [-> _]. by rewrite Ho.
Qed.

Lemma HandlePacket_counts lb meta pool now b meta' lb' :
  HandlePacket lb meta pool now = Ret (b, meta', lb') -> same_counts (stats_ lb) (stats_ lb').
Proof.
  apply (HandlePacket_keeps (fun lb lb' => same_counts (stats_ lb) (stats_ lb'))); try done.
  - intros lb1 s dir flags lb2 E%MaybeTeardown_stats. by rewrite E.
  - intros lb1 r lb2 _. apply CreateFlow_counts.
Qed.

Lemma lb_packet_accounts pool now : body_keeps accounts (lb_packet pool now).
Proof.
  intros w nexts m w' nexts' E. unfold lb_packet in E.
  destruct (HandlePacket _ _ _ _) as [[[ok meta] lb]|e| |] eqn:Eh; cbn [obind] in E; try done.
  destruct (move_to _ _ _); cbn [obind] in E; try done. injection E as <- _.
  apply accounts_same; [done|]. exact (HandlePacket_counts _ _ _ _ _ _ _ Eh).
Qed.

Lemma lb_accounts : node_keeps accounts LbNode_node.
Proof.
  intros w f nexts w' f' nexts'. apply (Lb_Process_keeps accounts); [apply lb_drop_accounts|intros; apply lb_packet_accounts|].
  intros. now apply accounts_same.
Qed.

(** *** Receiving, sending and dropping *)

Lemma rx_accounts port q : node_keeps accounts (RxNode port q).
Proof.
  intros w f nexts w' f' nexts' E. cbn in E. destruct (rte_eth_rx_burst _ _ _ _) as [l d] eqn:Er.
  destruct (frame_items _) as [items|e| |]; cbn [obind] in E; try done.
  destruct (each rx_forward items _ nexts) as [[w1 nexts1]|e| |] eqn:E1; cbn [obind] in E; try done. injection E as <- _ _.
  apply (each_keeps accounts) in E1; [|apply rx_forward_accounts]. etransitivity; [|exact E1].
  transitivity (count_stat (set_dev w d) (fun s => add_rx s (Z.of_nat (length l)))).
  - exists [Received l.*1]. split; [exact (calls_rx _ _ _ _ _ _ Er)|].
    split; cbn; rewrite tally_cons, tally_nil; cbn; rewrite ?Z.add_0_r, ?u64_bump, ?length_fmap; done.
  - clear. rewrite <- (length_fmap fst l). generalize (length l.*1) as n. generalize (set_dev w d) as w0. clear.
    induction l as [|[m data] l IH]; intros w n; cbn [fill_mem]; [done|].
    etransitivity; [|apply IH]. now apply accounts_same.
Qed.

Lemma ring_rx_accounts r : node_keeps accounts (RingRxNode r).
Proof.
  intros w f nexts w' f' nexts' E. cbn in E. destruct (rte_ring_dequeue_burst _ _ _) as [l d] eqn:Er.
  destruct (frame_items _) as [items|e| |]; cbn [obind] in E; try done.
  destruct (each rx_forward items _ nexts) as [[w1 nexts1]|e| |] eqn:E1; cbn [obind] in E; try done. injection E as <- _ _.
  apply (each_keeps accounts) in E1; [|apply rx_forward_accounts]. etransitivity; [|exact E1].
  by apply (accounts_calls w d _ (calls_dequeue _ _ _ _ _ Er)).
Qed.

Lemma drop_accounts : node_keeps accounts DropNode.
Proof.
  intros w f nexts w' f' nexts' E. cbn in E. destruct (frame_items f) as [items|e| |]; cbn [obind] in E; try done. injection E as <- _ _.
  by apply (accounts_calls w _ _ (calls_free _ _)).
Qed.

Lemma steer_node_accounts cfg rings n : node_keeps accounts (SteerNode cfg rings n).
Proof.
  intros w f nexts w' f' nexts' E. cbn in E. destruct (frame_items f) as [items|e| |]; cbn [obind] in E; try done.
  destruct (each _ items w nexts) as [[w1 nexts1]|e| |] eqn:E1; cbn [obind] in E; try done. injection E as <- _ _.
  exact (each_keeps accounts _ _ _ _ _ _ (steer_accounts cfg rings n) E1).
Qed.

Lemma tx_accounts port q : node_keeps_wf accounts (TxNode port q).
Proof.
  intros w f nexts w' f' nexts' Hf E. cbn in E. rewrite frame_items_wf in E by done. cbn [obind] in E.
  pose proof (length_packets f Hf) as Hlen. pose proof Hf as [_ Hc]. unfold kBurstSize in Hc.
  destruct (rte_eth_tx_burst _ _ _ _) as [n d] eqn:Et. injection E as <- _ _. apply tx_law in Et as Hl. destruct Hl as [Hle _].
  apply calls_tx in Et. assert (Hd : length (drop n (packets f)) = (length (packets f) - n)%nat) by apply length_drop.
  rewrite u16_small by lia. destruct (Z.ltb_spec 0 (count f - Z.of_nat n)) as [Hlt|Hge].
  - exists [Sent (take n (packets f)) (drop n (packets f)); Freed (drop n (packets f))].
    split; [exact (calls_app _ _ _ _ _ Et (calls_free _ _))|].
    split; cbn; rewrite ?tally_cons, ?tally_nil; cbn -[take drop]; rewrite ?Hd, ?length_take, ?Z.add_0_r, ?u64_bump; try done; try lia;
      f_equal; lia.
  - exists [Sent (take n (packets f)) (drop n (packets f))]. split; [exact Et|].
    split; cbn; rewrite ?tally_cons, ?tally_nil; cbn -[take drop]; rewrite ?Hd, ?length_take, ?Z.add_0_r, ?u64_bump; try done; try lia;
      f_equal; lia.
Qed.

Lemma ring_tx_accounts r : node_keeps_wf accounts (RingTxNode r).
Proof.
  intros w f nexts w' f' nexts' Hf E. cbn in E. rewrite frame_items_wf in E by done. cbn [obind] in E.
  pose proof (length_packets f Hf) as Hlen. destruct (rte_ring_enqueue_burst _ _ _) as [n d] eqn:Et. injection E as <- _ _.
  apply calls_enqueue_burst in Et. assert (Hd : length (drop n (packets f)) = (length (packets f) - n)%nat) by apply length_drop.
  destruct (Z.ltb_spec (Z.of_nat n) (count f)) as [Hlt|Hge].
  - exists [Enqueued r (take n (packets f)) (drop n (packets f)); Freed (drop n (packets f))].
    split; [exact (calls_app _ _ _ _ _ Et (calls_free _ _))|].
    split; cbn; rewrite ?tally_cons, ?tally_nil; cbn -[take drop]; rewrite ?Hd, ?Z.add_0_r, ?u64_bump; try done; try lia; f_equal; lia.
  - apply (accounts_calls w d _ Et); rewrite ?tally_cons, ?tally_nil; cbn -[take drop]; try done. rewrite Hd. lia.
Qed.

Lemma node_of_accounts cfg arg node : node_of cfg arg node -> node_keeps_wf accounts node.
Proof.
  intros []; try (apply tx_accounts || apply ring_tx_accounts); apply node_keeps_weaken;
    eauto using rx_accounts, ring_rx_accounts, drop_accounts, steer_node_accounts, lb_accounts;
    apply (loop_node_keeps accounts); eauto using parse_accounts, dnat_accounts, ether_accounts, arp_accounts.
Qed.

(** ** One step of an lcore *)

Lemma build_accounts w w' : same_but_lb w w' -> accounts w w'.
Proof. intros (Hd & _ & _ & Hs & _). apply accounts_same; [done|]. now rewrite Hs. Qed.

Lemma thread_step_accounts fuel cfg running th w th' w' :
  thread_ok th -> shared_ok w -> w_lb w = th_lb th -> engines_of cfg (th_arg th) (th_engines th) ->
  thread_step fuel cfg running th w = Ret (th', w') ->
  accounts w w' /\ th_lb th' = w_lb w' /\ th_arg th' = th_arg th /\ engines_of cfg (th_arg th) (th_engines th').
Proof.
  intros Hth Hsh Hlb Hu E. pose proof (thread_world th w Hth Hsh Hlb) as Hw. unfold thread_step in E.
  destruct (th_pc th) as [| |j|] eqn:Hpc.
  - destruct (build_engines fuel cfg (th_arg th) w) as [[engines w1]|e| |] eqn:Eb; cbn [obind] in E; try done.
    apply build_engines_nodes in Eb as [He Hw1]. injection E as <- <-. split; [now apply build_accounts|done].
  - destruct running; [|injection E as <- <-; done].
    destruct (begin_burst th 0) as [th1|e| |] eqn:Eb; cbn [obind] in E; try done. injection E as <- <-.
    apply (begin_burst_nodes cfg) in Eb as (? & ? & ?); [|done]. split; [done|]. split_and!; congruence.
  - destruct Hth as [_ _ _ Hp]. unfold thread_ports in Hw. rewrite Hpc in Hp, Hw. destruct Hp as (Hall & _ & _).
    destruct (at_ (th_engines th) j) as [en|e| |] eqn:Ea; cbn [obind] in E; try done. apply at_Ret in Ea.
    destruct (back (queue_ (en_disp en))) as [id|] eqn:Eb.
    + destruct (drain_back _ _ _ _) as [[d w1]|e| |] eqn:Ed; cbn [obind] in E; try done. injection E as <- <-. cbn.
      destruct (Forall2_lookup_r _ _ _ _ _ Hall Ea) as (rank & _ & He). pose proof (Forall_lookup_1 _ _ _ _ Hu Ea) as Hen.
      split; [|split; [done|split; [done|now apply Forall_insert]]].
      refine (drain_back_keeps_wf _ accounts first_source _ _ _ _ _ _ (eo_graph _ _ _ He) _ (eo_disp _ _ _ He) Hw Eb Ed).
      eapply Forall_impl; [exact Hen|]. intros node. apply node_of_accounts.
    + destruct (_ <? _)%nat; [|injection E as <- <-; done].
      destruct (begin_burst th (S j)) as [th1|e| |] eqn:Es; cbn [obind] in E; try done. injection E as <- <-.
      apply (begin_burst_nodes cfg) in Es as (? & ? & ?); [|done]. split; [done|]. split_and!; congruence.
  - injection E as <- <-. done.
Qed.

(** ** The process *)

Context (fuel : nat) (Hfuel : 65536 <= Z.of_nat fuel) (cfg : Config) (Hcfg : cfg_ok cfg).

(** A run with the calls its lcores made, each with the number of its lcore. What is not
    a step of an lcore makes no call. *)
Inductive attributed (y0 : System) : list (nat * Event) -> System -> Prop :=
  | at_start : attributed y0 [] y0
  | at_lcore h y i y' evs :
      attributed y0 h y -> lcore_step fuel cfg i y y' -> log (y_dev y') = log (y_dev y) ++ evs ->
      attributed y0 (h ++ (pair i <$> evs)) y'
  | at_other h y y' :
      attributed y0 h y -> other_step fuel y y' -> log (y_dev y') = log (y_dev y) -> attributed y0 h y'.

(** The calls of lcore [i]. *)
Definition calls_of (i : nat) (h : list (nat * Event)) : list Event :=
  omap (fun p => if decide (p.1 = i) then Some p.2 else None) h.

Lemma calls_of_app i h1 h2 : calls_of i (h1 ++ h2) = calls_of i h1 ++ calls_of i h2.
Proof. apply omap_app. Qed.

Lemma calls_of_own i evs : calls_of i (pair i <$> evs) = evs.
Proof. induction evs as [|e evs IH]; [done|]. cbn. case_decide; [|done]. f_equal. exact IH. Qed.

Lemma calls_of_others i j evs : i <> j -> calls_of i (pair j <$> evs) = [].
Proof. intros Hne. induction evs as [|e evs IH]; [done|]. cbn. case_decide; [congruence|]. exact IH. Qed.

(** What the calls [evs] of an lcore say of it: from [th0] to [th]. *)
Record in_balance (evs : list Event) (th0 th : Thread) : Prop := {
  ib_counted : counted evs (stats_ (th_lb th0)) (stats_ (th_lb th));
  ib_packets : Z.of_nat (length (thread_packets th0)) + tally received evs + tally dequeued evs =
    tally sent evs + tally enqueued evs + tally freed evs + Z.of_nat (length (thread_packets th));
}.

Lemma in_balance_app e1 e2 th0 th1 th2 : in_balance e1 th0 th1 -> in_balance e2 th1 th2 -> in_balance (e1 ++ e2) th0 th2.
Proof. intros [C1 P1] [C2 P2]. split; [exact (counted_app _ _ _ _ _ C1 C2)|]. rewrite !tally_app. lia. Qed.

Lemma in_balance_nil th : in_balance [] th th.
Proof. split; [now apply counted_nil|]. rewrite !tally_nil. lia. Qed.

(** One step of lcore [i], and nothing for the others. *)
Lemma lcore_step_balance args total i y y' evs :
  sys_ok args total y -> system_nodes cfg args y -> lcore_step fuel cfg i y y' -> log (y_dev y') = log (y_dev y) ++ evs ->
  system_nodes cfg args y' /\
  forall k th th', y_threads y !! k = Some th -> y_threads y' !! k = Some th' -> in_balance (calls_of k (pair i <$> evs)) th th'.
Proof using Hfuel Hcfg.
  intros Hy Hn [th th' w' Hi Hne E] Hlog.
  destruct (sys_lcore_total fuel cfg args total y i th Hy Hcfg Hfuel Hi Hne) as (th2 & w2 & E2 & (_ & _ & _ & Hp & _) & _).
  rewrite E in E2. injection E2 as <- <-. destruct (Hn i th Hi) as [Harg Hen].
  destruct (thread_step_accounts fuel cfg _ th (world_of y th) th' w' (Forall_lookup_1 _ _ _ _ (so_threads _ _ _ Hy) Hi)
    (sys_shared _ _ _ th Hy) eq_refl Hen E) as ((evs' & Hc & Hs) & Hlb & Ha & Hen').
  assert (evs' = evs) as ->. { pose proof (ca_log _ _ _ Hc) as L. cbn in L, Hlog. rewrite Hlog in L. by apply app_inv_head in L. }
  split; intros k t.
  - cbn. destruct (decide (k = i)) as [->|Hki].
    + rewrite list_lookup_insert_eq by (by eapply lookup_lt_Some). intros [= <-]. by rewrite Ha.
    + rewrite list_lookup_insert_ne by done. apply Hn.
  - intros t' Hk. cbn. destruct (decide (k = i)) as [->|Hki].
    + rewrite list_lookup_insert_eq by (by eapply lookup_lt_Some). intros [= <-]. simplify_eq. rewrite calls_of_own. split; [by rewrite Hlb|].
      apply Permutation_length in Hp. rewrite !length_app in Hp. pose proof (ca_balance _ _ _ Hc). cbn in *. lia.
    + rewrite list_lookup_insert_ne by done. intros Hk'. simplify_eq. rewrite calls_of_others by done. apply in_balance_nil.
Qed.

Lemma attributed_balance args total y0 h y :
  sys_ok args total y0 -> system_nodes cfg args y0 -> attributed y0 h y ->
  sys_ok args total y /\ system_nodes cfg args y /\
  forall i th0 th, y_threads y0 !! i = Some th0 -> y_threads y !! i = Some th -> in_balance (calls_of i h) th0 th.
Proof using Hfuel Hcfg.
  intros Hy0 Hn0. induction 1 as [|h y i y' evs Hr (Hy & Hn & IH) Hs Hl|h y y' Hr (Hy & Hn & IH) Hs Hl].
  - split_and!; try done. intros i th0 th Hi Hi'. simplify_eq. apply in_balance_nil.
  - destruct (lcore_step_balance _ _ _ _ _ _ Hy Hn Hs Hl) as [Hn' Hb].
    pose proof (lcore_step_ok _ _ _ _ _ _ _ Hy Hcfg Hfuel Hs) as Hy'. split_and!; try done. intros k th0 th' Hk0 Hk'.
    destruct (lookup_lt_is_Some_2 (y_threads y) k) as [th Hk].
    { apply lookup_lt_Some in Hk0. rewrite <- (length_fmap th_arg), (so_args _ _ _ Hy), <- (so_args _ _ _ Hy0), length_fmap. done. }
    rewrite calls_of_app. exact (in_balance_app _ _ _ _ _ (IH k th0 th Hk0 Hk) (Hb k th th' Hk Hk')).
  - pose proof (other_step_ok fuel _ _ y y' Hy ltac:(lia) Hs) as Hy'. assert (Ht : y_threads y' = y_threads y) by (destruct Hs; done).
    split_and!; try done; unfold system_nodes in *; rewrite Ht; done.
Qed.

(** C15: the counters tell the truth: from any reachable state on and however the lcores
    interleave, an lcore's counters of packets received, sent and dropped grow by exactly
    what its own calls on the device received, sent and had refused by the NIC or a full
    ring (modulo the width of a counter), and no packet is unaccounted for: what it
    received or took from a ring it has sent, put on a ring, freed, or still holds, and it
    holds nothing when it is at the head of its loop. What it frees beyond what was
    refused, the counter of drops does not tell. *)
Theorem counters_tell_calls lcores args d y0 h y i th0 th :
  reachable fuel cfg lcores args d y0 -> attributed y0 h y ->
  y_threads y0 !! i = Some th0 -> y_threads y !! i = Some th ->
  let s0 := stats_ (th_lb th0) in let s := stats_ (th_lb th) in let evs := calls_of i h in
  u64 (rx_packets s) = u64 (rx_packets s0 + tally received evs) /\
  u64 (tx_packets s) = u64 (tx_packets s0 + tally sent evs) /\
  u64 (dropped s) = u64 (dropped s0 + tally refused evs) /\
  tally refused evs <= tally freed evs /\
  Z.of_nat (length (thread_packets th0)) + tally received evs + tally dequeued evs =
    tally sent evs + tally enqueued evs + tally freed evs + Z.of_nat (length (thread_packets th)) /\
  (th_pc th = PcLoop -> thread_packets th = []).
Proof using Hfuel Hcfg.
  intros Hr Hat Hi0 Hi. pose proof (reachable_nodes _ _ _ _ _ _ Hr) as Hn. apply reachable_ok in Hr; try done.
  destruct (attributed_balance _ _ _ _ _ Hr Hn Hat) as (Hy & _ & Hb). destruct (Hb i th0 th Hi0 Hi) as [[C1 C2 C3 C4] P].
  split_and!; try done. intros Hpc. destruct (Forall_lookup_1 _ _ _ _ (so_threads _ _ _ Hy) Hi) as [_ _ _ Hp]. rewrite Hpc in Hp.
  destruct Hp as (Hall & _ & Hidle). apply (idle_engines_packets _ _ _ Hall). apply Forall_lookup_2. intros k en Hk. by apply (Hidle k en Hk).
Qed.

(** ** The rates the control plane reports *)

Definition all_stats (y : System) : list LcoreStats := (fun th => stats_ (th_lb th)) <$> y_threads y.

(** The statistics segment: the elements of the lcores, then those no lcore uses. *)
Definition segment (header : ShmHeader) (y : System) (rest : list LcoreStats) : StatsView :=
  mkStatsView header (all_stats y ++ rest).

Lemma total_app g l1 l2 : total g (l1 ++ l2) = total g l1 + total g l2.
Proof. induction l1 as [|s l1 IH]; [done|]. unfold total in *. cbn [app foldr]. rewrite IH. lia. Qed.

Lemma total_insert g l i s s' : l !! i = Some s -> total g (<[i := s']> l) = total g l - g s + g s'.
Proof.
  revert i. induction l as [|x l IH]; intros i Hi; [done|]. unfold total in *. destruct i as [|i].
  - injection Hi as ->. cbn. lia.
  - change (<[S i := s']> (x :: l)) with (x :: <[i := s']> l). cbn [foldr]. rewrite (IH i Hi). lia.
Qed.

(** The sum of a counter over the lcores grows by all calls of its kind. *)
Lemma attributed_total (g : LcoreStats -> Z) (f : Event -> nat) args total0 y0 h y :
  (forall evs s s', counted evs s s' -> u64 (g s') = u64 (g s + tally f evs)) ->
  sys_ok args total0 y0 -> system_nodes cfg args y0 -> attributed y0 h y ->
  u64 (total g (all_stats y)) = u64 (total g (all_stats y0) + tally f h.*2).
Proof using Hfuel Hcfg.
  intros Hg Hy0 Hn0. induction 1 as [|h y i y' evs Hr IH Hs Hl|h y y' Hr IH Hs Hl].
  - cbn. now rewrite tally_nil, Z.add_0_r.
  - destruct (attributed_balance _ _ _ _ _ Hy0 Hn0 Hr) as (Hy & Hn & _).
    destruct (lcore_step_balance _ _ _ _ _ _ Hy Hn Hs Hl) as [_ Hb]. destruct Hs as [th th' w' Hi Hne E]. clear E.
    assert (Hi' : y_threads (set_thread y i th' w') !! i = Some th') by (cbn; apply list_lookup_insert_eq; by eapply lookup_lt_Some).
    destruct (Hb i th th' Hi Hi') as [Hct _]. rewrite calls_of_own in Hct. apply Hg in Hct.
    rewrite fmap_app, tally_app. refine (u64_add _ _ _ _ _ IH _). unfold all_stats. cbn [y_threads set_thread].
    rewrite list_fmap_insert. erewrite total_insert by (rewrite list_lookup_fmap, Hi; done). rewrite <- list_fmap_compose.
    replace (tally f (snd ∘ pair i <$> evs)) with (tally f evs) by (f_equal; symmetry; apply list_fmap_id).
    unfold u64 in *. rewrite <- Zplus_mod_idemp_r, Hct, Zplus_mod_idemp_r. f_equal. lia.
  - rewrite <- IH. destruct Hs; done.
Qed.

Lemma segment_ok header args total0 y rest :
  sys_ok args total0 y -> (length args + length rest = kMaxLcores)%nat ->
  Forall (fun s => length (backend_flows s) = kMaxBackends) rest -> stats_view_ok (segment header y rest).
Proof.
  intros Hy Hl Hr. split; cbn.
  - unfold all_stats. rewrite length_app, length_fmap, <- Hl, <- (so_args _ _ _ Hy), length_fmap. done.
  - apply Forall_app. split; [|done]. apply Forall_fmap. eapply Forall_impl; [exact (so_threads _ _ _ Hy)|].
    intros th Hth. exact (li_stats _ _ (to_lb _ Hth)).
Qed.

(** C31: what the control plane reports is what happened: between two ticks the rates of
    packets received, sent and dropped are the packets that all lcores together received,
    sent and had refused by the NIC or a ring between the two states in which the ticks
    read the statistics segment, whatever the counters were before. *)
Theorem reported_rates header lcores args d y0 h y rest prev :
  reachable fuel cfg lcores args d y0 -> attributed y0 h y ->
  (length args + length rest = kMaxLcores)%nat -> Forall (fun s => length (backend_flows s) = kMaxBackends) rest ->
  exists out1 p1 out2 p2,
    Tick (segment header y0 rest) kMaxLcores prev = Ret (out1, p1) /\
    Tick (segment header y rest) kMaxLcores p1 = Ret (out2, p2) /\
    rx_pps out2 = u64 (tally received h.*2) /\ tx_pps out2 = u64 (tally sent h.*2) /\
    dropped_pps out2 = u64 (tally refused h.*2).
Proof using Hfuel Hcfg.
  intros Hr Hat Hlen Hrest. pose proof (reachable_nodes _ _ _ _ _ _ Hr) as Hn. apply reachable_ok in Hr; try done.
  destruct (attributed_balance _ _ _ _ _ Hr Hn Hat) as (Hy & _ & _).
  destruct (Tick_spec _ prev (segment_ok header _ _ _ rest Hr Hlen Hrest)) as (f1 & E1 & _).
  match type of E1 with _ = Ret (_, ?p) => destruct (Tick_spec _ p (segment_ok header _ _ _ rest Hy Hlen Hrest)) as (f2 & E2 & _) end.
  eexists _, _, _, _. split; [exact E1|]. split; [exact E2|]. cbn [rx_pps tx_pps dropped_pps sn_rx sn_tx sn_dropped Ipc.lcores segment].
  assert (Hdiff : forall g f, (forall evs s s', counted evs s s' -> u64 (g s') = u64 (g s + tally f evs)) ->
    u64 (u64 (total g (all_stats y ++ rest)) - u64 (total g (all_stats y0 ++ rest))) = u64 (tally f h.*2)).
  { intros g f Hg. rewrite u64_sub, !total_app. pose proof (attributed_total g f _ _ _ _ _ Hg Hr Hn Hat) as E. unfold u64 in *.
    replace (total g (all_stats y) + total g rest - (total g (all_stats y0) + total g rest))
      with (total g (all_stats y) - total g (all_stats y0)) by lia.
    rewrite <- Zminus_mod_idemp_l, E, Zminus_mod_idemp_l. f_equal. lia. }
  split_and!; apply Hdiff; intros evs s s' []; done.
Qed.

End Accounting.
