(* ===== verification/AccountingSamples.v ===== *)
(** * The counters of 32 lcores on the sample device with a log

    The I/O lcore receives a client's first packet, which a worker handles, and a frame of
    an unknown type: the first is sent on, the second freed, which no counter tells. *)

From stdpp Require Import relations.
From S2P Require Import Prelude FlowKey NetTypes PortPool BackendPool NatTable NatTableFacts NatTableSpec Ipc.
From S2P Require Import PacketMeta LbNode LbFacts LbSpec Graph GraphFacts GraphSpec Packet Nodes NodeFacts.
From S2P Require Import Dataplane DataplaneSpec SampleDevice DataplaneSamples Control ControlPlane ControlSpec ControlPlaneSpec.
From S2P Require Import System DeviceUse SystemSpec Drain SystemRefine SystemSamples Accounting.

#[local] Opaque worker_ports.

#[local] Existing Instance BackendPool.test_build.

Definition logged_sample : Dpdk := logged sample_dpdk.

#[local] Existing Instance logged_sample.

Definition logged_sample_log : @DeviceLog logged_sample := logged_log sample_dpdk.

#[local] Existing Instance logged_sample_log.

(** ** The calls of a schedule *)

Fixpoint sched_log (sched : list nat) (y : System) : list (nat * Event) :=
  match sched with
  | [] => []
  | i :: sched =>
      match sched_step i y with
      | Some y' => (pair i <$> drop (length (log (y_dev y))) (log (y_dev y'))) ++ sched_log sched y'
      | None => []
      end
  end.

(** No step took anything out of the log. *)
Fixpoint log_grows (sched : list nat) (y : System) : bool :=
  match sched with
  | [] => true
  | i :: sched =>
      match sched_step i y with
      | Some y' => bool_decide (take (length (log (y_dev y))) (log (y_dev y')) = log (y_dev y)) && log_grows sched y'
      | None => true
      end
  end.

Lemma sched_attributed sched : forall y0 h y,
  attributed fuel0 sample_config y0 h y -> log_grows sched y = true ->
  attributed fuel0 sample_config y0 (h ++ sched_log sched y) (run_sched sched y).
Proof.
  induction sched as [|i sched IH]; intros y0 h y Hat Hg; cbn [sched_log run_sched]; [now rewrite app_nil_r|].
  cbn [log_grows] in Hg. destruct (sched_step i y) as [y'|] eqn:E; [|now rewrite app_nil_r]. apply andb_true_iff in Hg as [Hl%bool_decide_eq_true Hg].
  rewrite app_assoc. apply IH; [|exact Hg]. apply (at_lcore _ _ _ _ y); [exact Hat|now apply sched_step_ok|].
  rewrite <- Hl at 1. symmetry. apply take_drop.
Qed.

(** ** The process *)

Definition junk : list Z := replicate 60 0.

Definition dev5 : @dev logged_sample := (mkDevice [(1, client_syn); (4, junk)] [2; 3] [] (replicate 32 []) 1000000, []).

Definition start5 : System := launched dev5 (fun _ => blank_mbuf) view3 loop3 args3 stats3.

Definition h5 : list (nat * Event) := sched_log sched3 start5.

Definition end5 : System := run_sched sched3 start5.

Example h5_run : h5 =
  [(0%nat, Received [1]); (0%nat, Enqueued 3 [1] []); (0%nat, Dequeued 31 []);
   (4%nat, Dequeued 3 [1]); (4%nat, Enqueued 31 [1] []); (4%nat, Dequeued 3 []);
   (0%nat, Received [4]); (0%nat, Freed [4]); (0%nat, Dequeued 31 [1]); (0%nat, Sent [1] []);
   (0%nat, Received []); (0%nat, Dequeued 31 []); (0%nat, Received []); (0%nat, Dequeued 31 [])].
Proof. vm_compute. reflexivity. Qed.

Lemma prepared5 : prepared (fun _ => blank_mbuf) view3 loop3 stats3.
Proof. destruct prepared3. split; done. Qed.

Lemma start5_reachable : reachable fuel0 sample_config lcores3 args3 dev5 start5.
Proof.
  exists 0, rings3, (Some 31%nat), (fun _ => blank_mbuf), view3, loop3, stats3.
  split; [split; [reflexivity|now exists 31%nat]|]. split; [reflexivity|]. split; [apply prepared5|apply rtc_refl].
Qed.

Lemma log_grows5 : log_grows sched3 start5 = true.
Proof. vm_compute. reflexivity. Qed.

Lemma end5_attributed : attributed fuel0 sample_config start5 h5 end5.
Proof.
  unfold end5, h5. rewrite <- (app_nil_l (sched_log sched3 start5)).
  apply sched_attributed; [apply at_start|exact log_grows5].
Qed.

(** ** Witnesses *)

Definition io5 (y : System) : Thread := default (mkThread worker1 PcEnd [] (no_lb LcoreStats_zero)) (y_threads y !! 0%nat).

Definition counts5 (y : System) : Z * Z * Z :=
  let s := stats_ (th_lb (io5 y)) in (rx_packets s, tx_packets s, dropped s).

(** Two received, one sent, none counted as dropped. *)
Example counts5_run : counts5 end5 = (2, 1, 0) /\ length (y_threads end5) = 32%nat.
Proof. vm_compute. split; reflexivity. Qed.

Lemma io5_lookup y : length (y_threads y) = 32%nat -> y_threads y !! 0%nat = Some (io5 y).
Proof. intros Hl. unfold io5. destruct (y_threads y !! 0%nat) as [th|] eqn:E; [done|]. apply lookup_ge_None in E. lia. Qed.

Lemma sums5 : tally received (calls_of 0 h5) = 2 /\ tally refused (calls_of 0 h5) = 0 /\ tally freed (calls_of 0 h5) = 1.
Proof. rewrite h5_run. repeat split. Qed.

Lemma counters_tell_calls_witness :
  counts5 end5 = (2, 1, 0) /\
  u64 (rx_packets (stats_ (th_lb (io5 end5)))) = u64 (rx_packets (stats_ (th_lb (io5 start5))) + tally received (calls_of 0 h5)) /\
  tally received (calls_of 0 h5) = 2 /\ tally refused (calls_of 0 h5) = 0 /\ tally freed (calls_of 0 h5) = 1.
Proof.
  split; [apply counts5_run|]. split; [|exact sums5].
  exact (proj1 (counters_tell_calls fuel0 fuel0_enough sample_config cfg3_ok lcores3 args3 dev5 start5 h5 end5 0
    (io5 start5) (io5 end5) start5_reachable end5_attributed eq_refl (io5_lookup end5 (proj2 counts5_run)))).
Defined.

Lemma all_sums5 : tally received h5.*2 = 2 /\ tally sent h5.*2 = 1 /\ tally refused h5.*2 = 0.
Proof. rewrite h5_run. repeat split. Qed.

Lemma reported_rates_witness :
  exists out1 p1 out2 p2,
    Tick (segment (mkShmHeader kShmMagic kShmVersion) start5 []) kMaxLcores Snapshot_zero = Ret (out1, p1) /\
    Tick (segment (mkShmHeader kShmMagic kShmVersion) end5 []) kMaxLcores p1 = Ret (out2, p2) /\
    rx_pps out2 = u64 2 /\ tx_pps out2 = u64 1 /\ dropped_pps out2 = u64 0.
Proof.
  destruct all_sums5 as (<- & <- & <-).
  apply (reported_rates fuel0 fuel0_enough sample_config cfg3_ok (mkShmHeader kShmMagic kShmVersion) lcores3 args3 dev5 start5 h5 end5
    [] Snapshot_zero start5_reachable end5_attributed); [reflexivity|].
  constructor.
Defined.
