(* ===== verification/HealthThread.v ===== *)
(** * The health checker's thread ([controlplane/src/health/health_checker.cpp])

    [HealthChecker] with its thread, its mutex and the flag [running_]: the checker,
    the callers of [States] and the owner that calls [Start] and [Stop] take turns in
    any order. A copy of [states_] is made element by element, so that what a caller of
    [States] returns is one pass's result only because of the lock. *)

From S2P Require Import Prelude FlowKey NetTypes BackendPool Ipc Control ControlPlane ControlPlaneSpec.

(** Where [RunLoop] is. *)
Inductive Checker :=
  | c_none                                       (** no thread: [thread_] is not joinable *)
  | c_test                                       (** at the condition of the loop *)
  | c_lock                                       (** at the first lock *)
  | c_copy (snapshot : list BackendState)        (** in [snapshot = states_], the lock held *)
  | c_probe (done todo : list BackendState)      (** in the loop over the snapshot *)
  | c_relock (snapshot : list BackendState)      (** at the second lock *)
  | c_store (snapshot : list BackendState)       (** at [states_ = std::move(snapshot)] *)
  | c_sleep
  | c_done.                                      (** [RunLoop] has returned *)

(** A call of [States]. [since] is the number of passes stored when it was made. *)
Inductive Reader :=
  | r_lock (since : nat)
  | r_copy (since : nat) (copied : list BackendState)
  | r_ret (since : nat) (result : list BackendState).

Inductive Holder := h_checker | h_reader (k : nat).

#[export] Instance Holder_eq_dec : EqDecision Holder.
Proof. solve_decision. Defined.

(** The members, the threads and the kernel. [hc_passes] counts the stores of a pass,
    for the statements only; [hc_stopping] is set while the owner is in [Stop]. *)
Record HC `{Sockets} := mkHC {
  hc_states : list BackendState;
  hc_mutex : option Holder;
  hc_running : bool;
  hc_checker : Checker;
  hc_readers : list Reader;
  hc_stopping : bool;
  hc_net : net;
  hc_passes : nat;
}.

Section HealthThread.
Context `{Sockets}.

Implicit Types (s : HC).

(** The members the checker changes: the mutex, its own place. *)
Definition at_pc s (mutex : option Holder) (c : Checker) : HC :=
  mkHC _ (hc_states s) mutex (hc_running s) c (hc_readers s) (hc_stopping s) (hc_net s) (hc_passes s).

Definition with_net s (n : net) : HC :=
  mkHC _ (hc_states s) (hc_mutex s) (hc_running s) (hc_checker s) (hc_readers s) (hc_stopping s) n (hc_passes s).

Definition with_states s (states : list BackendState) : HC :=
  mkHC _ states (hc_mutex s) (hc_running s) (hc_checker s) (hc_readers s) (hc_stopping s) (hc_net s) (S (hc_passes s)).

Definition with_reader s (mutex : option Holder) (k : nat) (r : Reader) : HC :=
  mkHC _ (hc_states s) mutex (hc_running s) (hc_checker s) (<[k := r]> (hc_readers s)) (hc_stopping s) (hc_net s) (hc_passes s).

(** The next step of the thread, if it can move. *)
Definition checker_step s : option (outcome HC) :=
  match hc_checker s with
  | c_none | c_done => None
  | c_test => Some (Ret (at_pc s (hc_mutex s) (if hc_running s then c_lock else c_done)))
  | c_lock => if hc_mutex s then None else Some (Ret (at_pc s (Some h_checker) (c_copy [])))
  | c_copy snapshot =>
      match hc_states s !! length snapshot with
      | Some x => Some (Ret (at_pc s (hc_mutex s) (c_copy (snapshot ++ [x]))))
      | None => Some (Ret (at_pc s None (c_probe [] snapshot)))
      end
  | c_probe done [] => Some (Ret (at_pc s (hc_mutex s) (c_relock done)))
  | c_probe done (x :: todo) =>
      Some (let! '(x, n) := check_backend (hc_net s) x in Ret (with_net (at_pc s (hc_mutex s) (c_probe (done ++ [x]) todo)) n))
  | c_relock snapshot => if hc_mutex s then None else Some (Ret (at_pc s (Some h_checker) (c_store snapshot)))
  | c_store snapshot => Some (Ret (at_pc (with_states s snapshot) None c_sleep))
  | c_sleep => Some (Ret (at_pc s (hc_mutex s) c_test))
  end.

(** The next step of call [k] of [States]. *)
Definition reader_step (k : nat) s : option HC :=
  match hc_readers s !! k with
  | Some (r_lock since) => if hc_mutex s then None else Some (with_reader s (Some (h_reader k)) k (r_copy since []))
  | Some (r_copy since copied) =>
      match hc_states s !! length copied with
      | Some x => Some (with_reader s (hc_mutex s) k (r_copy since (copied ++ [x])))
      | None => Some (with_reader s None k (r_ret since copied))
      end
  | _ => None
  end.

(** A call of [States] begins. *)
Definition call_States s : HC :=
  mkHC _ (hc_states s) (hc_mutex s) (hc_running s) (hc_checker s) (hc_readers s ++ [r_lock (hc_passes s)]) (hc_stopping s)
    (hc_net s) (hc_passes s).

(** [Start]: assigning to a joinable [std::thread] terminates the program. *)
Definition Start s : outcome HC :=
  match hc_checker s with
  | c_none => Ret (mkHC _ (hc_states s) (hc_mutex s) true c_test (hc_readers s) (hc_stopping s) (hc_net s) (hc_passes s))
  | _ => Undef
  end.

(** [Stop]: the store, then the join. *)
Definition stop_store s : HC :=
  mkHC _ (hc_states s) (hc_mutex s) false (hc_checker s) (hc_readers s) true (hc_net s) (hc_passes s).

Definition stop_join s : option HC :=
  match hc_checker s with
  | c_none | c_done => Some (mkHC _ (hc_states s) (hc_mutex s) (hc_running s) c_none (hc_readers s) false (hc_net s) (hc_passes s))
  | _ => None
  end.

(** The constructor. *)
Definition HC_new (cfg : Config) (n : net) : HC := mkHC _ (HealthChecker_new cfg) None false c_none [] false n 0.

(** One step of any thread. The owner calls [Start] only without a thread, and makes
    one call at a time. *)
Inductive hstep s : outcome HC -> Prop :=
  | step_checker r : checker_step s = Some r -> hstep s r
  | step_reader k s' : reader_step k s = Some s' -> hstep s (Ret s')
  | step_call : hstep s (Ret (call_States s))
  | step_start : hc_stopping s = false -> hc_checker s = c_none -> hstep s (Start s)
  | step_stop : hc_stopping s = false -> hstep s (Ret (stop_store s))
  | step_join s' : hc_stopping s = true -> stop_join s = Some s' -> hstep s (Ret s').

Definition hmove s s' : Prop := hstep s (Ret s').

Definition reachable (cfg : Config) (n : net) s : Prop := rtc hmove (HC_new cfg n) s.

End HealthThread.
