(* ===== verification/HealthThreadSpec.v ===== *)
(** * The health checker's thread is safe, atomic to its readers, and stops *)

From S2P Require Import Prelude FlowKey NetTypes BackendPool Ipc Control ControlPlane ControlPlaneSpec HealthThread.

Section Spec.
Context `{Sockets} (cfg : Config) (n0 : net).

Implicit Types (s : HC) (states : list BackendState).

(** The result of [j] passes. *)
Definition after_passes (j : nat) states (n : net) : Prop := RunLoop j n0 (HealthChecker_new cfg) = Ret (states, n).

Lemma RunLoop_snoc j : forall n st states n1 states' n',
  RunLoop j n st = Ret (states, n1) -> health_pass n1 states = Ret (states', n') -> RunLoop (S j) n st = Ret (states', n').
Proof.
  induction j as [|j IH]; intros n st states n1 states' n' Hj Hp.
  { injection Hj as <- <-. cbn [RunLoop]. now rewrite Hp. }
  change (RunLoop (S j) n st) with (let! '(st, n) := health_pass n st in RunLoop j n st) in Hj.
  change (RunLoop (S (S j)) n st) with (let! '(st, n) := health_pass n st in RunLoop (S j) n st).
  destruct (health_pass n st) as [[st1 n2]|e| |]; try done. cbn [obind] in *. eauto.
Qed.

(** ** The invariant *)

(** The checker is in one of its two critical sections. *)
Definition in_section (c : Checker) : bool :=
  match c with
  | c_copy _ | c_store _ => true
  | _ => false
  end.

(** The checker's locals, [n] being the kernel when the last pass was stored. *)
Definition checker_ok s (n : net) : Prop :=
  match hc_checker s with
  | c_copy snapshot => snapshot = take (length snapshot) (hc_states s) /\ hc_net s = n
  | c_probe done todo => forall r n', health_pass (hc_net s) todo = Ret (r, n') -> health_pass n (hc_states s) = Ret (done ++ r, n')
  | c_relock snapshot | c_store snapshot => health_pass n (hc_states s) = Ret (snapshot, hc_net s)
  | _ => hc_net s = n
  end.

Definition reader_ok s (r : Reader) : Prop :=
  match r with
  | r_lock since => (since <= hc_passes s)%nat
  | r_copy since copied => (since <= hc_passes s)%nat /\ copied = take (length copied) (hc_states s)
  | r_ret since result => exists j n, (since <= j <= hc_passes s)%nat /\ after_passes j result n
  end.

Definition copying (r : Reader) : bool := match r with r_copy _ _ => true | _ => false end.

Record Inv s : Prop := {
  inv_checker : exists n, after_passes (hc_passes s) (hc_states s) n /\ checker_ok s n;
  inv_readers : forall k r, hc_readers s !! k = Some r -> reader_ok s r;
  inv_mutex_c : hc_mutex s = Some h_checker <-> in_section (hc_checker s) = true;
  inv_mutex_r : forall k, hc_mutex s = Some (h_reader k) <-> exists r, hc_readers s !! k = Some r /\ copying r = true;
}.

Lemma Inv_new : Inv (HC_new cfg n0).
Proof.
  split; cbn; [exists n0; done|done|split; done|]. intros k. split; [done|]. now intros (r & ? & _).
Qed.

(** Nobody is copying while the mutex is free or the checker's. *)
Lemma no_copying s k r :
  Inv s -> (forall k, hc_mutex s <> Some (h_reader k)) -> hc_readers s !! k = Some r -> copying r = false.
Proof.
  intros Hi Hn Hk. destruct (copying r) eqn:E; [|done]. destruct (Hn k). apply (inv_mutex_r s Hi). eauto.
Qed.

(** The checker moves and leaves [states_], the mutex and the readers alone. *)
Lemma Inv_local s c :
  Inv s -> in_section c = in_section (hc_checker s) -> (forall n, checker_ok s n -> checker_ok (at_pc s (hc_mutex s) c) n) ->
  Inv (at_pc s (hc_mutex s) c).
Proof.
  intros [(n & Ha & Hc) Hr Hm Hk] Hs Hn. split; [exists n; split; [exact Ha|exact (Hn n Hc)]|exact Hr| |exact Hk].
  cbn. now rewrite Hs.
Qed.

(** The checker takes or gives back the mutex. *)
Lemma Inv_lock s c :
  Inv s -> hc_mutex s = None -> in_section c = true -> (forall n, checker_ok s n -> checker_ok (at_pc s (Some h_checker) c) n) ->
  Inv (at_pc s (Some h_checker) c).
Proof.
  intros Hi Hnone Hs Hn. pose proof (fun k r => no_copying s k r Hi ltac:(rewrite Hnone; done)) as Hnc.
  destruct Hi as [(n & Ha & Hc) Hr Hm Hk]. split; [exists n; split; [exact Ha|exact (Hn n Hc)]|exact Hr|cbn; now rewrite Hs|].
  intros k. cbn. split; [done|]. intros (r & Hl & Hcp). now rewrite (Hnc k r Hl) in Hcp.
Qed.

Lemma checker_holds s : Inv s -> in_section (hc_checker s) = true -> forall k, hc_mutex s <> Some (h_reader k).
Proof. intros Hi Hs k E. apply (inv_mutex_c s Hi) in Hs. congruence. Qed.

Lemma Inv_unlock s c :
  Inv s -> in_section (hc_checker s) = true -> in_section c = false ->
  (forall n, checker_ok s n -> checker_ok (at_pc s None c) n) -> Inv (at_pc s None c).
Proof.
  intros Hi Hin Hs Hn. pose proof (fun k r => no_copying s k r Hi (checker_holds s Hi Hin)) as Hnc.
  destruct Hi as [(n & Ha & Hc) Hr Hm Hk]. split; [exists n; split; [exact Ha|exact (Hn n Hc)]|exact Hr|cbn; now rewrite Hs|].
  intros k. cbn. split; [done|]. intros (r & Hl & Hcp). now rewrite (Hnc k r Hl) in Hcp.
Qed.

(** The store of a pass, under the lock. *)
Lemma Inv_store s snapshot :
  Inv s -> hc_checker s = c_store snapshot -> Inv (at_pc (with_states s snapshot) None c_sleep).
Proof.
  intros Hi Hc. assert (Hin : in_section (hc_checker s) = true) by now rewrite Hc.
  pose proof (fun k r => no_copying s k r Hi (checker_holds s Hi Hin)) as Hnc.
  destruct Hi as [(n & Ha & Hok) Hr Hm Hk]. unfold checker_ok in Hok. rewrite Hc in Hok. split; cbn.
  - exists (hc_net s). split; [|done]. unfold after_passes in *. eapply RunLoop_snoc; [exact Ha|exact Hok].
  - intros k r Hl. specialize (Hr k r Hl). specialize (Hnc k r Hl).
    destruct r as [since|since copied|since result]; cbn in *; [lia|done|]. destruct Hr as (j & n' & ? & ?). exists j, n'. split; [lia|done].
  - done.
  - intros k. split; [done|]. intros (r & Hl & Hcp). now rewrite (Hnc k r Hl) in Hcp.
Qed.

Lemma take_snoc {A} (l l1 : list A) x :
  l1 = take (length l1) l -> l !! length l1 = Some x -> l1 ++ [x] = take (length (l1 ++ [x])) l.
Proof. intros E Hx. rewrite length_app. cbn. rewrite Nat.add_1_r, (take_S_r _ _ x Hx). now f_equal. Qed.

Lemma take_whole {A} (l l1 : list A) : l1 = take (length l1) l -> l !! length l1 = None -> l1 = l.
Proof. intros E Hn. rewrite E. apply take_ge. now apply lookup_ge_None in Hn. Qed.

Lemma Inv_checker_step s s' : Inv s -> checker_step s = Some (Ret s') -> Inv s'.
Proof.
  intros Hi E. unfold checker_step in E. destruct (hc_checker s) as [| | |sn|dn todo|sn|sn| |] eqn:Ec; try discriminate E.
  - injection E as <-. apply Inv_local; [done|now rewrite Ec; destruct (hc_running s)|]. unfold checker_ok. rewrite Ec.
    cbn. now destruct (hc_running s).
  - destruct (hc_mutex s) eqn:Em; [done|]. injection E as <-. apply Inv_lock; [done|done|done|]. unfold checker_ok. now rewrite Ec.
  - destruct (hc_states s !! length sn) as [x|] eqn:Ex; injection E as <-.
    + apply Inv_local; [done|now rewrite Ec|]. intros n. unfold checker_ok. rewrite Ec. cbn. intros [Hs Hn].
      split; [now apply take_snoc|done].
    + apply Inv_unlock; [done|now rewrite Ec|done|]. intros n. unfold checker_ok. rewrite Ec. cbn. intros [Hs ->].
      rewrite (take_whole _ _ Hs Ex). auto.
  - destruct todo as [|x todo].
    + injection E as <-. apply Inv_local; [done|now rewrite Ec|]. intros n. unfold checker_ok. rewrite Ec. cbn. intros Hp.
      rewrite (Hp [] (hc_net s) eq_refl). now rewrite app_nil_r.
    + destruct (check_backend (hc_net s) x) as [[x' n']|e| |] eqn:Ex; try done. injection E as <-.
      destruct Hi as [(n & Ha & Hok) Hr Hm Hk]. split; [exists n; split; [exact Ha|]|exact Hr|cbn; now rewrite Ec in Hm|exact Hk].
      unfold checker_ok in *. rewrite Ec in Hok. cbn. intros r n2 Hp. rewrite <- app_assoc. apply Hok. cbn [health_pass].
      rewrite Ex. cbn [obind]. now rewrite Hp.
  - destruct (hc_mutex s) eqn:Em; [done|]. injection E as <-. apply Inv_lock; [done|done|done|]. unfold checker_ok. now rewrite Ec.
  - injection E as <-. now apply Inv_store.
  - injection E as <-. apply Inv_local; [done|now rewrite Ec|]. unfold checker_ok. now rewrite Ec.
Qed.

(** Reader [k] moves on to [r]. *)
Lemma Inv_reader s k r0 r m :
  Inv s -> hc_readers s !! k = Some r0 -> reader_ok s r ->
  (m = Some h_checker <-> hc_mutex s = Some h_checker) ->
  (m = Some (h_reader k) <-> copying r = true) ->
  (forall i, i <> k -> m = Some (h_reader i) <-> hc_mutex s = Some (h_reader i)) ->
  Inv (with_reader s m k r).
Proof.
  intros [Hc Hr Hm Hk] Hl Hok Hmc Hmk Hmi. apply lookup_lt_Some in Hl as Hlt. split.
  - exact Hc.
  - intros i q Hi. cbn in Hi. destruct (decide (i = k)) as [->|Hne].
    + rewrite list_lookup_insert_eq in Hi by done. injection Hi as <-. exact Hok.
    + rewrite list_lookup_insert_ne in Hi by done. exact (Hr i q Hi).
  - cbn. now rewrite Hmc.
  - intros i. cbn. destruct (decide (i = k)) as [->|Hne].
    + rewrite list_lookup_insert_eq by done. rewrite Hmk. split; [eauto|]. now intros (q & [= <-] & ?).
    + rewrite list_lookup_insert_ne by done. now rewrite Hmi, Hk.
Qed.

Lemma Inv_reader_step s k s' : Inv s -> reader_step k s = Some s' -> Inv s'.
Proof.
  intros Hi E. unfold reader_step in E. destruct (hc_readers s !! k) as [r0|] eqn:El; [|done].
  pose proof (inv_readers s Hi k r0 El) as Hok. destruct r0 as [since|since copied|since result]; [| |done].
  - destruct (hc_mutex s) eqn:Em; [done|]. injection E as <-. eapply Inv_reader; eauto; rewrite ?Em; cbn; try done.
    intros i Hne. split; congruence.
  - destruct Hok as [Hsince Hcp].
    assert (Em : hc_mutex s = Some (h_reader k)) by (apply (inv_mutex_r s Hi); eauto).
    destruct (hc_states s !! length copied) as [x|] eqn:Ex; injection E as <-.
    + eapply Inv_reader; eauto; rewrite ?Em; cbn; try done. split; [done|now apply take_snoc].
    + eapply Inv_reader; eauto; rewrite ?Em; cbn; try done; [|intros i Hne; split; congruence].
      destruct (inv_checker s Hi) as (n & Ha & _). exists (hc_passes s), n. split; [lia|].
      now rewrite (take_whole _ _ Hcp Ex).
Qed.

(** The owner's steps and new calls. *)
Lemma Inv_owner s c b st :
  Inv s -> in_section c = in_section (hc_checker s) -> (forall n, checker_ok s n -> checker_ok (at_pc s (hc_mutex s) c) n) ->
  Inv (mkHC _ (hc_states s) (hc_mutex s) b c (hc_readers s) st (hc_net s) (hc_passes s)).
Proof. intros Hi Hs Hn. destruct (Inv_local s c Hi Hs Hn) as [Hc Hr Hm Hk]. now split. Qed.

Lemma Inv_call s : Inv s -> Inv (call_States s).
Proof.
  intros [Hc Hr Hm Hk]. split; [exact Hc| |exact Hm|].
  - intros k r Hl. cbn in Hl. apply lookup_app_Some in Hl as [Hl|[_ Hl]]; [exact (Hr k r Hl)|].
    apply list_lookup_singleton_Some in Hl as [_ <-]. cbn. lia.
  - intros k. cbn. rewrite Hk. split; intros (r & Hl & Hcp).
    + exists r. split; [now apply lookup_app_l_Some|done].
    + apply lookup_app_Some in Hl as [Hl|[_ Hl]]; [eauto|]. apply list_lookup_singleton_Some in Hl as [_ <-]. done.
Qed.

Lemma Inv_move s s' : Inv s -> hmove s s' -> Inv s'.
Proof.
  intros Hi Hm. unfold hmove in Hm. inversion Hm as [r E|k s1 E| |Hs Hc E|Hs|s1 Hs E]; subst.
  - eauto using Inv_checker_step.
  - eauto using Inv_reader_step.
  - now apply Inv_call.
  - unfold Start in E. rewrite Hc in E. injection E as <-. apply Inv_owner; [done|now rewrite Hc|]. unfold checker_ok. now rewrite Hc.
  - apply Inv_owner; [done|done|done].
  - unfold stop_join in E. destruct (hc_checker s) eqn:Ec; try done; injection E as <-;
      (apply Inv_owner; [done|now rewrite Ec|unfold checker_ok; now rewrite Ec]).
Qed.

Lemma reachable_Inv s : reachable cfg n0 s -> Inv s.
Proof.
  apply (rtc_ind_r Inv); [apply Inv_new|]. intros s1 s2 _ Hm Hi. exact (Inv_move s1 s2 Hi Hm).
Qed.

(** ** Nothing is undefined *)

Lemma move_fds s s' : few_fds n0 -> fds (hc_net s) = fds n0 -> hmove s s' -> fds (hc_net s') = fds n0.
Proof.
  intros Hf Hn Hm. inversion Hm as [r E|k s1 E| |Hs Hc E|Hs|s1 Hs E]; subst; [| |done| |done|].
  - unfold checker_step in E. destruct (hc_checker s) as [| | |sn|dn [|x todo]|sn|sn| |]; simplify_eq; try done.
    + destruct (hc_mutex s); simplify_eq; done.
    + destruct (hc_states s !! _); simplify_eq; done.
    + destruct (check_backend_spec (hc_net s) x) as (x' & n' & Ex & Hx & _); [unfold few_fds in *; congruence|].
      rewrite Ex in E. cbn [obind] in E. simplify_eq. cbn. congruence.
    + destruct (hc_mutex s); simplify_eq; done.
  - unfold reader_step in E. repeat case_match; simplify_eq; done.
  - unfold Start in E. rewrite Hc in E. simplify_eq. done.
  - unfold stop_join in E. destruct (hc_checker s); simplify_eq; done.
Qed.

Lemma reachable_fds s : few_fds n0 -> reachable cfg n0 s -> fds (hc_net s) = fds n0.
Proof.
  intros Hf. apply (rtc_ind_r (fun s => fds (hc_net s) = fds n0)); [done|]. intros s1 s2 _ Hm Hi.
  exact (move_fds s1 s2 Hf Hi Hm).
Qed.

Lemma checker_step_Ret s r : few_fds (hc_net s) -> checker_step s = Some r -> exists s', r = Ret s'.
Proof.
  intros Hf. unfold checker_step. destruct (hc_checker s) as [| | |sn|dn [|x todo]|sn|sn| |]; intros E; simplify_eq; eauto.
  - destruct (hc_mutex s); simplify_eq; eauto.
  - destruct (hc_states s !! _); simplify_eq; eauto.
  - destruct (check_backend_spec (hc_net s) x Hf) as (x' & n' & -> & _). cbn [obind]. eauto.
  - destruct (hc_mutex s); simplify_eq; eauto.
Qed.

(** ** [Stop] *)

(** An upper bound on the steps of the checker until it sees that [running_] is unset. *)
Definition remaining s : nat :=
  match hc_checker s with
  | c_none | c_done => 0
  | c_test => 1
  | c_sleep => 2
  | c_store _ => 3
  | c_relock _ => 4
  | c_probe _ todo => 5 + length todo
  | c_copy snapshot => 6 + length (hc_states s) + (length (hc_states s) - length snapshot)
  | c_lock => 7 + 2 * length (hc_states s)
  end.

(** The owner waits in [Stop] and no reader holds the mutex. *)
Definition quiet s : Prop :=
  Inv s /\ few_fds (hc_net s) /\ fds (hc_net s) = fds n0 /\ hc_stopping s = true /\ hc_running s = false /\
  forall k, hc_mutex s <> Some (h_reader k).

Lemma quiet_mutex s : quiet s -> in_section (hc_checker s) = false -> hc_mutex s = None.
Proof.
  intros (Hi & _ & _ & _ & _ & Hk) Hs. destruct (hc_mutex s) as [[|k]|] eqn:E; [|now destruct (Hk k)|done].
  apply (inv_mutex_c s Hi) in E. congruence.
Qed.

Lemma checker_moves s :
  quiet s -> remaining s <> 0%nat -> exists s', checker_step s = Some (Ret s') /\ (remaining s' < remaining s)%nat /\ quiet s'.
Proof.
  intros Hq Hr. assert (Hmv : exists s', checker_step s = Some (Ret s') /\ (remaining s' < remaining s)%nat /\
    hc_stopping s' = true /\ hc_running s' = false /\ forall k, hc_mutex s' <> Some (h_reader k)).
  { pose proof (quiet_mutex s Hq) as Hmx. destruct Hq as (Hi & Hf & _ & Hs & Hrun & Hk).
    destruct (inv_checker s Hi) as (n & _ & Hok). unfold checker_ok in Hok. unfold checker_step, remaining in *.
    destruct (hc_checker s) as [| | |sn|dn [|x todo]|sn|sn| |]; cbn in Hmx; try rewrite (Hmx eq_refl); try done.
    - rewrite Hrun. eexists. split; [done|]. split_and!; cbn; done || lia.
    - eexists. split; [done|]. split_and!; cbn; done || lia.
    - destruct (hc_states s !! length sn) as [x|] eqn:Ex; (eexists; split; [done|]; split_and!; cbn; try done).
      + apply lookup_lt_Some in Ex. rewrite length_app. cbn. lia.
      + apply lookup_ge_None in Ex. destruct Hok as [Hok _]. apply (f_equal length) in Hok. rewrite length_take in Hok. lia.
    - eexists. split; [done|]. split_and!; cbn; done || lia.
    - destruct (check_backend_spec (hc_net s) x Hf) as (x' & n' & -> & _). eexists. split; [done|]. split_and!; cbn; done || lia.
    - eexists. split; [done|]. split_and!; cbn; done || lia.
    - eexists. split; [done|]. split_and!; cbn; done || lia.
    - eexists. split; [done|]. split_and!; cbn; done || lia. }
  destruct Hmv as (s' & E & Hlt & Hs & Hrun & Hk). exists s'. split; [done|]. split; [done|].
  destruct Hq as (Hi & Hf & Hn & _). assert (Hm : hmove s s') by now apply step_checker.
  assert (Hn' : fds (hc_net s') = fds n0) by (eapply move_fds; eauto; unfold few_fds in *; congruence).
  split_and!; try done; [eauto using Inv_move|]. unfold few_fds in *. congruence.
Qed.

Lemma quiet_stops m : forall s, quiet s -> (remaining s <= m)%nat ->
  exists j s', (j <= S m)%nat /\ nsteps hmove j s s' /\ hc_stopping s' = false /\ hc_checker s' = c_none.
Proof.
  induction m as [m IH] using lt_wf_ind. intros s Hq Hm. destruct (decide (remaining s = 0%nat)) as [H0|H0].
  - assert (E : exists s', stop_join s = Some s' /\ hc_stopping s' = false /\ hc_checker s' = c_none).
    { unfold stop_join, remaining in *. destruct (hc_checker s); try done; eauto. }
    destruct E as (s' & E & ? & ?). exists 1%nat, s'. split; [lia|]. split; [|done]. apply nsteps_once, step_join; [apply Hq|done].
  - destruct (checker_moves s Hq H0) as (s1 & E & Hlt & Hq1).
    destruct (IH (pred m) ltac:(lia) s1 Hq1 ltac:(lia)) as (j & s' & Hj & Hsteps & ?). exists (S j), s'. split; [lia|].
    split; [|done]. eapply nsteps_l; [exact (step_checker s _ E)|exact Hsteps].
Qed.

(** The reader that holds the mutex finishes its copy. *)
Lemma reader_releases d : forall s k since copied,
  hc_readers s !! k = Some (r_copy since copied) -> (length (hc_states s) - length copied <= d)%nat ->
  exists j s', (j <= S d)%nat /\ nsteps hmove j s s' /\ hc_mutex s' = None /\ hc_stopping s' = hc_stopping s /\
    hc_running s' = hc_running s /\ hc_states s' = hc_states s /\ hc_net s' = hc_net s /\ hc_checker s' = hc_checker s.
Proof.
  induction d as [d IH] using lt_wf_ind. intros s k since copied Hk Hd.
  assert (Hstep : forall s', reader_step k s = Some s' -> hmove s s') by (intros s'; apply step_reader).
  unfold reader_step in Hstep. rewrite Hk in Hstep. destruct (hc_states s !! length copied) as [x|] eqn:Ex.
  - apply lookup_lt_Some in Ex as Hlt. specialize (Hstep _ eq_refl).
    destruct (IH (pred d) ltac:(lia) (with_reader s (hc_mutex s) k (r_copy since (copied ++ [x]))) k since (copied ++ [x]))
      as (j & s' & Hj & Hs & Hrest).
    + cbn. apply list_lookup_insert_eq. now apply lookup_lt_Some in Hk.
    + cbn. rewrite length_app. cbn. lia.
    + exists (S j), s'. split; [lia|]. split; [eapply nsteps_l; eauto|exact Hrest].
  - exists 1%nat. eexists. split; [lia|]. split; [apply nsteps_once, Hstep; reflexivity|]. done.
Qed.

Lemma stopping_not_running s : reachable cfg n0 s -> hc_stopping s = true -> hc_running s = false.
Proof.
  apply (rtc_ind_r (fun s => hc_stopping s = true -> hc_running s = false)); [done|]. intros s1 s2 _ Hm IH.
  inversion Hm as [r E|k s3 E| |Hs Hc E|Hs|s3 Hs E]; subst; try done.
  - unfold checker_step in E. destruct (hc_checker s1) as [| | |sn|dn [|x todo]|sn|sn| |]; simplify_eq; try done.
    + destruct (hc_mutex s1); simplify_eq; done.
    + destruct (hc_states s1 !! _); simplify_eq; done.
    + destruct (check_backend _ _) as [[]|e| |]; cbn [obind] in E; simplify_eq; done.
    + destruct (hc_mutex s1); simplify_eq; done.
  - unfold reader_step in E. repeat case_match; simplify_eq; done.
  - unfold Start in E. rewrite Hc in E. simplify_eq. cbn. congruence.
  - unfold stop_join in E. destruct (hc_checker s1); simplify_eq; done.
Qed.

Lemma health_pass_length states : forall n r n', health_pass n states = Ret (r, n') -> length r = length states.
Proof.
  induction states as [|x states IH]; intros n r n'; cbn [health_pass]; [now intros [= <- _]|].
  destruct (check_backend n x) as [[x1 n1]|e| |]; cbn [obind]; try done.
  destruct (health_pass n1 states) as [[r1 n2]|e| |] eqn:E; cbn [obind]; try done. intros [= <- _]. cbn. f_equal. eauto.
Qed.

Lemma remaining_bound s : Inv s -> few_fds (hc_net s) -> (remaining s <= 7 + 2 * length (hc_states s))%nat.
Proof.
  intros Hi Hf. destruct (inv_checker s Hi) as (n & _ & Hok). unfold checker_ok, remaining in *.
  destruct (hc_checker s) as [| | |sn|dn todo|sn|sn| |]; try lia.
  destruct (health_pass_spec todo (hc_net s) Hf) as (r & n' & E & _). pose proof (health_pass_length _ _ _ _ E) as Hl.
  apply Hok, health_pass_length in E. rewrite length_app in E. lia.
Qed.

(** ** Properties *)

(** C26: [States] is atomic: what a call returns is the whole result of one pass of the
    checker (or the initial states), with no entry of another, and that pass was stored
    no earlier than the last one before the call. *)
Theorem states_whole_pass s k since result :
  reachable cfg n0 s -> hc_readers s !! k = Some (r_ret since result) ->
  exists j n, (since <= j <= hc_passes s)%nat /\ RunLoop j n0 (HealthChecker_new cfg) = Ret (result, n).
Proof. intros Hr Hk. exact (inv_readers s (reachable_Inv s Hr) k _ Hk). Qed.

(** No step of any thread is undefined, and never are two threads at once in a
    section that the mutex guards. *)
Theorem health_thread_safe s :
  few_fds n0 -> reachable cfg n0 s ->
  (forall r, hstep s r -> exists s', r = Ret s') /\
  (forall k r, hc_readers s !! k = Some r -> copying r = true ->
     in_section (hc_checker s) = false /\ forall i r2, hc_readers s !! i = Some r2 -> copying r2 = true -> i = k).
Proof.
  intros Hf Hr. pose proof (reachable_Inv s Hr) as Hi. split.
  - intros r Hs. inversion Hs as [r1 E|k s1 E| |_ Hc|_|s1 _ E]; subst; eauto.
    + eapply checker_step_Ret; [|exact E]. unfold few_fds in *. now rewrite (reachable_fds s Hf Hr).
    + unfold Start. rewrite Hc. eauto.
  - intros k r Hk Hc. assert (Hm : hc_mutex s = Some (h_reader k)) by (apply (inv_mutex_r s Hi); eauto). split.
    + destruct (in_section (hc_checker s)) eqn:E; [|done]. apply (inv_mutex_c s Hi) in E. congruence.
    + intros i r2 Hi2 Hc2. assert (Hm2 : hc_mutex s = Some (h_reader i)) by (apply (inv_mutex_r s Hi); eauto). congruence.
Qed.

(** C27: [Stop] returns: whatever the threads are doing when it is called, it is at most
    [3 * states_.size() + 9] steps away from having joined the thread, and no deadlock
    can keep it from there. *)
Theorem stop_returns s :
  few_fds n0 -> reachable cfg n0 s -> hc_stopping s = true ->
  exists j s', (j <= 3 * length (hc_states s) + 9)%nat /\ nsteps hmove j s s' /\
    hc_stopping s' = false /\ hc_checker s' = c_none.
Proof.
  intros Hf Hr Hs. pose proof (reachable_Inv s Hr) as Hi. pose proof (reachable_fds s Hf Hr) as Hn.
  pose proof (stopping_not_running s Hr Hs) as Hrun.
  assert (Hrem : forall s1, hc_checker s1 = hc_checker s -> hc_states s1 = hc_states s ->
    (remaining s1 <= 7 + 2 * length (hc_states s))%nat).
  { intros s1 Ec Es. unfold remaining. rewrite Ec, Es. exact (remaining_bound s Hi ltac:(unfold few_fds in *; congruence)). }
  destruct (hc_mutex s) as [[|k]|] eqn:Em.
  1, 3: destruct (quiet_stops (7 + 2 * length (hc_states s)) s) as (j & s' & Hj & ?);
    [split_and!; try done; [unfold few_fds in *; congruence|congruence]|auto|exists j, s'; split; [lia|done]].
  destruct (proj1 (inv_mutex_r s Hi k) Em) as (r & Hk & Hc). destruct r as [|since copied|]; try done.
  destruct (reader_releases (length (hc_states s)) s k since copied Hk ltac:(lia))
    as (j1 & s1 & Hj1 & Hst1 & Hm1 & Hs1 & Hr1 & Hss1 & Hn1 & Hc1).
  assert (Hreach : reachable cfg n0 s1) by (unfold reachable; etransitivity; [exact Hr|eapply rtc_nsteps_2; eauto]).
  destruct (quiet_stops (7 + 2 * length (hc_states s)) s1) as (j2 & s2 & Hj2 & Hst2 & ?).
  - unfold quiet, few_fds in *. split; [exact (reachable_Inv s1 Hreach)|]. split_and!; congruence.
  - auto.
  - exists (j1 + j2)%nat, s2. split; [lia|]. split; [eapply nsteps_trans; eauto|done].
Qed.

End Spec.
