(* ===== verification/ControlSamples.v ===== *)
(** * The control theorems on concrete inputs *)

From S2P Require Import Prelude FlowKey NetTypes BackendPool Ipc LbFacts Control ControlPlane ControlSpec.
From S2P Require Import ControlPlaneSpec.

(** ** A small network *)

(** Open descriptors, and the peer of the last connect. *)
Record simnet := mkSimnet { sim_open : list Z; sim_peer : Z }.

(** The lowest descriptor from [k] on that is not open. *)
Fixpoint lowest (fuel : nat) (k : Z) (l : list Z) : Z :=
  match fuel with
  | O => -1
  | S fuel => if decide (k ∈ l) then lowest fuel (k + 1) l else k
  end.

Lemma lowest_open fuel : forall k l j, 0 <= k -> k <= j < lowest fuel k l -> j ∈ l.
Proof.
  induction fuel as [|fuel IH]; intros k l j Hk0; cbn [lowest]; [lia|]. destruct (decide (k ∈ l)) as [Hk|]; [|lia].
  intros Hj. destruct (decide (k = j)) as [->|]; [done|]. apply (IH (k + 1)); lia.
Qed.

(** Even peers answer, those divisible by four without an error; peer 10 answers
    at once. *)
#[export] Instance sim_sockets : Sockets.
Proof.
  refine {| net := simnet; fds := sim_open;
    sys_socket n := let fd := lowest 16 0 (sim_open n) in
      if fd <? 0 then (-1, n) else (fd, mkSimnet (fd :: sim_open n) (sim_peer n));
    sys_connect n fd ip port := (if ip =? 10 then 0 else -1, 115, mkSimnet (sim_open n) ip);
    sys_select n fd := (if Z.even (sim_peer n) then 1 else 0, n);
    sys_so_error n fd := (if sim_peer n mod 4 =? 0 then 0 else 111, n);
    sys_close n fd := mkSimnet (tail (sim_open n)) (sim_peer n);
    clock_ns n := 1000; EINPROGRESS := 115 |}.
  - intros n fd n' H. cbv zeta in H. destruct (lowest 16 0 (sim_open n) <? 0) eqn:E; injection H as <- <-; [done|].
    change (lowest 16 0 (sim_open n) :: sim_open n =
      if lowest 16 0 (sim_open n) <? 0 then sim_open n else lowest 16 0 (sim_open n) :: sim_open n). now rewrite E.
  - intros n fd n' H k Hk. cbv zeta in H. destruct (lowest 16 0 (sim_open n) <? 0) eqn:E; injection H as <- <-; [lia|].
    eapply (lowest_open 16 0); [lia|exact Hk].
  - intros n fd ip port rc err n' [= _ _ <-]. done.
  - intros n fd rc n' [= _ <-]. done.
  - intros n fd err n' [= _ <-]. done.
  - intros n fd l E. simpl in *. now rewrite E.
Defined.

Definition sim0 : net := mkSimnet [0; 1; 2] 0.

Definition ctl_backend (ip port : Z) : BackendInfo :=
  mkBackendInfo (mkIPv4Addr ip) (mkMacAddr [2; 0; 0; 0; 0; ip mod 256]) port port.

Lemma ctl_backend_wf ip port : 0 <= ip < 2 ^ 32 -> 0 <= port < 2 ^ 16 -> BackendInfo_wf (ctl_backend ip port).
Proof.
  intros Hi Hp. split; [done|]. split; [|done]. split; [done|]. repeat (apply List.Forall_cons; [lia|]).
  apply List.Forall_cons; [apply Z.mod_pos_bound; lia|]. constructor.
Qed.

Definition sample_states : list BackendState :=
  (fun ip => mkBackendState (ctl_backend ip 80) kUnknown 0 0 0) <$> [10; 12; 13; 14].

(** One pass: an immediate connection, a delayed one, a timeout, a refusal. *)
Example sample_pass :
  (let! '(s, n) := health_pass sim0 sample_states in Ret (status <$> s, sim_open n)) =
  Ret ([kUp; kUp; kDown; kDown], [0; 1; 2]).
Proof. vm_compute. reflexivity. Qed.

Lemma health_loop_correct_witness :
  exists states' n', RunLoop 3 sim0 sample_states = Ret (states', n') /\ fds n' = fds sim0 /\
    Forall2 (checked_times 3) sample_states states'.
Proof.
  apply (health_loop_correct 3 sim0 sample_states); [vm_compute; done|].
  repeat constructor; simpl; lia.
Defined.

Lemma Probe_correct_witness :
  exists h n', Probe sim0 (ctl_backend 12 80) = Ret (h, n') /\ (h = true <->
    0 <= 3 /\ (-1 = 0 \/ (-1 <> 0 /\ 115 = EINPROGRESS /\ 0 < (sys_select (Sockets:=sim_sockets) (mkSimnet [3; 0; 1; 2] 12) 3).1 /\
      (sys_so_error (sys_select (Sockets:=sim_sockets) (mkSimnet [3; 0; 1; 2] 12) 3).2 3).1 = 0))).
Proof.
  apply (Probe_correct sim0 (ctl_backend 12 80) 3 (mkSimnet [3; 0; 1; 2] 0)); vm_compute; reflexivity.
Defined.

(** ** Statistics *)

Definition sample_stats (rx : Z) : LcoreStats :=
  mkLcoreStats rx (rx / 2) 1 2 3 (replicate kMaxBackends 5).

Definition sample_view (rx : Z) : StatsView :=
  mkStatsView (mkShmHeader kShmMagic kShmVersion) (sample_stats rx :: replicate 31 LcoreStats_zero).

Lemma sample_view_ok rx : stats_view_ok (sample_view rx).
Proof. split; [done|]. repeat constructor. Qed.

(** The counter wraps between the ticks: 2^64 - 1, then 9; the rate is 10. *)
Lemma tick_rates_exact_witness :
  exists out1 p1 out2 p2,
  Tick (sample_view (2 ^ 64 - 1)) kMaxLcores Snapshot_zero = Ret (out1, p1) /\
  Tick (sample_view 9) kMaxLcores p1 = Ret (out2, p2) /\
  rx_pps out2 = u64 (total rx_packets (lcores (sample_view 9)) - total rx_packets (lcores (sample_view (2 ^ 64 - 1)))) /\
  tx_pps out2 = u64 (total tx_packets (lcores (sample_view 9)) - total tx_packets (lcores (sample_view (2 ^ 64 - 1)))) /\
  dropped_pps out2 = u64 (total dropped (lcores (sample_view 9)) - total dropped (lcores (sample_view (2 ^ 64 - 1)))) /\
  new_flows_ps out2 = u64 (total new_flows (lcores (sample_view 9)) - total new_flows (lcores (sample_view (2 ^ 64 - 1)))) /\
  agg_active_flows out2 = u64 (total active_flows (lcores (sample_view 9))) /\
  forall i, (i < kMaxBackends)%nat ->
    agg_backend_flows out2 !! i = Some (u64 (total (flows_at i) (lcores (sample_view 9)))).
Proof. apply (tick_rates_exact (sample_view (2 ^ 64 - 1)) (sample_view 9)); apply sample_view_ok. Defined.

Example sample_rate :
  (let! '(_, p) := Tick (sample_view (2 ^ 64 - 1)) kMaxLcores Snapshot_zero in
   let! '(out, _) := Tick (sample_view 9) kMaxLcores p in Ret (rx_pps out)) = Ret 10.
Proof. vm_compute. reflexivity. Qed.

(** ** The channel *)

Definition sample_control (seq : Z) : ControlView :=
  mkControlView (mkShmHeader kShmMagic kShmVersion) seq 0 (replicate kMaxBackends ControlBackend_zero).

Definition sample_entries : list ControlBackend := [control_entry (ctl_backend 10 80) 1; control_entry (ctl_backend 12 81) 0].

Lemma sample_control_ok : view_ok (sample_control (2 ^ 32 - 2)).
Proof. split; [done|]. split; [simpl; lia|done]. Qed.

(** The sequence number wraps to 0. *)
Lemma publish_read_roundtrip_witness :
  let v := sample_control (2 ^ 32 - 2) in let out := replicate kMaxBackends ControlBackend_zero in
  exists v' out' k, PublishControl v sample_entries (u32 (Z.of_nat (length sample_entries))) = Ret v' /\ view_ok v' /\
    ReadControl 1 v' out = Ret (cv_seq v', out', Z.of_nat k) /\
    k = Nat.min (length sample_entries) kMaxBackends /\ take k out' = take k sample_entries /\ drop k out' = drop k out /\
    cv_seq v' = u32 (cv_seq v + 2) /\ cv_seq v' <> cv_seq v.
Proof.
  intros v out. apply (publish_read_roundtrip 0 v sample_entries out);
    [apply sample_control_ok|vm_compute; reflexivity|reflexivity].
Defined.

Definition ctl_config : Config :=
  mkConfig (mkIPv4Addr 167772161) 80 (mkIPv4Addr 167772162) (mkMacAddr [2; 0; 0; 0; 0; 1])
    [ctl_backend 10 80; ctl_backend 12 81] 1000 60000.

(** Left behind at sequence number 7. *)
Lemma odd_segment_hangs_witness : StartControl 1000 (sample_control 7) ctl_config = OutOfFuel.
Proof. apply (odd_segment_hangs 1000 (sample_control 7) ctl_config); vm_compute; reflexivity. Defined.

Lemma start_pool_from_config_witness :
  let v := sample_control 0 in
  exists v' st pool, StartControl 255 v ctl_config = Ret (v', st) /\ view_ok v' /\ cl_applied st = cv_seq v' /\
    Load (cl_pool st) = Some pool /\ usable pool /\
    pool_follows pool ((fun b => (b, true)) <$> backends ctl_config).
Proof.
  intros v. apply (start_pool_from_config 255 v ctl_config).
  - split; [done|]. split; [simpl; lia|done].
  - lia.
  - vm_compute. lia.
  - apply Forall_cons. split; [apply ctl_backend_wf; lia|]. apply Forall_cons. split; [apply ctl_backend_wf; lia|]. constructor.
Defined.

Definition sample_monitor (seq : Z) (published : list Z) : Monitor :=
  mkMonitor (Some (sample_control seq)) published Snapshot_zero (mkAggregatedStats 0 0 0 0 0 []).

Definition sample_loop (seq : Z) : ControlLoop :=
  mkControlLoop (replicate kMaxBackends ControlBackend_zero) 0 seq (AtomicRcu_new None).

Definition up_down : list BackendState :=
  [mkBackendState (ctl_backend 10 80) kUp 0 1 1000; mkBackendState (ctl_backend 13 81) kDown 1 0 1000].

Lemma health_reaches_pool_witness :
  exists m' v' st' pool, MonitorPublish (sample_monitor (2 ^ 32 - 2) [0; 0]) up_down = Ret m' /\
    mo_control m' = Some v' /\ view_ok v' /\ mo_published m' = enabled_flag <$> up_down /\
    control_poll 255 v' (sample_loop (2 ^ 32 - 2)) = Ret st' /\ cl_applied st' = cv_seq v' /\
    Load (cl_pool st') = Some pool /\ pool_follows pool (up_states up_down).
Proof.
  apply (health_reaches_pool 255 (sample_monitor (2 ^ 32 - 2) [0; 0]) (sample_control (2 ^ 32 - 2)) up_down
    (sample_loop (2 ^ 32 - 2))); try reflexivity.
  - apply sample_control_ok.
  - vm_compute. lia.
  - discriminate.
Defined.

Lemma unchanged_health_keeps_pool_witness :
  MonitorPublish (sample_monitor (2 ^ 32 - 2) [1; 0]) up_down = Ret (sample_monitor (2 ^ 32 - 2) [1; 0]) /\
  exists st', control_poll 1 (sample_control (2 ^ 32 - 2)) (sample_loop (2 ^ 32 - 2)) = Ret st' /\
    cl_pool st' = cl_pool (sample_loop (2 ^ 32 - 2)) /\ cl_applied st' = cl_applied (sample_loop (2 ^ 32 - 2)).
Proof.
  apply (unchanged_health_keeps_pool 0 (sample_monitor (2 ^ 32 - 2) [1; 0]) (sample_control (2 ^ 32 - 2)) up_down
    (sample_loop (2 ^ 32 - 2))); try reflexivity.
  - apply sample_control_ok.
  - vm_compute. split; discriminate.
Defined.

Lemma first_publish_disables_all_witness :
  let v := sample_control (2 ^ 32 - 2) in
  exists m' v' st' pool,
    MonitorPublish (mkMonitor (Some v) [] Snapshot_zero (mkAggregatedStats 0 0 0 0 0 [])) (HealthChecker_new ctl_config) = Ret m' /\
    mo_control m' = Some v' /\ control_poll 255 v' (sample_loop (2 ^ 32 - 2)) = Ret st' /\
    Load (cl_pool st') = Some pool /\ length (bp_slots pool) = length (backends ctl_config) /\ bp_active pool = [].
Proof.
  intros v. apply (first_publish_disables_all 255 ctl_config v); try reflexivity.
  - apply sample_control_ok.
  - vm_compute. lia.
Defined.
