(* ===== verification/HealthThreadSamples.v ===== *)
(** * The health thread on concrete schedules *)

From S2P Require Import Prelude FlowKey NetTypes BackendPool Ipc Control ControlPlane ControlPlaneSpec ControlSamples.
From S2P Require Import HealthThread HealthThreadSpec.

(** Which thread moves next. *)
Inductive turn := t_checker | t_reader (k : nat) | t_call | t_start | t_stop | t_join.

Definition of_outcome {A} (r : outcome A) : option A := match r with Ret x => Some x | _ => None end.

Definition take_turn (t : turn) (s : HC) : option HC :=
  match t with
  | t_checker => checker_step s ≫= of_outcome
  | t_reader k => reader_step k s
  | t_call => Some (call_States s)
  | t_start => if hc_stopping s then None else of_outcome (Start s)
  | t_stop => if hc_stopping s then None else Some (stop_store s)
  | t_join => if hc_stopping s then stop_join s else None
  end.

Definition run_turns (l : list turn) (s : HC) : option HC := foldl (fun r t => r ≫= take_turn t) (Some s) l.

Lemma of_outcome_Some {A} (r : outcome A) x : of_outcome r = Some x -> r = Ret x.
Proof. destruct r; intros [= ->]; done. Qed.

Lemma take_turn_hmove t s s' : take_turn t s = Some s' -> hmove s s'.
Proof.
  unfold hmove. destruct t; cbn [take_turn].
  - destruct (checker_step s) as [r|] eqn:E; [|done]. intros ->%of_outcome_Some. now apply step_checker.
  - apply step_reader.
  - intros [= <-]. apply step_call.
  - destruct (hc_stopping s) eqn:E; [done|]. intros Hs%of_outcome_Some. rewrite <- Hs. apply step_start; [done|].
    unfold Start in Hs. now destruct (hc_checker s).
  - destruct (hc_stopping s) eqn:E; [done|]. intros [= <-]. now apply step_stop.
  - destruct (hc_stopping s) eqn:E; [|done]. now apply step_join.
Qed.

Lemma run_turns_rtc l : forall s s', run_turns l s = Some s' -> rtc hmove s s'.
Proof.
  induction l as [|t l IH] using rev_ind; intros s s'; unfold run_turns; [intros [= <-]; reflexivity|].
  rewrite foldl_app. cbn [foldl]. intros E. apply bind_Some in E as (s1 & E1 & E2).
  etransitivity; [exact (IH s s1 E1)|]. eapply rtc_once, take_turn_hmove, E2.
Qed.

(** A call of [States] whose copy overlaps the start of the second pass; then
    [Stop] while a second call holds the mutex. *)
Definition schedule : list turn :=
  [t_start] ++ replicate 10 t_checker ++ [t_call; t_reader 0; t_reader 0; t_checker; t_checker; t_reader 0; t_reader 0] ++
  replicate 4 t_checker ++ [t_call; t_reader 1; t_reader 1; t_stop].

Definition after_schedule : option HC := run_turns schedule (HC_new ctl_config sim0).

Definition scheduled : HC := default (HC_new ctl_config sim0) after_schedule.

Lemma scheduled_eq : run_turns schedule (HC_new ctl_config sim0) = Some scheduled.
Proof.
  unfold scheduled, after_schedule.
  assert (E : is_Some (run_turns schedule (HC_new ctl_config sim0))) by (vm_compute; eexists; reflexivity).
  destruct E as [s ->]. reflexivity.
Qed.

Lemma scheduled_reachable : reachable ctl_config sim0 scheduled.
Proof. exact (run_turns_rtc schedule _ _ scheduled_eq). Qed.

(** What the first call returned: both backends of the first pass. *)
Definition first_result : list BackendState :=
  [mkBackendState (ctl_backend 10 80) kUp 0 1 1000; mkBackendState (ctl_backend 12 81) kUp 0 1 1000].

Lemma states_whole_pass_witness :
  hc_passes scheduled = 1%nat /\ hc_stopping scheduled = true /\ hc_mutex scheduled = Some (h_reader 1) /\
  exists j n, (1 <= j <= hc_passes scheduled)%nat /\ RunLoop j sim0 (HealthChecker_new ctl_config) = Ret (first_result, n).
Proof.
  split; [vm_compute; reflexivity|]. split; [vm_compute; reflexivity|]. split; [vm_compute; reflexivity|].
  apply (states_whole_pass ctl_config sim0 scheduled 0 1 first_result); [apply scheduled_reachable|vm_compute; reflexivity].
Defined.

Lemma health_thread_safe_witness :
  (forall r, hstep scheduled r -> exists s', r = Ret s') /\
  (forall k r, hc_readers scheduled !! k = Some r -> copying r = true ->
     in_section (hc_checker scheduled) = false /\
     forall i r2, hc_readers scheduled !! i = Some r2 -> copying r2 = true -> i = k).
Proof. apply (health_thread_safe ctl_config sim0 scheduled); [vm_compute; done|apply scheduled_reachable]. Defined.

Lemma stop_returns_witness :
  exists j s', (j <= 3 * length (hc_states scheduled) + 9)%nat /\ nsteps hmove j scheduled s' /\
    hc_stopping s' = false /\ hc_checker s' = c_none.
Proof.
  apply (stop_returns ctl_config sim0 scheduled); [vm_compute; done|apply scheduled_reachable|vm_compute; reflexivity].
Defined.
