(* ===== verification/Rcu.v ===== *)
(** * The shared pointer to the backend pool ([lb/atomic_rcu.hpp])

    [AtomicRcu<T>] is a [std::atomic<std::shared_ptr<T>>]: [Load] copies the pointer and
    counts one more owner, [Store] puts a new object in its place and gives up the old
    one, and the object whose last owner goes is freed. [LbNode::Process] loads the
    pointer once and dereferences it for every packet of its frame; meanwhile
    [RunControlLoop] may store any number of new pools.

    Here objects live in a heap with their counts, every [Load], every use, every release
    and every [Store] is a step of its own, and what is freed may be allocated again. The
    file is parametric in the object ([T]), in what a reader owns ([St]) and in what it
    does with one item ([use]); the load balancer is an instance.

    [rd_from], [rd_done] and [rd_obj] are ghosts: what the reader owned when it loaded,
    the items it has done since, the object it loaded. *)

From S2P Require Import Prelude FlowKey NetTypes PortPool BackendPool NatTable Ipc PacketMeta LbNode Graph Packet Nodes.

Section Rcu.
Context {T St X : Type} (use : option T -> St -> X -> outcome St).

(** ** [std::shared_ptr] *)

(** Objects with their numbers of owners. *)
Local Abbreviation Heap := (gmap nat (T * nat)).

Definition rcu_deref (h : Heap) (p : nat) : outcome T :=
  match h !! p with
  | Some (x, _) => Ret x
  | None => Undef
  end.

Definition make_shared (h : Heap) (x : T) : Heap * nat :=
  let p := fresh (dom h : gset nat) in (<[p := (x, 1%nat)]> h, p).

(** One more owner. *)
Definition retain_ref (h : Heap) (p : nat) : outcome Heap :=
  match h !! p with
  | Some (x, c) => Ret (<[p := (x, S c)]> h)
  | None => Undef
  end.

(** One owner less. *)
Definition release_ref (h : Heap) (p : nat) : outcome Heap :=
  match h !! p with
  | Some (x, S (S c)) => Ret (<[p := (x, S c)]> h)
  | Some (x, 1%nat) => Ret (delete p h)
  | _ => Undef
  end.

Definition release_opt (h : Heap) (p : option nat) : outcome Heap :=
  match p with Some p => release_ref h p | None => Ret h end.

(** ** Readers and the writer *)

Record RcuReader := mkRcuReader {
  rd_hold : option (option nat);
  rd_state : St;
  rd_todo : list X;
  rd_from : St;
  rd_done : list X;
  rd_obj : option T;
}.

Record RcuSystem := mkRcuSystem {
  rs_heap : Heap;
  rs_ptr : option nat;
  rs_readers : list RcuReader;
}.

(** [auto pool = rcu.Load()], before a frame [l]. *)
Definition rcu_load (s : RcuSystem) (r : RcuReader) (l : list X) : outcome (Heap * RcuReader) :=
  match rs_ptr s with
  | None => Ret (rs_heap s, mkRcuReader (Some None) (rd_state r) l (rd_state r) [] None)
  | Some p =>
      let! h := retain_ref (rs_heap s) p in
      let! x := rcu_deref h p in
      Ret (h, mkRcuReader (Some (Some p)) (rd_state r) l (rd_state r) [] (Some x))
  end.

(** [*pool] for the next item. *)
Definition rcu_use (s : RcuSystem) (r : RcuReader) (p : option nat) (x : X) (l : list X) : outcome RcuReader :=
  let! o := match p with Some p => let! o := rcu_deref (rs_heap s) p in Ret (Some o) | None => Ret None end in
  let! st := use o (rd_state r) x in
  Ret (mkRcuReader (rd_hold r) st l (rd_from r) (rd_done r ++ [x]) (rd_obj r)).

(** [pool] goes out of scope. *)
Definition rcu_done (s : RcuSystem) (r : RcuReader) (p : option nat) : outcome (Heap * RcuReader) :=
  let! h := release_opt (rs_heap s) p in
  Ret (h, mkRcuReader None (rd_state r) [] (rd_state r) [] None).

(** [rcu.Store(std::make_shared<T>(x))]. *)
Definition rcu_store (s : RcuSystem) (x : T) : outcome RcuSystem :=
  let '(h, p) := make_shared (rs_heap s) x in
  let! h := release_opt h (rs_ptr s) in
  Ret (mkRcuSystem h (Some p) (rs_readers s)).

(** The next step of reader [i]; an idle one loads the pointer for the frame [l]. *)
Definition rcu_reader_step (i : nat) (l : list X) (s : RcuSystem) : outcome RcuSystem :=
  let! r := at_ (rs_readers s) i in
  match rd_hold r, rd_todo r with
  | None, _ =>
      let! '(h, r) := rcu_load s r l in Ret (mkRcuSystem h (rs_ptr s) (<[i := r]> (rs_readers s)))
  | Some p, x :: todo =>
      let! r := rcu_use s r p x todo in Ret (mkRcuSystem (rs_heap s) (rs_ptr s) (<[i := r]> (rs_readers s)))
  | Some p, [] =>
      let! '(h, r) := rcu_done s r p in Ret (mkRcuSystem h (rs_ptr s) (<[i := r]> (rs_readers s)))
  end.

Inductive rcu_step (s s' : RcuSystem) : Prop :=
  | RcuReaderStep i l : rcu_reader_step i l s = Ret s' -> rcu_step s s'
  | RcuStoreStep x : rcu_store s x = Ret s' -> rcu_step s s'.

Definition idle_reader (st : St) : RcuReader := mkRcuReader None st [] st [] None.

Definition rcu_start (states : list St) : RcuSystem := mkRcuSystem ∅ None (idle_reader <$> states).

(** ** The counts are right *)

Definition holds_ptr (p : nat) (o : option nat) : nat := if decide (o = Some p) then 1 else 0.

Definition reader_refs (p : nat) (r : RcuReader) : nat :=
  match rd_hold r with Some o => holds_ptr p o | None => 0 end.

(** The owners of [p]. *)
Definition refs (s : RcuSystem) (p : nat) : nat :=
  (holds_ptr p (rs_ptr s) + sum_list_with (reader_refs p) (rs_readers s))%nat.

Definition count_of (h : Heap) (p : nat) : nat := match h !! p with Some (_, c) => c | None => 0 end.

(** The frame so far, done with the object loaded. *)
Fixpoint rcu_uses (o : option T) (l : list X) (st : St) : outcome St :=
  match l with
  | [] => Ret st
  | x :: l => let! st := use o st x in rcu_uses o l st
  end.

Definition rcu_reader_inv (h : Heap) (r : RcuReader) : Prop :=
  match rd_hold r with
  | None => True
  | Some p => rcu_uses (rd_obj r) (rd_done r) (rd_from r) = Ret (rd_state r) /\
      match p, rd_obj r with
      | Some p, Some x => exists c, h !! p = Some (x, c)
      | None, None => True
      | _, _ => False
      end
  end.

Record rcu_inv (s : RcuSystem) : Prop := {
  ri_counts : forall p, count_of (rs_heap s) p = refs s p;
  ri_live : forall p x c, rs_heap s !! p = Some (x, c) -> (0 < c)%nat;
  ri_readers : Forall (rcu_reader_inv (rs_heap s)) (rs_readers s);
}.

Lemma sum_refs_insert {A} (f : A -> nat) l : forall i x y, l !! i = Some x ->
  (sum_list_with f (<[i := y]> l) + f x = sum_list_with f l + f y)%nat.
Proof.
  induction l as [|z l IH]; intros [|i] x y E; try done; simpl in *; [injection E as ->; lia|].
  specialize (IH i x y E). lia.
Qed.

Lemma sum_lookup {A} (f : A -> nat) l i x : l !! i = Some x -> (f x <= sum_list_with f l)%nat.
Proof.
  revert i. induction l as [|z l IH]; intros [|i] E; try done; simpl in *; [injection E as ->; lia|].
  specialize (IH i E). lia.
Qed.

Lemma rcu_uses_snoc o l x : forall st, rcu_uses o (l ++ [x]) st = let! st := rcu_uses o l st in use o st x.
Proof.
  induction l as [|y l IH]; intros st; cbn [rcu_uses app obind]; [by destruct (use o st x)|].
  destruct (use o st y); cbn [obind]; done.
Qed.

(** Counting up and down. *)
Lemma retain_spec h p x c : h !! p = Some (x, c) ->
  exists h', retain_ref h p = Ret h' /\ h' = <[p := (x, S c)]> h /\
    forall q, count_of h' q = (count_of h q + (if decide (q = p) then 1 else 0))%nat.
Proof.
  intros E. unfold retain_ref. rewrite E. eexists. split; [done|]. split; [done|]. intros q. unfold count_of.
  destruct (decide (q = p)) as [->|Hq]; [rewrite lookup_insert_eq, E; lia|]. rewrite lookup_insert_ne by done. lia.
Qed.

(** An owner that is not the last leaves the object as it is. *)
Lemma release_spec h p : (0 < count_of h p)%nat ->
  exists h', release_ref h p = Ret h' /\
    (forall q, (count_of h' q + (if decide (q = p) then 1 else 0) = count_of h q)%nat) /\
    (forall q x, (exists c, h !! q = Some (x, c)) -> (0 < count_of h' q)%nat -> exists c, h' !! q = Some (x, c)) /\
    (forall q x c, h' !! q = Some (x, c) -> (0 < c)%nat \/ h !! q = Some (x, c)).
Proof.
  unfold release_ref, count_of. intros Hc. destruct (h !! p) as [[x [|[|c]]]|] eqn:E; try lia; eexists; (split; [done|]).
  - split; [|split].
    + intros q. destruct (decide (q = p)) as [->|Hq]; [rewrite lookup_delete_eq, E; lia|]. rewrite lookup_delete_ne by done. lia.
    + intros q y (c & Ey) Hlt. destruct (decide (q = p)) as [->|Hq]; [rewrite lookup_delete_eq in Hlt; lia|].
      exists c. by rewrite lookup_delete_ne.
    + intros q y c [_ Ey]%lookup_delete_Some. by right.
  - split; [|split].
    + intros q. destruct (decide (q = p)) as [->|Hq]; [rewrite lookup_insert_eq, E; lia|]. rewrite lookup_insert_ne by done. lia.
    + intros q y (c' & Ey) _. destruct (decide (q = p)) as [->|Hq].
      * rewrite lookup_insert_eq. exists (S c). congruence.
      * exists c'. by rewrite lookup_insert_ne.
    + intros q y c' [[<- [= <- <-]]|[_ Ey]]%lookup_insert_Some; [left; lia|by right].
Qed.

(** What keeps the objects that still have an owner keeps the readers. *)
Definition keeps_owned (h h' : Heap) : Prop :=
  forall q x, (exists c, h !! q = Some (x, c)) -> (0 < count_of h' q)%nat -> exists c, h' !! q = Some (x, c).

Lemma reader_inv_keeps h h' r :
  keeps_owned h h' -> (forall q, rd_hold r = Some (Some q) -> (0 < count_of h' q)%nat) -> rcu_reader_inv h r -> rcu_reader_inv h' r.
Proof.
  intros Hk Hc. unfold rcu_reader_inv. destruct (rd_hold r) as [[p|]|]; [|done..]. intros [Hu Hx]. split; [done|].
  destruct (rd_obj r); [|done]. apply Hk; auto.
Qed.

(** A step to [s'] in which reader [i], if any, becomes [r']. *)
Lemma rcu_inv_change s s' :
  rcu_inv s -> keeps_owned (rs_heap s) (rs_heap s') ->
  (forall p, count_of (rs_heap s') p = refs s' p) ->
  (forall p x c, rs_heap s' !! p = Some (x, c) -> (0 < c)%nat \/ rs_heap s !! p = Some (x, c)) ->
  (forall r, r ∈ rs_readers s' -> rcu_reader_inv (rs_heap s) r \/ rcu_reader_inv (rs_heap s') r) -> rcu_inv s'.
Proof.
  intros [Hc Hl Hr] Hk Hc' Hl' Hr'. split; [done|..].
  - intros p x c E. destruct (Hl' p x c E); [done|by eapply Hl].
  - apply Forall_forall. intros r Hin. destruct (Hr' r Hin) as [H|H]; [|done]. eapply reader_inv_keeps; [done| |done].
    intros q Hq. rewrite Hc'. apply list_elem_of_lookup in Hin as [i E]. pose proof (sum_lookup (reader_refs q) _ _ _ E) as Hs.
    unfold refs. unfold reader_refs at 1 in Hs. rewrite Hq in Hs. unfold holds_ptr in Hs. rewrite decide_True in Hs by done. lia.
Qed.

Lemma insert_readers (P : RcuReader -> Prop) l i r' :
  Forall P l -> forall r, r ∈ <[i := r']> l -> P r \/ r = r'.
Proof.
  intros H r (j & E)%list_elem_of_lookup. apply list_lookup_insert_Some in E as [(-> & -> & _)|(_ & E)]; [by right|].
  left. by eapply Forall_lookup_1.
Qed.

Lemma owners_insert s h o i r r' p :
  rs_readers s !! i = Some r -> rs_ptr s = o ->
  (refs (mkRcuSystem h o (<[i := r']> (rs_readers s))) p + reader_refs p r = refs s p + reader_refs p r')%nat.
Proof. intros E <-. unfold refs. cbn [rs_ptr rs_readers]. pose proof (sum_refs_insert (reader_refs p) _ i r r' E). lia. Qed.

Lemma keeps_counts h h' : (forall q x c, h !! q = Some (x, c) -> exists c', h' !! q = Some (x, c')) -> keeps_owned h h'.
Proof. intros H q x [c E] _. by eapply H. Qed.

Lemma owned s p : rcu_inv s -> (0 < refs s p)%nat -> exists x c, rs_heap s !! p = Some (x, c).
Proof. intros HI Hr. rewrite <- (ri_counts s HI p) in Hr. unfold count_of in Hr. destruct (rs_heap s !! p) as [[x c]|]; [eauto|lia]. Qed.

Lemma rcu_load_ok s i r l :
  rcu_inv s -> rs_readers s !! i = Some r -> rd_hold r = None ->
  exists h r', rcu_load s r l = Ret (h, r') /\ rcu_inv (mkRcuSystem h (rs_ptr s) (<[i := r']> (rs_readers s))).
Proof.
  intros HI E Hh. unfold rcu_load. destruct (rs_ptr s) as [p|] eqn:Ep.
  - destruct (owned s p HI) as (x & c & Ex); [unfold refs, holds_ptr; rewrite Ep, decide_True by done; lia|].
    destruct (retain_spec _ p x c Ex) as (h & -> & Hh' & Hc). cbn [obind]. subst h.
    unfold rcu_deref. rewrite lookup_insert_eq. cbn [obind]. eexists _, _. split; [done|]. eapply rcu_inv_change; [exact HI|..]; cbn [rs_heap rs_readers].
    + apply keeps_counts. intros q y c' Eq. destruct (decide (q = p)) as [->|].
      * rewrite lookup_insert_eq. exists (S c). congruence.
      * rewrite lookup_insert_ne by done. eauto.
    + intros q. rewrite Hc, (ri_counts s HI). set (r' := mkRcuReader _ _ _ _ _ _).
      pose proof (owners_insert s (<[p := (x, S c)]> (rs_heap s)) _ i r r' q E Ep) as Hi. unfold reader_refs in Hi at 1. rewrite Hh in Hi.
      assert (reader_refs q r' = if decide (q = p) then 1%nat else 0%nat) as Hr'.
      { unfold reader_refs, holds_ptr. subst r'. cbn. repeat case_decide; congruence. }
      rewrite Hr' in Hi. lia.
    + intros q y c' [[<- [= <- <-]]|[_ Eq]]%lookup_insert_Some; [left; lia|by right].
    + intros r0 Hin. apply (insert_readers _ _ _ _ (ri_readers s HI)) in Hin as [Hin| ->]; [by left|]. right.
      unfold rcu_reader_inv. cbn [rd_hold rd_obj rd_done rd_from rd_state rcu_uses]. split; [done|]. exists (S c). apply lookup_insert_eq.
  - eexists _, _. split; [done|]. eapply rcu_inv_change; [exact HI|..]; cbn [rs_heap rs_readers].
    + intros q x H _. done.
    + intros q. rewrite (ri_counts s HI). set (r' := mkRcuReader _ _ _ _ _ _).
      pose proof (owners_insert s (rs_heap s) _ i r r' q E Ep) as Hi. unfold reader_refs in Hi at 1. rewrite Hh in Hi.
      change (reader_refs q r') with 0%nat in Hi. lia.
    + by right.
    + intros r0 Hin. apply (insert_readers _ _ _ _ (ri_readers s HI)) in Hin as [Hin| ->]; [by left|]. right. done.
Qed.

Lemma release_opt_ok s p ptr readers :
  rcu_inv s -> (forall h q, refs s q = (refs (mkRcuSystem h ptr readers) q + holds_ptr q p)%nat) ->
  (forall r, r ∈ readers -> rcu_reader_inv (rs_heap s) r) ->
  exists h, release_opt (rs_heap s) p = Ret h /\ rcu_inv (mkRcuSystem h ptr readers).
Proof.
  intros HI Hrefs Hr. destruct p as [p|]; cbn [release_opt].
  - destruct (release_spec (rs_heap s) p) as (h & E & Hc & Hk & Hl).
    { rewrite (ri_counts s HI), (Hrefs ∅). unfold holds_ptr. rewrite decide_True by done. lia. }
    exists h. split; [done|]. eapply rcu_inv_change; [exact HI|exact Hk| |exact Hl|auto]. cbn [rs_heap].
    intros q. specialize (Hc q). rewrite (ri_counts s HI), (Hrefs h) in Hc. unfold holds_ptr in Hc.
    repeat case_decide; simplify_eq; lia.
  - exists (rs_heap s). split; [done|]. eapply rcu_inv_change; [exact HI|by intros ? ? ? ?| |by right|auto]. cbn [rs_heap].
    intros q. rewrite (ri_counts s HI), (Hrefs (rs_heap s)). unfold holds_ptr. rewrite decide_False by done. lia.
Qed.

Lemma rcu_done_ok s i r p :
  rcu_inv s -> rs_readers s !! i = Some r -> rd_hold r = Some p ->
  exists h r', rcu_done s r p = Ret (h, r') /\ rcu_inv (mkRcuSystem h (rs_ptr s) (<[i := r']> (rs_readers s))).
Proof.
  intros HI E Hh. unfold rcu_done. set (r' := mkRcuReader None _ _ _ _ _).
  destruct (release_opt_ok s p (rs_ptr s) (<[i := r']> (rs_readers s)) HI) as (h & -> & H).
  - intros h q. pose proof (owners_insert s h _ i r r' q E eq_refl) as Hi. change (reader_refs q r') with 0%nat in Hi.
    unfold reader_refs in Hi. rewrite Hh in Hi. lia.
  - intros r0 Hin. apply (insert_readers _ _ _ _ (ri_readers s HI)) in Hin as [Hin| ->]; done.
  - eexists _, _. split; [done|]. done.
Qed.

Lemma rcu_use_ok s i r p x todo :
  rcu_inv s -> rs_readers s !! i = Some r -> rd_hold r = Some p ->
  rcu_use s r p x todo = (let! st := use (rd_obj r) (rd_state r) x in
    Ret (mkRcuReader (rd_hold r) st todo (rd_from r) (rd_done r ++ [x]) (rd_obj r))) /\
  forall r', rcu_use s r p x todo = Ret r' -> rcu_inv (mkRcuSystem (rs_heap s) (rs_ptr s) (<[i := r']> (rs_readers s))).
Proof.
  intros HI E Hh. pose proof (Forall_lookup_1 _ _ _ _ (ri_readers s HI) E) as Hri. unfold rcu_reader_inv in Hri. rewrite Hh in Hri.
  destruct Hri as [Hu Hx].
  assert (Heq : rcu_use s r p x todo = (let! st := use (rd_obj r) (rd_state r) x in
    Ret (mkRcuReader (rd_hold r) st todo (rd_from r) (rd_done r ++ [x]) (rd_obj r)))).
  { unfold rcu_use, rcu_deref. destruct p as [p|], (rd_obj r) as [o|]; try done. destruct Hx as [c ->]. done. }
  split; [exact Heq|]. intros r'. rewrite Heq. destruct (use (rd_obj r) (rd_state r) x) as [st| | |] eqn:Eu; try done.
  cbn [obind]. intros [= <-]. eapply rcu_inv_change; [exact HI|..]; cbn [rs_heap rs_readers].
  - by intros ? ? ? ?.
  - intros q. rewrite (ri_counts s HI). set (r' := mkRcuReader _ _ _ _ _ _).
    pose proof (owners_insert s (rs_heap s) _ i r r' q E eq_refl) as Hi. change (reader_refs q r') with (reader_refs q r) in Hi. lia.
  - by right.
  - intros r0 Hin. apply (insert_readers _ _ _ _ (ri_readers s HI)) in Hin as [Hin| ->]; [by left|]. right.
    unfold rcu_reader_inv. cbn [rd_hold rd_obj rd_done rd_from rd_state]. rewrite Hh. split; [|done].
    rewrite rcu_uses_snoc, Hu. cbn [obind]. done.
Qed.

Lemma rcu_store_ok s x : rcu_inv s -> exists s', rcu_store s x = Ret s' /\ rcu_inv s'.
Proof.
  intros HI. unfold rcu_store, make_shared. set (p := fresh (dom (rs_heap s) : gset nat)).
  assert (Hp : rs_heap s !! p = None) by (apply not_elem_of_dom, is_fresh). set (h1 := <[p := (x, 1%nat)]> (rs_heap s)).
  assert (Hc1 : forall q, count_of h1 q = (refs s q + holds_ptr q (Some p))%nat).
  { intros q. rewrite <- (ri_counts s HI). unfold count_of, h1, holds_ptr. destruct (decide (q = p)) as [->|Hq].
    - rewrite lookup_insert_eq, Hp, decide_True by done. lia.
    - rewrite lookup_insert_ne, decide_False by congruence. lia. }
  assert (Hk1 : forall q y c, rs_heap s !! q = Some (y, c) -> h1 !! q = Some (y, c)).
  { intros q y c E. unfold h1. rewrite lookup_insert_ne; [done|]. intros <-. congruence. }
  assert (Hl1 : forall q y c, h1 !! q = Some (y, c) -> (0 < c)%nat \/ rs_heap s !! q = Some (y, c)).
  { intros q y c [[<- [= <- <-]]|[_ E]]%lookup_insert_Some; [left; lia|by right]. }
  assert (Hr1 : forall q, refs s q = (holds_ptr q (rs_ptr s) + sum_list_with (reader_refs q) (rs_readers s))%nat) by done.
  destruct (rs_ptr s) as [old|] eqn:Eold; cbn [release_opt obind].
  - destruct (release_spec h1 old) as (h & -> & Hc & Hk & Hl).
    { rewrite Hc1, Hr1. unfold holds_ptr. rewrite decide_True by done. lia. }
    eexists. split; [done|]. eapply rcu_inv_change; [exact HI|..]; cbn [rs_heap rs_readers].
    + intros q y [c E] Hlt. apply Hk; [eauto|done].
    + intros q. specialize (Hc q). rewrite Hc1, Hr1 in Hc. unfold refs. cbn [rs_ptr rs_readers]. unfold holds_ptr in *.
      repeat case_decide; simplify_eq; lia.
    + intros q y c E. destruct (Hl q y c E); [by left|by apply Hl1].
    + intros r Hin. left. pose proof (ri_readers s HI) as Hrd. rewrite Forall_forall in Hrd. auto.
  - eexists. split; [done|]. eapply rcu_inv_change; [exact HI|..]; cbn [rs_heap rs_readers]; try done.
    + intros q y [c E] _. eauto.
    + intros q. rewrite Hc1, Hr1. unfold refs. cbn [rs_ptr rs_readers]. unfold holds_ptr. repeat case_decide; simplify_eq; lia.
    + intros r Hin. left. pose proof (ri_readers s HI) as Hrd. rewrite Forall_forall in Hrd. auto.
Qed.

Lemma rcu_inv_start states : rcu_inv (rcu_start states).
Proof.
  split; cbn.
  - intros p. unfold count_of, refs. cbn. rewrite lookup_empty. induction states as [|st l IH]; done.
  - intros p x c. by rewrite lookup_empty.
  - apply Forall_fmap, Forall_true. done.
Qed.

Lemma rcu_inv_step s s' : rcu_step s s' -> rcu_inv s -> rcu_inv s'.
Proof.
  intros [i l E|x E] HI.
  - unfold rcu_reader_step, at_ in E. destruct (rs_readers s !! i) as [r|] eqn:Er; [|done]. cbn [obind] in E.
    destruct (rd_hold r) as [p|] eqn:Eh; [destruct (rd_todo r) as [|x todo]|].
    + destruct (rcu_done_ok s i r p HI Er Eh) as (h & r' & Ed & H). rewrite Ed in E. by injection E as <-.
    + destruct (rcu_use_ok s i r p x todo HI Er Eh) as [_ H]. destruct (rcu_use s r p x todo) as [r'| | |]; try done.
      injection E as <-. by apply H.
    + destruct (rcu_load_ok s i r l HI Er Eh) as (h & r' & El & H). rewrite El in E. by injection E as <-.
  - destruct (rcu_store_ok s x HI) as (s1 & Es & H). rewrite Es in E. by injection E as <-.
Qed.

Lemma rcu_reachable states s : rtc rcu_step (rcu_start states) s -> rcu_inv s.
Proof.
  intros Hr. pose proof (rcu_inv_start states) as HI. revert HI.
  induction Hr as [|? ? ? Hs _ IH]; [done|]. intros HI. apply IH. by eapply rcu_inv_step.
Qed.

Lemma reader_uses states s i r :
  rtc rcu_step (rcu_start states) s -> rs_readers s !! i = Some r -> rd_hold r <> None ->
  rcu_uses (rd_obj r) (rd_done r) (rd_from r) = Ret (rd_state r).
Proof.
  intros Hr E Hh. pose proof (Forall_lookup_1 _ _ _ _ (ri_readers s (rcu_reachable states s Hr)) E) as Hri.
  unfold rcu_reader_inv in Hri. destruct (rd_hold r); [apply Hri|done].
Qed.

(** Every access of the shared pointer is defined; the one of a frame under way goes to
    the object that the reader loaded. *)
Definition accesses_live (s : RcuSystem) : Prop :=
  (forall x, exists s', rcu_store s x = Ret s') /\
  forall i r, rs_readers s !! i = Some r ->
    match rd_hold r, rd_todo r with
    | None, _ => forall l, exists h r', rcu_load s r l = Ret (h, r')
    | Some p, x :: todo => rcu_use s r p x todo = let! st := use (rd_obj r) (rd_state r) x in
        Ret (mkRcuReader (rd_hold r) st todo (rd_from r) (rd_done r ++ [x]) (rd_obj r))
    | Some p, [] => exists h r', rcu_done s r p = Ret (h, r')
    end.

(** C13: however loads, uses, releases and stores interleave, no object is used after it
    is freed and none is leaked: every access is defined, the objects in memory are
    those that the pointer or a reader owns, with as many owners as counted; and a
    reader whose frame is under way has done it so far with the one object it loaded,
    whatever was stored since. *)
Theorem rcu_safe states s :
  rtc rcu_step (rcu_start states) s ->
  accesses_live s /\
  (forall p, count_of (rs_heap s) p = refs s p /\ (is_Some (rs_heap s !! p) <-> (0 < refs s p)%nat)) /\
  (forall i r, rs_readers s !! i = Some r -> rd_hold r <> None ->
     rcu_uses (rd_obj r) (rd_done r) (rd_from r) = Ret (rd_state r)).
Proof.
  intros Hr. pose proof (rcu_reachable states s Hr) as HI. split; [|split].
  - split; [intros x; destruct (rcu_store_ok s x HI) as (s' & E & _); eauto|]. intros i r E.
    destruct (rd_hold r) as [p|] eqn:Eh; [destruct (rd_todo r) as [|x todo]|].
    + destruct (rcu_done_ok s i r p HI E Eh) as (h & r' & Ed & _). eauto.
    + rewrite <- Eh. by apply (rcu_use_ok s i r p x todo HI E Eh).
    + intros l. destruct (rcu_load_ok s i r l HI E Eh) as (h & r' & El & _). eauto.
  - intros p. split; [apply HI|]. rewrite <- (ri_counts s HI). unfold count_of. split.
    + intros [[x c] E]. rewrite E. by eapply ri_live.
    + destruct (rs_heap s !! p) as [[x c]|]; [eauto|lia].
  - intros i r E Hh. by eapply reader_uses.
Qed.

End Rcu.

(** ** The load balancer *)

Section LbRcu.
Context `{BuildParams} `{Dpdk}.

(** What [LbNode::Process] does with one packet of its frame, read at [now_ms]. *)
Definition lb_use (pool : option BackendPool) (st : Lcore * list Frame) (x : Z * mbuf_ptr) : outcome (Lcore * list Frame) :=
  let '(w, nexts) := st in
  let '(now_ms, m) := x in
  match pool with
  | None => lb_drop w nexts m
  | Some pool => if ActiveCount pool =? 0 then lb_drop w nexts m else lb_packet pool now_ms w nexts m
  end.

(** [stats_.active_flows.store(nat_.Size())], which a frame without a pool skips. *)
Definition lb_last (pool : option BackendPool) (w : Lcore) : Lcore :=
  match pool with
  | None => w
  | Some pool => if ActiveCount pool =? 0 then w else count_stat w (fun s => store_active s (Size (nat_ (w_lb w))))
  end.

Lemma rcu_uses_each (body : Lcore -> list Frame -> mbuf_ptr -> outcome (Lcore * list Frame)) pool now items :
  (forall w nexts m, lb_use pool (w, nexts) (now, m) = body w nexts m) ->
  forall w nexts, rcu_uses lb_use pool (pair now <$> items) (w, nexts) = each body items w nexts.
Proof.
  intros Hb. induction items as [|m items IH]; intros w nexts; [done|]. rewrite fmap_cons. cbn [rcu_uses each]. rewrite Hb.
  destruct (body w nexts m) as [[w' nexts']| | |]; cbn [obind]; [apply IH|done..].
Qed.

(** A frame that was processed packet by packet, while pools were stored and other
    lcores worked, left what [Process] leaves when it runs at once with the pool that
    was loaded. *)
Theorem Lb_Process_atomic states s i r f w nexts items now :
  rtc (rcu_step lb_use) (rcu_start states) s -> rs_readers s !! i = Some r -> rd_hold r <> None ->
  rd_from r = (w, nexts) -> rd_done r = pair now <$> items -> frame_items f = Ret items ->
  w_pool w = mkAtomicRcu (rd_obj r) -> NowMs (rte_get_timer_cycles (w_dev w)) rte_get_timer_hz = Ret now ->
  exists w' nexts', rd_state r = (w', nexts') /\ Lb_Process w f nexts = Ret (lb_last (rd_obj r) w', f, nexts').
Proof.
  intros Hr E Hh Ef Ed Efr Hp Hnow. pose proof (reader_uses lb_use states s i r Hr E Hh) as Hu. rewrite Ef, Ed in Hu.
  destruct (rd_state r) as [w' nexts'] eqn:Est. exists w', nexts'. split; [done|].
  unfold Lb_Process. rewrite Efr, Hp. cbn [obind Load ptr_]. destruct (rd_obj r) as [pool|]; cbn [lb_last].
  - destruct (ActiveCount pool =? 0) eqn:Ea.
    + rewrite (rcu_uses_each lb_drop) in Hu by (intros; cbn; now rewrite Ea). by rewrite Hu.
    + rewrite Hnow. cbn [obind]. rewrite (rcu_uses_each (lb_packet pool now)) in Hu by (intros; cbn; now rewrite Ea). by rewrite Hu.
  - rewrite (rcu_uses_each lb_drop) in Hu by done. by rewrite Hu.
Qed.

End LbRcu.

(** ** A run *)

Module RcuSamples.

Definition count_use (o : option Z) (l : list Z) (x : Z) : outcome (list Z) := Ret (l ++ [default 0 o + x]).

Definition seq_steps (l : list (nat + Z)) (s : RcuSystem) : outcome RcuSystem :=
  foldl (fun s ev => let! s := s in match ev with inl i => rcu_reader_step count_use i [10; 20] s | inr x => rcu_store s x end) (Ret s) l.

Lemma seq_steps_rtc l : forall s s', seq_steps l s = Ret s' -> rtc (rcu_step count_use) s s'.
Proof.
  induction l as [|ev l IH] using rev_ind; intros s s'; unfold seq_steps; [by intros [= <-]|].
  rewrite foldl_app. fold (seq_steps l s). simpl. destruct (seq_steps l s) as [s1| | |] eqn:E; try done. cbn [obind].
  intros Hs. eapply rtc_r; [by apply IH|]. destruct ev; by econstructor.
Qed.

(** Reader 0 loads object 1 and uses it once; objects 2 and 3 are stored; reader 1 loads
    object 3. Object 2 is gone, object 1 is still there for reader 0. *)
Definition mid_frame : outcome RcuSystem :=
  seq_steps [inr 1; inl 0%nat; inl 0%nat; inr 2; inr 3; inl 1%nat; inl 0%nat] (rcu_start [[]; []]).

Definition mid_state : RcuSystem := match mid_frame with Ret s => s | _ => rcu_start [] end.

Lemma rcu_safe_witness :
  (map_to_list (rs_heap mid_state)).*2 ≡ₚ [(1, 1%nat); (3, 2%nat)] /\
  rd_state <$> rs_readers mid_state = [[11; 21]; []] /\
  accesses_live count_use mid_state /\
  (forall p, count_of (rs_heap mid_state) p = refs mid_state p /\ (is_Some (rs_heap mid_state !! p) <-> (0 < refs mid_state p)%nat)) /\
  (forall i r, rs_readers mid_state !! i = Some r -> rd_hold r <> None ->
     rcu_uses count_use (rd_obj r) (rd_done r) (rd_from r) = Ret (rd_state r)).
Proof.
  split; [vm_compute; first [reflexivity|apply perm_swap]|]. split; [vm_compute; reflexivity|].
  apply (rcu_safe count_use [[]; []] mid_state). 
  apply (seq_steps_rtc [inr 1; inl 0%nat; inl 0%nat; inr 2; inr 3; inl 1%nat; inl 0%nat]). vm_compute. reflexivity.
Defined.

End RcuSamples.
