(* ===== verification/SeqLock.v ===== *)
(** * Publishing and reading at the same time ([ipc/control_view.hpp])

    [PublishControl] and [ReadControl] run in different processes on the same
    memory. Here every load and every store of them is a step of its own: the
    assignment [dst[i] = src[i]] of a [ControlBackend] is nine of them (the address,
    the port, six bytes of MAC, the flag), and writer and reader interleave in any
    order. Memory is sequentially consistent; [SeqLockWeak] has the same programs with
    their memory orders and fences. The plain accesses to [count] and [backends] race in
    the letter of the C++ standard.

    [st_stores], [st_snaps] and the numbers a reader carries are ghosts: no step
    depends on them. [st_snaps] lists what publishers were given, the first entry
    being the contents at the start. *)

From S2P Require Import Prelude FlowKey NetTypes BackendPool Ipc Control ControlSpec.

(** ** Fields *)

Definition kFields : nat := 9.

Definition field (f : nat) (b : ControlBackend) : Z :=
  match f with
  | 0%nat => cb_ip b
  | 1%nat => cb_port b
  | 8%nat => cb_enabled b
  | f => default 0 (cb_mac b !! (f - 2)%nat)
  end.

(** [y] with field [f] of [x]. *)
Definition copy_field (f : nat) (x y : ControlBackend) : ControlBackend :=
  match f with
  | 0%nat => mkControlBackend (cb_ip x) (cb_port y) (cb_mac y) (cb_enabled y)
  | 1%nat => mkControlBackend (cb_ip y) (cb_port x) (cb_mac y) (cb_enabled y)
  | 8%nat => mkControlBackend (cb_ip y) (cb_port y) (cb_mac y) (cb_enabled x)
  | f => mkControlBackend (cb_ip y) (cb_port y)
           (<[(f - 2)%nat := default 0 (cb_mac x !! (f - 2)%nat)]> (cb_mac y)) (cb_enabled y)
  end.

(** The copy loop at position [pos]: field [pos mod 9] of entry [pos / 9]. *)
Definition copy_at (pos : nat) (src dst : list ControlBackend) : list ControlBackend :=
  let i := (pos / kFields)%nat in
  match src !! i, dst !! i with
  | Some x, Some y => <[i := copy_field (pos mod kFields) x y]> dst
  | _, _ => dst
  end.

(** ** The two programs *)

(** Where the writer is in [PublishControl(view, src, count)]. *)
Inductive Writer :=
  | WIdle
  | WLoaded (src : list ControlBackend) (start : Z)
  | WCount (src : list ControlBackend) (start : Z)
  | WCopy (src : list ControlBackend) (start : Z) (pos : nat).

(** Where the reader is in [ReadControl(view, out, out_count)]; [at0] is the number
    of stores to [seq] before its first load, [at1] before its last. *)
Inductive Reader :=
  | RLoad (out : list ControlBackend)
  | RCount (out : list ControlBackend) (seq_before : Z) (at0 : nat)
  | RCopy (out : list ControlBackend) (seq_before : Z) (count : Z) (pos : nat) (at0 : nat)
  | RCheck (out : list ControlBackend) (seq_before : Z) (count : Z) (at0 : nat)
  | RDone (out : list ControlBackend) (seq_before : Z) (out_count : Z) (at0 at1 : nat).

Record Shared := mkShared {
  st_view : ControlView;
  st_writer : Writer;
  st_reader : Reader;
  st_stores : nat;
  st_snaps : list (list ControlBackend);
}.

Definition src_count (src : list ControlBackend) : Z :=
  Z.min (u32 (Z.of_nat (length src))) (Z.of_nat kMaxBackends).

(** The next access of a publish that has begun. *)
Definition wstep (st : Shared) : Shared :=
  let '(mkShared view w r stores snaps) := st in
  match w with
  | WIdle => st
  | WLoaded src start => mkShared (set_seq view (u32 (start + 1))) (WCount src start) r (S stores) snaps
  | WCount src start => mkShared (set_count view (src_count src)) (WCopy src start 0) r stores snaps
  | WCopy src start pos =>
      if decide (pos < kFields * Z.to_nat (cv_count view))%nat then
        mkShared (set_backends view (copy_at pos src (cv_backends view))) (WCopy src start (S pos)) r stores snaps
      else
        mkShared (set_seq view (u32 (start + 2))) WIdle r (S stores)
          (snaps ++ [take (Z.to_nat (src_count src)) src])
  end.

(** The next access of the reader. *)
Definition rstep (st : Shared) : Shared :=
  let '(mkShared view w r stores snaps) := st in
  let go r := mkShared view w r stores snaps in
  match r with
  | RLoad out =>
      if negb (Z.land (cv_seq view) 1 =? 0) then go (RLoad out) else go (RCount out (cv_seq view) stores)
  | RCount out s at0 => go (RCopy out s (Z.min (cv_count view) (Z.of_nat kMaxBackends)) 0 at0)
  | RCopy out s count pos at0 =>
      if decide (pos < kFields * Z.to_nat count)%nat then
        go (RCopy (copy_at pos (cv_backends view) out) s count (S pos) at0)
      else go (RCheck out s count at0)
  | RCheck out s count at0 =>
      if cv_seq view =? s then go (RDone out s count at0 stores) else go (RLoad out)
  | RDone _ _ _ _ _ => st
  end.

Definition entry_ok (b : ControlBackend) : Prop := length (cb_mac b) = kMacBytes.

(** One step of either process; a publish begins with any entries, a read with the
    buffer the last one left. *)
Inductive step : Shared -> Shared -> Prop :=
  | step_begin view r stores snaps src :
      Forall entry_ok src -> Z.of_nat (length src) < 2 ^ 32 ->
      step (mkShared view WIdle r stores snaps) (mkShared view (WLoaded src (cv_seq view)) r stores snaps)
  | step_writer st : st_writer st <> WIdle -> step st (wstep st)
  | step_reader st : step st (rstep st)
  | step_again view w out s c at0 at1 stores snaps :
      step (mkShared view w (RDone out s c at0 at1) stores snaps) (mkShared view w (RLoad out) stores snaps).

(** A view at rest and a reader about to start. *)
Definition seq_start (view : ControlView) (out : list ControlBackend) : Shared :=
  mkShared view WIdle (RLoad out) 0 [take (Z.to_nat (cv_count view)) (cv_backends view)].

(** ** Copying by fields *)

Lemma field_copy f g x y :
  entry_ok y -> (f < kFields)%nat -> (g < kFields)%nat ->
  field g (copy_field f x y) = if decide (g = f) then field f x else field g y.
Proof.
  unfold entry_ok, kFields, kMacBytes. intros Hy Hf Hg.
  destruct (cb_mac y) as [|m0 [|m1 [|m2 [|m3 [|m4 [|m5 [|]]]]]]] eqn:E; try done.
  do 9 (destruct f as [|f]; [do 9 (destruct g as [|g]; [simpl; rewrite ?E; done|]); lia|]). lia.
Qed.

Lemma copy_field_ok f x y : entry_ok y -> entry_ok (copy_field f x y).
Proof.
  unfold entry_ok. intros Hy. unfold copy_field. repeat (destruct f as [|f]; simpl; rewrite ?length_insert; try done).
Qed.

Lemma fields_eq x y : entry_ok x -> entry_ok y -> (forall f, (f < kFields)%nat -> field f x = field f y) -> x = y.
Proof.
  unfold entry_ok, kFields, kMacBytes. destruct x as [i1 p1 mx e1], y as [i2 p2 my e2]. simpl. intros Hx Hy Hf.
  destruct mx as [|a0 [|a1 [|a2 [|a3 [|a4 [|a5 [|]]]]]]]; try done.
  destruct my as [|b0 [|b1 [|b2 [|b3 [|b4 [|b5 [|]]]]]]]; try done.
  pose proof (Hf 0%nat ltac:(lia)). pose proof (Hf 1%nat ltac:(lia)). pose proof (Hf 2%nat ltac:(lia)).
  pose proof (Hf 3%nat ltac:(lia)). pose proof (Hf 4%nat ltac:(lia)). pose proof (Hf 5%nat ltac:(lia)).
  pose proof (Hf 6%nat ltac:(lia)). pose proof (Hf 7%nat ltac:(lia)). pose proof (Hf 8%nat ltac:(lia)).
  simpl in *. congruence.
Qed.

(** The first [pos] fields of [dst] are those of [src]. *)
Definition agree (pos : nat) (src dst : list ControlBackend) : Prop :=
  forall i f x y, (f < kFields)%nat -> (kFields * i + f < pos)%nat -> src !! i = Some x -> dst !! i = Some y ->
    field f x = field f y.

Lemma agree_0 src dst : agree 0 src dst.
Proof. intros i f x y _ H. lia. Qed.

Lemma copy_at_length pos src dst : length (copy_at pos src dst) = length dst.
Proof. unfold copy_at. set (i := (pos / kFields)%nat). destruct (src !! i), (dst !! i); rewrite ?length_insert; done. Qed.

Lemma copy_at_ok pos src dst : Forall entry_ok dst -> Forall entry_ok (copy_at pos src dst).
Proof.
  intros Hd. unfold copy_at. set (i := (pos / kFields)%nat). destruct (src !! i) as [x|]; [|done].
  destruct (dst !! i) as [y|] eqn:E; [|done].
  apply Forall_insert; [done|]. apply copy_field_ok. by eapply Forall_lookup_1.
Qed.

Lemma copy_at_agree pos src dst :
  Forall entry_ok dst -> agree pos src dst -> agree (S pos) src (copy_at pos src dst).
Proof.
  intros Hd Ha i f x y Hf Hlt Hx Hy. pose proof (Nat.div_mod_eq pos kFields) as Hdm.
  pose proof (Nat.mod_upper_bound pos kFields ltac:(done)) as Hmod. unfold copy_at in Hy.
  set (j := (pos / kFields)%nat) in *. set (g := (pos mod kFields)%nat) in *.
  destruct (decide (i = j)) as [->|Hij].
  - rewrite Hx in Hy. destruct (dst !! j) as [z|] eqn:Ez; [|congruence].
    rewrite list_lookup_insert_eq in Hy by (now apply lookup_lt_Some in Ez). injection Hy as <-.
    rewrite field_copy by (done || by eapply Forall_lookup_1).
    destruct (decide (f = g)) as [->|]; [done|]. apply (Ha j f x z); try done. lia.
  - assert (Hy' : dst !! i = Some y).
    { destruct (src !! j), (dst !! j); try done. now rewrite list_lookup_insert_ne in Hy by done. }
    apply (Ha i f x y); try done. unfold kFields in *. nia.
Qed.

(** Copied up to entry [n]: the first [n] entries are the same. *)
Lemma agree_take n src dst :
  Forall entry_ok src -> Forall entry_ok dst -> (n <= length src)%nat -> (n <= length dst)%nat ->
  agree (kFields * n) src dst -> take n dst = take n src.
Proof.
  intros Hs Hd Hls Hld Ha. apply list_eq_same_length with n; rewrite ?length_take; try lia.
  intros i x y Hi Hx Hy. rewrite lookup_take_lt in Hx, Hy by done. symmetry.
  apply fields_eq; [exact (Forall_lookup_1 _ _ _ _ Hs Hy)|exact (Forall_lookup_1 _ _ _ _ Hd Hx)|]. intros f Hf. apply (Ha i f y x); try done. unfold kFields in *. nia.
Qed.

(** ** The invariant *)

Section Inv.
Context (s0 : Z) (s0_even : Z.land s0 1 = 0).

Definition src_ok (src : list ControlBackend) : Prop :=
  Forall entry_ok src /\ Z.of_nat (length src) < 2 ^ 32.

(** No publish is under way: memory holds the last snapshot. *)
Definition stable (view : ControlView) (stores : nat) (snaps : list (list ControlBackend)) : Prop :=
  S stores = (2 * length snaps - 1)%nat /\ 0 <= cv_count view <= Z.of_nat kMaxBackends /\
  last snaps = Some (take (Z.to_nat (cv_count view)) (cv_backends view)).

Definition under_way (start : Z) (stores : nat) (snaps : list (list ControlBackend)) : Prop :=
  stores = (2 * length snaps - 1)%nat /\ start = u32 (s0 + Z.of_nat stores - 1).

Definition writer_inv (view : ControlView) (w : Writer) (stores : nat) (snaps : list (list ControlBackend)) : Prop :=
  match w with
  | WIdle => stable view stores snaps
  | WLoaded src start => src_ok src /\ start = cv_seq view /\ stable view stores snaps
  | WCount src start => src_ok src /\ under_way start stores snaps
  | WCopy src start pos =>
      src_ok src /\ under_way start stores snaps /\ cv_count view = src_count src /\
      (pos <= kFields * Z.to_nat (src_count src))%nat /\ agree pos src (cv_backends view)
  end.

(** A read that began when [at0] (even) stores had been made. *)
Definition began (s : Z) (at0 stores : nat) : Prop :=
  s = u32 (s0 + Z.of_nat at0) /\ Nat.Even at0 /\ (at0 <= stores)%nat.

Definition count_ok (c : Z) : Prop := 0 <= c <= Z.of_nat kMaxBackends.

Definition reader_inv (view : ControlView) (r : Reader) (stores : nat) (snaps : list (list ControlBackend)) : Prop :=
  match r with
  | RLoad out => True
  | RCount out s at0 => began s at0 stores
  | RCopy out s c pos at0 =>
      began s at0 stores /\ count_ok c /\ (pos <= kFields * Z.to_nat c)%nat /\
      (at0 = stores -> c = cv_count view /\ agree pos (cv_backends view) out)
  | RCheck out s c at0 =>
      began s at0 stores /\ count_ok c /\
      (at0 = stores -> c = cv_count view /\ agree (kFields * Z.to_nat c) (cv_backends view) out)
  | RDone out s c at0 at1 =>
      began s at0 at1 /\ (at1 <= stores)%nat /\ s = u32 (s0 + Z.of_nat at1) /\ count_ok c /\
      (at0 = at1 -> snaps !! (at0 / 2)%nat = Some (take (Z.to_nat c) out))
  end.

Definition buffer (r : Reader) : list ControlBackend :=
  match r with RLoad out | RCount out _ _ | RCopy out _ _ _ _ | RCheck out _ _ _ | RDone out _ _ _ _ => out end.

Definition buf_ok (l : list ControlBackend) : Prop := length l = kMaxBackends /\ Forall entry_ok l.

Record Inv (st : Shared) : Prop := {
  i_mem : buf_ok (cv_backends (st_view st));
  i_cnt : 0 <= cv_count (st_view st);
  i_seq : cv_seq (st_view st) = u32 (s0 + Z.of_nat (st_stores st));
  i_snaps : st_snaps st <> [];
  i_writer : writer_inv (st_view st) (st_writer st) (st_stores st) (st_snaps st);
  i_buf : buf_ok (buffer (st_reader st));
  i_reader : reader_inv (st_view st) (st_reader st) (st_stores st) (st_snaps st);
}.

Lemma u32_even_add n : Z.land (u32 (s0 + Z.of_nat n)) 1 = 0 -> Nat.Even n.
Proof using s0_even.
  intros H. change 1 with (Z.ones 1) in H, s0_even. rewrite Z.land_ones in H, s0_even by lia.
  change (2 ^ 1) with 2 in *. unfold u32 in H. rewrite Z.mod_mod_divide in H by (exists (2 ^ 31); done).
  exists (Z.to_nat (Z.of_nat n / 2)). pose proof (Z.div_mod s0 2 ltac:(lia)).
  pose proof (Z.div_mod (s0 + Z.of_nat n) 2 ltac:(lia)). pose proof (Z.div_mod (Z.of_nat n) 2 ltac:(lia)).
  pose proof (Z.mod_pos_bound (Z.of_nat n) 2 ltac:(lia)). lia.
Qed.

(** A store to [seq] keeps what is known of the reader. *)
Lemma reader_store view view' r stores snaps more :
  reader_inv view r stores snaps -> reader_inv view' r (S stores) (snaps ++ more).
Proof.
  unfold reader_inv, began. destruct r; intros H; try done; destruct_and?; split_and!; try done; try lia.
  intros ->. apply lookup_app_l_Some. eauto.
Qed.

(** While a publish is under way the reader knows nothing of the memory. *)
Lemma reader_odd view view' r stores snaps :
  ~ Nat.Even stores -> reader_inv view r stores snaps -> reader_inv view' r stores snaps.
Proof.
  unfold reader_inv, began. destruct r; intros Ho H; try done; destruct_and?; split_and!; try done;
    intros ->; done.
Qed.

Lemma under_way_odd start stores snaps : snaps <> [] -> under_way start stores snaps -> ~ Nat.Even stores.
Proof. intros Hn [-> _] [k Hk]. destruct snaps; [done|]. simpl in Hk. lia. Qed.

Lemma src_count_small src : src_ok src -> src_count src = Z.of_nat (Nat.min (length src) kMaxBackends).
Proof. intros [_ H]. unfold src_count. rewrite u32_small by lia. lia. Qed.

(** The end of a copy. *)
Lemma copied src view n :
  src_ok src -> buf_ok (cv_backends view) -> agree n src (cv_backends view) ->
  n = (kFields * Z.to_nat (src_count src))%nat ->
  take (Z.to_nat (src_count src)) (cv_backends view) = take (Z.to_nat (src_count src)) src.
Proof.
  intros Hs [Hl Hb] Ha ->. rewrite (src_count_small src Hs) in *. rewrite Nat2Z.id in *.
  apply agree_take; try done; [apply Hs|lia..].
Qed.

Lemma even_stable view w stores snaps :
  snaps <> [] -> writer_inv view w stores snaps -> Nat.Even stores -> stable view stores snaps.
Proof.
  intros Hn Hw He. destruct w as [|src start|src start|src start pos]; [done|apply Hw|..].
  - destruct Hw as (_ & Hu). by eapply under_way_odd in Hu.
  - destruct Hw as (_ & Hu & _). by eapply under_way_odd in Hu.
Qed.

Ltac fields := cbn [st_view st_writer st_reader st_stores st_snaps cv_seq cv_backends cv_count set_seq set_count set_backends
  buffer writer_inv reader_inv] in *.

Lemma Inv_wstep st : Inv st -> st_writer st <> WIdle -> Inv (wstep st).
Proof.
  destruct st as [view w r stores snaps]. intros [Hm Hcn Hs Hn Hw Hb Hr] Hne. fields.
  unfold wstep. destruct w as [|src start|src start|src start pos]; [done|..]; fields.
  - destruct Hw as (Hsrc & -> & Hst & _). split; fields; try done.
    + rewrite Hs. unfold u32. rewrite Zplus_mod_idemp_l. f_equal. lia.
    + split; [done|]. split; [lia|]. rewrite Hs. f_equal. lia.
    + rewrite <- (app_nil_r snaps). by eapply reader_store.
  - destruct Hw as (Hsrc & Hu). split; fields; try done.
    + rewrite src_count_small by done. lia.
    + split; [done|]. split; [done|]. split; [done|]. split; [lia|apply agree_0].
    + eapply reader_odd; [by eapply under_way_odd|done].
  - destruct Hw as (Hsrc & Hu & Hc & Hp & Ha). rewrite Hc. case_decide as Hlt.
    + split; fields; try done.
      * destruct Hm. split; [now rewrite copy_at_length|now apply copy_at_ok].
      * split; [done|]. split; [done|]. split; [done|]. split; [lia|]. apply copy_at_agree; [apply Hm|done].
      * eapply reader_odd; [by eapply under_way_odd|done].
    + assert (Hn1 : (1 <= length snaps)%nat) by (destruct snaps; [done|simpl; lia]).
      split; fields; try done.
      * destruct Hu as [Hst ->]. unfold u32. rewrite Zplus_mod_idemp_l. f_equal. lia.
      * apply app_ne_nil_l || (intros Hnil; apply app_eq_nil in Hnil as [? _]; done).
      * split; [rewrite length_app; simpl; destruct Hu; lia|]. fields.
        split; [rewrite Hc, src_count_small by done; lia|].
        rewrite last_snoc, Hc. f_equal. symmetry. eapply copied; try done. lia.
      * by eapply reader_store.
Qed.

Lemma Inv_rstep st : Inv st -> Inv (rstep st).
Proof using s0_even.
  destruct st as [view w r stores snaps]. intros [Hm Hcn Hs Hn Hw Hb Hr]. fields.
  unfold rstep. destruct r as [out|out s at0|out s c pos at0|out s c at0|out s c at0 at1]; fields.
  - destruct (Z.eqb_spec (Z.land (cv_seq view) 1) 0) as [He|]; [|split; done]. split; fields; try done.
    rewrite Hs in He. split; [done|]. split; [now apply u32_even_add|done].
  - split; fields; try done. split; [done|]. split; [unfold count_ok; lia|]. split; [lia|]. intros ->.
    split; [|apply agree_0]. destruct Hr as (_ & He & _). destruct (even_stable _ _ _ _ Hn Hw He) as (_ & ? & _). lia.
  - destruct Hr as (Hbg & Hc & Hp & Ha). case_decide as Hlt.
    + split; fields; try done.
      * destruct Hb. split; [now rewrite copy_at_length|now apply copy_at_ok].
      * split; [done|]. split; [done|]. split; [lia|]. intros Heq. destruct (Ha Heq) as [Hcc Hag].
        split; [done|]. apply copy_at_agree; [apply Hb|done].
    + split; fields; try done. split; [done|]. split; [done|]. intros Heq. destruct (Ha Heq) as [Hcc Hag].
      split; [done|]. replace (kFields * Z.to_nat c)%nat with pos by lia. done.
  - destruct Hr as (Hbg & Hc & Ha). destruct (Z.eqb_spec (cv_seq view) s) as [Heq|]; [|split; done].
    split; fields; try done. split; [done|]. split; [done|]. split; [congruence|]. split; [done|].
    intros Heq'. destruct (Ha Heq') as [-> Hag]. destruct Hbg as (_ & He & _). subst at0.
    destruct (even_stable _ _ _ _ Hn Hw He) as (Hst & Hcv & Hl). rewrite last_lookup in Hl.
    replace (pred (length snaps)) with (stores / 2)%nat in Hl.
    2: { destruct He as [k ->]. rewrite Nat.mul_comm, Nat.div_mul by lia. lia. }
    rewrite Hl. f_equal. destruct Hm, Hb. symmetry. apply agree_take; try done; lia.
  - split; done.
Qed.

Lemma Inv_step st st' : step st st' -> Inv st -> Inv st'.
Proof using s0_even.
  intros Hstep HI. destruct Hstep as [view r stores snaps src Hs Hl|st Hw|st|].
  - destruct HI as [Hm Hcn Hs' Hn Hw Hb Hr]. split; fields; try done.
  - now apply Inv_wstep.
  - now apply Inv_rstep.
  - destruct HI as [Hm Hcn Hs' Hn Hw Hb Hr]. split; fields; try done.
Qed.

End Inv.

Lemma rtc_transitivity (x y z : Shared) : rtc step x y -> rtc step y z -> rtc step x z.
Proof. intros H1 H2. now transitivity y. Qed.

(** A view the channel starts from, with its entries whole. *)
Definition at_rest (view : ControlView) : Prop :=
  buf_ok (cv_backends view) /\ 0 <= cv_seq view < 2 ^ 32 /\ Z.land (cv_seq view) 1 = 0 /\ count_ok (cv_count view).

Lemma Inv_reachable view out st :
  at_rest view -> buf_ok out -> rtc step (seq_start view out) st -> Inv (cv_seq view) st.
Proof.
  intros (Hm & Hs & He & Hc) Ho Hr.
  assert (H0 : Inv (cv_seq view) (seq_start view out)).
  { split; cbn [seq_start st_view st_writer st_reader st_stores st_snaps buffer reader_inv writer_inv]; try done.
    - apply Hc.
    - now rewrite Z.add_0_r, u32_small by done.
    }
  revert H0. clear Ho. induction Hr as [|? ? ? Hst _ IH]; [done|]. intros HI. apply IH. by eapply Inv_step.
Qed.

(** The accesses the two loops are about to make. *)
Definition in_range (st : Shared) : Prop :=
  (forall src start pos, st_writer st = WCopy src start pos ->
    (pos < kFields * Z.to_nat (cv_count (st_view st)))%nat ->
    (pos / kFields < length src)%nat /\ (pos / kFields < length (cv_backends (st_view st)))%nat) /\
  (forall out s c pos at0, st_reader st = RCopy out s c pos at0 -> (pos < kFields * Z.to_nat c)%nat ->
    (pos / kFields < length (cv_backends (st_view st)))%nat /\ (pos / kFields < length out)%nat).

Lemma Inv_in_range s0 st : Inv s0 st -> in_range st.
Proof.
  intros [[Hm _] Hcn Hs Hn Hw [Hb _] Hr]. split.
  - intros src start pos E Hlt. rewrite E in Hw. destruct Hw as (Hsrc & _ & Hc & _).
    rewrite Hc, src_count_small, Nat2Z.id in Hlt by done. apply Nat.Div0.div_lt_upper_bound in Hlt. lia.
  - intros out s c pos at0 E Hlt. rewrite E in Hr, Hb. destruct Hr as (_ & Hc & _). unfold count_ok in Hc. cbn in Hb.
    apply Nat.Div0.div_lt_upper_bound in Hlt. lia.
Qed.

Lemma even_add_u32 s0 n : Z.land s0 1 = 0 -> Nat.Even n -> Z.land (u32 (s0 + Z.of_nat n)) 1 = 0.
Proof.
  intros He [k ->]. change 1 with (Z.ones 1) in *. rewrite Z.land_ones in * by lia.
  change (2 ^ 1) with 2 in *. unfold u32. rewrite Z.mod_mod_divide by (exists (2 ^ 31); done).
  rewrite <- Zplus_mod_idemp_l, He. replace (0 + Z.of_nat (2 * k)) with (Z.of_nat k * 2) by lia. apply Z_mod_mult.
Qed.

(** For every interleaving of the accesses of a publisher and a reader, all
    array accesses are in range, and a read that returns has returned one
    publication as a whole: the entries given to the publish whose number its
    sequence number is, never a mixture of two. The 32-bit number must not come
    round during the read: fewer than 2^31 publications begin and end within it. *)
Theorem seqlock_reads_whole view out st :
  at_rest view -> buf_ok out -> rtc step (seq_start view out) st ->
  in_range st /\
  forall out' s c at0 at1, st_reader st = RDone out' s c at0 at1 -> Z.of_nat at1 - Z.of_nat at0 < 2 ^ 32 ->
    exists snap, st_snaps st !! (at0 / 2)%nat = Some snap /\ take (Z.to_nat c) out' = snap /\
      s = u32 (cv_seq view + Z.of_nat at0) /\ Z.land s 1 = 0 /\ (at0 <= at1 <= st_stores st)%nat.
Proof.
  intros Hv Ho Hr. pose proof (Inv_reachable view out st Hv Ho Hr) as HI. split; [by eapply Inv_in_range|].
  intros out' s c at0 at1 E Hlt. destruct HI as [_ _ _ _ _ _ HR]. rewrite E in HR.
  destruct HR as ((Hs0 & Hev & Hle) & Hle1 & Hs1 & Hc & Hsnap).
  assert (Heq : at0 = at1).
  { rewrite Hs0 in Hs1. unfold u32 in Hs1. pose proof (Z.div_mod (cv_seq view + Z.of_nat at0) (2 ^ 32) ltac:(lia)).
    pose proof (Z.div_mod (cv_seq view + Z.of_nat at1) (2 ^ 32) ltac:(lia)). nia. }
  exists (take (Z.to_nat c) out'). split; [auto|]. split; [done|]. split; [done|]. split; [|lia].
  subst s. apply even_add_u32; [apply Hv|done].
Qed.

(** ** The reader returns *)

Definition kReadSteps : nat := kFields * kMaxBackends + 4.

(** How many steps a reader still needs when nothing is published meanwhile. *)
Definition rank (view : ControlView) (r : Reader) : nat :=
  let retry s := if cv_seq view =? s then 1%nat else S kReadSteps in
  match r with
  | RLoad _ => kReadSteps
  | RCount _ s _ => (kFields * Z.to_nat (Z.min (cv_count view) (Z.of_nat kMaxBackends)) + 2 + retry s)%nat
  | RCopy _ s c pos _ => ((kFields * Z.to_nat c - pos) + 1 + retry s)%nat
  | RCheck _ s _ _ => retry s
  | RDone _ _ _ _ _ => 0
  end.

Lemma rank_bound s0 st : Inv s0 st -> (rank (st_view st) (st_reader st) <= 2 * kReadSteps)%nat.
Proof.
  intros [_ _ _ _ _ _ Hr]. unfold rank, kReadSteps, kFields. destruct (st_reader st) as [out|out s at0|out s c pos at0|out s c at0|];
    try (destruct (_ =? _)); try lia; destruct Hr as (_ & Hc & _); unfold count_ok in Hc; lia.
Qed.

Lemma rstep_frame st :
  st_view (rstep st) = st_view st /\ st_writer (rstep st) = st_writer st /\
  st_stores (rstep st) = st_stores st /\ st_snaps (rstep st) = st_snaps st.
Proof.
  destruct st as [view w r stores snaps]. unfold rstep. destruct r; cbn; try done.
  - now destruct (negb _).
  - now case_decide.
  - now destruct (_ =? _).
Qed.

Lemma rank_rstep st :
  Z.land (cv_seq (st_view st)) 1 = 0 -> (forall out s c at0 at1, st_reader st <> RDone out s c at0 at1) ->
  (rank (st_view st) (st_reader (rstep st)) < rank (st_view st) (st_reader st))%nat.
Proof.
  destruct st as [view w r stores snaps]. cbn [st_view st_reader]. intros He Hd. unfold rstep.
  destruct r as [out|out s at0|out s c pos at0|out s c at0|]; cbn [st_reader].
  - rewrite He. cbn [Z.eqb negb st_reader]. unfold rank. rewrite Z.eqb_refl. unfold kReadSteps, kFields. lia.
  - unfold rank. destruct (_ =? _); lia.
  - case_decide; cbn [st_reader]; unfold rank; destruct (_ =? _); lia.
  - destruct (cv_seq view =? s) eqn:E; cbn [st_reader]; unfold rank; rewrite ?E; lia.
  - exfalso. by eapply Hd.
Qed.

(** Alone, a reader is done after [rank] steps at most. *)
Lemma reader_runs n : forall st,
  Z.land (cv_seq (st_view st)) 1 = 0 -> (rank (st_view st) (st_reader st) <= n)%nat ->
  exists out s c at0 at1, st_reader (Nat.iter n rstep st) = RDone out s c at0 at1.
Proof.
  induction n as [|n IH]; intros st He Hn.
  - destruct st as [view w r stores snaps]. simpl in *. destruct r as [| | |? s|]; unfold rank, kReadSteps in Hn;
      try destruct (_ =? _); try lia. eauto 10.
  - rewrite Nat.iter_succ_r. destruct (rstep_frame st) as (Hv & _). apply IH; [now rewrite Hv|].
    destruct (st_reader st) as [| | | |out s c at0 at1] eqn:E; rewrite Hv.
    5: { destruct st as [view w r stores snaps]. simpl in *. subst r. simpl. lia. }
    all: pose proof (rank_rstep st He ltac:(intros; rewrite E; discriminate)) as Hlt; rewrite E in Hlt; lia.
Qed.

Lemma iter_rstep_frame n st :
  st_view (Nat.iter n rstep st) = st_view st /\ st_stores (Nat.iter n rstep st) = st_stores st /\
  st_snaps (Nat.iter n rstep st) = st_snaps st /\ rtc step st (Nat.iter n rstep st).
Proof.
  induction n as [|n (H1 & H2 & H3 & H4)]; [split_and!; done || apply rtc_refl|]. rewrite Nat.iter_succ.
  destruct (rstep_frame (Nat.iter n rstep st)) as (E1 & _ & E3 & E4). rewrite E1, E3, E4. split_and!; try done.
  eapply rtc_r; [exact H4|apply step_reader].
Qed.

(** A read that started after the last store to [seq]. *)
Definition fresh (st : Shared) : Prop :=
  match st_reader st with
  | RLoad _ => True
  | RCount _ s at0 | RCopy _ s _ _ at0 | RCheck _ s _ at0 => s = cv_seq (st_view st) /\ at0 = st_stores st
  | RDone _ s _ at0 at1 => s = cv_seq (st_view st) /\ at0 = st_stores st /\ at1 = st_stores st
  end.

Lemma fresh_iter n st : fresh st -> fresh (Nat.iter n rstep st).
Proof.
  intros Hf. induction n as [|n IH]; [done|]. rewrite Nat.iter_succ. revert IH. generalize (Nat.iter n rstep st).
  clear. intros [view w r stores snaps]. unfold fresh, rstep. destruct r; cbn [st_reader st_view st_stores]; try done.
  - intros _. now destruct (negb _).
  - now case_decide.
  - intros [-> ->]. now rewrite Z.eqb_refl.
Qed.

#[local] Opaque kReadSteps.

(** A read ends: whenever no publish is under way, the reader returns after at
    most 1160 of its own steps, and a read that starts then returns the last
    publication. *)
Theorem seqlock_read_ends view out st :
  at_rest view -> buf_ok out -> rtc step (seq_start view out) st -> st_writer st = WIdle ->
  (exists out' s c at0 at1, st_reader (Nat.iter (2 * kReadSteps) rstep st) = RDone out' s c at0 at1) /\
  (forall buf, st_reader st = RLoad buf -> exists out' c snap,
    st_reader (Nat.iter (2 * kReadSteps) rstep st) = RDone out' (cv_seq (st_view st)) c (st_stores st) (st_stores st) /\
    last (st_snaps st) = Some snap /\ take (Z.to_nat c) out' = snap).
Proof.
  intros Hv Ho Hr Hw. pose proof (Inv_reachable view out st Hv Ho Hr) as HI. pose proof HI as [_ _ Hs _ HW _ _].
  rewrite Hw in HW. destruct HW as (Hst & _).
  assert (He : Z.land (cv_seq (st_view st)) 1 = 0).
  { rewrite Hs. apply even_add_u32; [apply Hv|]. exists (length (st_snaps st) - 1)%nat. lia. }
  destruct (reader_runs (2 * kReadSteps) st He) as (out' & s & c & at0 & at1 & E); [by eapply rank_bound|].
  split; [eauto 10|]. intros buf Hbuf. destruct (iter_rstep_frame (2 * kReadSteps) st) as (F1 & F2 & F3 & F4).
  assert (Hf : fresh (Nat.iter (2 * kReadSteps) rstep st)) by (apply fresh_iter; unfold fresh; now rewrite Hbuf).
  unfold fresh in Hf. rewrite E, F1, F2 in Hf. destruct Hf as (-> & -> & ->).
  pose proof (Inv_reachable view out _ Hv Ho (rtc_transitivity _ _ _ Hr F4)) as [_ _ _ _ _ _ HR]. rewrite E, F3 in HR.
  destruct HR as (_ & _ & _ & _ & Hsnap). exists out', c, (take (Z.to_nat c) out'). split; [done|]. split; [|done].
  rewrite last_lookup. rewrite <- (Hsnap eq_refl). f_equal.
  replace (st_stores st) with ((length (st_snaps st) - 1) * 2)%nat by lia. rewrite Nat.div_mul by lia. lia.
Qed.

(** ** The steps and the calls *)

Lemma copy_at_ge pos src dst i : (pos / kFields < i)%nat -> copy_at pos src dst !! i = dst !! i.
Proof.
  intros Hi. unfold copy_at. set (j := (pos / kFields)%nat) in *. destruct (src !! j), (dst !! j); try done.
  rewrite list_lookup_insert_ne by lia. done.
Qed.

(** The writer's copy loop from [pos], [n] fields to go. *)
Lemma wcopy_runs n : forall pos view src start r stores snaps,
  (n + pos = kFields * Z.to_nat (cv_count view))%nat -> Forall entry_ok (cv_backends view) -> agree pos src (cv_backends view) ->
  exists bs,
    Nat.iter (S n) wstep (mkShared view (WCopy src start pos) r stores snaps) =
      mkShared (set_seq (set_backends view bs) (u32 (start + 2))) WIdle r (S stores)
        (snaps ++ [take (Z.to_nat (src_count src)) src]) /\
    length bs = length (cv_backends view) /\ Forall entry_ok bs /\
    agree (kFields * Z.to_nat (cv_count view)) src bs /\
    drop (Z.to_nat (cv_count view)) bs = drop (Z.to_nat (cv_count view)) (cv_backends view).
Proof.
  induction n as [|n IH]; intros pos view src start r stores snaps Hn Hb Ha.
  - exists (cv_backends view). cbn [Nat.iter nat_rect]. unfold wstep. rewrite decide_False by lia.
    replace (kFields * Z.to_nat (cv_count view))%nat with pos by lia. split_and!; done.
  - rewrite Nat.iter_succ_r. unfold wstep at 2. rewrite decide_True by lia.
    set (view' := set_backends view (copy_at pos src (cv_backends view))).
    destruct (IH (S pos) view' src start r stores snaps) as (bs & E & Hl & Hok & Hag & Hd).
    + change (cv_count view') with (cv_count view). lia.
    + now apply copy_at_ok.
    + now apply copy_at_agree.
    + exists bs. rewrite E. split; [done|].
      change (cv_count view') with (cv_count view) in *. change (cv_backends view') with (copy_at pos src (cv_backends view)) in *.
      rewrite copy_at_length in Hl. split_and!; try done.
      rewrite Hd. apply list_eq. intros i. rewrite !lookup_drop. apply copy_at_ge.
      apply Nat.Div0.div_lt_upper_bound. unfold kFields in *. lia.
Qed.

(** The interleaved steps are those of the calls: a publish whose steps run one
    after the other leaves the view that [PublishControl] returns. *)
Theorem seqlock_steps_publish view src r stores snaps :
  at_rest view -> Forall entry_ok src -> Z.of_nat (length src) < 2 ^ 32 ->
  exists n view' stores' snaps',
    Nat.iter n wstep (mkShared view (WLoaded src (cv_seq view)) r stores snaps) = mkShared view' WIdle r stores' snaps' /\
    PublishControl view src (u32 (Z.of_nat (length src))) = Ret view' /\
    stores' = (stores + 2)%nat /\ snaps' = snaps ++ [take (Z.to_nat (src_count src)) src].
Proof.
  intros ((Hl & Hb) & _ & _ & _) Hok Hlen. set (k := Nat.min (length src) kMaxBackends).
  assert (Hk : src_count src = Z.of_nat k) by (apply src_count_small; done).
  set (v1 := set_count (set_seq view (u32 (cv_seq view + 1))) (src_count src)).
  destruct (wcopy_runs (kFields * k) 0 v1 src (cv_seq view) r (S stores) snaps) as (bs & E & Hlb & Hbo & Hag & Hd).
  { change (cv_count v1) with (src_count src). rewrite Hk. lia. } { done. } { apply agree_0. }
  exists (S (kFields * k) + 2)%nat. rewrite Nat.iter_add. eexists _, _, _.
  split; [exact E|]. split_and!; [|lia|done]. change (cv_count v1) with (src_count src) in *.
  change (cv_backends v1) with (cv_backends view) in *. rewrite Hk, Nat2Z.id in Hag, Hd.
  unfold PublishControl. fold (src_count src). cbn [cv_count set_count set_seq cv_backends]. rewrite Hk, Nat2Z.id.
  rewrite copy_backends_spec by (subst k; lia). cbn [obind]. do 2 f_equal. subst v1. rewrite Hk. unfold set_backends, set_count, set_seq.
  cbn [cv_header cv_seq cv_count cv_backends].
  f_equal. rewrite take_0, drop_0, app_nil_l, Nat.add_0_l. rewrite <- (take_drop k bs). rewrite Hd. f_equal.
  symmetry. apply agree_take; try done; subst k; lia.
Qed.

(** ** A run *)

Module SeqLockSamples.

Definition entry (ip : Z) : ControlBackend := mkControlBackend ip 80 [2; 0; 0; 0; 0; 1] 1.

Definition rest_view : ControlView :=
  mkControlView (mkShmHeader kShmMagic kShmVersion) (2 ^ 32 - 2) 2
    (entry 1 :: entry 2 :: replicate 62 ControlBackend_zero).

Definition empty_buffer : list ControlBackend := replicate kMaxBackends ControlBackend_zero.

(** Steps in a given order: [true] is the writer's. *)
Fixpoint play (l : list bool) (st : Shared) : Shared :=
  match l with
  | [] => st
  | true :: l => play l (match st_writer st with WIdle => st | _ => wstep st end)
  | false :: l => play l (rstep st)
  end.

Lemma play_rtc l : forall st, rtc step st (play l st).
Proof.
  induction l as [|[] l IH]; intros st; simpl; [apply rtc_refl|..].
  - destruct (st_writer st) eqn:E; [done|..];
      (eapply rtc_l; [apply step_writer; rewrite E; discriminate|apply IH]).
  - eapply rtc_l; [apply step_reader|apply IH].
Qed.

(** The reader copies half of the old entries; a publish of one new entry runs and
    wraps the sequence number; the reader starts over. *)
Definition half_read : Shared := play (replicate 11 false) (seq_start rest_view empty_buffer).

Definition publishing : Shared :=
  mkShared (st_view half_read) (WLoaded [entry 3] (cv_seq (st_view half_read))) (st_reader half_read)
    (st_stores half_read) (st_snaps half_read).

Definition read_again : Shared := play (replicate 30 true ++ replicate 40 false) publishing.

Lemma read_again_reachable : rtc step (seq_start rest_view empty_buffer) read_again.
Proof.
  eapply rtc_transitivity; [apply (play_rtc (replicate 11 false))|].
  eapply rtc_l; [|apply play_rtc]. unfold publishing. fold half_read.
  assert (E : half_read = mkShared (st_view half_read) WIdle (st_reader half_read) (st_stores half_read) (st_snaps half_read))
    by (vm_compute; reflexivity).
  rewrite E at 1. apply step_begin; [repeat constructor|vm_compute; reflexivity].
Qed.

Lemma rest_view_ok : at_rest rest_view.
Proof.
  split; [split; [reflexivity|]|].
  - apply Forall_cons. split; [reflexivity|]. apply Forall_cons. split; [reflexivity|]. apply Forall_replicate. reflexivity.
  - vm_compute. repeat split; discriminate.
Qed.

Lemma empty_buffer_ok : buf_ok empty_buffer.
Proof. split; [reflexivity|]. apply Forall_replicate. reflexivity. Qed.

Lemma seqlock_reads_whole_witness :
  st_reader read_again = RDone (entry 3 :: tail (buffer (st_reader read_again))) 0 1 2 2 /\
  in_range read_again /\
  forall out' s c at0 at1, st_reader read_again = RDone out' s c at0 at1 -> Z.of_nat at1 - Z.of_nat at0 < 2 ^ 32 ->
    exists snap, st_snaps read_again !! (at0 / 2)%nat = Some snap /\ take (Z.to_nat c) out' = snap /\
      s = u32 (cv_seq rest_view + Z.of_nat at0) /\ Z.land s 1 = 0 /\ (at0 <= at1 <= st_stores read_again)%nat.
Proof.
  split; [vm_compute; reflexivity|].
  apply (seqlock_reads_whole rest_view empty_buffer read_again);
    [apply rest_view_ok|apply empty_buffer_ok|apply read_again_reachable].
Defined.

Lemma seqlock_read_ends_witness :
  (exists out' s c at0 at1, st_reader (Nat.iter (2 * kReadSteps) rstep half_read) = RDone out' s c at0 at1) /\
  (forall buf, st_reader half_read = RLoad buf -> exists out' c snap,
    st_reader (Nat.iter (2 * kReadSteps) rstep half_read) = RDone out' (cv_seq (st_view half_read)) c (st_stores half_read) (st_stores half_read) /\
    last (st_snaps half_read) = Some snap /\ take (Z.to_nat c) out' = snap).
Proof.
  apply (seqlock_read_ends rest_view empty_buffer half_read);
    [apply rest_view_ok|apply empty_buffer_ok|apply play_rtc|reflexivity].
Defined.

Lemma seqlock_steps_publish_witness :
  exists n view' stores' snaps',
    Nat.iter n wstep (mkShared rest_view (WLoaded [entry 3] (cv_seq rest_view)) (RLoad []) 0 []) =
      mkShared view' WIdle (RLoad []) stores' snaps' /\
    PublishControl rest_view [entry 3] (u32 (Z.of_nat (length [entry 3]))) = Ret view' /\
    stores' = (0 + 2)%nat /\ snaps' = [] ++ [take (Z.to_nat (src_count [entry 3])) [entry 3]].
Proof.
  apply (seqlock_steps_publish rest_view [entry 3] (RLoad []) 0 []);
    [apply rest_view_ok|repeat constructor|vm_compute; reflexivity].
Defined.

End SeqLockSamples.
