(* ===== verification/WeakMem.v ===== *)
(** * Release and acquire memory

    The memory that [std::atomic] and [std::atomic_thread_fence] promise, for locations
    with one writer each: every location keeps all the values stored to it, in the order
    of the stores, and a thread may load any of them that is not older than what it has
    already seen. What it has seen is its view, a position in every location.

    - A release store carries the view of the thread; a relaxed store carries the view
      of the thread at its last release fence.
    - An acquire load takes over the view that the value carries; a relaxed load keeps
      it for the next acquire fence.

    Stores go to the end of their location: the only thread that stores there has seen
    all of it. A thread's own steps happen in the order of its program; a store that
    overtakes an earlier load of another thread's data needs a thread with both, and
    none of the programs here has them. Plain accesses behave as relaxed ones. *)

From stdpp Require Import functions.
From S2P Require Import Prelude.

(** To evaluate a run that may fail: it did not. *)
Lemma default_is_some {A} (d : A) (o : option A) : (if o is Some _ then true else false) = true -> o = Some (default d o).
Proof. by destruct o. Qed.

Inductive order := plain | relaxed | acquire | release.

#[export] Instance order_eq_dec : EqDecision order.
Proof. solve_decision. Defined.

Section WeakMem.
Context {L : Type} `{!EqDecision L} {V : Type}.

(** ** Views *)

Definition View : Type := L -> nat.

Definition vle (v w : View) : Prop := forall l, (v l <= w l)%nat.

Definition join (v w : View) : View := fun l => Nat.max (v l) (w l).

Definition single (l : L) (t : nat) : View := fun l' => if decide (l' = l) then t else 0%nat.

Record Msg := mkMsg { m_val : V; m_view : View }.

Definition Mem : Type := L -> list Msg.

(** What a thread has seen; what it will have seen after an acquire fence; what it had
    seen at its last release fence. *)
Record TView := mkTView { cur : View; acq : View; rel : View }.

(** ** Programs: the accesses of a thread to shared memory, in their order *)

Inductive Prog (A : Type) : Type :=
  | Return (a : A)
  | Read (o : order) (l : L) (k : V -> Prog A)
  | Write (o : order) (l : L) (v : V) (k : Prog A)
  | Fence (o : order) (k : Prog A)
  | Undefined.

#[global] Arguments Return {A} _.
#[global] Arguments Read {A} _ _ _.
#[global] Arguments Write {A} _ _ _ _.
#[global] Arguments Fence {A} _ _.
#[global] Arguments Undefined {A}.

(** A load of the message [m] at position [t]. *)
Definition load_view (o : order) (l : L) (t : nat) (m : Msg) (tv : TView) : TView :=
  let seen := single l t in
  match o with
  | acquire => mkTView (join (join (cur tv) seen) (m_view m)) (join (join (acq tv) seen) (m_view m)) (rel tv)
  | _ => mkTView (join (cur tv) seen) (join (join (acq tv) seen) (m_view m)) (rel tv)
  end.

Definition store_view (l : L) (t : nat) (tv : TView) : TView :=
  mkTView (join (cur tv) (single l t)) (join (acq tv) (single l t)) (rel tv).

Definition store_msg (o : order) (l : L) (t : nat) (v : V) (tv : TView) : Msg :=
  match o with
  | release => mkMsg v (join (cur tv) (single l t))
  | _ => mkMsg v (join (rel tv) (single l t))
  end.

Definition fence_view (o : order) (tv : TView) : TView :=
  match o with
  | acquire => mkTView (acq tv) (acq tv) (rel tv)
  | release => mkTView (cur tv) (acq tv) (cur tv)
  | _ => tv
  end.

Definition append (mem : Mem) (l : L) (m : Msg) : Mem := <[l := mem l ++ [m]]> mem.

(** The next access of a thread; a load takes the message at position [t]. *)
Definition mem_step {A} (t : nat) (mem : Mem) (tv : TView) (p : Prog A) : option (Mem * TView * Prog A) :=
  match p with
  | Return _ | Undefined => None
  | Read o l k =>
      if decide (cur tv l <= t)%nat then
        (fun m => (mem, load_view o l t m tv, k (m_val m))) <$> mem l !! t
      else None
  | Write o l v k =>
      let n := length (mem l) in
      Some (append mem l (store_msg o l n v tv), store_view l n tv, k)
  | Fence o k => Some (mem, fence_view o tv, k)
  end.

(** A thread alone, on memory that holds one value per location. *)
Fixpoint run {A} (p : Prog A) (m : L -> V) : outcome (A * (L -> V)) :=
  match p with
  | Return a => Ret (a, m)
  | Read _ l k => run (k (m l)) m
  | Write _ l v k => run k (<[l := v]> m)
  | Fence _ k => run k m
  | Undefined => Undef
  end.

(** ** Views stay inside the memory *)

Definition v_in (mem : Mem) (v : View) : Prop := forall l, (v l < length (mem l))%nat.

Definition closed (mem : Mem) : Prop := forall l t m, mem l !! t = Some m -> v_in mem (m_view m).

Definition tv_in (mem : Mem) (tv : TView) : Prop := v_in mem (cur tv) /\ v_in mem (acq tv) /\ v_in mem (rel tv).

Definition mem_le (mem mem' : Mem) : Prop := forall l, mem l `prefix_of` mem' l.

#[global] Instance mem_le_preorder : PreOrder mem_le.
Proof. split; [now intros m l|]. intros m1 m2 m3 H1 H2 l. etrans; [apply H1|apply H2]. Qed.

Lemma mem_le_lookup mem mem' l t m : mem_le mem mem' -> mem l !! t = Some m -> mem' l !! t = Some m.
Proof. intros H E. by eapply prefix_lookup_Some. Qed.

Lemma mem_le_in mem mem' v : mem_le mem mem' -> v_in mem v -> v_in mem' v.
Proof. intros H Hv l. pose proof (prefix_length _ _ (H l)). specialize (Hv l). lia. Qed.

Lemma mem_le_tv_in mem mem' tv : mem_le mem mem' -> tv_in mem tv -> tv_in mem' tv.
Proof. intros H (?&?&?). split_and!; by eapply mem_le_in. Qed.

Lemma append_eq mem l m : append mem l m l = mem l ++ [m].
Proof. apply fn_lookup_insert. Qed.

Lemma append_ne mem l l' m : l <> l' -> append mem l m l' = mem l'.
Proof. apply fn_lookup_insert_ne. Qed.

Lemma append_le mem l m : mem_le mem (append mem l m).
Proof.
  intros l'. destruct (decide (l = l')) as [<-|Hn]; [rewrite append_eq; now eexists|now rewrite append_ne].
Qed.

Lemma append_lookup mem l m l' t d :
  append mem l m l' !! t = Some d ->
  mem l' !! t = Some d \/ (l' = l /\ t = length (mem l) /\ d = m).
Proof.
  destruct (decide (l = l')) as [<-|Hn]; [rewrite append_eq|rewrite append_ne; auto].
  intros [[_ ?]|[-> ->]]%lookup_snoc_Some; auto.
Qed.

Lemma append_last mem l m : append mem l m l !! length (mem l) = Some m.
Proof. rewrite append_eq. by apply list_lookup_middle. Qed.

Lemma join_in mem v w : v_in mem v -> v_in mem w -> v_in mem (join v w).
Proof. intros Hv Hw l. unfold join. specialize (Hv l). specialize (Hw l). lia. Qed.

Lemma single_in mem l t : (t < length (mem l))%nat -> (forall l', mem l' <> []) -> v_in mem (single l t).
Proof.
  intros Ht Hn l'. unfold single. case_decide; subst; [done|]. destruct (mem l') eqn:E; [now apply Hn in E|simpl; lia].
Qed.

Lemma in_ne mem v l : v_in mem v -> mem l <> [].
Proof. intros H E. specialize (H l). rewrite E in H. simpl in H. lia. Qed.

(** Every step leaves memory longer, its views inside of it. *)
Lemma mem_step_in {A} t mem tv (p : Prog A) mem' tv' p' :
  mem_step t mem tv p = Some (mem', tv', p') -> closed mem -> tv_in mem tv ->
  mem_le mem mem' /\ closed mem' /\ tv_in mem' tv'.
Proof.
  intros Hs Hc Ht. pose proof Ht as (H1 & H2 & H3). assert (Hne : forall l, mem l <> []) by (intros l; by eapply in_ne).
  destruct p as [a|o l k|o l v k|o k|]; simpl in Hs; try done.
  - case_decide; [|done]. destruct (mem l !! t) as [m|] eqn:E; [|done]. injection Hs as <- <- <-.
    split; [done|]. split; [done|].
    assert (v_in mem (single l t)) by (apply single_in; [by eapply lookup_lt_Some|done]).
    assert (v_in mem (m_view m)) by by eapply Hc.
    destruct o; split_and!; simpl; auto using join_in.
  - injection Hs as <- <- <-. set (m := store_msg o l (length (mem l)) v tv).
    pose proof (append_le mem l m) as Hle. split; [done|].
    assert (Hsg : v_in (append mem l m) (single l (length (mem l)))).
    { apply single_in; [rewrite append_eq, length_app; simpl; lia|]. intros l'. eapply in_ne, mem_le_in; done. }
    split.
    + intros l' t' d [E|(-> & -> & ->)]%append_lookup; [eapply mem_le_in, Hc; done|].
      subst m. destruct o; simpl; apply join_in; try done; by eapply mem_le_in.
    + split_and!; simpl; try apply join_in; try done; by eapply mem_le_in.
  - injection Hs as <- <- <-. split; [done|]. split; [done|]. destruct o; done.
Qed.

(** A thread whose next access is defined can make it. *)
Lemma mem_step_enabled {A} mem tv (p : Prog A) :
  tv_in mem tv ->
  match p with
  | Return _ | Undefined => True
  | _ => exists t mem' tv' p', mem_step t mem tv p = Some (mem', tv', p')
  end.
Proof.
  intros (H & _). destruct p as [a|o l k|o l v k|o k|]; try done; simpl.
  - destruct (lookup_lt_is_Some_2 (mem l) (cur tv l) (H l)) as [m E]. exists (cur tv l). rewrite decide_True, E by lia. eauto.
  - exists 0%nat. eauto.
  - exists 0%nat. eauto.
Qed.

(** ** Reasoning about a thread

    [I mem g] is what all threads rely on, [g] a ghost that only grows by [gle]. *)

Section Logic.
Context {G : Type} (gle : relation G) `{!PreOrder gle} (I : Mem -> G -> Prop).

(** A thread that stores nothing, while others extend memory. *)
Fixpoint rwp {A} (p : Prog A) (Q : A -> TView -> Mem -> G -> Prop) (tv : TView) (mem : Mem) (g : G) : Prop :=
  forall mem' g', mem_le mem mem' -> gle g g' -> I mem' g' ->
    match p with
    | Return a => Q a tv mem' g'
    | Read o l k => forall t m, (cur tv l <= t)%nat -> mem' l !! t = Some m ->
        rwp (k (m_val m)) Q (load_view o l t m tv) mem' g'
    | Fence o k => rwp k Q (fence_view o tv) mem' g'
    | Write _ _ _ _ | Undefined => False
    end.

(** The only thread that stores. *)
Fixpoint wwp {A} (p : Prog A) (Q : A -> TView -> Mem -> Prop) (tv : TView) (mem : Mem) (g : G) : Prop :=
  I mem g /\
  match p with
  | Return a => Q a tv mem
  | Read o l k => forall t m, (cur tv l <= t)%nat -> mem l !! t = Some m -> wwp (k (m_val m)) Q (load_view o l t m tv) mem g
  | Write o l v k =>
      let n := length (mem l) in wwp k Q (store_view l n tv) (append mem l (store_msg o l n v tv)) g
  | Fence o k => wwp k Q (fence_view o tv) mem g
  | Undefined => False
  end.

Lemma rwp_mono {A} (p : Prog A) Q tv mem g mem' g' :
  mem_le mem mem' -> gle g g' -> rwp p Q tv mem g -> rwp p Q tv mem' g'.
Proof using Type*.
  intros Hm Hg. destruct p; intros H mem2 g2 Hm2 Hg2; apply H; by etrans.
Qed.

Lemma rwp_step {A} (p : Prog A) Q t tv mem g mem' tv' p' :
  rwp p Q tv mem g -> I mem g -> mem_step t mem tv p = Some (mem', tv', p') -> mem' = mem /\ rwp p' Q tv' mem g.
Proof using Type*.
  intros H HI Hs. destruct p as [a|o l k|o l v k|o k|]; simpl in Hs; try done; specialize (H mem g ltac:(done) ltac:(done) HI).
  - case_decide; [|done]. destruct (mem l !! t) as [m|] eqn:E; [|done]. injection Hs as <- <- <-.
    split; [done|]. by apply H.
  - done.
  - injection Hs as <- <- <-. done.
Qed.

Lemma rwp_return {A} (a : A) Q tv mem g : rwp (Return a) Q tv mem g -> I mem g -> Q a tv mem g.
Proof using Type*. intros H HI. by apply H. Qed.

Lemma wwp_inv {A} (p : Prog A) Q tv mem g : wwp p Q tv mem g -> I mem g.
Proof. destruct p; now intros [? _]. Qed.

Lemma wwp_step {A} (p : Prog A) Q t tv mem g mem' tv' p' :
  wwp p Q tv mem g -> mem_step t mem tv p = Some (mem', tv', p') -> wwp p' Q tv' mem' g.
Proof.
  intros H Hs. destruct p as [a|o l k|o l v k|o k|]; simpl in Hs; try done; destruct H as [_ H].
  - case_decide; [|done]. destruct (mem l !! t) as [m|] eqn:E; [|done]. injection Hs as <- <- <-.
    by apply H.
  - injection Hs as <- <- <-. done.
  - injection Hs as <- <- <-. done.
Qed.

(** ** A thread that stores and one that loads, side by side *)

Record Pair (A B : Type) := mkPair {
  p_mem : Mem;
  p_wtv : TView;
  p_writer : Prog A;
  p_rtv : TView;
  p_reader : Prog B;
}.
#[global] Arguments mkPair {A B} _ _ _ _ _.
#[global] Arguments p_mem {A B} _.
#[global] Arguments p_wtv {A B} _.
#[global] Arguments p_writer {A B} _.
#[global] Arguments p_rtv {A B} _.
#[global] Arguments p_reader {A B} _.

Inductive pair_step {A B} : Pair A B -> Pair A B -> Prop :=
  | pair_writer t mem wtv p mem' wtv' p' rtv q :
      mem_step t mem wtv p = Some (mem', wtv', p') -> pair_step (mkPair mem wtv p rtv q) (mkPair mem' wtv' p' rtv q)
  | pair_reader t mem wtv p rtv q mem' rtv' q' :
      mem_step t mem rtv q = Some (mem', rtv', q') -> pair_step (mkPair mem wtv p rtv q) (mkPair mem' wtv p rtv' q').

Definition pair_inv {A B} (Qw : A -> TView -> Mem -> Prop) (Qr : B -> TView -> Mem -> G -> Prop) (g : G) (s : Pair A B) : Prop :=
  closed (p_mem s) /\ tv_in (p_mem s) (p_wtv s) /\ tv_in (p_mem s) (p_rtv s) /\
  wwp (p_writer s) Qw (p_wtv s) (p_mem s) g /\ rwp (p_reader s) Qr (p_rtv s) (p_mem s) g.

Lemma pair_inv_step {A B} Qw Qr g (s s' : Pair A B) : pair_step s s' -> pair_inv Qw Qr g s -> pair_inv Qw Qr g s'.
Proof using Type*.
  intros [t mem wtv p mem' wtv' p' rtv q E|t mem wtv p rtv q mem' rtv' q' E] (Hc & Hw & Hr & HW & HR); cbn in *.
  - destruct (mem_step_in _ _ _ _ _ _ _ E Hc Hw) as (Hle & Hc' & Hw').
    split_and!; [done|done|by eapply mem_le_tv_in|by eapply wwp_step|]. by eapply rwp_mono, HR.
  - destruct (mem_step_in _ _ _ _ _ _ _ E Hc Hr) as (_ & Hc' & Hr').
    destruct (rwp_step _ _ _ _ _ _ _ _ _ HR (wwp_inv _ _ _ _ _ HW) E) as [-> HR']. done.
Qed.

(** What the two threads are proved to do separately they do together. *)
Lemma pair_run {A B} Qw Qr g (s s' : Pair A B) :
  rtc pair_step s s' -> pair_inv Qw Qr g s ->
  p_writer s' <> Undefined /\ p_reader s' <> Undefined /\
  (forall b, p_reader s' = Return b -> Qr b (p_rtv s') (p_mem s') g) /\
  (forall a, p_writer s' = Return a -> Qw a (p_wtv s') (p_mem s')).
Proof using Type*.
  intros Hr HI. assert (Hinv : pair_inv Qw Qr g s').
  { clear -Hr HI PreOrder0. induction Hr as [|? ? ? Hs _ IH]; [done|]. apply IH. by eapply pair_inv_step. }
  destruct Hinv as (_ & _ & _ & HW & HR). pose proof (wwp_inv _ _ _ _ _ HW) as HM. split_and!.
  - intros E. rewrite E in HW. by destruct HW.
  - intros E. rewrite E in HR. by apply (HR (p_mem s') g).
  - intros b E. rewrite E in HR. by apply rwp_return in HR.
  - intros a E. rewrite E in HW. by destruct HW.
Qed.

End Logic.

End WeakMem.

Arguments View L : clear implicits.
Arguments Msg L V : clear implicits.
Arguments Mem L V : clear implicits.
Arguments TView L : clear implicits.
Arguments Prog L V A : clear implicits.
Arguments Pair L V A B : clear implicits.
