(* ===== verification/SeqLockWeak.v ===== *)
(** * The sequence lock on release and acquire memory ([ipc/control_view.hpp])

    [SeqLock] interleaves the accesses of [PublishControl] and [ReadControl] in
    sequentially consistent memory, where their fences do nothing. Here the two are
    programs of [WeakMem], with the memory orders and fences of the source: a reader may
    see old values of some locations and new ones of others, and only the fences keep a
    mixture from being returned.

    [w_given] and [w_results] are ghosts: what publishers were given, the first entry
    being the contents at the start, and what the calls of the reader returned. *)

From stdpp Require Import sorting functions.
From S2P Require Import Prelude FlowKey NetTypes BackendPool Ipc Control ControlSpec SeqLock WeakMem.

(** ** The two programs *)

(** The shared variables of a [ControlView]: [seq], [count], field [f] of
    [backends[i]]. *)
Inductive loc := LSeq | LCount | LField (i f : nat).

#[export] Instance loc_eq_dec : EqDecision loc.
Proof. solve_decision. Defined.

(** [y] with [v] as its field [f]. *)
Definition put_field (f : nat) (v : Z) (y : ControlBackend) : ControlBackend :=
  match f with
  | 0%nat => mkControlBackend v (cb_port y) (cb_mac y) (cb_enabled y)
  | 1%nat => mkControlBackend (cb_ip y) v (cb_mac y) (cb_enabled y)
  | 8%nat => mkControlBackend (cb_ip y) (cb_port y) (cb_mac y) v
  | f => mkControlBackend (cb_ip y) (cb_port y) (<[(f - 2)%nat := v]> (cb_mac y)) (cb_enabled y)
  end.

(** [view.backends[i] = x], the last [n] fields of it. *)
Fixpoint store_entry {A} (n i : nat) (x : ControlBackend) (k : Prog loc Z A) : Prog loc Z A :=
  match n with
  | O => k
  | S n => let f := (kFields - S n)%nat in Write plain (LField i f) (field f x) (store_entry n i x k)
  end.

(** [for (; i < view.count; ++i) view.backends[i] = src[i]]. *)
Fixpoint publish_loop {A} (fuel i : nat) (src : list ControlBackend) (k : Prog loc Z A) : Prog loc Z A :=
  match fuel with
  | O => Undefined
  | S fuel =>
      Read plain LCount (fun count =>
        if Z.of_nat i <? count then
          match src !! i with
          | Some x =>
              if decide (i < kMaxBackends)%nat then store_entry kFields i x (publish_loop fuel (S i) src k) else Undefined
          | None => Undefined
          end
        else k)
  end.

Definition PublishControl_prog (src : list ControlBackend) (count : Z) : Prog loc Z unit :=
  Read relaxed LSeq (fun start =>
  Write release LSeq (u32 (start + 1)) (
  Fence release (
  Write plain LCount (Z.min count (Z.of_nat kMaxBackends)) (
  publish_loop (S kMaxBackends) 0 src (
  Fence release (
  Write release LSeq (u32 (start + 2)) (
  Return tt))))))).

(** [out[i] = view.backends[i]], the last [n] fields of it; [x] is [out[i]]. *)
Fixpoint load_entry {A} (n i : nat) (x : ControlBackend) (k : ControlBackend -> Prog loc Z A) : Prog loc Z A :=
  match n with
  | O => k x
  | S n => let f := (kFields - S n)%nat in Read plain (LField i f) (fun v => load_entry n i (put_field f v x) k)
  end.

(** [for (; i < count; ++i) out[i] = view.backends[i]], [n] entries to go. *)
Fixpoint read_loop {A} (n i : nat) (out : list ControlBackend) (k : list ControlBackend -> Prog loc Z A) : Prog loc Z A :=
  match n with
  | O => k out
  | S n =>
      match out !! i with
      | Some x =>
          if decide (i < kMaxBackends)%nat then load_entry kFields i x (fun x => read_loop n (S i) (<[i := x]> out) k)
          else Undefined
      | None => Undefined
      end
  end.

(** What a read returns: the sequence number, the buffer, [out_count]. *)
Definition Result : Type := Z * list ControlBackend * Z.

(** One iteration of the loop of [ReadControl]: [inl] is the next iteration. *)
Definition ReadControl_prog (out : list ControlBackend) : Prog loc Z (list ControlBackend + Result) :=
  Read acquire LSeq (fun seq_before =>
  if negb (Z.land seq_before 1 =? 0) then Return (inl out) else
  Fence acquire (
  Read plain LCount (fun view_count =>
  let count := Z.min view_count (Z.of_nat kMaxBackends) in
  read_loop (Z.to_nat count) 0 out (fun out =>
  Fence acquire (
  Read acquire LSeq (fun seq_after =>
  if seq_after =? seq_before then Return (inr (seq_before, out, count)) else Return (inl out))))))).

(** ** The two processes *)

Record State := mkState {
  w_mem : Mem loc Z;
  w_wtv : TView loc;
  w_writer : option (Prog loc Z unit);
  w_rtv : TView loc;
  w_reader : Prog loc Z (list ControlBackend + Result);
  w_given : list (list ControlBackend);
  w_results : list Result;
}.

Inductive weak_step : State -> State -> Prop :=
  | weak_begin mem wtv rtv r given results src :
      src_ok src ->
      weak_step (mkState mem wtv None rtv r given results)
        (mkState mem wtv (Some (PublishControl_prog src (u32 (Z.of_nat (length src))))) rtv r
           (given ++ [take (Z.to_nat (src_count src)) src]) results)
  | weak_writer t mem wtv p mem' wtv' p' rtv r given results :
      mem_step t mem wtv p = Some (mem', wtv', p') ->
      weak_step (mkState mem wtv (Some p) rtv r given results) (mkState mem' wtv' (Some p') rtv r given results)
  | weak_published mem wtv rtv r given results :
      weak_step (mkState mem wtv (Some (Return tt)) rtv r given results) (mkState mem wtv None rtv r given results)
  | weak_reader t mem wtv w rtv r mem' rtv' r' given results :
      mem_step t mem rtv r = Some (mem', rtv', r') ->
      weak_step (mkState mem wtv w rtv r given results) (mkState mem' wtv w rtv' r' given results)
  | weak_retry mem wtv w rtv out given results :
      weak_step (mkState mem wtv w rtv (Return (inl out)) given results)
        (mkState mem wtv w rtv (ReadControl_prog out) given results)
  | weak_return mem wtv w rtv res out given results :
      buf_ok out ->
      weak_step (mkState mem wtv w rtv (Return (inr res)) given results)
        (mkState mem wtv w rtv (ReadControl_prog out) given (results ++ [res])).

Definition view_0 : View loc := fun _ => 0%nat.

Definition tview_0 : TView loc := mkTView view_0 view_0 view_0.

(** The contents of a view, as each location's first value. *)
Definition view_at (view : ControlView) (l : loc) : Z :=
  match l with
  | LSeq => cv_seq view
  | LCount => cv_count view
  | LField i f => default 0 (field f <$> cv_backends view !! i)
  end.

Definition mem_start (view : ControlView) : Mem loc Z := fun l => [mkMsg (view_at view l) view_0].

Definition weak_start (view : ControlView) (out : list ControlBackend) : State :=
  mkState (mem_start view) tview_0 None tview_0 (ReadControl_prog out)
    [take (Z.to_nat (cv_count view)) (cv_backends view)] [].

(** ** What memory holds *)

(** What publishing [snap] stores to [l]. *)
Definition snap_val (snap : list ControlBackend) (l : loc) : option Z :=
  match l with
  | LSeq => None
  | LCount => Some (Z.of_nat (length snap))
  | LField i f => if decide (f < kFields)%nat then field f <$> snap !! i else None
  end.

Definition snap_ok (snap : list ControlBackend) : Prop := (length snap <= kMaxBackends)%nat /\ Forall entry_ok snap.

Section Inv.
Context (s0 : Z) (s0_even : Z.land s0 1 = 0).

(** Message [2 k] of [seq] ends publication [k]: its view has the values of that
    publication, and whatever is stored later carries a view in which the next
    publication has begun. *)
Record mem_inv (mem : Mem loc Z) (given : list (list ControlBackend)) : Prop := {
  mi_given : Forall snap_ok given;
  mi_seq : forall i m, mem LSeq !! i = Some m -> m_val m = u32 (s0 + Z.of_nat i);
  mi_pub : forall k m, mem LSeq !! (2 * k)%nat = Some m -> exists snap, given !! k = Some snap /\
    forall l v, snap_val snap l = Some v -> exists d, mem l !! m_view m l = Some d /\ m_val d = v;
  mi_new : forall k m l j d, mem LSeq !! (2 * k)%nat = Some m -> l <> LSeq -> mem l !! j = Some d ->
    (m_view m l < j)%nat -> (2 * k + 1 <= m_view d LSeq)%nat;
}.

(** ** The reader *)

(** The reader has seen the end of publication [k]. *)
Definition reading (k : nat) (snap : list ControlBackend) (tv : TView loc) (mem : Mem loc Z)
    (given : list (list ControlBackend)) : Prop :=
  given !! k = Some snap /\ exists m, mem LSeq !! (2 * k)%nat = Some m /\ vle (m_view m) (cur tv) /\ (2 * k <= acq tv LSeq)%nat.

(** It has met something newer, and will know it at its next acquire fence. *)
Definition dirty (k : nat) (tv : TView loc) : Prop := (2 * k + 1 <= acq tv LSeq)%nat.

Lemma vle_load v o (l : loc) t (m : Msg loc Z) tv : vle v (cur tv) -> vle v (cur (load_view o l t m tv)).
Proof. intros H l'. specialize (H l'). destruct o; simpl; unfold join; lia. Qed.

Lemma reading_mono k snap tv mem g mem' g' :
  mem_le mem mem' -> g `prefix_of` g' -> reading k snap tv mem g -> reading k snap tv mem' g'.
Proof.
  intros Hm Hg (Hk & m & E & H). split; [by eapply prefix_lookup_Some|]. exists m. split; [by eapply mem_le_lookup|done].
Qed.

Lemma dirty_load k o l t (m : Msg loc Z) tv : dirty k tv -> dirty k (load_view o l t m tv).
Proof. unfold dirty. destruct o; simpl; unfold join; lia. Qed.

(** A load gives the value of publication [k], or something newer. *)
Lemma reading_load k snap tv mem g l t d :
  mem_inv mem g -> reading k snap tv mem g -> l <> LSeq -> (cur tv l <= t)%nat -> mem l !! t = Some d ->
  let tv' := load_view plain l t d tv in
  reading k snap tv' mem g /\ (dirty k tv' \/ forall v, snap_val snap l = Some v -> m_val d = v).
Proof.
  intros HI (Hk & m & E & Hle & Hcur) Hl Ht Ed tv'. split.
  { split; [done|]. exists m. split; [done|]. split; [by apply vle_load|]. subst tv'. simpl. unfold join. lia. }
  destruct (decide (m_view m l < t)%nat) as [Hlt|Hge].
  - left. pose proof (mi_new _ _ HI k m l t d E Hl Ed Hlt). unfold dirty. subst tv'. simpl. unfold join. lia.
  - right. intros v Hv. destruct (mi_pub _ _ HI k m E) as (snap' & Hk' & Hval). simplify_eq.
    destruct (Hval l v Hv) as (d' & Ed' & <-). pose proof (Hle l). replace (m_view m l) with t in Ed' by lia. congruence.
Qed.

Lemma put_field_ok f v y : entry_ok y -> entry_ok (put_field f v y).
Proof.
  unfold entry_ok. intros Hy. unfold put_field. repeat (destruct f as [|f]; simpl; rewrite ?length_insert; try done).
Qed.

Lemma copy_put_field f x y : copy_field f x y = put_field f (field f x) y.
Proof. do 9 (destruct f as [|f]; [done|]). done. Qed.

Lemma field_put f g v y :
  entry_ok y -> (f < kFields)%nat -> (g < kFields)%nat ->
  field g (put_field f v y) = if decide (g = f) then v else field g y.
Proof.
  unfold entry_ok, kFields, kMacBytes. intros Hy Hf Hg.
  destruct (cb_mac y) as [|m0 [|m1 [|m2 [|m3 [|m4 [|m5 [|]]]]]]] eqn:E; try done.
  do 9 (destruct f as [|f]; [do 9 (destruct g as [|g]; [simpl; rewrite ?E; done|]); lia|]). lia.
Qed.

(** The fields read so far are those of entry [i] of the publication. *)
Definition got_fields (n i : nat) (snap : list ControlBackend) (x : ControlBackend) : Prop :=
  forall f y, (f < n)%nat -> snap !! i = Some y -> field f x = field f y.

Definition got_entries (n : nat) (snap out : list ControlBackend) : Prop :=
  forall i, (i < n)%nat -> (i < length snap)%nat -> out !! i = snap !! i.

Local Abbreviation rwp := (rwp prefix mem_inv).

Lemma rwp_load_entry {A} n : forall i x (k : ControlBackend -> Prog loc Z A) Q tv mem g b snap,
  (n <= kFields)%nat -> entry_ok x -> reading b snap tv mem g -> dirty b tv \/ got_fields (kFields - n) i snap x ->
  (forall x' tv' mem' g', entry_ok x' -> mem_le mem mem' -> g `prefix_of` g' -> reading b snap tv' mem' g' ->
     (dirty b tv -> dirty b tv') -> dirty b tv' \/ got_fields kFields i snap x' -> rwp (k x') Q tv' mem' g') ->
  rwp (load_entry n i x k) Q tv mem g.
Proof.
  induction n as [|n IH]; intros i x k Q tv mem g b snap Hn Hx Hr Hg Hk; cbn [load_entry].
  - rewrite Nat.sub_0_r in Hg. by apply Hk.
  - intros mem' g' Hm Hpg HI t m Ht E.
    destruct (reading_load b snap tv mem' g' (LField i (kFields - S n)) t m HI) as [Hr' Hv]; try done;
      [by eapply reading_mono|].
    eapply (IH i _ k Q _ mem' g' b snap); [lia|by apply put_field_ok|exact Hr'| |].
    + destruct Hg as [Hd|Hg]; [left; by apply dirty_load|]. destruct Hv as [Hd|Hv]; [by left|]. right.
      intros f y Hf Hy. rewrite field_put by (done || unfold kFields in *; lia). case_decide as Heq.
      * subst f. apply Hv. simpl. rewrite decide_True, Hy by (unfold kFields; lia). done.
      * apply Hg; [lia|done].
    + intros x' tv' mem2 g2 Hx' Hm2 Hg2 Hr2 Hdd Hgot. apply Hk; try done; [by etrans..|].
      intros Hd. by apply Hdd, dirty_load.
Qed.

Lemma rwp_read_loop {A} n : forall i out (k : list ControlBackend -> Prog loc Z A) Q tv mem g b snap,
  (n + i <= kMaxBackends)%nat -> buf_ok out -> snap_ok snap -> reading b snap tv mem g ->
  dirty b tv \/ got_entries i snap out ->
  (forall out' tv' mem' g', buf_ok out' -> mem_le mem mem' -> g `prefix_of` g' -> reading b snap tv' mem' g' ->
     (dirty b tv -> dirty b tv') -> dirty b tv' \/ got_entries (n + i) snap out' -> rwp (k out') Q tv' mem' g') ->
  rwp (read_loop n i out k) Q tv mem g.
Proof.
  induction n as [|n IH]; intros i out k Q tv mem g b snap Hn Ho Hs Hr Hg Hk; cbn [read_loop]; [by apply Hk|].
  destruct (lookup_lt_is_Some_2 out i) as [x Ex]; [destruct Ho; lia|]. rewrite Ex, decide_True by lia.
  assert (Hx : entry_ok x) by (eapply Forall_lookup_1; [apply Ho|done]).
  eapply rwp_load_entry; [lia|exact Hx|exact Hr|right; intros f y Hf; lia|].
  intros x' tv' mem' g' Hx' Hm Hpg Hr' Hdd Hgot. eapply IH; [lia| |exact Hs|exact Hr'| |].
  - destruct Ho as [Hl Hok]. split; [now rewrite length_insert|apply Forall_insert; done].
  - destruct Hg as [Hd|Hg]; [left; by apply Hdd|]. destruct Hgot as [Hd|Hgot]; [by left|]. right.
    intros j Hj Hlen. destruct (decide (j = i)) as [->|Hne].
    + rewrite list_lookup_insert_eq by (by eapply lookup_lt_Some).
      destruct (lookup_lt_is_Some_2 snap i Hlen) as [y Hy]. rewrite Hy. f_equal.
      apply fields_eq; [done|eapply Forall_lookup_1; [apply Hs|done]|]. intros f Hf. by apply Hgot.
    + rewrite list_lookup_insert_ne by done. apply Hg; lia.
  - intros out' tv2 mem2 g2 Ho' Hm2 Hg2 Hr2 Hdd2 Hgot2. apply Hk; try done; [by etrans..|auto|].
    now replace (S n + i)%nat with (n + S i)%nat by lia.
Qed.

(** A result [r] that comes from the loads of messages [2 k] and [i] of [seq]: if they
    are the same message, [r] is publication [k]. *)
Definition res_ok (mem : Mem loc Z) (given : list (list ControlBackend)) (ki : nat * nat) (r : Result) : Prop :=
  let '(k, i) := ki in
  let '(s, out, c) := r in
  (2 * k <= i < length (mem LSeq))%nat /\ s = u32 (s0 + Z.of_nat (2 * k)) /\ s = u32 (s0 + Z.of_nat i) /\
  (i = (2 * k)%nat -> given !! k = Some (take (Z.to_nat c) out)).

(** After an iteration that began when message [lo] of [seq] had been seen. *)
Definition read_post (lo : nat) (r : list ControlBackend + Result) (tv : TView loc) (mem : Mem loc Z)
    (given : list (list ControlBackend)) : Prop :=
  match r with
  | inl out => buf_ok out /\ (lo <= cur tv LSeq)%nat
  | inr r => exists k i, res_ok mem given (k, i) r /\ (lo <= 2 * k)%nat /\ (i <= cur tv LSeq)%nat
  end.

Lemma got_all snap out : snap_ok snap -> buf_ok out -> got_entries (length snap) snap out -> take (length snap) out = snap.
Proof.
  intros [Hs _] [Ho _] Hg. apply list_eq_same_length with (length snap); rewrite ?length_take; try lia.
  intros i x y Hi Hx Hy. rewrite lookup_take_lt in Hx by done. rewrite Hg in Hx by done. congruence.
Qed.

Lemma rwp_ReadControl out lo tv mem g :
  buf_ok out -> (lo <= cur tv LSeq)%nat -> rwp (ReadControl_prog out) (read_post lo) tv mem g.
Proof using s0_even.
  intros Ho Hlo mem1 g1 Hm1 Hg1 HI1 t m Ht E. cbv beta. rewrite (mi_seq _ _ HI1 t m E).
  destruct (Z.eqb_spec (Z.land (u32 (s0 + Z.of_nat t)) 1) 0) as [He|]; cbn [negb].
  2: { intros mem2 g2 _ _ _. split; [done|]. cbn. unfold join. lia. }
  apply (u32_even_add s0 s0_even) in He as [k ->]. destruct (mi_pub _ _ HI1 k m E) as (snap & Hk & _).
  set (tv1 := load_view acquire LSeq (2 * k) m tv).
  assert (Hr1 : reading k snap (fence_view acquire tv1) mem1 g1).
  { split; [done|]. exists m. split; [done|]. split.
    - intros l. simpl. unfold join. lia.
    - simpl. unfold join, single. rewrite decide_True by done. lia. }
  intros mem2 g2 Hm2 Hg2 HI2.
  intros mem3 g3 Hm3 Hg3 HI3 t3 m3 Ht3 E3. cbv beta zeta. set (tv2 := fence_view acquire tv1) in *.
  assert (Hr2 : reading k snap tv2 mem3 g3) by (eapply reading_mono, Hr1; by etrans).
  destruct (reading_load k snap tv2 mem3 g3 LCount t3 m3 HI3 Hr2) as [Hr3 Hv3]; try done.
  set (tv3 := load_view plain LCount t3 m3 tv2) in *. set (count := Z.min (m_val m3) (Z.of_nat kMaxBackends)).
  assert (Hs : snap_ok snap) by (eapply Forall_lookup_1; [apply HI1|exact Hk]).
  eapply rwp_read_loop; [lia|exact Ho|exact Hs|exact Hr3|right; intros i Hi; lia|].
  intros out' tv4 mem4 g4 Ho' Hm4 Hg4 Hr4 Hdd Hgot mem5 g5 Hm5 Hg5 HI5.
  intros mem6 g6 Hm6 Hg6 HI6 t6 m6 Ht6 E6. cbv beta. rewrite (mi_seq _ _ HI6 t6 m6 E6).
  destruct (Z.eqb_spec (u32 (s0 + Z.of_nat t6)) (u32 (s0 + Z.of_nat (2 * k)))) as [Heq|];
    pose proof Hr4 as (Hk4 & _ & _ & _ & Ha4); cbn in Ht6; intros mem7 g7 Hm7 Hg7 HI7.
  2: { split; [done|]. cbn. unfold join. lia. }
  exists k, t6.
  apply (mem_le_lookup _ _ _ _ _ Hm7), lookup_lt_Some in E6. split; [|split].
  - split; [lia|]. split; [done|]. split; [done|]. intros ->.
    destruct Hgot as [Hd|Hgot]; [unfold dirty in Hd; lia|]. destruct Hv3 as [Hd|Hv3]; [apply Hdd in Hd; unfold dirty in Hd; lia|].
    assert (Hc : count = Z.of_nat (length snap)).
    { subst count. rewrite (Hv3 _ eq_refl). destruct Hs as [Hs _]. lia. }
    rewrite Hc, Nat2Z.id in *. rewrite Nat.add_0_r in Hgot. rewrite got_all by done.
    eapply prefix_lookup_Some; [exact Hk4|]. do 2 (etrans; [eassumption|]). done.
  - lia.
  - cbn. unfold join, single. rewrite decide_True by done. lia.
Qed.

(** ** The writer *)

Local Abbreviation wwp := (wwp mem_inv).

(** The writer has seen all of memory. *)
Definition up_to_date (tv : TView loc) (mem : Mem loc Z) : Prop := forall l, S (cur tv l) = length (mem l).

(** Between the two stores to [seq] of publication [n]. *)
Definition writing (n : nat) (tv : TView loc) (mem : Mem loc Z) : Prop :=
  up_to_date tv mem /\ length (mem LSeq) = (2 * n)%nat /\ (2 * n - 1 <= rel tv LSeq)%nat.

Definition last_val (mem : Mem loc Z) (l : loc) (v : Z) : Prop := exists d, last (mem l) = Some d /\ m_val d = v.

Lemma up_to_date_store o l v tv mem :
  up_to_date tv mem -> up_to_date (store_view l (length (mem l)) tv) (append mem l (store_msg o l (length (mem l)) v tv)).
Proof.
  intros He l'. cbn. unfold join, single. pose proof (He l'). case_decide as Hd.
  - subst l'. rewrite append_eq, length_app. simpl. lia.
  - rewrite append_ne by done. lia.
Qed.

(** The writer loads what it stored last. *)
Lemma up_to_date_load o l t d tv mem :
  up_to_date tv mem -> (cur tv l <= t)%nat -> mem l !! t = Some d -> o <> acquire ->
  last (mem l) = Some d /\ up_to_date (load_view o l t d tv) mem.
Proof.
  intros He Ht E Ho. pose proof (lookup_lt_Some _ _ _ E). pose proof (He l). split.
  - rewrite last_lookup, <- (He l). simpl. replace (cur tv l) with t by lia. done.
  - intros l'. pose proof (He l'). destruct o; try done; cbn; unfold join, single; case_decide; subst; lia.
Qed.

Lemma mem_inv_given mem g snap : mem_inv mem g -> snap_ok snap -> mem_inv mem (g ++ [snap]).
Proof.
  intros [Hg Hs Hp Hn] Ho. split; try done.
  - apply Forall_app_2; [done|by apply Forall_singleton].
  - intros k m E. destruct (Hp k m E) as (sn & Hk & H). exists sn. split; [by apply lookup_app_l_Some|done].
Qed.

(** The store that begins publication [n]. *)
Lemma mem_inv_odd mem g n v w :
  mem_inv mem g -> (1 <= n)%nat -> length (mem LSeq) = (2 * n - 1)%nat -> v = u32 (s0 + Z.of_nat (2 * n - 1)) ->
  mem_inv (append mem LSeq (mkMsg v w)) g.
Proof.
  intros [Hg Hs Hp Hn] H1 Hl Hv. split; [done|..].
  - intros i m [E|(_ & -> & ->)]%append_lookup; [by apply Hs|]. now rewrite Hl.
  - intros k m [E|(_ & Hk & _)]%append_lookup; [|lia]. destruct (Hp k m E) as (sn & Hk & H). exists sn. split; [done|].
    intros l x Hx. destruct (H l x Hx) as (d & Ed & Hd). exists d. split; [|done]. by eapply mem_le_lookup, Ed; first apply append_le.
  - intros k m l j d [E|(_ & Hk & _)]%append_lookup Hl'; [|lia]. rewrite append_ne by done. by apply Hn.
Qed.

(** A store of data within publication [n]. *)
Lemma mem_inv_data mem g n l v w :
  mem_inv mem g -> l <> LSeq -> length (mem LSeq) = (2 * n)%nat -> (2 * n - 1 <= w LSeq)%nat ->
  mem_inv (append mem l (mkMsg v w)) g.
Proof.
  intros [Hg Hs Hp Hn] Hne Hl Hw. split; [done|..]; rewrite ?append_ne by done; [done|..].
  - intros k m E. destruct (Hp k m E) as (sn & Hk & H). exists sn. split; [done|].
    intros l' x Hx. destruct (H l' x Hx) as (d & Ed & Hd). exists d. split; [|done]. eapply mem_le_lookup, Ed. apply append_le.
  - intros k m l' j d E Hl' [E'|(-> & -> & ->)]%append_lookup Hj; [by eapply Hn|].
    cbn. apply lookup_lt_Some in E. lia.
Qed.

(** The store that ends publication [n]. *)
Lemma mem_inv_even mem g n v w snap :
  mem_inv mem g -> length (mem LSeq) = (2 * n)%nat -> v = u32 (s0 + Z.of_nat (2 * n)) -> g !! n = Some snap ->
  (forall l, l <> LSeq -> S (w l) = length (mem l)) -> (forall l x, snap_val snap l = Some x -> last_val mem l x) ->
  mem_inv (append mem LSeq (mkMsg v w)) g.
Proof.
  intros [Hg Hs Hp Hn] Hl Hv Hk Hw Hlast. split; [done|..].
  - intros i m [E|(_ & -> & ->)]%append_lookup; [by apply Hs|]. now rewrite Hl.
  - intros k m [E|(_ & Hkn & ->)]%append_lookup.
    + destruct (Hp k m E) as (sn & Hk' & H). exists sn. split; [done|].
      intros l x Hx. destruct (H l x Hx) as (d & Ed & Hd). exists d. split; [|done]. eapply mem_le_lookup, Ed. apply append_le.
    + replace k with n by lia. exists snap. split; [done|]. intros l x Hx. destruct (Hlast l x Hx) as (d & Ed & Hd).
      assert (l <> LSeq) by (now intros ->). exists d. split; [|done]. rewrite append_ne by done.
      rewrite last_lookup, <- (Hw l) in Ed by done. done.
  - intros k m l j d [E|(_ & Hkn & ->)]%append_lookup Hl'; rewrite append_ne by done; [by apply Hn|].
    cbn. intros E Hj. apply lookup_lt_Some in E. specialize (Hw l Hl'). lia.
Qed.

Lemma wwp_store {A} n l v (k : Prog loc Z A) Q tv mem g :
  writing n tv mem -> mem_inv mem g -> l <> LSeq ->
  (forall tv' mem', writing n tv' mem' -> mem_inv mem' g -> last_val mem' l v ->
     (forall l' x, l' <> l -> last_val mem l' x -> last_val mem' l' x) -> wwp k Q tv' mem' g) ->
  wwp (Write plain l v k) Q tv mem g.
Proof.
  intros (He & Hl & Hr) HI Hne Hk. split; [done|]. apply Hk.
  - split; [by apply up_to_date_store|]. split; [|done]. now rewrite append_ne by done.
  - apply (mem_inv_data mem g n); try done. cbn. unfold join. lia.
  - exists (store_msg plain l (length (mem l)) v tv). split; [|done]. now rewrite append_eq, last_snoc.
  - intros l' x Hd (d & Ed & Hx). exists d. split; [|done]. now rewrite append_ne by done.
Qed.

Lemma wwp_store_entry {A} m : forall n i x (k : Prog loc Z A) Q tv mem g,
  (m <= kFields)%nat -> writing n tv mem -> mem_inv mem g ->
  (forall f, (f < kFields - m)%nat -> last_val mem (LField i f) (field f x)) ->
  (forall tv' mem', writing n tv' mem' -> mem_inv mem' g ->
     (forall f, (f < kFields)%nat -> last_val mem' (LField i f) (field f x)) ->
     (forall l' y, (forall f, l' <> LField i f) -> last_val mem l' y -> last_val mem' l' y) -> wwp k Q tv' mem' g) ->
  wwp (store_entry m i x k) Q tv mem g.
Proof.
  induction m as [|m IH]; intros n i x k Q tv mem g Hm Hw HI Hf Hk; cbn [store_entry].
  - by apply Hk.
  - eapply wwp_store; [exact Hw|exact HI|done|]. intros tv1 mem1 Hw1 HI1 Hl1 Hfr1.
    eapply IH; [lia|exact Hw1|exact HI1| |].
    + intros f Hlt. destruct (decide (f = (kFields - S m)%nat)) as [->|]; [done|].
      apply Hfr1; [congruence|]. apply Hf. lia.
    + intros tv2 mem2 Hw2 HI2 Hall Hfr2. apply Hk; try done. intros l' y Hl' Hy. apply Hfr2; [done|]. by apply Hfr1.
Qed.

(** The first [n] entries of [src] are in memory. *)
Definition entries_stored (n : nat) (src : list ControlBackend) (mem : Mem loc Z) : Prop :=
  forall j f x, (j < n)%nat -> (f < kFields)%nat -> src !! j = Some x -> last_val mem (LField j f) (field f x).

Lemma wwp_publish_loop {A} fuel : forall n i c src (k : Prog loc Z A) Q tv mem g,
  (c <= length src)%nat -> (c <= kMaxBackends)%nat -> (i <= c)%nat -> (c - i < fuel)%nat ->
  writing n tv mem -> mem_inv mem g -> last_val mem LCount (Z.of_nat c) -> entries_stored i src mem ->
  (forall tv' mem', writing n tv' mem' -> mem_inv mem' g -> last_val mem' LCount (Z.of_nat c) -> entries_stored c src mem' ->
     wwp k Q tv' mem' g) ->
  wwp (publish_loop fuel i src k) Q tv mem g.
Proof.
  induction fuel as [|fuel IH]; intros n i c src k Q tv mem g Hcs Hcm Hic Hf Hw HI Hc Hst Hk; [lia|].
  split; [done|]. intros t d Ht E. destruct Hw as (He & Hl & Hr).
  destruct (up_to_date_load plain LCount t d tv mem He Ht E) as [Hd He']; [done|].
  destruct Hc as (d' & Hd' & Hv). rewrite Hd in Hd'. injection Hd' as <-. cbv beta. rewrite Hv.
  assert (Hw : writing n (load_view plain LCount t d tv) mem) by done.
  destruct (Z.ltb_spec (Z.of_nat i) (Z.of_nat c)) as [Hlt|Hge].
  - destruct (lookup_lt_is_Some_2 src i) as [x Ex]; [lia|]. rewrite Ex, decide_True by lia.
    eapply wwp_store_entry; [lia|exact Hw|exact HI|intros f Hf0; lia|]. intros tv1 mem1 Hw1 HI1 Hall Hfr.
    eapply (IH n (S i) c); try done; try lia.
    + apply Hfr; [done|]. by exists d.
    + intros j f y Hj Hfl Ey. destruct (decide (j = i)) as [->|Hji]; [simplify_eq; by apply Hall|].
      apply Hfr; [congruence|]. apply Hst; try done. lia.
  - replace i with c in Hst by lia. apply Hk; try done. by exists d.
Qed.

(** The writer is at rest after [n] publications. *)
Definition resting (n : nat) (tv : TView loc) (mem : Mem loc Z) : Prop :=
  up_to_date tv mem /\ length (mem LSeq) = (2 * n + 1)%nat.

Lemma u32_add2 a b : u32 (u32 a + b) = u32 (a + b).
Proof. unfold u32. apply Zplus_mod_idemp_l. Qed.

Lemma wwp_begin {A} n v (k : Prog loc Z A) Q tv mem g :
  resting n tv mem -> mem_inv mem g -> v = u32 (s0 + Z.of_nat (2 * n + 1)) ->
  (forall tv' mem', writing (S n) tv' mem' -> mem_inv mem' g -> wwp k Q tv' mem' g) ->
  wwp (Write release LSeq v (Fence release k)) Q tv mem g.
Proof.
  intros (He & Hl) HI Hv Hk. split; [done|].
  assert (HI' : mem_inv (append mem LSeq (store_msg release LSeq (length (mem LSeq)) v tv)) g).
  { apply (mem_inv_odd mem g (S n)); try done; try lia. rewrite Hv. do 3 f_equal. lia. }
  split; [done|]. apply Hk; [|done]. split; [by apply up_to_date_store|]. split.
  - rewrite append_eq, length_app, Hl. simpl. lia.
  - cbn. unfold join, single. rewrite decide_True by done. lia.
Qed.

Lemma wwp_end n v snap tv mem g :
  writing (S n) tv mem -> mem_inv mem g -> v = u32 (s0 + Z.of_nat (2 * n + 2)) -> g !! S n = Some snap ->
  (forall l x, snap_val snap l = Some x -> last_val mem l x) ->
  wwp (Fence release (Write release LSeq v (Return tt))) (fun _ => resting (S n)) tv mem g.
Proof.
  intros (He & Hl & Hr) HI Hv Hg Hlast. split; [done|]. split; [done|]. split; [|split].
  - apply (mem_inv_even mem g (S n) _ _ snap); try done.
    + rewrite Hv. do 3 f_equal. lia.
    + intros l Hne. cbn. unfold join, single. rewrite decide_False by done. rewrite Nat.max_0_r. apply He.
  - by apply (up_to_date_store release LSeq v (fence_view release tv)).
  - cbv zeta. rewrite append_eq, length_app, Hl. simpl. lia.
Qed.

Lemma wwp_PublishControl n src tv mem g :
  src_ok src -> resting n tv mem -> mem_inv mem g -> g !! S n = Some (take (Z.to_nat (src_count src)) src) ->
  wwp (PublishControl_prog src (u32 (Z.of_nat (length src)))) (fun _ => resting (S n)) tv mem g.
Proof.
  intros Hsrc (He & Hl) HI Hg. split; [done|]. intros t d Ht E.
  destruct (up_to_date_load relaxed LSeq t d tv mem He Ht E) as [Hd He1]; [done|].
  pose proof (lookup_lt_Some _ _ _ E) as Htl. pose proof (He LSeq) as HeS. cbv beta. rewrite (mi_seq _ _ HI t d E), !u32_add2.
  fold (src_count src). pose proof (src_count_small src Hsrc) as Hc. set (c := Nat.min (length src) kMaxBackends) in *.
  rewrite Hc in *. rewrite Nat2Z.id in Hg. eapply wwp_begin; [by split|done|f_equal; lia|]. intros tv1 mem1 Hw1 HI1.
  eapply wwp_store; [exact Hw1|exact HI1|done|]. intros tv2 mem2 Hw2 HI2 Hc2 _.
  eapply (wwp_publish_loop _ (S n) 0 c); try done; try lia; [intros j f x Hj; lia|]. intros tv3 mem3 Hw3 HI3 Hc3 Hst3.
  eapply wwp_end; [exact Hw3|exact HI3|f_equal; lia|exact Hg|]. intros [| |i f] x; cbn [snap_val]; [done|..].
  - rewrite length_take_le by lia. by intros [= <-].
  - case_decide; [|done]. intros Hx. destruct (take c src !! i) as [y|] eqn:Ey; [|done]. injection Hx as <-.
    apply lookup_take_Some in Ey as [Ey Hi]. by apply Hst3.
Qed.

(** ** The machine *)

Record weak_inv (st : State) : Prop := {
  wi_closed : closed (w_mem st);
  wi_wtv : tv_in (w_mem st) (w_wtv st);
  wi_rtv : tv_in (w_mem st) (w_rtv st);
  wi_mem : mem_inv (w_mem st) (w_given st);
  wi_writer : exists n,
    match w_writer st with
    | None => resting n (w_wtv st) (w_mem st) /\ length (w_given st) = S n
    | Some p => wwp p (fun _ => resting (S n)) (w_wtv st) (w_mem st) (w_given st) /\ length (w_given st) = S (S n)
    end;
  wi_reader : exists lo kis,
    rwp (w_reader st) (read_post lo) (w_rtv st) (w_mem st) (w_given st) /\
    Forall2 (res_ok (w_mem st) (w_given st)) kis (w_results st) /\
    StronglySorted le (kis.*1) /\ Forall (fun ki => (2 * ki.1 <= lo)%nat) kis;
}.

Lemma res_ok_mono mem g mem' g' ki r :
  mem_le mem mem' -> g `prefix_of` g' -> res_ok mem g ki r -> res_ok mem' g' ki r.
Proof.
  intros Hm Hg. destruct ki as [k i], r as [[s out] c]. intros (H1 & H2 & H3 & H4). pose proof (prefix_length _ _ (Hm LSeq)).
  split; [lia|]. split; [done|]. split; [done|]. intros Hi. eapply prefix_lookup_Some; [by apply H4|done].
Qed.

Lemma weak_inv_step st st' : weak_step st st' -> weak_inv st -> weak_inv st'.
Proof using s0_even.
  intros Hs [Hc Hw Hr HI (n & HW) (lo & kis & HR & Hres & Hsort & Hlo)]. destruct Hs as
    [mem wtv rtv r given results src Hsrc|t mem wtv p mem' wtv' p' rtv r given results Hst|mem wtv rtv r given results
    |t mem wtv w rtv r mem' rtv' r' given results Hst|mem wtv w rtv out given results|mem wtv w rtv res out given results Ho];
    cbn [w_mem w_wtv w_writer w_rtv w_reader w_given w_results] in *.
  - assert (HI' : mem_inv mem (given ++ [take (Z.to_nat (src_count src)) src])).
    { apply mem_inv_given; [done|]. rewrite src_count_small, Nat2Z.id by done. split; [rewrite length_take; lia|].
      apply Forall_take, Hsrc. }
    split; try done; cbn.
    + destruct HW as [HW Hg]. exists n. split; [|rewrite length_app; simpl; lia]. eapply wwp_PublishControl; try done.
      by apply list_lookup_middle.
    + exists lo, kis. split_and!; try done.
      * eapply rwp_mono, HR; [apply _|done|by apply prefix_app_r].
      * eapply Forall2_impl; [exact Hres|]. intros ki r0. apply res_ok_mono; [done|by apply prefix_app_r].
  - destruct HW as [HW Hg]. destruct (mem_step_in _ _ _ _ _ _ _ Hst Hc Hw) as (Hle & Hc' & Hw').
    pose proof (wwp_step _ _ _ _ _ _ _ _ _ _ HW Hst) as HW'. split; cbn; try done.
    + by eapply mem_le_tv_in.
    + by eapply wwp_inv.
    + by exists n.
    + exists lo, kis. split_and!; try done.
      * eapply rwp_mono, HR; [apply _|done|done].
      * eapply Forall2_impl; [exact Hres|]. intros ki r0. by apply res_ok_mono.
  - split; cbn; try done; [|by exists lo, kis]. destruct HW as [[_ HW] Hg]. by exists (S n).
  - destruct (mem_step_in _ _ _ _ _ _ _ Hst Hc Hr) as (Hle & Hc' & Hr').
    destruct (rwp_step _ _ _ _ _ _ _ _ _ _ _ HR HI Hst) as [-> HR']. split; cbn; try done; [by exists n|by exists lo, kis].
  - destruct (rwp_return _ _ _ _ _ _ _ HR HI) as [Ho Hcur]. split; cbn; try done; [by exists n|].
    exists lo, kis. split_and!; try done. by apply rwp_ReadControl.
  - destruct (rwp_return _ _ _ _ _ _ _ HR HI) as (k & i & Hok & Hk & Hi). split; cbn; try done; [by exists n|].
    exists (cur rtv LSeq), (kis ++ [(k, i)]). assert (Hki : (2 * k <= i)%nat) by (destruct res as [[??]?]; apply Hok).
    split_and!.
    + by apply rwp_ReadControl.
    + by apply Forall2_app; [|constructor].
    + rewrite fmap_app. apply StronglySorted_app_2; [|done|by repeat constructor]. intros a b Ha Hb.
      apply list_elem_of_fmap in Ha as (ki & -> & Hin). apply list_elem_of_singleton in Hb as ->.
      rewrite Forall_forall in Hlo. specialize (Hlo ki Hin). simpl. lia.
    + apply Forall_app_2; [|constructor; [simpl; lia|done]]. eapply Forall_impl; [exact Hlo|]. simpl. lia.
Qed.
End Inv.

(** ** The theorem *)

Lemma weak_inv_start view out : at_rest view -> buf_ok out -> weak_inv (cv_seq view) (weak_start view out).
Proof.
  intros (Hm & Hs & He & Hc) Ho. assert (Hin : v_in (mem_start view) view_0) by (intros l; cbn; unfold view_0; lia).
  assert (Hat : forall l i m, mem_start view l !! i = Some m -> i = 0%nat /\ m = mkMsg (view_at view l) view_0).
  { intros l i m E. unfold mem_start in E. apply list_lookup_singleton_Some in E as [-> <-]. done. }
  assert (HI : mem_inv (cv_seq view) (mem_start view) [take (Z.to_nat (cv_count view)) (cv_backends view)]).
  { split.
    - apply Forall_singleton. unfold count_ok in Hc. split; [rewrite length_take; lia|]. apply Forall_take, Hm.
    - intros i m [-> ->]%Hat. cbn. now rewrite Z.add_0_r, u32_small.
    - intros k m [Hk ->]%Hat. replace k with 0%nat by lia. eexists. split; [done|]. intros l v Hv.
      exists (mkMsg (view_at view l) view_0). split; [done|]. destruct Hm as [Hl _]. unfold count_ok in Hc.
      destruct l as [| |i f]; cbn in *; [done|..].
      + rewrite length_take, Hl in Hv. injection Hv as <-. lia.
      + case_decide; [|done]. destruct (take (Z.to_nat (cv_count view)) (cv_backends view) !! i) as [y|] eqn:Ey; [|done].
        apply lookup_take_Some in Ey as [-> _]. cbn in *. congruence.
    - intros k m l j d [Hk ->]%Hat _ [-> _]%Hat. cbn. unfold view_0. lia. }
  split; cbn [weak_start w_mem w_wtv w_writer w_rtv w_reader w_given w_results]; try done.
  - intros l t m [-> ->]%Hat. done.
  - exists 0%nat. done.
  - exists 0%nat, []. split_and!; try done; try constructor. by apply rwp_ReadControl.
Qed.

Lemma weak_inv_reachable view out st :
  at_rest view -> buf_ok out -> rtc weak_step (weak_start view out) st -> weak_inv (cv_seq view) st.
Proof.
  intros Hv Ho Hr. pose proof (weak_inv_start view out Hv Ho) as HI. revert HI.
  induction Hr as [|? ? ? Hst _ IH]; [done|]. intros HI. apply IH. eapply weak_inv_step; [apply Hv|done|done].
Qed.

(** Neither thread is about to do something undefined, and both can go on. *)
Definition can_go (st : State) : Prop :=
  w_reader st <> Undefined /\ w_writer st <> Some Undefined /\ exists st', weak_step st st'.

Lemma weak_inv_can_go s0 st : weak_inv s0 st -> can_go st.
Proof.
  intros [Hc Hw Hr HI (n & HW) (lo & kis & HR & _)]. assert (Hru : w_reader st <> Undefined).
  { intros E. rewrite E in HR. by apply (HR (w_mem st) (w_given st)). }
  split; [done|]. split.
  - intros E. rewrite E in HW. destruct HW as [[_ HW] _]. done.
  - destruct st as [mem wtv w rtv r given results]. cbn in *.
    pose proof (mem_step_enabled mem rtv r Hr) as Hen. destruct r as [[out|res]| | | |]; [| |..|done];
      try (destruct Hen as (t & mem' & tv' & p' & E); eexists; by eapply weak_reader).
    + eexists. apply weak_retry.
    + eexists. apply (weak_return _ _ _ _ _ (replicate kMaxBackends ControlBackend_zero)).
      split; [done|]. by apply Forall_replicate.
Qed.

Lemma u32_apart s0 a b : (a <= b)%nat -> Z.of_nat b - Z.of_nat a < 2 ^ 32 -> u32 (s0 + Z.of_nat a) = u32 (s0 + Z.of_nat b) -> a = b.
Proof.
  intros Hab Hlt H. unfold u32 in H. pose proof (Z.div_mod (s0 + Z.of_nat a) (2 ^ 32) ltac:(lia)).
  pose proof (Z.div_mod (s0 + Z.of_nat b) (2 ^ 32) ltac:(lia)). nia.
Qed.

(** C12: with the orders of the source, and the plain accesses to the count and the
    entries behaving like relaxed atomic ones (in C++ they race, [seqlock_races], so this
    is a statement about machines and compilers that treat them so), the reads of the
    backend set return whole publications, in the order in which they were published: the
    results of the successive calls of [ReadControl] are publications number
    [k1 <= k2 <= ...], each with the sequence number of its end; and no thread is stuck.
    The 32-bit number must not have come round: at most 2^32 stores to [seq]. *)
Theorem seqlock_weak_reads view out st :
  at_rest view -> buf_ok out -> rtc weak_step (weak_start view out) st ->
  can_go st /\
  (Z.of_nat (length (w_mem st LSeq)) <= 2 ^ 32 ->
   exists ks, StronglySorted le ks /\
     Forall2 (fun k '(s, out', c) => w_given st !! k = Some (take (Z.to_nat c) out') /\
       s = u32 (cv_seq view + Z.of_nat (2 * k)) /\ (2 * k < length (w_mem st LSeq))%nat) ks (w_results st)).
Proof.
  intros Hv Ho Hr. pose proof (weak_inv_reachable view out st Hv Ho Hr) as HI. split; [by eapply weak_inv_can_go|].
  intros Hlen. destruct HI as [_ _ _ _ _ (lo & kis & _ & Hres & Hsort & _)]. exists (kis.*1). split; [done|].
  apply Forall2_fmap_l. eapply Forall2_impl; [exact Hres|]. intros [k i] [[s out'] c] (Hi & Hs & Hs' & Hk).
  assert (Heq : (2 * k)%nat = i) by (eapply (u32_apart (cv_seq view)); [lia|lia|congruence]). cbn. split_and!; [by apply Hk|done|lia].
Qed.

(** ** The plain accesses race *)

(** Two threads about to access the same location without synchronisation, one of them
    to store, and neither access atomic. *)
Definition race (st : State) : Prop :=
  exists l v k k', w_writer st = Some (Write plain l v k) /\ w_reader st = Read plain l k'.

(** From every view at rest a publish and a read can be about to access [count] at the
    same time: the program has a data race, which C++ leaves undefined. *)
Theorem seqlock_races view out src :
  at_rest view -> src_ok src -> exists st, rtc weak_step (weak_start view out) st /\ race st.
Proof.
  intros (_ & _ & He & _) Hsrc. eexists. split.
  - unfold weak_start. eapply rtc_l; [apply (weak_reader 0); reflexivity|]. cbn [view_at m_val]. rewrite He. cbn [Z.eqb negb].
    eapply rtc_l; [apply (weak_reader 0); reflexivity|].
    eapply rtc_l; [apply weak_begin; exact Hsrc|]. eapply rtc_l; [apply (weak_writer 0); reflexivity|].
    eapply rtc_l; [apply (weak_writer 0); reflexivity|]. eapply rtc_l; [apply (weak_writer 0); reflexivity|]. apply rtc_refl.
  - by exists LCount; eexists _, _, _.
Qed.

(** ** The programs and the calls *)

Lemma run_load_entry {A} n : forall i x y (k : ControlBackend -> Prog loc Z A) m,
  (n <= kFields)%nat -> entry_ok x -> entry_ok y -> (forall f, (f < kFields - n)%nat -> field f x = field f y) ->
  (forall f, (f < kFields)%nat -> m (LField i f) = field f y) -> run (load_entry n i x k) m = run (k y) m.
Proof.
  induction n as [|n IH]; intros i x y k m Hn Hx Hy Hf Hm; cbn [load_entry run].
  - do 2 f_equal. by apply fields_eq.
  - apply IH; try done; [lia|by apply put_field_ok|]. intros f Hlt. rewrite field_put by (done || unfold kFields in *; lia).
    case_decide as Hd; [subst f; apply Hm; unfold kFields; lia|]. apply Hf. lia.
Qed.

Lemma run_read_loop {A} n : forall i src out (k : list ControlBackend -> Prog loc Z A) m,
  (n + i <= kMaxBackends)%nat -> buf_ok src -> buf_ok out ->
  (forall j f y, (f < kFields)%nat -> src !! j = Some y -> m (LField j f) = field f y) ->
  exists out', copy_backends n i src out = Ret out' /\ run (read_loop n i out k) m = run (k out') m.
Proof.
  induction n as [|n IH]; intros i src out k m Hn Hs Ho Hm; cbn [copy_backends read_loop]; [by exists out|].
  destruct (lookup_lt_is_Some_2 src i) as [y Ey]; [destruct Hs; lia|].
  destruct (lookup_lt_is_Some_2 out i) as [x Ex]; [destruct Ho; lia|].
  unfold at_, set_at. rewrite Ey, Ex. cbn [obind]. rewrite decide_True by lia.
  destruct (IH (S i) src (<[i := y]> out) k m) as (out' & E & Er); try done; [lia| |].
  - destruct Hs as [_ Hsok], Ho as [Hol Hook]. split; [now rewrite length_insert|].
    apply Forall_insert; [done|]. exact (Forall_lookup_1 _ _ _ _ Hsok Ey).
  - exists out'. split; [exact E|]. rewrite (run_load_entry kFields i x y); [exact Er|lia| | |intros; lia|].
    + exact (Forall_lookup_1 _ _ _ _ (proj2 Ho) Ex).
    + exact (Forall_lookup_1 _ _ _ _ (proj2 Hs) Ey).
    + intros f Hf. by apply Hm.
Qed.

(** Alone, the program of a read returns what [ReadControl] returns, or goes on
    forever as it does. *)
Theorem ReadControl_prog_alone view out fuel :
  buf_ok (cv_backends view) -> buf_ok out ->
  if Z.land (cv_seq view) 1 =? 0 then
    exists r, ReadControl (S fuel) view out = Ret r /\ run (ReadControl_prog out) (view_at view) = Ret (inr r, view_at view)
  else run (ReadControl_prog out) (view_at view) = Ret (inl out, view_at view).
Proof.
  intros Hv Ho. unfold ReadControl_prog. cbn [run ReadControl view_at].
  destruct (Z.eqb_spec (Z.land (cv_seq view) 1) 0) as [He|He]; cbn [negb]; [|done].
  destruct (run_read_loop (Z.to_nat (Z.min (cv_count view) (Z.of_nat kMaxBackends))) 0 (cv_backends view) out
    (fun out => Fence acquire (Read acquire LSeq (fun seq_after => if seq_after =? cv_seq view
       then Return (inr (cv_seq view, out, Z.min (cv_count view) (Z.of_nat kMaxBackends))) else Return (inl out))))
    (view_at view)) as (out' & E & Er); try done; [lia| |].
  - intros j f y Hf Ey. cbn. now rewrite Ey.
  - rewrite E. cbn [obind]. rewrite Z.eqb_refl. eexists. split; [done|]. etrans; [exact Er|].
    cbn [run view_at]. now rewrite Z.eqb_refl.
Qed.

Lemma run_store_entry {A} n : forall i x (k : Prog loc Z A) m, (n <= kFields)%nat ->
  exists m', run (store_entry n i x k) m = run k m' /\
    (forall f, (f < kFields)%nat -> m' (LField i f) = if decide (f < kFields - n)%nat then m (LField i f) else field f x) /\
    (forall l, (forall f, l <> LField i f) -> m' l = m l).
Proof.
  induction n as [|n IH]; intros i x k m Hn; cbn [store_entry run].
  - exists m. split; [done|]. split; [|done]. intros f Hf. now rewrite decide_True by lia.
  - destruct (IH i x k (<[LField i (kFields - S n) := field (kFields - S n) x]> m)) as (m' & E & Hf & Hl); [lia|].
    exists m'. split; [exact E|]. split.
    + intros f Hlt. rewrite Hf by done. destruct (decide (f = (kFields - S n)%nat)) as [->|Hne].
      * rewrite decide_True, decide_False by lia. apply fn_lookup_insert.
      * rewrite fn_lookup_insert_ne by congruence. repeat case_decide; done || lia.
    + intros l Hne. rewrite Hl by done. by rewrite fn_lookup_insert_ne.
Qed.

(** Memory that holds the entries [bs]. *)
Definition holds (m : loc -> Z) (bs : list ControlBackend) : Prop :=
  forall j f y, (f < kFields)%nat -> bs !! j = Some y -> m (LField j f) = field f y.

Lemma run_publish_loop {A} n : forall fuel i src dst (k : Prog loc Z A) m,
  (n < fuel)%nat -> (n + i <= length src)%nat -> (n + i <= kMaxBackends)%nat -> length dst = kMaxBackends ->
  m LCount = Z.of_nat (n + i) -> holds m dst ->
  exists m' dst', run (publish_loop fuel i src k) m = run k m' /\ copy_backends n i src dst = Ret dst' /\
    holds m' dst' /\ m' LCount = m LCount /\ m' LSeq = m LSeq.
Proof.
  induction n as [|n IH]; intros fuel i src dst k m Hf Hs Hk Hd Hc Hm; destruct fuel as [|fuel]; try lia;
    cbn [publish_loop run copy_backends]; rewrite Hc.
  - rewrite (proj2 (Z.ltb_ge _ _)) by lia. by exists m, dst.
  - rewrite (proj2 (Z.ltb_lt _ _)) by lia. destruct (lookup_lt_is_Some_2 src i) as [x Ex]; [lia|].
    destruct (lookup_lt_is_Some_2 dst i) as [y Ey]; [lia|]. unfold at_, set_at. rewrite Ex, Ey, decide_True by lia. cbn [obind].
    destruct (run_store_entry kFields i x (publish_loop fuel (S i) src k) m) as (m1 & -> & Hfl & Hfr); [lia|].
    destruct (IH fuel (S i) src (<[i := x]> dst) k m1) as (m' & dst' & E & Ec & Hh & Hc' & Hs'); try lia.
    + now rewrite length_insert.
    + rewrite Hfr by done. lia.
    + intros j f z Hlt Ez. destruct (decide (j = i)) as [->|Hji].
      * rewrite list_lookup_insert_eq in Ez by lia. injection Ez as <-. rewrite Hfl by done. now rewrite decide_False by lia.
      * rewrite list_lookup_insert_ne in Ez by done. rewrite Hfr by congruence. by apply Hm.
    + exists m', dst'. split; [exact E|]. split; [exact Ec|]. split; [exact Hh|]. rewrite Hc', Hs', !Hfr by done. done.
Qed.

(** Alone, the program of a publish leaves in memory the view that [PublishControl]
    returns. *)
Theorem PublishControl_prog_alone view src :
  at_rest view -> src_ok src ->
  exists view' m', PublishControl view src (u32 (Z.of_nat (length src))) = Ret view' /\
    run (PublishControl_prog src (u32 (Z.of_nat (length src)))) (view_at view) = Ret (tt, m') /\
    m' LSeq = cv_seq view' /\ m' LCount = cv_count view' /\ holds m' (cv_backends view').
Proof.
  intros ((Hl & Hb) & Hs & He & Hc) Hsrc. unfold PublishControl, PublishControl_prog. cbn [run view_at].
  fold (src_count src). pose proof (src_count_small src Hsrc) as Hk. set (c := Nat.min (length src) kMaxBackends) in *.
  rewrite Hk. cbn [cv_count set_count set_seq cv_backends cv_seq]. rewrite Nat2Z.id.
  set (m := <[LCount := Z.of_nat c]> (<[LSeq := u32 (cv_seq view + 1)]> (view_at view))).
  destruct (run_publish_loop c (S kMaxBackends) 0 src (cv_backends view)
    (Fence release (Write release LSeq (u32 (cv_seq view + 2)) (Return tt))) m) as (m' & dst' & E & Ec & Hh & Hc' & Hs'); try lia.
  - subst m. rewrite fn_lookup_insert. lia.
  - intros j f y Hf Ey. subst m. rewrite !fn_lookup_insert_ne by done. cbn. now rewrite Ey.
  - rewrite Ec. cbn [obind]. eexists _, (<[LSeq := u32 (cv_seq view + 2)]> m'). split; [done|]. split; [exact E|].
    rewrite fn_lookup_insert. split; [done|]. rewrite fn_lookup_insert_ne by done. split.
    + rewrite Hc'. subst m. by rewrite fn_lookup_insert.
    + intros j f y Hf Ey. rewrite fn_lookup_insert_ne by done. by apply Hh.
Qed.

(** ** A run *)

Module WeakSamples.

Import SeqLockSamples.

(** A step of the writer ([inl]) or of the reader ([inr]); a load takes the message at
    the given position. An idle writer publishes [entry 3]. *)
Definition weak_play1 (ev : nat + nat) (st : State) : option State :=
  let '(mkState mem wtv w rtv r given results) := st in
  match ev with
  | inl t =>
      match w with
      | None => Some (mkState mem wtv (Some (PublishControl_prog [entry 3] (u32 (Z.of_nat (length [entry 3]))))) rtv r
                        (given ++ [take (Z.to_nat (src_count [entry 3])) [entry 3]]) results)
      | Some (Return tt) => Some (mkState mem wtv None rtv r given results)
      | Some p => '(mem, wtv, p) ← mem_step t mem wtv p; Some (mkState mem wtv (Some p) rtv r given results)
      end
  | inr t =>
      match r with
      | Return (inl out) => Some (mkState mem wtv w rtv (ReadControl_prog out) given results)
      | Return (inr res) => Some (mkState mem wtv w rtv (ReadControl_prog empty_buffer) given (results ++ [res]))
      | p => '(mem, rtv, p) ← mem_step t mem rtv p; Some (mkState mem wtv w rtv p given results)
      end
  end.

Fixpoint weak_play (l : list (nat + nat)) (st : State) : option State :=
  match l with
  | [] => Some st
  | ev :: l => st ← weak_play1 ev st; weak_play l st
  end.

Lemma entry3_ok : src_ok [entry 3].
Proof. split; [repeat constructor|done]. Qed.

Lemma weak_play1_step ev st st' : weak_play1 ev st = Some st' -> weak_step st st'.
Proof.
  destruct st as [mem wtv w rtv r given results]. destruct ev as [t|t]; cbn [weak_play1].
  - destruct w as [p|]; [|intros [= <-]; apply weak_begin, entry3_ok].
    destruct p as [[]| | | |]; [intros [= <-]; constructor|..]; destruct (mem_step t mem wtv _) as [[[mem' wtv'] p']|] eqn:E;
      try done; intros [= <-]; by eapply weak_writer.
  - destruct r as [[out|res]| | | |]; [intros [= <-]; constructor|intros [= <-]; constructor; apply empty_buffer_ok|..];
      destruct (mem_step t mem rtv _) as [[[mem' rtv'] p']|] eqn:E; try done; intros [= <-]; by eapply weak_reader.
Qed.

Lemma weak_play_steps l : forall st st', weak_play l st = Some st' -> rtc weak_step st st'.
Proof.
  induction l as [|ev l IH]; intros st st'; cbn [weak_play]; [intros [= <-]; done|].
  destruct (weak_play1 ev st) as [st1|] eqn:E; [|done]. intros H. eapply rtc_l; [by eapply weak_play1_step|by apply IH].
Qed.

(** A first read of two entries. The next one loads the old sequence number and count,
    a publication of one entry runs, the read goes on with the new address and the old
    port, which memory allows, and its check fails; then it reads the new entry. *)
Definition weak_schedule : list (nat + nat) :=
  replicate 24 (inr 0%nat) ++
  [inr 0%nat; inr 0%nat; inr 0%nat] ++ [inl 0%nat; inl 0%nat] ++ replicate 17 (inl 1%nat) ++
  [inr 1%nat] ++ replicate 17 (inr 0%nat) ++ [inr 0%nat; inr 2%nat; inr 0%nat] ++
  [inr 2%nat; inr 0%nat] ++ replicate 10 (inr 1%nat) ++ [inr 0%nat; inr 2%nat; inr 0%nat].

Definition mixed : State := default (weak_start rest_view empty_buffer) (weak_play weak_schedule (weak_start rest_view empty_buffer)).

Lemma mixed_reachable : rtc weak_step (weak_start rest_view empty_buffer) mixed.
Proof. apply (weak_play_steps weak_schedule). apply default_is_some. vm_compute. reflexivity. Qed.

Definition shown (r : Result) : Z * list ControlBackend := let '(s, out, c) := r in (s, take (Z.to_nat c) out).

Lemma seqlock_weak_reads_witness :
  shown <$> w_results mixed = [(2 ^ 32 - 2, [entry 1; entry 2]); (0, [entry 3])] /\
  can_go mixed /\
  exists ks, StronglySorted le ks /\
     Forall2 (fun k '(s, out', c) => w_given mixed !! k = Some (take (Z.to_nat c) out') /\
       s = u32 (cv_seq rest_view + Z.of_nat (2 * k)) /\ (2 * k < length (w_mem mixed LSeq))%nat) ks (w_results mixed).
Proof.
  split; [vm_compute; reflexivity|].
  destruct (seqlock_weak_reads rest_view empty_buffer mixed) as [Hg H];
    [apply rest_view_ok|apply empty_buffer_ok|apply mixed_reachable|].
  split; [exact Hg|]. apply H. vm_compute. discriminate.
Defined.

Lemma seqlock_races_witness :
  exists st, rtc weak_step (weak_start rest_view empty_buffer) st /\ race st.
Proof. apply (seqlock_races rest_view empty_buffer [entry 3]); [apply rest_view_ok|apply entry3_ok]. Defined.

Lemma PublishControl_prog_alone_witness :
  exists view' m', PublishControl rest_view [entry 3] (u32 (Z.of_nat (length [entry 3]))) = Ret view' /\
    run (PublishControl_prog [entry 3] (u32 (Z.of_nat (length [entry 3])))) (view_at rest_view) = Ret (tt, m') /\
    m' LSeq = cv_seq view' /\ m' LCount = cv_count view' /\ holds m' (cv_backends view').
Proof. apply (PublishControl_prog_alone rest_view [entry 3]); [apply rest_view_ok|apply entry3_ok]. Defined.

End WeakSamples.
