(* ===== verification/RelaxedUse.v ===== *)
(** * The pointer to the pool on release and acquire memory

    [AtomicRcu] stores the pointer to a new pool with [memory_order_release] and loads it
    with [memory_order_acquire] ([atomic_rcu.hpp]); the pool itself is written and read by
    plain accesses. That a pool's memory is not used again while somebody reads it is
    [rcu_safe] of [Rcu]; here every pool has memory of its own. *)

From stdpp Require Import sorting functions.
From S2P Require Import Prelude WeakMem.

(** ** The pointer to the pool *)

(** [ptr_], and word [j] of the pool number [p]. *)
Inductive pool_loc := PPtr | PWord (p j : nat).

#[export] Instance pool_loc_eq_dec : EqDecision pool_loc.
Proof. solve_decision. Defined.

Definition no_order : relation unit := fun _ _ => True.

#[local] Instance no_order_preorder : PreOrder no_order.
Proof. split; done. Qed.

Section Publication.

(** The constructor of pool [p], from its word [j] on. *)
Fixpoint build_words {A} (p j : nat) (words : list Z) (k : Prog pool_loc Z A) : Prog pool_loc Z A :=
  match words with
  | [] => k
  | x :: words => Write plain (PWord p j) x (build_words p (S j) words k)
  end.

(** [pool_rcu.Store(BuildPool(...))], once per pool, the first of them number [p]. *)
Fixpoint store_pools (p : nat) (pools : list (list Z)) : Prog pool_loc Z unit :=
  match pools with
  | [] => Return tt
  | words :: pools => build_words p 0 words (Write release PPtr (Z.of_nat p) (store_pools (S p) pools))
  end.

(** The words [js] of pool [p], by plain loads. *)
Fixpoint load_words {A} (p : nat) (js : list nat) (seen : list Z) (k : list Z -> Prog pool_loc Z A) : Prog pool_loc Z A :=
  match js with
  | [] => k seen
  | j :: js => Read plain (PWord p j) (fun v => load_words p js (seen ++ [v]) k)
  end.

(** [auto pool = pool_rcu_.Load()] and the words the frame needs of it, frame by frame. *)
Fixpoint read_frames (frames : list (list nat)) (seen : list (nat * list nat * list Z)) : Prog pool_loc Z (list (nat * list nat * list Z)) :=
  match frames with
  | [] => Return seen
  | js :: frames =>
      Read acquire PPtr (fun p =>
        load_words (Z.to_nat p) js [] (fun vs => read_frames frames (seen ++ [(Z.to_nat p, js, vs)])))
  end.

(** All pools, the one at the launch first. *)
Context (pools : list (list Z)).

Definition word (p j : nat) : option Z := words ← pools !! p; words !! j.

(** A stored pointer carries a view in which its pool is as it was built. *)
Record pool_inv (mem : Mem pool_loc Z) (g : unit) : Prop := {
  pi_ptr : forall t m, mem PPtr !! t = Some m -> m_val m = Z.of_nat t;
  pi_word : forall t m j x i d, mem PPtr !! t = Some m -> word t j = Some x -> (m_view m (PWord t j) <= i)%nat ->
    mem (PWord t j) !! i = Some d -> m_val d = x;
}.

#[local] Instance no_order_preorder' : PreOrder no_order.
Proof. split; done. Qed.

(** The reader has loaded the pointer to pool [p]. *)
Definition has_ptr (p : nat) (tv : TView pool_loc) (mem : Mem pool_loc Z) : Prop :=
  exists m, mem PPtr !! p = Some m /\ vle (m_view m) (cur tv).

(** A frame saw pool [p] as it was built. *)
Definition frame_ok (r : nat * list nat * list Z) : Prop :=
  let '(p, js, vs) := r in
  length vs = length js /\ forall n j v x, js !! n = Some j -> vs !! n = Some v -> word p j = Some x -> v = x.

Definition frames_ok (seen : list (nat * list nat * list Z)) (tv : TView pool_loc) : Prop :=
  Forall frame_ok seen /\ StronglySorted le (seen.*1.*1) /\ Forall (fun r => (r.1.1 <= cur tv PPtr)%nat) seen.

Lemma rwp_load_words {A} js : forall p past vs (k : list Z -> Prog pool_loc Z A) Q tv mem,
  has_ptr p tv mem -> frame_ok (p, past, vs) -> (forall vs' tv' mem', mem_le mem mem' -> vle (cur tv) (cur tv') ->
    frame_ok (p, past ++ js, vs') -> rwp no_order pool_inv (k vs') Q tv' mem' ()) ->
  rwp no_order pool_inv (load_words p js vs k) Q tv mem ().
Proof.
  induction js as [|j js IH]; intros p past vs k Q tv mem Hp Hf Hk; cbn [load_words].
  - apply Hk; [done|now intros l|]. by rewrite app_nil_r.
  - intros mem' [] Hm _ HI t m Ht E. destruct Hp as (m0 & E0 & Hle). apply (mem_le_lookup _ _ _ _ _ Hm) in E0.
    apply (IH p (past ++ [j])).
    + exists m0. split; [done|]. intros l. specialize (Hle l). cbn. unfold join. lia.
    + destruct Hf as [Hl Hf]. split; [rewrite !length_app; simpl; lia|]. intros n j' v x Hj Hv Hx.
      destruct (decide (n < length past)%nat) as [Hlt|Hge].
      * rewrite lookup_app_l in Hj by done. rewrite lookup_app_l in Hv by lia. by eapply Hf.
      * rewrite lookup_app_r in Hj by lia. rewrite lookup_app_r in Hv by lia. rewrite Hl in Hv.
        destruct (n - length past)%nat; [|done]. injection Hj as <-. injection Hv as <-.
        apply (pi_word _ _ HI p m0 j x t m); try done. specialize (Hle (PWord p j)). lia.
    + intros vs' tv' mem2 Hm2 Hc Hok. apply Hk; [by etrans| |].
      * intros l. specialize (Hc l). cbn in Hc. unfold join in Hc. lia.
      * by rewrite <- app_assoc in Hok.
Qed.

Lemma rwp_read_frames frames : forall seen tv mem,
  frames_ok seen tv -> rwp no_order pool_inv (read_frames frames seen) (fun r tv _ _ => frames_ok r tv) tv mem ().
Proof.
  induction frames as [|js frames IH]; intros seen tv mem Hs mem' [] Hm _ HI; [done|]. intros t m Ht E. cbv beta.
  rewrite (pi_ptr _ _ HI t m E), Nat2Z.id. set (tv1 := load_view acquire PPtr t m tv).
  eapply (rwp_load_words js t []).
  - exists m. split; [done|]. intros l. cbn. unfold join. lia.
  - split; [done|]. intros n j v x Hj. by rewrite lookup_nil in Hj.
  - intros vs tv' mem2 Hm2 Hc Hok. apply IH. destruct Hs as (H1 & H2 & H3).
    assert (Ht' : (cur tv PPtr <= t <= cur tv' PPtr)%nat).
    { split; [done|]. specialize (Hc PPtr). subst tv1. cbn in Hc. unfold join, single in Hc. rewrite decide_True in Hc by done. lia. }
    split; [|split].
    + apply Forall_app_2; [done|]. by constructor.
    + rewrite !fmap_app. apply StronglySorted_app_2; [|done|by repeat constructor]. intros a b Ha ->%list_elem_of_singleton.
      apply list_elem_of_fmap in Ha as (y & -> & Hy). apply list_elem_of_fmap in Hy as (r & -> & Hr).
      rewrite Forall_forall in H3. specialize (H3 r Hr). cbn. lia.
    + apply Forall_app_2; [|constructor; [cbn; lia|done]]. eapply Forall_impl; [exact H3|]. cbn. lia.
Qed.

(** The writer has seen all of memory and pools up to [p] are published. *)
Definition storing (p : nat) (tv : TView pool_loc) (mem : Mem pool_loc Z) : Prop :=
  (forall l, S (cur tv l) = length (mem l)) /\ length (mem PPtr) = p.

Lemma storing_write o l v p tv mem :
  storing p tv mem -> l <> PPtr -> storing p (store_view l (length (mem l)) tv) (append mem l (store_msg o l (length (mem l)) v tv)).
Proof.
  intros [He Hp] Hl. split; [|by rewrite append_ne]. intros l'. pose proof (He l'). cbn. unfold join, single.
  destruct (decide (l' = l)) as [->|Hn]; [rewrite append_eq, length_app; simpl; lia|rewrite append_ne by done; lia].
Qed.

Lemma wwp_build_words {A} words : forall p j k (Q : A -> TView pool_loc -> Mem pool_loc Z -> Prop) tv mem,
  storing p tv mem -> pool_inv mem () ->
  (forall j' x, (j' < j)%nat -> word p j' = Some x -> exists d, last (mem (PWord p j')) = Some d /\ m_val d = x) ->
  (forall n x, words !! n = Some x -> word p (j + n) = Some x) ->
  (forall tv' mem', storing p tv' mem' -> pool_inv mem' () ->
     (forall j' x, (j' < j + length words)%nat -> word p j' = Some x -> exists d, last (mem' (PWord p j')) = Some d /\ m_val d = x) ->
     wwp pool_inv k Q tv' mem' ()) ->
  wwp pool_inv (build_words p j words k) Q tv mem ().
Proof.
  induction words as [|x words IH]; intros p j k Q tv mem Hs HI Hd Hw Hk; cbn [build_words].
  - apply Hk; try done. by rewrite Nat.add_0_r.
  - split; [done|]. cbv zeta. set (l := PWord p j). apply IH.
    + by apply storing_write.
    + destruct HI as [H1 H2]. split; [by rewrite append_ne|]. rewrite append_ne by done.
      intros t m j' y i d E Hy Hi [Ed|(Heq & -> & ->)]%append_lookup; [by eapply H2|].
      injection Heq as -> ->. destruct Hs as [_ Hp]. apply lookup_lt_Some in E. lia.
    + intros j' y Hj Hy. destruct (decide (j' = j)) as [->|Hne].
      * rewrite append_eq, last_snoc. eexists. split; [done|]. cbn. specialize (Hw 0%nat x eq_refl). rewrite Nat.add_0_r in Hw. congruence.
      * rewrite append_ne by (intros [= ->]; done). apply Hd; [lia|done].
    + intros n y Hn. specialize (Hw (S n) y Hn). by rewrite Nat.add_succ_comm.
    + intros tv' mem' Hs' HI' Hd'. apply Hk; try done. intros j' y Hj. apply Hd'. simpl in Hj. lia.
Qed.

Lemma wwp_store_pools l : forall p tv mem,
  drop p pools = l -> storing p tv mem -> pool_inv mem () -> wwp pool_inv (store_pools p l) (fun _ _ _ => True) tv mem ().
Proof.
  induction l as [|words l IH]; intros p tv mem Hd Hs HI; [split; done|]. cbn [store_pools].
  assert (Ep : pools !! p = Some words) by (by rewrite <- (Nat.add_0_r p), <- lookup_drop, Hd).
  assert (Hw : forall j, word p j = words !! j) by (intros j; unfold word; by rewrite Ep).
  eapply wwp_build_words; [exact Hs|exact HI|intros j' x Hj; lia|intros n x Hn; by rewrite Hw|].
  intros tv' mem' [He Hp] [H1 H2] Hall. split; [done|]. cbv zeta. rewrite Hp. apply IH.
  - rewrite <- Nat.add_1_r, <- drop_drop, Hd. done.
  - split; [|rewrite append_eq, length_app, Hp; simpl; lia]. intros l'. pose proof (He l'). cbn. unfold join, single.
    destruct (decide (l' = PPtr)) as [->|Hn]; [rewrite append_eq, length_app, Hp; simpl; lia|rewrite append_ne by done; lia].
  - split.
    + intros t m [E|(_ & -> & ->)]%append_lookup; [by apply H1|]. cbn. by rewrite Hp.
    + intros t m j x i d E Hx Hi. rewrite append_ne by done. apply append_lookup in E as [E|(_ & -> & ->)]; [by apply (H2 t m j x i d)|].
      rewrite Hp in *. intros Ed. destruct (Hall j x) as (d' & Ed' & <-); [rewrite Hw in Hx; apply lookup_lt_Some in Hx; lia|done|].
      rewrite last_lookup in Ed'. apply lookup_lt_Some in Ed as Hlt. cbn in Hi. unfold join, single in Hi. rewrite decide_False in Hi by done.
      pose proof (He (PWord p j)). replace (pred (length (mem' (PWord p j)))) with i in Ed' by lia. congruence.
Qed.

(** The first pool was built before the lcores were launched; other memory has values
    that mean nothing. *)
Definition pool_start (frames : list (list nat)) : Pair pool_loc Z unit (list (nat * list nat * list Z)) :=
  let v0 := fun _ => 0%nat in
  mkPair (fun l => [mkMsg (match l with PPtr => 0 | PWord p j => default 0 (if decide (p = 0%nat) then word 0 j else None) end) v0])
    (mkTView v0 v0 v0) (store_pools 1 (drop 1 pools)) (mkTView v0 v0 v0) (read_frames frames []).

(** C30: a reader of the pool pointer sees pools as they were built: whatever words of
    the pool a frame reads, by plain loads, it reads what the constructor stored there,
    though the pool was built by another thread, and later frames do not go back to
    older pools. *)
Theorem rcu_publication frames s r :
  pools <> [] -> rtc pair_step (pool_start frames) s -> p_reader s = Return r ->
  Forall frame_ok r /\ StronglySorted le (r.*1.*1).
Proof.
  intros Hne Hr E.
  assert (H0 : pair_inv no_order pool_inv (fun _ _ _ => True) (fun r tv _ _ => frames_ok r tv) () (pool_start frames)).
  { assert (Hin : forall v, v = (fun _ => 0%nat) -> v_in (p_mem (pool_start frames)) v) by (intros v -> l; cbn; lia).
    assert (HI : pool_inv (p_mem (pool_start frames)) ()).
    { split.
      - intros t m Et. apply list_lookup_singleton_Some in Et as [-> <-]. done.
      - intros t m j x i d Et Hx _ Ed. apply list_lookup_singleton_Some in Et as [-> _]. apply list_lookup_singleton_Some in Ed as [-> <-].
        cbn. by rewrite Hx. }
    split; [|split; [|split; [|split]]].
    - intros l t m Et. apply list_lookup_singleton_Some in Et as [-> <-]. by apply Hin.
    - split_and!; by apply Hin.
    - split_and!; by apply Hin.
    - by apply wwp_store_pools.
    - apply rwp_read_frames. split_and!; constructor. }
  destruct (pair_run _ _ _ _ _ _ _ Hr H0) as (_ & _ & Hret & _). destruct (Hret r E) as (H1 & H2 & _). done.
Qed.

End Publication.

(** ** Runs *)

Module RelaxedSamples.

(** Steps of the writer ([inl]) and of the reader ([inr]), a load at the position given. *)
Definition pair_play1 {L V A B} `{!EqDecision L} (s : Pair L V A B) (ev : nat + nat) : option (Pair L V A B) :=
  let '(mkPair mem wtv p rtv q) := s in
  match ev with
  | inl t => '(mem, wtv, p) ← mem_step t mem wtv p; Some (mkPair mem wtv p rtv q)
  | inr t => '(mem, rtv, q) ← mem_step t mem rtv q; Some (mkPair mem wtv p rtv q)
  end.

Fixpoint pair_play {L V A B} `{!EqDecision L} (l : list (nat + nat)) (s : Pair L V A B) : option (Pair L V A B) :=
  match l with
  | [] => Some s
  | ev :: l => s ← pair_play1 s ev; pair_play l s
  end.

Lemma pair_play_rtc {L V A B} `{!EqDecision L} l : forall s s' : Pair L V A B, pair_play l s = Some s' -> rtc pair_step s s'.
Proof.
  induction l as [|ev l IH]; intros s s'; cbn [pair_play]; [by intros [= <-]|].
  destruct (pair_play1 s ev) as [s1|] eqn:E; [|done]. intros H. eapply rtc_l; [|by apply IH].
  destruct s as [mem wtv p rtv q]. destruct ev as [t|t]; cbn in E.
  - destruct (mem_step t mem wtv p) as [[[mem' wtv'] p']|] eqn:Es; [|done]. injection E as <-. by eapply pair_writer.
  - destruct (mem_step t mem rtv q) as [[[mem' rtv'] q']|] eqn:Es; [|done]. injection E as <-. by eapply pair_reader.
Qed.

Definition pools2 : list (list Z) := [[5; 6]; [7; 8]].

(** A frame with the first pool while the second is being built, then one with the
    second. *)
Definition two_frames : Pair pool_loc Z unit (list (nat * list nat * list Z)) :=
  default (pool_start pools2 [[0; 1]; [1]]%nat)
    (pair_play [inl 0%nat; inr 0%nat; inr 0%nat; inl 0%nat; inl 0%nat; inr 0%nat; inr 1%nat; inr 1%nat] (pool_start pools2 [[0; 1]; [1]]%nat)).

Lemma rcu_publication_witness :
  p_reader two_frames = Return [(0%nat, [0; 1]%nat, [5; 6]); (1%nat, [1]%nat, [8])] /\
  Forall (frame_ok pools2) [(0%nat, [0; 1]%nat, [5; 6]); (1%nat, [1]%nat, [8])] /\
  StronglySorted le ([(0%nat, [0; 1]%nat, [5; 6]); (1%nat, [1]%nat, [8])].*1.*1).
Proof.
  assert (E : p_reader two_frames = Return [(0%nat, [0; 1]%nat, [5; 6]); (1%nat, [1]%nat, [8])]) by (vm_compute; reflexivity).
  split; [exact E|]. apply (rcu_publication pools2 [[0; 1]; [1]]%nat two_frames); [discriminate| |exact E].
  eapply pair_play_rtc, default_is_some. vm_compute. reflexivity.
Defined.

End RelaxedSamples.
