(* ===== verification/PacketSpec.v ===== *)
(** * What the nodes make of the bytes of a packet

    Header fields as sections of the data room, the two classifiers against the
    fields they read, the address rewrite with its checksums, the ARP reply, and the
    way of a connection's packets through the balancer and back. *)

From S2P Require Import Prelude FlowKey NetTypes PortPool BackendPool NatTable NatTableFacts NatTableSpec Ipc.
From S2P Require Import PacketMeta LbNode LbFacts LbSpec Graph GraphFacts Packet Nodes NodeFacts.

(** ** Sections and updates of a list of bytes *)

Definition seg (data : list Z) (off n : nat) : list Z := take n (drop off data).

Definition upd (data : list Z) (off : nat) (bs : list Z) : list Z :=
  take off data ++ bs ++ drop (off + length bs) data.

Section Bytes.
Implicit Types (data bs : list Z) (off o n i : nat).

Lemma length_upd data off bs : (off + length bs <= length data)%nat -> length (upd data off bs) = length data.
Proof. intros Hl. unfold upd. rewrite !length_app, length_take, length_drop. lia. Qed.

Lemma lookup_upd data off bs i :
  (off + length bs <= length data)%nat ->
  upd data off bs !! i = if decide (off <= i < off + length bs)%nat then bs !! (i - off)%nat else data !! i.
Proof.
  intros Hl. unfold upd. case_decide as Hi.
  - rewrite lookup_app_r by (rewrite length_take; lia). rewrite length_take, lookup_app_l by lia. f_equal. lia.
  - destruct (decide (i < off)%nat).
    + rewrite lookup_app_l by (rewrite length_take; lia). now rewrite lookup_take_lt by lia.
    + rewrite lookup_app_r by (rewrite length_take; lia). rewrite length_take.
      rewrite lookup_app_r by lia. rewrite lookup_drop. f_equal. lia.
Qed.

Lemma bytes_ok_upd data off bs : bytes_ok data -> bytes_ok bs -> bytes_ok (upd data off bs).
Proof.
  intros Hd Hb. apply Forall_app. split; [now apply Forall_take|]. apply Forall_app. split; [done|now apply Forall_drop].
Qed.

Lemma seg_upd_same data off bs : (off + length bs <= length data)%nat -> seg (upd data off bs) off (length bs) = bs.
Proof.
  intros Hl. unfold seg, upd. rewrite drop_app_length' by (rewrite length_take; lia). now rewrite take_app_length.
Qed.

Lemma seg_upd_at data off bs n : length bs = n -> (off + n <= length data)%nat -> seg (upd data off bs) off n = bs.
Proof. intros <-. apply seg_upd_same. Qed.

Lemma length_seg data off n : (off + n <= length data)%nat -> length (seg data off n) = n.
Proof. intros Hl. unfold seg. rewrite length_take, length_drop. lia. Qed.

Lemma bytes_ok_seg data off n : bytes_ok data -> bytes_ok (seg data off n).
Proof. intros Hb. now apply Forall_take, Forall_drop. Qed.

(** Two lists that agree on a section have the same section. *)
Lemma seg_ext data data' off n :
  (forall i, (off <= i < off + n)%nat -> data' !! i = data !! i) -> seg data' off n = seg data off n.
Proof.
  intros He. unfold seg. apply list_eq. intros i. destruct (decide (i < n)%nat).
  - rewrite !lookup_take_lt, !lookup_drop by lia. apply He. lia.
  - rewrite !lookup_take_ge by lia. done.
Qed.

Lemma seg_upd_other data off bs o n :
  (off + length bs <= length data)%nat -> (o + n <= off \/ off + length bs <= o)%nat ->
  seg (upd data off bs) o n = seg data o n.
Proof. intros Hl Ho. apply seg_ext. intros i Hi. rewrite lookup_upd, decide_False by (done || lia). done. Qed.

Lemma upd_upd data off bs bs' :
  (off + length bs <= length data)%nat -> length bs' = length bs -> upd (upd data off bs) off bs' = upd data off bs'.
Proof.
  intros Hl Hl'. apply list_eq. intros i. rewrite !lookup_upd by (rewrite ?length_upd; lia). rewrite Hl'.
  now case_decide.
Qed.

(** Writing back what is there changes nothing. *)
Lemma upd_id data off bs : (off + length bs <= length data)%nat -> seg data off (length bs) = bs -> upd data off bs = data.
Proof.
  intros Hl Hs. apply list_eq. intros i. rewrite lookup_upd by done. case_decide as Hi; [|done].
  rewrite <- Hs at 1. unfold seg. rewrite lookup_take_lt, lookup_drop by lia. f_equal. lia.
Qed.

Lemma store_upd data off bs : (off + length bs <= length data)%nat -> store_bytes data off bs = Ret (upd data off bs).
Proof. apply store_bytes_ok. Qed.

Lemma store_be_upd n data off v :
  (off + n <= length data)%nat -> store_be n data off v = Ret (upd data off (be_bytes n v)).
Proof. intros Hl. apply store_upd. now rewrite length_be_bytes. Qed.

Lemma load_be_seg n data off : (off + n <= length data)%nat -> load_be n data off = Ret (be_val (seg data off n)).
Proof. intros Hl. unfold load_be. now rewrite load_bytes_ok. Qed.

Lemma load_bytes_seg n data off : (off + n <= length data)%nat -> load_bytes data off n = Ret (seg data off n).
Proof. apply load_bytes_ok. Qed.

End Bytes.

Create Rewrite HintDb cere_pkt.
#[export] Hint Rewrite length_be_bytes length_le_bytes : cere_pkt.

(** Lengths of updated packets. *)
Ltac plen := repeat (rewrite length_upd || rewrite length_be_bytes || rewrite length_le_bytes); try (simpl; lia).

Section Spec.
Context `{BuildParams} `{Dpdk}.

(** ** Packets with room *)

Definition room_ok (data : list Z) : Prop := length data = data_room /\ bytes_ok data.

Definition ether_type (data : list Z) : Z := be_val (seg data kEthType 2).

(** The transport header of an IPv4 packet and its protocol. *)
Record ip_packet (data : list Z) (l4 : nat) (proto : Z) : Prop := {
  ip_room : room_ok data;
  ip_type : ether_type data = RTE_ETHER_TYPE_IPV4;
  ip_proto : data !! kIpProto = Some proto;
  ip_known : proto = IPPROTO_TCP \/ proto = IPPROTO_UDP;
  ip_l4 : l4_offset data = Ret l4;
  ip_ihl : (kEthLen + 20 <= l4)%nat;
}.

(** Addresses and ports of a packet. *)
Record Tuple := mkTuple { t_src : Z; t_dst : Z; t_sport : Z; t_dport : Z }.

Definition tuple (data : list Z) (l4 : nat) : Tuple :=
  mkTuple (be_val (seg data kIpSrc 4)) (be_val (seg data kIpDst 4))
    (be_val (seg data (l4 + kL4Src) 2)) (be_val (seg data (l4 + kL4Dst) 2)).

Definition swap (t : Tuple) : Tuple := mkTuple (t_dst t) (t_src t) (t_dport t) (t_sport t).

Definition cksum_at (l4 : nat) (proto : Z) : nat :=
  (l4 + if (proto =? IPPROTO_TCP)%Z then kTcpCksum else kUdpCksum)%nat.

(** [set_tuple data l4 t]: the addresses and ports written. *)
Definition set_tuple (data : list Z) (l4 : nat) (t : Tuple) : list Z :=
  upd (upd (upd (upd data kIpSrc (be_bytes 4 (t_src t))) kIpDst (be_bytes 4 (t_dst t)))
    (l4 + kL4Src) (be_bytes 2 (t_sport t))) (l4 + kL4Dst) (be_bytes 2 (t_dport t)).

Definition fix_ip (data : list Z) : list Z :=
  let d := upd data kIpCksum [0; 0] in upd d kIpCksum (le_bytes 2 (rte_ipv4_cksum (drop kEthLen d))).

Definition fix_l4 (data : list Z) (l4 : nat) (proto : Z) : list Z :=
  let d := upd data (cksum_at l4 proto) [0; 0] in
  upd d (cksum_at l4 proto) (le_bytes 2 (rte_ipv4_udptcp_cksum (drop kEthLen d) (l4 - kEthLen))).

(** The addresses and ports [Rewrite] gives a packet. *)
Definition rewritten (cfg : Config) (meta : PacketMeta) : Tuple :=
  match m_dir meta with
  | kForward => mkTuple (value (self_ip cfg)) (value (m_backend_ip meta)) (m_snat_port meta) (m_backend_port meta)
  | kReverse => mkTuple (value (vip cfg)) (value (m_client_ip meta)) (vip_port cfg) (m_client_port meta)
  end.

Ltac offs := unfold kEthDst, kEthSrc, kEthType, kEthLen, kEthAddrLen, kIpVihl, kIpProto, kIpCksum, kIpSrc, kIpDst,
  kL4Src, kL4Dst, kTcpFlagsOff, kTcpCksum, kUdpCksum, kArpOp, kArpSha, kArpSip, kArpTha, kArpTip, kMacLen in *.

Lemma l4_bound data l4 : room_ok data -> l4_offset data = Ret l4 -> (kEthLen <= l4 <= 74)%nat /\ (94 <= length data)%nat.
Proof.
  intros [Hl Hb] E. destruct (l4_offset_ok data Hb Hl) as (l & E' & Hr). rewrite E in E'. injection E' as ->.
  split; [done|]. rewrite Hl. apply data_room_min.
Qed.

Lemma cksum_at_bound l4 proto : (l4 + 6 <= cksum_at l4 proto <= l4 + 16)%nat.
Proof. unfold cksum_at. offs. destruct (proto =? IPPROTO_TCP); lia. Qed.

Lemma length_set_tuple data l4 t : (l4 <= 74)%nat -> (94 <= length data)%nat -> length (set_tuple data l4 t) = length data.
Proof. intros Hl Hd. unfold set_tuple. offs. plen. Qed.

Lemma length_fix_ip data : (94 <= length data)%nat -> length (fix_ip data) = length data.
Proof. intros Hd. unfold fix_ip. offs. plen. Qed.

(** [Rewrite] is those updates. *)
Lemma Rewrite_upd cfg meta data l4 :
  room_ok data -> l4_offset data = Ret l4 ->
  Rewrite cfg meta data = Ret (fix_l4 (fix_ip (set_tuple data l4 (rewritten cfg meta))) l4 (m_proto meta)).
Proof.
  intros Hr El. destruct (l4_bound data l4 Hr El) as [Hl4 Hd]. unfold Rewrite. rewrite El. cbn [obind].
  assert (Hset : forall sip dip sp dp, (let! data := store_be 4 data kIpSrc sip in
     let! data := store_be 4 data kIpDst dip in SetPorts data l4 (m_proto meta) sp dp) =
     Ret (set_tuple data l4 (mkTuple sip dip sp dp))).
  { intros. unfold SetPorts, set_tuple. cbn [t_src t_dst t_sport t_dport].
    rewrite store_be_upd by (offs; lia). cbn [obind]. rewrite store_be_upd by (offs; plen). cbn [obind].
    destruct (m_proto meta =? IPPROTO_TCP); rewrite store_be_upd by (offs; plen); cbn [obind];
      rewrite store_be_upd by (offs; plen); done. }
  assert (Hm : (match m_dir meta with
    | kForward => let! data := store_be 4 data kIpSrc (value (self_ip cfg)) in
        let! data := store_be 4 data kIpDst (value (m_backend_ip meta)) in
        SetPorts data l4 (m_proto meta) (m_snat_port meta) (m_backend_port meta)
    | kReverse => let! data := store_be 4 data kIpSrc (value (vip cfg)) in
        let! data := store_be 4 data kIpDst (value (m_client_ip meta)) in
        SetPorts data l4 (m_proto meta) (vip_port cfg) (m_client_port meta)
    end) = Ret (set_tuple data l4 (rewritten cfg meta))) by (unfold rewritten; destruct (m_dir meta); apply Hset).
  rewrite Hm. cbn [obind]. unfold FixChecksums, store_cksum. change (le_bytes 2 0) with [0; 0].
  set (d0 := set_tuple data l4 (rewritten cfg meta)).
  assert (Hl0 : (94 <= length d0)%nat) by (unfold d0; rewrite length_set_tuple; lia).
  rewrite store_upd by (offs; simpl; lia). cbn [obind]. rewrite store_upd by (offs; plen). cbn [obind].
  fold (fix_ip d0). pose proof (length_fix_ip d0 Hl0) as Hl1. fold (cksum_at l4 (m_proto meta)).
  pose proof (cksum_at_bound l4 (m_proto meta)) as Hck.
  rewrite store_upd by (simpl; lia). cbn [obind]. now rewrite store_upd by (plen).
Qed.

(** Bytes the updates leave alone. *)
Lemma set_tuple_other data l4 t i :
  (l4 <= 74)%nat -> (94 <= length data)%nat -> (i < kIpSrc \/ kIpDst + 4 <= i < l4 \/ l4 + 4 <= i)%nat -> (34 <= l4)%nat ->
  set_tuple data l4 t !! i = data !! i.
Proof.
  intros Hl Hd Hi Hl4. unfold set_tuple. offs.
  rewrite !lookup_upd by plen. rewrite !length_be_bytes, !decide_False by lia. done.
Qed.

Lemma fix_ip_other data i :
  (94 <= length data)%nat -> (i < kIpCksum \/ kIpCksum + 2 <= i)%nat -> fix_ip data !! i = data !! i.
Proof.
  intros Hd Hi. unfold fix_ip. offs. rewrite !lookup_upd by plen. rewrite !length_le_bytes, !decide_False by (simpl; lia). done.
Qed.

Lemma fix_l4_other data l4 proto i :
  (l4 <= 74)%nat -> (94 <= length data)%nat -> (i < cksum_at l4 proto \/ cksum_at l4 proto + 2 <= i)%nat ->
  fix_l4 data l4 proto !! i = data !! i.
Proof.
  intros Hl Hd Hi. unfold fix_l4. pose proof (cksum_at_bound l4 proto). rewrite !lookup_upd by plen.
  rewrite !length_le_bytes, !decide_False by (simpl; lia). done.
Qed.

Lemma length_fix_l4 data l4 proto : (l4 <= 74)%nat -> (94 <= length data)%nat -> length (fix_l4 data l4 proto) = length data.
Proof. intros Hl Hd. unfold fix_l4. pose proof (cksum_at_bound l4 proto). plen. Qed.

Definition tuple_wf (t : Tuple) : Prop :=
  0 <= t_src t < 2 ^ 32 /\ 0 <= t_dst t < 2 ^ 32 /\ 0 <= t_sport t < 2 ^ 16 /\ 0 <= t_dport t < 2 ^ 16.

Lemma tuple_set_tuple data l4 t :
  (34 <= l4 <= 74)%nat -> (94 <= length data)%nat -> tuple_wf t -> tuple (set_tuple data l4 t) l4 = t.
Proof.
  intros Hl Hd (H1 & H2 & H3 & H4). destruct t as [sip dip sp dp]. cbn [t_src t_dst t_sport t_dport] in *.
  assert (Hbe : forall n v x, 0 <= v < 2 ^ (8 * Z.of_nat n) -> x = be_bytes n v -> be_val x = v)
    by (intros n v x Hv ->; now apply be_val_bytes).
  unfold tuple, set_tuple. offs. cbn [t_src t_dst t_sport t_dport]. f_equal.
  - apply (Hbe 4%nat); [done|]. rewrite !seg_upd_other by plen. apply seg_upd_at; [apply length_be_bytes|plen].
  - apply (Hbe 4%nat); [done|]. rewrite !seg_upd_other by plen. apply seg_upd_at; [apply length_be_bytes|plen].
  - apply (Hbe 2%nat); [done|]. rewrite seg_upd_other by plen. apply seg_upd_at; [apply length_be_bytes|plen].
  - apply (Hbe 2%nat); [done|]. apply seg_upd_at; [apply length_be_bytes|plen].
Qed.

Lemma tuple_ext data data' l4 :
  (34 <= l4)%nat -> (forall i, (26 <= i < 34 \/ l4 <= i < l4 + 4)%nat -> data' !! i = data !! i) ->
  tuple data' l4 = tuple data l4.
Proof.
  intros Hl He. unfold tuple. offs. f_equal; f_equal; apply seg_ext; intros i Hi; apply He; lia.
Qed.

(** The IPv4 checksum is that of the header as it is, the field taken as 0. *)
Definition ip_cksum_ok (data : list Z) : Prop :=
  seg data kIpCksum 2 = le_bytes 2 (rte_ipv4_cksum (drop kEthLen (upd data kIpCksum [0; 0]))).

(** So is the transport checksum. *)
Definition l4_cksum_ok (data : list Z) (l4 : nat) (proto : Z) : Prop :=
  seg data (cksum_at l4 proto) 2 =
    le_bytes 2 (rte_ipv4_udptcp_cksum (drop kEthLen (upd data (cksum_at l4 proto) [0; 0])) (l4 - kEthLen)).

Lemma fix_l4_ok data l4 proto : (l4 <= 74)%nat -> (94 <= length data)%nat -> l4_cksum_ok (fix_l4 data l4 proto) l4 proto.
Proof.
  intros Hl Hd. pose proof (cksum_at_bound l4 proto). unfold l4_cksum_ok, fix_l4.
  set (d := upd data (cksum_at l4 proto) [0; 0]). set (c := le_bytes 2 _).
  assert (Hld : length d = length data) by (unfold d; plen).
  rewrite upd_upd by (unfold c; plen). rewrite (upd_id d (cksum_at l4 proto) [0; 0]).
  - change 2%nat with (length c) at 1. apply seg_upd_same. unfold c. plen.
  - simpl. lia.
  - unfold d. change (length [0; 0]) with (length [0; 0]). apply seg_upd_same. simpl. lia.
Qed.

(** A transport checksum behind the header leaves the IPv4 checksum right. *)
Lemma fix_ip_ok data data' l4 :
  (94 <= length data)%nat -> length data' = length data -> l4_offset data = Ret l4 -> bytes_ok data -> (34 <= l4 <= 74)%nat ->
  (forall i, (i < l4)%nat -> data' !! i = fix_ip data !! i) -> ip_cksum_ok data'.
Proof.
  intros Hd Hl' El Hb Hl4 He. unfold ip_cksum_ok.
  assert (E1 : seg data' kIpCksum 2 = seg (fix_ip data) kIpCksum 2) by (apply seg_ext; intros i Hi; apply He; offs; lia).
  rewrite E1. unfold fix_ip. set (d := upd data kIpCksum [0; 0]). set (c := le_bytes 2 _).
  change 2%nat with (length c) at 1. rewrite seg_upd_same by (unfold c, d; offs; plen). unfold c. f_equal.
  unfold l4_offset in El. destruct (load8 data kIpVihl) as [v| | |] eqn:Ev; try done. injection El as El.
  apply at_Ret in Ev.
  assert (Hsame : forall i, (i < l4)%nat -> upd data' kIpCksum [0; 0] !! i = d !! i).
  { intros i Hi. unfold d. rewrite !lookup_upd by (offs; simpl; lia). case_decide as Hin; [done|].
    rewrite He by done. apply fix_ip_other; [done|]. cbn [length] in Hin. lia. }
  assert (Hv : d !! kIpVihl = Some v).
  { unfold d. rewrite lookup_upd by (offs; simpl; lia). rewrite decide_False by (offs; simpl; lia). done. }
  apply (cksum_header_law v); rewrite ?lookup_drop.
  - exact Hv.
  - rewrite Hsame by (offs; lia). exact Hv.
  - symmetry. apply (seg_ext d). intros i Hi. apply Hsame. offs. lia.
Qed.

(** Everything [Rewrite] does to a packet. *)
Lemma Rewrite_spec cfg meta data l4 proto :
  ip_packet data l4 proto -> m_proto meta = proto -> tuple_wf (rewritten cfg meta) ->
  exists data', Rewrite cfg meta data = Ret data' /\ ip_packet data' l4 proto /\
    tuple data' l4 = rewritten cfg meta /\ ip_cksum_ok data' /\ l4_cksum_ok data' l4 proto /\
    (forall i, (i < kIpCksum \/ kIpDst + 4 <= i < l4 \/ l4 + 4 <= i)%nat ->
       (i < cksum_at l4 proto \/ cksum_at l4 proto + 2 <= i)%nat -> data' !! i = data !! i).
Proof.
  intros [Hr Ht Hp Hk El Hi] Hm Hw. destruct (l4_bound data l4 Hr El) as [Hl4 Hd]. destruct Hr as [Hlen Hb].
  assert (H34 : (34 <= l4 <= 74)%nat) by (offs; lia). pose proof (cksum_at_bound l4 proto) as Hck.
  rewrite (Rewrite_upd cfg meta data l4) by done. rewrite Hm. eexists. split; [done|].
  set (d0 := set_tuple data l4 (rewritten cfg meta)). set (d1 := fix_ip d0).
  assert (Hl0 : length d0 = length data) by (apply length_set_tuple; lia).
  assert (Hl1 : length d1 = length data) by (unfold d1; rewrite length_fix_ip; lia).
  assert (Hl2 : length (fix_l4 d1 l4 proto) = length data) by (rewrite length_fix_l4; lia).
  assert (Hoth : forall i, (i < kIpCksum \/ kIpDst + 4 <= i < l4 \/ l4 + 4 <= i)%nat ->
       (i < cksum_at l4 proto \/ cksum_at l4 proto + 2 <= i)%nat -> fix_l4 d1 l4 proto !! i = data !! i).
  { intros i Hi1 Hi2. rewrite fix_l4_other by lia. unfold d1. rewrite fix_ip_other by (offs; lia).
    apply set_tuple_other; offs; lia. }
  split_and!; try done.
  - split; try done; try lia.
    + split; [congruence|]. unfold fix_l4, d1, fix_ip, d0, set_tuple.
      repeat (apply bytes_ok_upd || apply be_bytes_ok || apply le_bytes_ok); try done; repeat constructor; lia.
    + rewrite <- Ht. unfold ether_type. f_equal. apply seg_ext. intros i Hie. apply Hoth; offs; lia.
    + rewrite Hoth by (offs; lia). done.
    + rewrite <- El. unfold l4_offset, load8, at_. rewrite Hoth by (offs; lia). done.
  - rewrite <- (tuple_set_tuple data l4 (rewritten cfg meta)) by done. fold d0. apply tuple_ext; [lia|].
    intros i Hi1. rewrite fix_l4_other by lia. unfold d1. apply fix_ip_other; offs; lia.
  - apply (fix_ip_ok d0 _ l4); try lia.
    + rewrite <- El. unfold l4_offset, load8, at_. unfold d0. rewrite set_tuple_other by (offs; lia). done.
    + unfold d0, set_tuple. repeat (apply bytes_ok_upd || apply be_bytes_ok); done.
    + intros i Hi1. apply (fix_l4_other d1); lia.
  - apply fix_l4_ok; lia.
Qed.

(** ** The classifiers *)

Definition tcp_flags (data : list Z) (l4 : nat) (proto : Z) : Z :=
  if proto =? IPPROTO_TCP then default 0 (data !! (l4 + kTcpFlagsOff)%nat) else 0.

(** The metadata of a packet. *)
Definition parsed (data : list Z) (l4 : nat) (proto : Z) (dir : Direction) : PacketMeta :=
  let t := tuple data l4 in
  set_dir (set_client_mac (set_flags (packet_meta (t_src t) (t_dst t) (t_sport t) (t_dport t) proto kForward)
    (tcp_flags data l4 proto)) (mkMacAddr (seg data kEthSrc kEthAddrLen))) dir.

Definition to_vip (cfg : Config) (t : Tuple) : bool := (t_dst t =? value (vip cfg)) && (t_dport t =? vip_port cfg).

Definition to_self (cfg : Config) (t : Tuple) : bool := t_dst t =? value (self_ip cfg).

Definition known_proto (proto : Z) : bool := (proto =? IPPROTO_TCP) || (proto =? IPPROTO_UDP).

Lemma ReadPorts_eq data l4 proto :
  (l4 <= 74)%nat -> (94 <= length data)%nat -> ReadPorts data l4 proto = Ret (t_sport (tuple data l4), t_dport (tuple data l4)).
Proof.
  intros Hl Hd. unfold ReadPorts. rewrite !load_be_seg by (offs; lia). cbn [obind]. now destruct (_ =? _).
Qed.

Lemma negb_known proto : negb (proto =? IPPROTO_TCP) && negb (proto =? IPPROTO_UDP) = negb (known_proto proto).
Proof. unfold known_proto. now rewrite negb_orb. Qed.

Lemma Classify_eq cfg meta data l4 proto :
  room_ok data -> l4_offset data = Ret l4 -> data !! kIpProto = Some proto ->
  Classify cfg meta data = Ret
    (if ether_type data =? RTE_ETHER_TYPE_ARP then (kParseArp, meta)
     else if negb (ether_type data =? RTE_ETHER_TYPE_IPV4) then (kParseDrop, meta)
     else if negb (known_proto proto) then (kParseDrop, meta)
     else if to_vip cfg (tuple data l4) then (kNextFwd, parsed data l4 proto kForward)
     else if to_self cfg (tuple data l4) then (kNextRev, parsed data l4 proto kReverse)
     else (kParseDrop, parsed data l4 proto kForward)).
Proof.
  intros Hr El Hp. destruct (l4_bound data l4 Hr El) as [Hl4 Hd]. unfold Classify.
  rewrite load_be_seg by (offs; lia). cbn [obind]. fold (ether_type data).
  destruct (ether_type data =? RTE_ETHER_TYPE_ARP); [done|]. destruct (negb _); [done|].
  unfold ClassifyIpv4, load8. rewrite (proj2 (at_Ret _ _ proto)) by done. cbn [obind]. rewrite negb_known.
  destruct (negb _); [done|]. rewrite El. cbn [obind]. rewrite ReadPorts_eq by lia. cbn [obind].
  rewrite !load_be_seg by (offs; lia). cbn [obind].
  assert (Hf : ReadTcpFlags data l4 proto = Ret (tcp_flags data l4 proto)).
  { unfold ReadTcpFlags, tcp_flags, load8, at_. destruct (proto =? IPPROTO_TCP); cbn [negb]; [|done].
    destruct (lookup_lt_is_Some_2 data (l4 + kTcpFlagsOff)) as [x ->]; [offs; lia|done]. }
  rewrite Hf. cbn [obind]. rewrite load_bytes_seg by (offs; lia). cbn [obind].
  change (be_val (seg data kIpDst 4)) with (t_dst (tuple data l4)). fold (to_vip cfg (tuple data l4)).
  fold (to_self cfg (tuple data l4)). destruct (to_vip cfg (tuple data l4)); [done|]. now destruct (to_self cfg (tuple data l4)).
Qed.

(** The worker a packet is steered to. *)
Definition home (cfg : Config) (n_workers : Z) (data : list Z) (l4 : nat) (proto : Z) : Z :=
  let t := tuple data l4 in
  if to_vip cfg t then SteerWorker (flow_key (t_src t) (t_dst t) (t_sport t) (t_dport t) proto) n_workers
  else t_dport t mod n_workers.

Lemma ClassifyForSteer_eq cfg n data l4 proto :
  room_ok data -> l4_offset data = Ret l4 -> data !! kIpProto = Some proto -> 0 < n ->
  ClassifyForSteer cfg n data = Ret
    (if ether_type data =? RTE_ETHER_TYPE_ARP then (kArp, 0)
     else if negb (ether_type data =? RTE_ETHER_TYPE_IPV4) then (kDrop, 0)
     else if negb (known_proto proto) then (kDrop, 0)
     else if to_vip cfg (tuple data l4) || to_self cfg (tuple data l4) then (kSteer, home cfg n data l4 proto)
     else (kDrop, 0)).
Proof.
  intros Hr El Hp Hn. destruct (l4_bound data l4 Hr El) as [Hl4 Hd]. unfold ClassifyForSteer.
  rewrite load_be_seg by (offs; lia). cbn [obind]. fold (ether_type data).
  destruct (ether_type data =? RTE_ETHER_TYPE_ARP); [done|]. destruct (negb _); [done|].
  unfold load8. rewrite (proj2 (at_Ret _ _ proto)) by done. cbn [obind]. rewrite negb_known.
  destruct (negb _); [done|]. rewrite El. cbn [obind]. rewrite ReadL4Ports_eq, ReadPorts_eq by lia. cbn [obind].
  rewrite !load_be_seg by (offs; lia). cbn [obind]. destruct (Z.eqb_spec n 0); [lia|].
  change (be_val (seg data kIpDst 4)) with (t_dst (tuple data l4)). fold (to_vip cfg (tuple data l4)).
  fold (to_self cfg (tuple data l4)). unfold home. destruct (to_vip cfg (tuple data l4)); [done|]. cbn [orb].
  now destruct (to_self cfg (tuple data l4)).
Qed.

(** ** Properties *)

(** C24: the parse node sends a packet to the ARP output exactly when it is ARP, to
    the forward output exactly when it is TCP or UDP over IPv4 to the virtual
    address and port, to the reverse output exactly when it is such a packet to the
    balancer's own address otherwise, and drops the rest; what it notes of a packet
    it forwards are the addresses, ports, protocol, TCP flags and sender MAC of its
    headers. *)
Theorem Classify_correct cfg meta data l4 proto :
  room_ok data -> l4_offset data = Ret l4 -> data !! kIpProto = Some proto ->
  let t := tuple data l4 in
  let ip := ether_type data = RTE_ETHER_TYPE_IPV4 /\ (proto = IPPROTO_TCP \/ proto = IPPROTO_UDP) in
  let vip := t_dst t = value (vip cfg) /\ t_dport t = vip_port cfg in
  exists out meta', Classify cfg meta data = Ret (out, meta') /\ (out < 4)%nat /\
    (out = kParseArp <-> ether_type data = RTE_ETHER_TYPE_ARP) /\
    (out = kNextFwd <-> ip /\ vip) /\
    (out = kNextRev <-> ip /\ t_dst t = value (self_ip cfg) /\ ~ vip) /\
    (out = kNextFwd -> meta' = parsed data l4 proto kForward) /\
    (out = kNextRev -> meta' = parsed data l4 proto kReverse).
Proof.
  intros Hr El Hp t ip vp. rewrite (Classify_eq cfg meta data l4 proto) by done. fold t.
  assert (Hvip : to_vip cfg t = true <-> vp) by (unfold to_vip; rewrite andb_true_iff, !Z.eqb_eq; done).
  assert (Hself : to_self cfg t = true <-> t_dst t = value (self_ip cfg)) by (unfold to_self; apply Z.eqb_eq).
  assert (Hkn : known_proto proto = true <-> proto = IPPROTO_TCP \/ proto = IPPROTO_UDP)
    by (unfold known_proto; rewrite orb_true_iff, !Z.eqb_eq; done).
  unfold ip. destruct (Z.eqb_spec (ether_type data) RTE_ETHER_TYPE_ARP) as [->|Ha];
    [eexists _, _; split; [done|]; unfold kParseArp, kNextFwd, kNextRev; split_and!; try done; try lia; naive_solver|].
  destruct (Z.eqb_spec (ether_type data) RTE_ETHER_TYPE_IPV4) as [Hi|Hi]; cbn [negb].
  2: { eexists _, _. split; [done|]. unfold kParseArp, kParseDrop, kNextFwd, kNextRev. split_and!; try done; try lia; naive_solver. }
  destruct (known_proto proto) eqn:Ek; cbn [negb].
  2: { eexists _, _. split; [done|]. unfold kParseArp, kParseDrop, kNextFwd, kNextRev. split_and!; try done; try lia; naive_solver. }
  destruct (to_vip cfg t) eqn:Ev; [|destruct (to_self cfg t) eqn:Es]; (eexists _, _; split; [done|]);
    unfold kParseArp, kParseDrop, kNextFwd, kNextRev; split_and!; try done; try lia; naive_solver.
Qed.

(** C23: the receiving lcore and the workers classify alike: a packet is steered to
    a worker exactly when the worker's parse node sends it to the load balancer,
    goes to the ARP node exactly when the parse node would send it there, and the
    worker's number is within range. *)
Theorem steer_agrees_with_parse cfg n meta data l4 proto :
  room_ok data -> l4_offset data = Ret l4 -> data !! kIpProto = Some proto -> 0 < n ->
  exists cls worker out meta', ClassifyForSteer cfg n data = Ret (cls, worker) /\
    Classify cfg meta data = Ret (out, meta') /\ 0 <= worker < n /\
    (cls = kSteer <-> out = kNextFwd \/ out = kNextRev) /\ (cls = kArp <-> out = kParseArp) /\
    (cls = kDrop <-> out = kParseDrop).
Proof.
  intros Hr El Hp Hn. rewrite (ClassifyForSteer_eq cfg n data l4 proto), (Classify_eq cfg meta data l4 proto) by done.
  assert (Hh : 0 <= home cfg n data l4 proto < n).
  { unfold home, SteerWorker. destruct (to_vip _ _); apply Z.mod_pos_bound; lia. }
  eexists _, _, _, _. split; [apply f_equal, surjective_pairing|]. split; [apply f_equal, surjective_pairing|].
  unfold kNextFwd, kNextRev, kParseDrop, kParseArp.
  destruct (ether_type data =? RTE_ETHER_TYPE_ARP); [simpl; naive_solver lia|].
  destruct (negb (ether_type data =? RTE_ETHER_TYPE_IPV4)); [simpl; naive_solver lia|].
  destruct (negb (known_proto proto)); [simpl; naive_solver lia|].
  destruct (to_vip cfg (tuple data l4)); [|destruct (to_self cfg (tuple data l4))]; cbn [orb fst snd]; naive_solver lia.
Qed.

(** The destination MAC of a rewritten packet. *)
Definition next_hop (meta : PacketMeta) : MacAddr :=
  match m_dir meta with kForward => m_backend_mac meta | kReverse => m_client_mac meta end.

Lemma ether_rewrite_eq cfg meta data :
  MacAddr_wf (self_mac cfg) -> MacAddr_wf (next_hop meta) -> (94 <= length data)%nat ->
  ether_rewrite cfg meta data = Ret (upd (upd data kEthDst (bytes (next_hop meta))) kEthSrc (bytes (self_mac cfg))).
Proof.
  intros [Hs _] [Hn _] Hl. unfold ether_rewrite. fold (next_hop meta). offs.
  rewrite store_upd by lia. cbn [obind]. rewrite store_upd by plen. done.
Qed.

(** The checksums do not cover the Ethernet header. *)
Lemma cksums_ext data data' l4 proto :
  (94 <= length data)%nat -> length data' = length data -> (34 <= l4 <= 74)%nat ->
  (forall i, (kEthLen <= i)%nat -> data' !! i = data !! i) ->
  (ip_cksum_ok data -> ip_cksum_ok data') /\ (l4_cksum_ok data l4 proto -> l4_cksum_ok data' l4 proto).
Proof.
  intros Hd Hl Hl4 He. pose proof (cksum_at_bound l4 proto) as Hck.
  assert (Hdrop : forall off, (14 <= off)%nat -> (off + 2 <= 94)%nat ->
    drop kEthLen (upd data' off [0; 0]) = drop kEthLen (upd data off [0; 0])).
  { intros off Ho1 Ho2. apply list_eq. intros i. rewrite !lookup_drop, !lookup_upd by (simpl; lia).
    case_decide; [done|]. apply He. lia. }
  unfold ip_cksum_ok, l4_cksum_ok. rewrite !Hdrop by (offs; lia).
  rewrite (seg_ext data data' kIpCksum), (seg_ext data data' (cksum_at l4 proto)) by (intros i Hi; apply He; offs; lia).
  done.
Qed.

(** C22: a packet leaves as it should: after the DNAT and the Ethernet node it has
    the addresses and ports of its direction (the balancer's address and SNAT port
    towards the backend, the virtual address towards the client), the MAC of the next
    hop and the balancer's own, both checksums are those of the packet as it now is,
    and every other byte is untouched. *)
Theorem egress_correct cfg meta data l4 proto :
  ip_packet data l4 proto -> m_proto meta = proto -> tuple_wf (rewritten cfg meta) ->
  MacAddr_wf (self_mac cfg) -> MacAddr_wf (next_hop meta) ->
  exists d1 d2, Rewrite cfg meta data = Ret d1 /\ ether_rewrite cfg meta d1 = Ret d2 /\
    ip_packet d2 l4 proto /\ tuple d2 l4 = rewritten cfg meta /\
    seg d2 kEthDst kEthAddrLen = bytes (next_hop meta) /\ seg d2 kEthSrc kEthAddrLen = bytes (self_mac cfg) /\
    ip_cksum_ok d2 /\ l4_cksum_ok d2 l4 proto /\
    (forall i, (kEthType <= i < kIpCksum \/ kIpDst + 4 <= i < l4 \/ l4 + 4 <= i)%nat ->
       (i < cksum_at l4 proto \/ cksum_at l4 proto + 2 <= i)%nat -> d2 !! i = data !! i).
Proof.
  intros Hip Hm Hw Hs Hn.
  destruct (Rewrite_spec cfg meta data l4 proto Hip Hm Hw) as (d1 & E1 & Hip1 & Ht1 & Hic & Hlc & Ho1).
  exists d1. destruct Hip1 as [Hr1 Hty Hpr Hkn Hl4 Hih]. destruct (l4_bound d1 l4 Hr1 Hl4) as [Hl4b Hd1].
  rewrite (ether_rewrite_eq cfg meta d1) by done. eexists. split; [done|]. split; [done|].
  set (d2 := upd _ _ _). destruct Hs as [Hsl Hsb], Hn as [Hnl Hnb].
  assert (Hl2 : length d2 = length d1) by (unfold d2; offs; plen).
  assert (Ho2 : forall i, (kEthType <= i)%nat -> d2 !! i = d1 !! i).
  { intros i Hi. unfold d2. offs. rewrite !lookup_upd by plen. rewrite !decide_False by lia. done. }
  assert (H34 : (34 <= l4 <= 74)%nat) by (offs; lia).
  destruct (cksums_ext d1 d2 l4 proto Hd1 Hl2 H34) as [Hc1 Hc2]; [intros i Hi; apply Ho2; offs; lia|].
  split_and!; auto.
  - destruct Hr1 as [Hr1a Hr1b]. split; try done.
    + split; [congruence|]. unfold d2. repeat apply bytes_ok_upd; done.
    + rewrite <- Hty. unfold ether_type. f_equal. apply seg_ext. intros i Hi. apply Ho2. lia.
    + rewrite Ho2 by (offs; lia). done.
    + rewrite <- Hl4. unfold l4_offset, load8, at_. rewrite Ho2 by (offs; lia). done.
  - rewrite <- Ht1. apply tuple_ext; [lia|]. intros i Hi. apply Ho2. offs. lia.
  - unfold d2. offs. rewrite seg_upd_other by plen. apply seg_upd_at; [done|lia].
  - unfold d2. offs. apply seg_upd_at; [done|]. plen.
  - intros i Hi1 Hi2. rewrite Ho2 by (offs; lia). apply Ho1; offs; lia.
Qed.

(** ** ARP *)

Definition arp_op (data : list Z) : Z := be_val (seg data kArpOp 2).

Definition arp_target (data : list Z) : Z := be_val (seg data kArpTip 4).

(** C20: the ARP node answers exactly the requests for the balancer's own and the
    virtual address. The reply goes to the sender of the request, from the
    balancer's MAC, says that the asked address is at that MAC, and repeats the
    sender's addresses as the target; any other packet is left as it was. *)
Theorem arp_reply_correct cfg data :
  room_ok data -> MacAddr_wf (self_mac cfg) ->
  let target := arp_target data in
  if decide (arp_op data = RTE_ARP_OP_REQUEST /\ (target = value (self_ip cfg) \/ target = value (vip cfg))) then
    exists d, BuildReply cfg data = Ret (true, d) /\ room_ok d /\
      seg d kEthDst 6 = seg data kEthSrc 6 /\ seg d kEthSrc 6 = bytes (self_mac cfg) /\
      arp_op d = RTE_ARP_OP_REPLY /\ seg d kArpSha 6 = bytes (self_mac cfg) /\ be_val (seg d kArpSip 4) = target /\
      seg d kArpTha 6 = seg data kArpSha 6 /\ seg d kArpTip 4 = seg data kArpSip 4 /\
      (forall i, (kEthType <= i < kArpOp \/ kArpTip + 4 <= i)%nat -> d !! i = data !! i)
  else BuildReply cfg data = Ret (false, data).
Proof.
  intros [Hl Hb] [Hsl Hsb] target. pose proof data_room_min as Hroom. rewrite <- Hl in Hroom.
  unfold BuildReply. rewrite !load_be_seg by (offs; lia). cbn [obind]. fold (arp_op data) (arp_target data). fold target.
  case_decide as Hc.
  - destruct Hc as [-> Ht]. rewrite Z.eqb_refl. cbn [negb].
    replace (negb (target =? value (self_ip cfg)) && negb (target =? value (vip cfg))) with false
      by (destruct Ht as [->| ->]; rewrite Z.eqb_refl; cbn [negb]; now rewrite ?andb_false_r).
    set (self := bytes (self_mac cfg)) in *. offs.
    assert (Hself : length self = 6%nat) by done.
    assert (Hl6 : length (seg data 6 6) = 6%nat) by (apply length_seg; lia).
    assert (Hl22 : length (seg data 22 6) = 6%nat) by (apply length_seg; lia).
    assert (Hl28 : length (seg data 28 4) = 4%nat) by (apply length_seg; lia).
    rewrite load_bytes_seg by lia. cbn [obind]. rewrite store_upd by lia. cbn [obind]. rewrite store_upd by plen. cbn [obind].
    rewrite store_be_upd by plen. cbn [obind]. rewrite load_bytes_seg by plen. cbn [obind].
    rewrite !seg_upd_other by plen. rewrite store_upd by plen. cbn [obind]. rewrite load_bytes_seg by plen. cbn [obind].
    rewrite !seg_upd_other by plen. rewrite store_upd by plen. cbn [obind]. rewrite store_upd by plen. cbn [obind].
    rewrite store_be_upd by plen. cbn [obind]. eexists. split; [done|].
    split.
    { split; [plen|]. repeat (apply bytes_ok_upd || apply be_bytes_ok || apply bytes_ok_seg); done. }
    unfold arp_op. offs.
    split_and!; try (rewrite ?seg_upd_other by plen; apply seg_upd_at; [done|plen]).
    + rewrite !seg_upd_other by plen. rewrite seg_upd_at by (done || plen). now apply be_val_bytes.
    + rewrite seg_upd_at by (done || plen). apply be_val_bytes. unfold target, arp_target. offs.
      pose proof (be_val_range (seg data 38 4) (bytes_ok_seg _ _ _ Hb)) as Hrg. now rewrite length_seg in Hrg by lia.
    + intros i Hi. rewrite !lookup_upd by plen. rewrite ?length_be_bytes, !decide_False by lia. done.
  - destruct (Z.eqb_spec (arp_op data) RTE_ARP_OP_REQUEST) as [Ho|]; [|done]. cbn [negb].
    destruct (Z.eqb_spec target (value (self_ip cfg))); [naive_solver|].
    destruct (Z.eqb_spec target (value (vip cfg))); [naive_solver|]. done.
Qed.

(** ** A connection, there and back *)

Lemma seg_range data off n : bytes_ok data -> (off + n <= length data)%nat -> 0 <= be_val (seg data off n) < 2 ^ (8 * Z.of_nat n).
Proof.
  intros Hb Hl. pose proof (be_val_range (seg data off n) (bytes_ok_seg _ _ _ Hb)) as Hr. now rewrite length_seg in Hr.
Qed.

Lemma tuple_range data l4 proto : ip_packet data l4 proto -> tuple_wf (tuple data l4).
Proof.
  intros [Hr _ _ _ El _]. destruct (l4_bound data l4 Hr El) as [Hl4 Hd]. destruct Hr as [_ Hb].
  split_and!; cbn [tuple t_src t_dst t_sport t_dport]; first [apply (seg_range data _ 4)|apply (seg_range data _ 2)];
    first [done|offs; lia].
Qed.

Lemma parsed_wf data l4 proto dir : ip_packet data l4 proto -> meta_wf (parsed data l4 proto dir).
Proof.
  intros Hip. pose proof (tuple_range data l4 proto Hip) as (H1 & H2 & H3 & H4). destruct Hip as [Hr _ _ Hk El _].
  destruct (l4_bound data l4 Hr El) as [Hl4 Hd]. destruct Hr as [_ Hb].
  assert (Hfl : 0 <= tcp_flags data l4 proto < 2 ^ 8).
  { unfold tcp_flags. destruct (proto =? IPPROTO_TCP); [|lia].
    destruct (lookup_lt_is_Some_2 data (l4 + kTcpFlagsOff)) as [x Hx]; [offs; lia|]. rewrite Hx.
    pose proof (Forall_lookup_1 _ _ _ _ Hb Hx) as Hxr. exact Hxr. }
  assert (Hpr : 0 <= proto < 2 ^ 8) by (unfold IPPROTO_TCP, IPPROTO_UDP in Hk; lia).
  split; [exact H1|]. split; [exact H2|]. split; [exact H3|]. split; [exact H4|]. split; [exact Hpr|]. split; [exact Hfl|].
  split; cbn [bytes]; [apply length_seg; offs; lia|now apply bytes_ok_seg].
Qed.

Lemma lb_reach_workers ok w n k now lb : lb_reach ok w n k now lb -> 0 < n.
Proof. induction 1; done. Qed.

#[local] Opaque worker_ports.

Definition addr_wf (addr : nat -> Z * Z) : Prop :=
  forall i, 0 <= (addr i).1 < 2 ^ 32 /\ 0 <= (addr i).2 < 2 ^ 16.

(** What a forward packet that was let through is rewritten to. *)
Lemma accepted_rewrite cfg addr w n k now lb meta pool m1 lb1 :
  Config_wf cfg -> addr_wf addr ->
  lb_reach (addressed addr) w n k now lb -> usable pool -> addressed addr pool -> meta_wf meta ->
  m_dir meta = kForward -> plain meta -> HandlePacket lb meta pool now = Ret (true, m1, lb1) ->
  tuple_wf (rewritten cfg m1) /\ m_proto m1 = m_proto meta /\
  rewritten cfg m1 = mkTuple (value (self_ip cfg)) (value (m_backend_ip m1)) (m_snat_port m1) (m_backend_port m1) /\
  kEphemeralLow <= m_snat_port m1.
Proof.
  intros (_ & _ & Hself & _) Haw Hr Hu Hok Hm Hd Hp E. pose proof (lb_reach_inv _ _ _ _ _ _ Hr) as (Hi & _ & _).
  destruct (accepted_forward _ _ _ _ _ _ _ Hi (lb_ports_nonzero w n) Hu (meta_wf_mac _ Hm) Hd Hp E) as (f & Hv & -> & _).
  pose proof (lbr_packet _ _ _ _ _ _ _ _ _ _ _ Hr Hu Hok Hm E) as Hr1.
  pose proof (reach_addressed _ _ _ _ _ _ _ _ Hr1 Hv) as Ha. apply lb_reach_inv in Hr1 as (Hi1 & _ & _).
  destruct (view_slot _ _ _ _ _ _ Hi1 Hv) as (_ & _ & _ & _ & _ & _ & Hport).
  apply elem_of_worker_ports in Hport. assert (Hpr : 1024 <= nf_snat_port f <= 65535) by exact (proj1 Hport). clear Hport.
  specialize (Haw (Z.to_nat (nf_backend_idx f))). rewrite <- Ha in Haw. cbn [fst snd] in Haw.
  unfold rewritten. cbn [to_backend set_backend m_dir m_proto m_backend_ip m_backend_port m_snat_port value]. rewrite Hd.
  split_and!; cbn [t_src t_dst t_sport t_dport value]; try done.
  - unfold tuple_wf. cbn [t_src t_dst t_sport t_dport]. lia.
  - unfold kEphemeralLow. lia.
Qed.

(** C1: full NAT end to end, on the bytes. A client's packet to the virtual address
    that is let through and carries neither RST nor FIN leaves towards the backend from
    the balancer's address and an SNAT port. An answer of the backend to that packet is
    steered to the same worker, classified as a reverse packet, matched to the connection
    and leaves towards the client with the addresses and ports of the client's packet
    exchanged, whatever packets came in between, of this connection in either direction
    and of others. It holds while the connection has been neither closed by its packets
    nor idle for longer than the timeout and at most [kCapacity] flows have been opened,
    with the millisecond clock below 2^32, for backends at distinct fixed addresses and a
    virtual address that is not the balancer's own or has its port below the SNAT range. *)
Theorem full_nat_roundtrip cfg addr w n k now lb pool data l4 proto m1 lb1 last k2 now2 lb2 pool2 reply l4' m0 :
  Config_wf cfg -> (value (vip cfg) <> value (self_ip cfg) \/ vip_port cfg < kEphemeralLow) ->
  distinct_addrs addr -> addr_wf addr ->
  lb_reach (addressed addr) w n k now lb -> usable pool -> addressed addr pool ->
  ip_packet data l4 proto -> to_vip cfg (tuple data l4) = true -> plain (parsed data l4 proto kForward) ->
  HandlePacket lb (parsed data l4 proto kForward) pool now = Ret (true, m1, lb1) ->
  let rev := (value (m_backend_ip m1), m_backend_port m1, m_snat_port m1, proto) in
  traffic (addressed addr) (fk_bytes (packet_key (parsed data l4 proto kForward))) rev (timeout_ms_ (nat_ lb1)) now lb1 last now2 lb2 ->
  lb_reach (addressed addr) w n k2 now2 lb2 -> Z.of_nat k2 <= kCapacity ->
  exists d1, Rewrite cfg m1 data = Ret d1 /\
    tuple d1 l4 = mkTuple (value (self_ip cfg)) (value (m_backend_ip m1)) (m_snat_port m1) (m_backend_port m1) /\
    (ip_packet reply l4' proto -> tuple reply l4' = swap (tuple d1 l4) ->
     ClassifyForSteer cfg n reply = Ret (kSteer, w) /\
     exists mr m2 lb3 d2, Classify cfg m0 reply = Ret (kNextRev, mr) /\
       HandlePacket lb2 mr pool2 now2 = Ret (true, m2, lb3) /\
       Rewrite cfg m2 reply = Ret d2 /\ tuple d2 l4' = swap (tuple data l4)).
Proof.
  intros Hcfg Hvs Hda Haw Hr Hu Hok Hip Hvip Hpl E rev Hoth Hr2 Hk2.
  set (meta := parsed data l4 proto kForward) in *.
  pose proof (parsed_wf data l4 proto kForward Hip) as Hm.
  destruct (accepted_rewrite cfg addr w n k now lb meta pool m1 lb1) as (Hwf & Hpr & Hrw & Hlow); try done.
  destruct (Rewrite_spec cfg m1 data l4 proto Hip Hpr Hwf) as (d1 & E1 & _ & Ht1 & _).
  exists d1. rewrite Ht1, Hrw. split; [done|]. split; [done|]. intros Hipr Htr. unfold swap in Htr. cbn [t_src t_dst t_sport t_dport] in Htr.
  set (mr := parsed reply l4' proto kReverse).
  assert (Hrv : packet_rev mr = rev).
  { unfold packet_rev, mr, parsed. cbn [set_dir set_client_mac set_flags packet_meta m_src_ip m_src_port m_dst_port m_proto].
    rewrite Htr. done. }
  destruct (return_path addr w n k now lb meta pool m1 lb1 last k2 now2 lb2 mr pool2) as (Hmod & mac & lb3 & E3 & _); try done.
  assert (Hnv : to_vip cfg (tuple reply l4') = false).
  { rewrite Htr. unfold to_vip. cbn [t_dst t_dport]. apply andb_false_iff. rewrite !Z.eqb_neq. lia. }
  assert (Hsf : to_self cfg (tuple reply l4') = true) by (rewrite Htr; apply Z.eqb_refl).
  destruct Hipr as [Hrr Hty Hprr Hkn Hl4r Hih].
  assert (Hkp : known_proto proto = true) by (unfold known_proto; destruct Hkn; subst proto; done).
  pose proof (lb_reach_workers _ _ _ _ _ _ Hr) as Hn.
  split.
  - rewrite (ClassifyForSteer_eq cfg n reply l4' proto) by done. rewrite Hty, Hkp, Hnv, Hsf. cbn [Z.eqb negb orb].
    unfold home. rewrite Hnv, Htr. cbn [t_dport]. now rewrite Hmod.
  - exists mr. rewrite (Classify_eq cfg m0 reply l4' proto) by done. rewrite Hty, Hkp, Hnv, Hsf. cbn [Z.eqb negb].
    eexists _, lb3. pose proof (tuple_range data l4 proto Hip) as (Hs & _ & Hsp & _).
    destruct Hcfg as (Hvw & Hvpw & _).
    destruct (Rewrite_spec cfg (set_client mr (mkIPv4Addr (m_src_ip meta)) (m_src_port meta) mac) reply l4' proto)
      as (d2 & E2 & _ & Ht2 & _); [by split|done|exact (conj Hvw (conj Hs (conj Hvpw Hsp)))|].
    exists d2. split; [done|]. split; [exact E3|]. split; [exact E2|]. rewrite Ht2.
    apply andb_true_iff in Hvip as [Hv1%Z.eqb_eq Hv2%Z.eqb_eq]. unfold swap. rewrite Hv1, Hv2. reflexivity.
Qed.

(** ** No backend left *)

(** A pool whose backends are all disabled. *)
Definition none_active (pool : BackendPool) : Prop := BackendPool_wf pool /\ bp_active pool = [].

Lemma lb_drop_all items w n0 n1 :
  frame_wf n1 -> count n1 + Z.of_nat (length items) <= kBurstSize ->
  exists n1', each lb_drop items w [n0; n1] = Ret (w, [n0; n1']) /\ packets n1' = packets n1 ++ items.
Proof.
  revert n1. induction items as [|m items IH]; intros n1 Hf Hc; cbn [each]; [exists n1; now rewrite app_nil_r|].
  cbn [length] in Hc. unfold lb_drop at 1, move_to. cbn [at_ lookup list_lookup kLbDrop obind].
  destruct (Push_spec n1 m Hf) as (n1' & E & Hf' & Hp & Hc'); [unfold Full; apply Z.eqb_neq; lia|].
  change (at_ [n0; n1] kLbDrop) with (Ret n1). cbn [obind]. rewrite E. cbn [obind].
  change (<[kLbDrop := n1']> [n0; n1]) with [n0; n1']. destruct (IH n1' Hf') as (n2 & -> & Hp2); [lia|].
  exists n2. split; [done|]. now rewrite Hp2, Hp, <- app_assoc.
Qed.

(** With no active backend the load balancer drops every packet, those of
    established connections and the answers of backends among them, and leaves the
    connections as they are. *)
Theorem no_backend_drops_all w f n0 n1 pool :
  Load (w_pool w) = Some pool -> none_active pool ->
  frame_wf f -> frame_wf n1 -> count n1 = 0 ->
  exists n1', Lb_Process w f [n0; n1] = Ret (w, f, [n0; n1']) /\ packets n1' = packets f.
Proof.
  intros Hp [Hw Ha] Hf Hn1 Hc. unfold Lb_Process. rewrite frame_items_wf by done. cbn [obind]. rewrite Hp.
  replace (ActiveCount pool) with 0 by (symmetry; now apply ActiveCount_zero). cbn [Z.eqb].
  destruct (lb_drop_all (packets f) w n0 n1 Hn1) as (n1' & -> & Hpk).
  - rewrite length_packets by done. destruct Hf. lia.
  - cbn [obind]. exists n1'. split; [done|]. rewrite Hpk. apply packets_nil in Hc as ->; done.
Qed.

End Spec.
