(* ===== verification/PacketSamples.v ===== *)
(** * The packet theorems on concrete packets *)

From S2P Require Import Prelude FlowKey NetTypes PortPool BackendPool NatTable NatTableFacts NatTableSpec Ipc.
From S2P Require Import PacketMeta LbNode LbFacts LbSpec Graph GraphFacts GraphSpec Packet Nodes NodeFacts.
From S2P Require Import Dataplane DataplaneSpec SampleDevice DataplaneSamples PacketSpec.

#[local] Opaque worker_ports.

#[local] Existing Instance BackendPool.test_build.
#[local] Existing Instance SampleDevice.sample_dpdk.

(** The client's SYN in its data room, and an answer to a SNAT port. *)
Definition syn_data : list Z := pad client_syn.

Definition answer (dport : Z) : list Z :=
  pad (tcp_packet (value (m_backend_ip LbSamples.syn_out)) (value (self_ip sample_config))
         (m_backend_port LbSamples.syn_out) dport 18).

Lemma pad_room data : room_ok (pad data).
Proof. apply pad_ok. Qed.

Lemma syn_packet : ip_packet syn_data 34 6.
Proof.
  split; [apply pad_room|vm_compute; reflexivity|vm_compute; reflexivity|now left|vm_compute; reflexivity|].
  unfold kEthLen. lia.
Qed.

Lemma sample_config_wf : Config_wf sample_config.
Proof.
  assert (Hb : forall l, length l = kMacLen -> forallb (fun b => (0 <=? b) && (b <? 256)) l = true -> MacAddr_wf (mkMacAddr l)).
  { intros l Hl Hf. split; [done|]. apply Forall_forall. intros b Hb%list_elem_of_In. rewrite forallb_forall in Hf.
    specialize (Hf b Hb). cbn in Hf. bool_prop. lia. }
  split_and!; try (simpl; lia); try (apply Hb; reflexivity).
  apply Forall_cons. split; [|constructor]. split_and!; try (simpl; lia). apply Hb; reflexivity.
Qed.

Lemma parsed_syn : parsed syn_data 34 6 kForward = LbSamples.syn.
Proof. vm_compute. reflexivity. Qed.

Lemma Classify_correct_witness :
  let t := tuple syn_data 34 in
  let ip := ether_type syn_data = RTE_ETHER_TYPE_IPV4 /\ (6 = IPPROTO_TCP \/ 6 = IPPROTO_UDP) in
  let vip := t_dst t = value (vip sample_config) /\ t_dport t = vip_port sample_config in
  exists out meta', Classify sample_config LbSamples.other_syn syn_data = Ret (out, meta') /\ (out < 4)%nat /\
    (out = kParseArp <-> ether_type syn_data = RTE_ETHER_TYPE_ARP) /\
    (out = kNextFwd <-> ip /\ vip) /\
    (out = kNextRev <-> ip /\ t_dst t = value (self_ip sample_config) /\ ~ vip) /\
    (out = kNextFwd -> meta' = parsed syn_data 34 6 kForward) /\
    (out = kNextRev -> meta' = parsed syn_data 34 6 kReverse).
Proof. apply (Classify_correct sample_config LbSamples.other_syn syn_data 34 6); [apply pad_room|vm_compute; reflexivity..]. Defined.

Lemma steer_agrees_with_parse_witness :
  exists cls worker out meta', ClassifyForSteer sample_config 31 syn_data = Ret (cls, worker) /\
    Classify sample_config LbSamples.other_syn syn_data = Ret (out, meta') /\ 0 <= worker < 31 /\
    (cls = kSteer <-> out = kNextFwd \/ out = kNextRev) /\ (cls = kArp <-> out = kParseArp) /\
    (cls = kDrop <-> out = kParseDrop).
Proof.
  apply (steer_agrees_with_parse sample_config 31 LbSamples.other_syn syn_data 34 6);
    [apply pad_room|vm_compute; reflexivity..].
Defined.

Lemma egress_correct_witness :
  exists d1 d2, Rewrite sample_config LbSamples.syn_out syn_data = Ret d1 /\
    ether_rewrite sample_config LbSamples.syn_out d1 = Ret d2 /\
    ip_packet d2 34 6 /\ tuple d2 34 = rewritten sample_config LbSamples.syn_out /\
    seg d2 kEthDst kEthAddrLen = bytes (next_hop LbSamples.syn_out) /\
    seg d2 kEthSrc kEthAddrLen = bytes (self_mac sample_config) /\
    ip_cksum_ok d2 /\ l4_cksum_ok d2 34 6 /\
    (forall i, (kEthType <= i < kIpCksum \/ kIpDst + 4 <= i < 34 \/ 34 + 4 <= i)%nat ->
       (i < cksum_at 34 6 \/ cksum_at 34 6 + 2 <= i)%nat -> d2 !! i = syn_data !! i).
Proof.
  apply (egress_correct sample_config LbSamples.syn_out syn_data 34 6).
  - apply syn_packet.
  - vm_compute. reflexivity.
  - vm_compute. repeat split; discriminate.
  - apply self_mac_ok.
  - split; [vm_compute; reflexivity|]. apply (bool_decide_eq_true_1 _). vm_compute. reflexivity.
Defined.

(** Who has 10.0.1.253? *)
Definition arp_request (target : Z) : list Z :=
  pad (replicate 6 255 ++ [2; 0; 0; 0; 0; 5] ++ be_bytes 2 2054 ++ [0; 1; 8; 0; 6; 4] ++ be_bytes 2 1 ++
       [2; 0; 0; 0; 0; 5] ++ be_bytes 4 3232235525 ++ replicate 6 0 ++ be_bytes 4 target).

Example arp_answered :
  (let! '(r, d) := BuildReply sample_config (arp_request 167772669) in
   Ret (r, seg d kArpSha 6, be_val (seg d kArpSip 4), arp_op d)) =
  Ret (true, bytes (self_mac sample_config), 167772669, 2).
Proof. vm_compute. reflexivity. Qed.

Lemma arp_reply_correct_witness :
  let data := arp_request 167772669 in
  let target := arp_target data in
  if decide (arp_op data = RTE_ARP_OP_REQUEST /\
    (target = value (self_ip sample_config) \/ target = value (vip sample_config))) then
    exists d, BuildReply sample_config data = Ret (true, d) /\ room_ok d /\
      seg d kEthDst 6 = seg data kEthSrc 6 /\ seg d kEthSrc 6 = bytes (self_mac sample_config) /\
      arp_op d = RTE_ARP_OP_REPLY /\ seg d kArpSha 6 = bytes (self_mac sample_config) /\
      be_val (seg d kArpSip 4) = target /\
      seg d kArpTha 6 = seg data kArpSha 6 /\ seg d kArpTip 4 = seg data kArpSip 4 /\
      (forall i, (kEthType <= i < kArpOp \/ kArpTip + 4 <= i)%nat -> d !! i = data !! i)
  else BuildReply sample_config data = Ret (false, data).
Proof. intros data. apply (arp_reply_correct sample_config data); [apply pad_room|apply self_mac_ok]. Defined.

(** The backends at their addresses. *)
Definition addr3 (i : nat) : Z * Z := (u32 (167772417 + Z.of_nat i), 8080).

Lemma addr3_wf : addr_wf addr3.
Proof. intros i. split; [apply u32_range|simpl; lia]. Qed.

Lemma addr3_distinct : distinct_addrs addr3.
Proof.
  intros i j Hi Hj E. unfold addr3, kMaxBackends in *. rewrite !u32_small in E by lia. injection E. lia.
Qed.

Lemma pool2_addressed3 : addressed addr3 LbSamples.pool2.
Proof. intros [|[|i]] b Hb; simpl in Hb; simplify_eq; done. Qed.

Lemma full_nat_roundtrip_witness :
  exists d1, Rewrite sample_config LbSamples.syn_out syn_data = Ret d1 /\
    tuple d1 34 = mkTuple (value (self_ip sample_config)) (value (m_backend_ip LbSamples.syn_out))
      (m_snat_port LbSamples.syn_out) (m_backend_port LbSamples.syn_out) /\
    (ip_packet (answer 20001) 34 6 -> tuple (answer 20001) 34 = swap (tuple d1 34) ->
     ClassifyForSteer sample_config 20000 (answer 20001) = Ret (kSteer, 1) /\
     exists mr m2 lb3 d2, Classify sample_config LbSamples.other_syn (answer 20001) = Ret (kNextRev, mr) /\
       HandlePacket LbSamples.lb4 mr LbSamples.pool2 31500 = Ret (true, m2, lb3) /\
       Rewrite sample_config m2 (answer 20001) = Ret d2 /\ tuple d2 34 = swap (tuple syn_data 34)).
Proof.
  apply (full_nat_roundtrip sample_config addr3 1 20000 0 1000 LbSamples.lb0 LbSamples.pool2 syn_data 34 6
    LbSamples.syn_out LbSamples.lb1 2000 2 31500 LbSamples.lb4 LbSamples.pool2 (answer 20001) 34 LbSamples.other_syn).
  - apply sample_config_wf.
  - right. vm_compute. reflexivity.
  - apply addr3_distinct.
  - apply addr3_wf.
  - apply LbSamples.lb0_reach.
  - apply LbSamples.pool2_usable.
  - apply pool2_addressed3.
  - apply syn_packet.
  - vm_compute. reflexivity.
  - split; vm_compute; reflexivity.
  - rewrite parsed_syn. apply LbSamples.syn_handled.
  - rewrite parsed_syn. apply LbSamples.traffic_between, pool2_addressed3.
  - apply LbSamples.lb4_reach, pool2_addressed3.
  - vm_compute. discriminate.
Defined.

(** The premises on the answer hold as well. *)
Example answer_packet : ip_packet (answer 20001) 34 6 /\ m_snat_port LbSamples.syn_out = 20001.
Proof.
  split; [|vm_compute; reflexivity].
  split; [apply pad_room|vm_compute; reflexivity|vm_compute; reflexivity|now left|vm_compute; reflexivity|].
  unfold kEthLen. lia.
Qed.

Definition pool_off : BackendPool := mkBackendPool (sample_backend <$> [1; 2]) [].

Definition world_off : Lcore :=
  mkLcore (w_dev world0) (w_mem world0) LbSamples.lb1 (mkAtomicRcu (Some pool_off)).

Definition frame_of (l : list mbuf_ptr) : Frame := mkFrame (l ++ replicate (64 - length l) 0) (Z.of_nat (length l)).

Lemma no_backend_drops_all_witness :
  exists n1', Lb_Process world_off (frame_of [1; 2]) [Frame_new; Frame_new] = Ret (world_off, frame_of [1; 2], [Frame_new; n1']) /\
    packets n1' = packets (frame_of [1; 2]).
Proof.
  apply (no_backend_drops_all world_off (frame_of [1; 2]) Frame_new Frame_new pool_off).
  - reflexivity.
  - split; [|reflexivity]. split_and!; [simpl; lia|constructor|constructor].
  - split; [reflexivity|vm_compute; split; discriminate].
  - apply Frame_new_wf.
  - reflexivity.
Defined.
