(* ===== verification/Shm.v ===== *)
(** * Shared-memory segments ([libs/ipc/src/shm_provider.cpp])

    The constructor and the destructor of [ShmProvider] over the POSIX calls they
    make. The calls are the class [Posix], a state machine whose state has the open
    descriptors and the mappings of the process; a mapping is a non-null pointer and
    its first bytes are a [ShmHeader]. An exception is a value: the constructor gives
    it or the object, and the state it leaves. *)

From S2P Require Import Prelude NetTypes Ipc.

Inductive Mode := kCreate | kAttach.

#[export] Instance Mode_eq_dec : EqDecision Mode.
Proof. solve_decision. Defined.

Class Posix := {
  os : Type;
  open_fds : os -> list Z;
  mappings : os -> list Z;
  shm_open : os -> string -> Mode -> Z * os;
  ftruncate : os -> Z -> Z -> Z * os;
  fchmod : os -> Z -> Z * os;
  fstat : os -> Z -> Z * Z * os;
  mmap : os -> Z -> Z -> option Z * os;
  munmap : os -> Z -> Z -> os;
  close_fd : os -> Z -> os;
  shm_unlink : os -> string -> os;
  load_header : os -> Z -> ShmHeader;
  store_header : os -> Z -> ShmHeader -> os;
  shm_open_law : forall o name m fd o', shm_open o name m = (fd, o') ->
    mappings o' = mappings o /\ open_fds o' = (if fd <? 0 then open_fds o else fd :: open_fds o);
  ftruncate_law : forall o fd size rc o', ftruncate o fd size = (rc, o') ->
    open_fds o' = open_fds o /\ mappings o' = mappings o;
  fchmod_law : forall o fd rc o', fchmod o fd = (rc, o') -> open_fds o' = open_fds o /\ mappings o' = mappings o;
  fstat_law : forall o fd rc size o', fstat o fd = (rc, size, o') -> open_fds o' = open_fds o /\ mappings o' = mappings o;
  mmap_law : forall o fd size p o', mmap o fd size = (p, o') ->
    open_fds o' = open_fds o /\ mappings o' = option_list p ++ mappings o /\ p <> Some 0;
  munmap_law : forall o p size l, mappings o = p :: l ->
    open_fds (munmap o p size) = open_fds o /\ mappings (munmap o p size) = l;
  close_fd_law : forall o fd l, open_fds o = fd :: l ->
    open_fds (close_fd o fd) = l /\ mappings (close_fd o fd) = mappings o;
  shm_unlink_law : forall o name, open_fds (shm_unlink o name) = open_fds o /\ mappings (shm_unlink o name) = mappings o;
  store_header_law : forall o p h, open_fds (store_header o p h) = open_fds o /\
    mappings (store_header o p h) = mappings o /\ load_header (store_header o p h) p = h;
}.

(** The object; [ptr_] 0 is the null pointer, [MAP_FAILED] is never kept. *)
Record ShmProvider := mkShmProvider { name_ : string; size_ : Z; mode_ : Mode; fd_ : Z; ptr_ : Z }.

Section Shm.
Context `{Posix}.

Definition VerifyAttachSize (o : os) (shm_fd want : Z) (name : string) : option exn * os :=
  let '(rc, st_size, o) := fstat o shm_fd in
  if rc <? 0 then (Some (runtime_error ("fstat failed: " ++ name)%string), o)
  else if u64 st_size <? want then (Some (runtime_error ("shm segment smaller than expected: " ++ name)%string), o)
  else (None, o).

Definition ApplyHeader (o : os) (ptr : Z) (mode : Mode) (name : string) : option exn * os :=
  if decide (mode = kCreate) then (None, store_header o ptr (InitShmHeader (load_header o ptr)))
  else if negb (CheckShmHeader (load_header o ptr)) then (Some (runtime_error ("shm magic/version mismatch: " ++ name)%string), o)
  else (None, o).

(** The [try] block: an exception or none, the state, and [ptr_] at that moment. *)
Definition shm_try (o : os) (name : string) (size : Z) (mode : Mode) (fd : Z) : option exn * os * Z :=
  let '(e, o) :=
    if decide (mode = kCreate) then
      let '(rc, o) := ftruncate o fd size in
      if rc <? 0 then (Some (runtime_error "ftruncate failed"%string), o)
      else
        let '(rc, o) := fchmod o fd in
        if rc <? 0 then (Some (runtime_error "fchmod failed"%string), o) else (None, o)
    else (None, o) in
  match e with
  | Some e => (Some e, o, 0)
  | None =>
      let '(e, o) := if decide (mode = kAttach) then VerifyAttachSize o fd size name else (None, o) in
      match e with
      | Some e => (Some e, o, 0)
      | None =>
          let '(p, o) := mmap o fd size in
          match p with
          | None => (Some (runtime_error "mmap failed"%string), o, 0)
          | Some ptr =>
              let '(e, o) := ApplyHeader o ptr mode name in (e, o, ptr)
          end
      end
  end.

(** The [catch] block, before it throws again. *)
Definition shm_catch (o : os) (name : string) (size : Z) (mode : Mode) (fd ptr : Z) : os :=
  let o := if negb (ptr =? 0) then munmap o ptr size else o in
  let o := close_fd o fd in
  if decide (mode = kCreate) then shm_unlink o name else o.

(** The constructor. *)
Definition ShmProvider_new (o : os) (name : string) (size : Z) (mode : Mode) : (exn + ShmProvider) * os :=
  let '(fd, o) := shm_open o name mode in
  if fd <? 0 then (inl (runtime_error ("shm_open failed: " ++ name)%string), o)
  else
    match shm_try o name size mode fd with
    | (Some e, o, ptr) => (inl e, shm_catch o name size mode fd ptr)
    | (None, o, ptr) => (inr (mkShmProvider name size mode fd ptr), o)
    end.

(** The destructor. *)
Definition ShmProvider_delete (o : os) (p : ShmProvider) : os :=
  let o := if negb (ptr_ p =? 0) then munmap o (ptr_ p) (size_ p) else o in
  let o := if 0 <=? fd_ p then close_fd o (fd_ p) else o in
  if decide (mode_ p = kCreate) then shm_unlink o (name_ p) else o.

(** [As<T>]: the assertion and the pointer. *)
Definition As (p : ShmProvider) (sizeof_T : Z) : outcome Z := if sizeof_T <=? size_ p then Ret (ptr_ p) else Undef.

(** The two attachments of [MonitorComponent]'s constructor: an exception leaves the
    null pointer, and the component goes on without the segment. *)
Definition attach_or_null (o : os) (name : string) (sizeof_T : Z) : option ShmProvider * os :=
  match ShmProvider_new o name sizeof_T kAttach with
  | (inl _, o) => (None, o)
  | (inr p, o) => (Some p, o)
  end.

Definition monitor_attach (o : os) (stats_size control_size : Z) : option ShmProvider * option ShmProvider * os :=
  let '(shm, o) := attach_or_null o "/cerebellum_stats" stats_size in
  let '(control_shm, o) := attach_or_null o "/cerebellum_control" control_size in
  (shm, control_shm, o).

(** ** Proofs *)

Definition same_handles (o o' : os) : Prop := open_fds o' = open_fds o /\ mappings o' = mappings o.

Lemma same_handles_trans o1 o2 o3 : same_handles o1 o2 -> same_handles o2 o3 -> same_handles o1 o3.
Proof. intros [] []. split; congruence. Qed.

Lemma VerifyAttachSize_spec o fd want name e o' :
  VerifyAttachSize o fd want name = (e, o') ->
  same_handles o o' /\ (e = None -> exists rc size, fstat o fd = (rc, size, o') /\ 0 <= rc /\ want <= u64 size).
Proof.
  unfold VerifyAttachSize. destruct (fstat o fd) as [[rc size] o1] eqn:E. pose proof (fstat_law _ _ _ _ _ E) as Hl.
  destruct (Z.ltb_spec rc 0); [intros [= <- <-]; split; [done|done]|].
  destruct (Z.ltb_spec (u64 size) want); intros [= <- <-]; (split; [done|]); [done|eauto].
Qed.

Lemma ApplyHeader_spec o ptr mode name e o' :
  ApplyHeader o ptr mode name = (e, o') ->
  same_handles o o' /\ (e = None -> CheckShmHeader (load_header o' ptr) = true).
Proof.
  unfold ApplyHeader. case_decide.
  - intros [= <- <-]. destruct (store_header_law o ptr (InitShmHeader (load_header o ptr))) as (H1 & H2 & H3).
    split; [done|]. intros _. now rewrite H3.
  - destruct (CheckShmHeader (load_header o ptr)) eqn:E; intros [= <- <-]; (split; [done|]); [done|discriminate].
Qed.

(** What the [try] block holds when it ends. *)
Lemma shm_try_spec o name size mode fd e o' ptr :
  shm_try o name size mode fd = (e, o', ptr) ->
  open_fds o' = open_fds o /\
  ((ptr = 0 /\ mappings o' = mappings o /\ e <> None) \/
   (ptr <> 0 /\ mappings o' = ptr :: mappings o /\ (e = None -> CheckShmHeader (load_header o' ptr) = true))).
Proof.
  unfold shm_try.
  assert (H1 : forall e1 o1, (if decide (mode = kCreate) then
      let '(rc, o) := ftruncate o fd size in
      if rc <? 0 then (Some (runtime_error "ftruncate failed"%string), o)
      else let '(rc, o) := fchmod o fd in
        if rc <? 0 then (Some (runtime_error "fchmod failed"%string), o) else (None, o)
    else (None, o)) = (e1, o1) -> same_handles o o1).
  { intros e1 o1. case_decide; [|intros [= _ <-]; done]. destruct (ftruncate o fd size) as [rc o2] eqn:E2.
    apply ftruncate_law in E2. destruct (rc <? 0); [intros [= _ <-]; done|].
    destruct (fchmod o2 fd) as [rc3 o3] eqn:E3. apply fchmod_law in E3.
    pose proof (same_handles_trans _ _ _ E2 E3). destruct (rc3 <? 0); intros [= _ <-]; done. }
  destruct (if decide (mode = kCreate) then _ else _) as [e1 o1]. specialize (H1 e1 o1 eq_refl).
  destruct e1; [intros [= <- <- <-]; split; [apply H1|left; split_and!; [done|apply H1|done]]|].
  assert (H2 : forall e2 o2, (if decide (mode = kAttach) then VerifyAttachSize o1 fd size name else (None, o1)) = (e2, o2) ->
    same_handles o o2).
  { intros e2 o2. case_decide; [|intros [= _ <-]; done]. intros [Hv _]%VerifyAttachSize_spec.
    eapply same_handles_trans; eauto. }
  destruct (if decide (mode = kAttach) then _ else _) as [e2 o2]. specialize (H2 e2 o2 eq_refl).
  destruct e2; [intros [= <- <- <-]; split; [apply H2|left; split_and!; [done|apply H2|done]]|].
  destruct (mmap o2 fd size) as [p o3] eqn:E3. apply mmap_law in E3 as (Hf3 & Hm3 & Hp3). destruct H2 as [Hf2 Hm2].
  destruct p as [p|]; simpl in Hm3.
  - destruct (ApplyHeader o3 p mode name) as [e4 o4] eqn:E4. apply ApplyHeader_spec in E4 as [[Hf4 Hm4] Hc].
    intros [= <- <- <-]. split; [congruence|]. right. split_and!; [congruence|congruence|done].
  - intros [= <- <- <-]. split; [congruence|]. left. split_and!; [done|congruence|done].
Qed.

Lemma unmap_close o fd ptr size fds maps :
  open_fds o = fd :: fds -> mappings o = (if negb (ptr =? 0) then [ptr] else []) ++ maps ->
  let o1 := if negb (ptr =? 0) then munmap o ptr size else o in
  open_fds (close_fd o1 fd) = fds /\ mappings (close_fd o1 fd) = maps.
Proof.
  intros Hf Hm. destruct (negb (ptr =? 0)); simpl in *.
  - destruct (munmap_law o ptr size maps Hm) as [E1 E2]. destruct (close_fd_law (munmap o ptr size) fd fds) as [E3 E4];
      [congruence|]. split; congruence.
  - destruct (close_fd_law o fd fds Hf) as [E3 E4]. split; congruence.
Qed.

(** The constructor and the destructor. *)
Lemma ShmProvider_new_spec o name size mode r o' :
  ShmProvider_new o name size mode = (r, o') ->
  match r with
  | inl _ => same_handles o o'
  | inr p =>
      open_fds o' = fd_ p :: open_fds o /\ mappings o' = ptr_ p :: mappings o /\
      CheckShmHeader (load_header o' (ptr_ p)) = true /\ As p size = Ret (ptr_ p) /\
      forall o2, same_handles o' o2 -> same_handles o (ShmProvider_delete o2 p)
  end.
Proof.
  unfold ShmProvider_new. destruct (shm_open o name mode) as [fd o1] eqn:E1. apply shm_open_law in E1 as [Hm1 Hf1].
  destruct (Z.ltb_spec fd 0); [intros [= <- <-]; split; congruence|].
  destruct (shm_try o1 name size mode fd) as [[e o2] ptr] eqn:E2.
  apply shm_try_spec in E2 as [Hf2 Hcase].
  assert (Hmap : mappings o2 = (if negb (ptr =? 0) then [ptr] else []) ++ mappings o).
  { destruct Hcase as [(-> & Hm2 & _)|(Hnz & Hm2 & _)]; [simpl; congruence|].
    destruct (Z.eqb_spec ptr 0); [done|]. simpl. congruence. }
  assert (Hfd : open_fds o2 = fd :: open_fds o) by congruence.
  destruct (unmap_close o2 fd ptr size (open_fds o) (mappings o) Hfd Hmap) as [Hc1 Hc2].
  assert (Hun : forall o3, same_handles o3 (if decide (mode = kCreate) then shm_unlink o3 name else o3)).
  { intros o3. case_decide; [apply shm_unlink_law|done]. }
  destruct e as [e|]; intros [= <- <-].
  - unfold shm_catch. eapply same_handles_trans; [|apply Hun]. split; congruence.
  - destruct Hcase as [(_ & _ & ?)|(Hnz & Hm2 & Hc)]; [done|]. cbn [fd_ ptr_]. split_and!; try done; [congruence|auto| |].
    + unfold As. cbn. now rewrite Z.leb_refl.
    + intros o3 [Hf3 Hm3]. rewrite Hfd in Hf3. rewrite Hmap in Hm3.
      destruct (unmap_close o3 fd ptr size (open_fds o) (mappings o) Hf3 Hm3) as [Hd1 Hd2].
      unfold ShmProvider_delete. cbn [ptr_ size_ fd_ mode_ name_]. destruct (Z.leb_spec 0 fd); [|lia].
      eapply same_handles_trans; [|apply Hun]. split; congruence.
Qed.

(** A [ShmProvider] leaks nothing: if the constructor throws, the process has
    the descriptors and mappings it had before; if it does not, it has one of each
    more, the segment carries this build's magic and version, and the destructor
    gives both back. *)
Theorem shm_provider_raii o name size mode r o' :
  ShmProvider_new o name size mode = (r, o') ->
  match r with
  | inl _ => same_handles o o'
  | inr p =>
      open_fds o' = fd_ p :: open_fds o /\ mappings o' = ptr_ p :: mappings o /\
      CheckShmHeader (load_header o' (ptr_ p)) = true /\ As p size = Ret (ptr_ p) /\
      same_handles o (ShmProvider_delete o' p)
  end.
Proof.
  intros E%ShmProvider_new_spec. destruct r as [e|p]; [done|]. destruct E as (Hf & Hm & Hc & Ha & Hd).
  split_and!; try done. apply Hd. split; done.
Qed.

Lemma attach_or_null_spec o name size r o' :
  attach_or_null o name size = (r, o') ->
  match r with
  | None => same_handles o o'
  | Some p => open_fds o' = fd_ p :: open_fds o /\ mappings o' = ptr_ p :: mappings o /\
      CheckShmHeader (load_header o' (ptr_ p)) = true
  end.
Proof.
  unfold attach_or_null. destruct (ShmProvider_new o name size kAttach) as [res o1] eqn:E.
  apply ShmProvider_new_spec in E. destruct res; intros [= <- <-]; [done|tauto].
Qed.

(** The header the constructor sees when it attaches, if it gets that far. *)
Definition seen_header (o : os) (name : string) (size : Z) : option ShmHeader :=
  let '(fd, o) := shm_open o name kAttach in
  if fd <? 0 then None
  else
    match VerifyAttachSize o fd size name with
    | (Some _, _) => None
    | (None, o) =>
        match mmap o fd size with
        | (None, _) => None
        | (Some ptr, o) => Some (load_header o ptr)
        end
    end.

Definition this_build (h : option ShmHeader) : bool := match h with Some h => CheckShmHeader h | None => false end.

Lemma attach_or_null_seen o name size :
  match (attach_or_null o name size).1 with Some _ => true | None => false end = this_build (seen_header o name size).
Proof.
  unfold attach_or_null, ShmProvider_new, seen_header. destruct (shm_open o name kAttach) as [fd o1].
  destruct (fd <? 0); [done|]. unfold shm_try. rewrite decide_False, decide_True by done.
  destruct (VerifyAttachSize o1 fd size name) as [[e|] o2]; [reflexivity|].
  destruct (mmap o2 fd size) as [[ptr|] o3]; [|reflexivity]. unfold ApplyHeader. cbn [this_build].
  rewrite decide_False by done. now destruct (CheckShmHeader (load_header o3 ptr)).
Qed.

(** A control plane of another version detaches instead of reading a stale
    layout: the monitor attaches to a segment exactly when it exists, is large enough
    and carries this build's magic and version; it then holds one descriptor and one
    mapping per attached segment and no other. *)
Theorem mismatched_build_detaches o stats_size control_size shm control_shm o' :
  monitor_attach o stats_size control_size = (shm, control_shm, o') ->
  let o1 := (attach_or_null o "/cerebellum_stats" stats_size).2 in
  (is_Some shm <-> this_build (seen_header o "/cerebellum_stats" stats_size) = true) /\
  (is_Some control_shm <-> this_build (seen_header o1 "/cerebellum_control" control_size) = true) /\
  open_fds o' = (fd_ <$> option_list control_shm) ++ (fd_ <$> option_list shm) ++ open_fds o /\
  mappings o' = (ptr_ <$> option_list control_shm) ++ (ptr_ <$> option_list shm) ++ mappings o.
Proof.
  unfold monitor_attach. rewrite <- !attach_or_null_seen.
  destruct (attach_or_null o "/cerebellum_stats" stats_size) as [r1 o1] eqn:E1. cbn [fst snd].
  destruct (attach_or_null o1 "/cerebellum_control" control_size) as [r2 o2] eqn:E2. intros [= <- <- <-]. cbn [fst].
  apply attach_or_null_spec in E1, E2.
  assert (Hs : forall r : option ShmProvider, is_Some r <-> (match r with Some _ => true | None => false end = true)).
  { intros [p|]; [easy|]. split; [intros []|]; done. }
  split; [apply Hs|]. split; [apply Hs|].
  destruct r1 as [p1|], r2 as [p2|]; unfold same_handles in *; simpl; destruct_and?; split; congruence.
Qed.

End Shm.

(** ** A small system *)

Module ShmSamples.

(** Descriptors, mappings, and the header every mapping shows. *)
Record SimOs := mkSimOs { so_fds : list Z; so_maps : list Z; so_header : ShmHeader }.

(** No segment is called "missing"; a segment has 4096 bytes. *)
#[export] Instance sim_posix : Posix.
Proof.
  refine {| os := SimOs; open_fds := so_fds; mappings := so_maps;
    shm_open o name m := if String.eqb name "missing" then (-1, o) else (3, mkSimOs (3 :: so_fds o) (so_maps o) (so_header o));
    ftruncate o fd size := (if size <=? 4096 then 0 else -1, o);
    fchmod o fd := (0, o);
    fstat o fd := (0, 4096, o);
    mmap o fd size := if size <=? 4096 then (Some 65536, mkSimOs (so_fds o) (65536 :: so_maps o) (so_header o)) else (None, o);
    munmap o p size := mkSimOs (so_fds o) (tail (so_maps o)) (so_header o);
    close_fd o fd := mkSimOs (tail (so_fds o)) (so_maps o) (so_header o);
    shm_unlink o name := o;
    load_header o p := so_header o;
    store_header o p h := mkSimOs (so_fds o) (so_maps o) h |}.
  - intros o name m fd o'. destruct (String.eqb name "missing"); intros [= <- <-]; done.
  - intros o fd size rc o' [= _ <-]. done.
  - intros o fd rc o' [= _ <-]. done.
  - intros o fd rc size o' [= _ _ <-]. done.
  - intros o fd size p o'. destruct (size <=? 4096); intros [= <- <-]; done.
  - intros o p size l E. simpl in *. now rewrite E.
  - intros o fd l E. simpl in *. now rewrite E.
  - done.
  - done.
Defined.

Definition fresh_os : os := mkSimOs [0; 1; 2] [] (mkShmHeader 0 0).

Definition old_os : os := mkSimOs [0; 1; 2] [] (mkShmHeader kShmMagic 2).

(** Creating stamps the header; attaching to a segment of another version throws. *)
Lemma shm_provider_raii_witness :
  let r := ShmProvider_new fresh_os "/cerebellum_stats" 4096 kCreate in
  r.1 = inr (mkShmProvider "/cerebellum_stats" 4096 kCreate 3 65536) /\
  (ShmProvider_new old_os "/cerebellum_stats" 4096 kAttach).2 = old_os /\
  match r.1 with
  | inl _ => same_handles fresh_os r.2
  | inr p =>
      open_fds r.2 = fd_ p :: open_fds fresh_os /\ mappings r.2 = ptr_ p :: mappings fresh_os /\
      CheckShmHeader (load_header r.2 (ptr_ p)) = true /\ As p 4096 = Ret (ptr_ p) /\
      same_handles fresh_os (ShmProvider_delete r.2 p)
  end.
Proof.
  intros r. split; [reflexivity|]. split; [reflexivity|].
  apply (shm_provider_raii fresh_os "/cerebellum_stats" 4096 kCreate r.1 r.2). reflexivity.
Defined.

(** A segment of another version throughout. *)
Definition detached : option ShmProvider * option ShmProvider * os := monitor_attach old_os 4096 4096.

Lemma mismatched_build_detaches_witness :
  detached = (None, None, old_os) /\
  let o1 := (attach_or_null old_os "/cerebellum_stats" 4096).2 in
  (is_Some detached.1.1 <-> this_build (seen_header old_os "/cerebellum_stats" 4096) = true) /\
  (is_Some detached.1.2 <-> this_build (seen_header o1 "/cerebellum_control" 4096) = true) /\
  open_fds detached.2 = (fd_ <$> option_list detached.1.2) ++ (fd_ <$> option_list detached.1.1) ++ open_fds old_os /\
  mappings detached.2 = (ptr_ <$> option_list detached.1.2) ++ (ptr_ <$> option_list detached.1.1) ++ mappings old_os.
Proof.
  split; [reflexivity|].
  apply (mismatched_build_detaches old_os 4096 4096 detached.1.1 detached.1.2 detached.2). reflexivity.
Defined.

End ShmSamples.
