(* ===== verification/Launch.v ===== *)
(** * [RunDataplane] and [main] ([dataplane/src/main.cpp])

    The whole of the main lcore: shared memory, control view, port, rings, launch,
    control loop, the wait for the other lcores, and the way back through the
    destructors. What it finds in the rest of the process ([g_running], the control
    segment, lcores that are back) at each of its turns is the argument [process]; the
    worker lcores themselves are in [System]. The command-line parser is a parameter. *)

From S2P Require Import Prelude Raii NetTypes FlowKey BackendPool Ipc Dataplane Io Control Shm.

Local Open Scope string_scope.
Local Open Scope Z_scope.

(** Contents a [ControlView] in memory can have. *)
Definition view_typed (v : ControlView) : Prop := length (cv_backends v) = kMaxBackends /\ 0 <= cv_seq v < 2 ^ 32.

#[export] Instance view_typed_dec v : Decision (view_typed v).
Proof. unfold view_typed. apply _. Defined.

(** A mapped control segment is memory of type [ControlView]. *)
Class SharedViews `{Posix} := {
  load_view : os -> Z -> ControlView;
  store_view : os -> Z -> ControlView -> os;
  load_view_typed : forall o p, view_typed (load_view o p);
  store_view_law : forall o p v, open_fds (store_view o p v) = open_fds o /\ mappings (store_view o p v) = mappings o /\
    (view_typed v -> load_view (store_view o p v) p = v);
}.

(** The kernel, DPDK, and what has been written to [std::cout] and [std::cerr]. *)
Record Sys `{Posix} `{EalApi} := mkSys { s_os : os; s_hw : hw; s_out : string; s_err : string }.

(** What the main lcore finds when it looks: [g_running], the control view, and whether
    the lcores it has launched are back from [LcoreMain]. *)
Record Look := mkLook { lk_running : bool; lk_view : ControlView; lk_back : bool }.

Section Launch.
Context `{SharedViews} `{EalApi}.

Definition set_os (s : Sys) (o : os) : Sys := mkSys _ _ o (s_hw s) (s_out s) (s_err s).

Definition set_hw (s : Sys) (h : hw) : Sys := mkSys _ _ (s_os s) h (s_out s) (s_err s).

Definition on_hw {A} (m : prog hw A) : prog Sys A := zoom s_hw set_hw m.

Definition on_os {A} (m : prog os A) : prog Sys A := zoom s_os set_os m.

(** [std::cout << text << '\n'] and [std::cerr << text << '\n']. *)
Definition line (text : string) : string := text ++ String (Ascii.ascii_of_nat 10) "".

Definition cout (text : string) : prog Sys unit := fun s =>
  (Ret tt, mkSys _ _ (s_os s) (s_hw s) (s_out s ++ line text) (s_err s)).

Definition cerr (text : string) : prog Sys unit := fun s =>
  (Ret tt, mkSys _ _ (s_os s) (s_hw s) (s_out s) (s_err s ++ line text)).

(** [ShmProvider(name, size, kCreate)] and its destructor. *)
Definition shm_create (name : string) (size : Z) : prog os ShmProvider := fun o =>
  match ShmProvider_new o name size kCreate with
  | (inl e, o) => (Throw e, o)
  | (inr p, o) => (Ret p, o)
  end.

Definition shm_delete (p : ShmProvider) (s : Sys) : Sys := set_os s (ShmProvider_delete (s_os s) p).

Definition kControlShmName : string := "/cerebellum_control".
Definition kRingSize : Z := 1024.
Definition kEgressRingSize : Z := 2048.
Definition RING_F_SP_ENQ : Z := 1.
Definition RING_F_SC_DEQ : Z := 2.

(** The destructor of [std::vector<std::unique_ptr<io::Ring>>]. *)
Definition delete_rings (rings : list nat) (h : hw) : hw := foldl (fun h r => Ring_delete r h) h rings.

(** The loop that creates the ingress rings, from [i]; an exception destroys those
    already in the vector. *)
Fixpoint make_ingress (k : nat) (i : Z) (ingress : list nat) : prog hw (list nat) :=
  match k with
  | O => pret ingress
  | S k => fun h =>
      match Ring_new ("cere_ingress_" ++ format_unsigned i) kRingSize (Z.lor RING_F_SP_ENQ RING_F_SC_DEQ) h with
      | (Ret r, h) => make_ingress k (i + 1) (push_back ingress r) h
      | (Throw e, h) => (Throw e, delete_rings ingress h)
      | (Undef, h) => (Undef, h)
      | (OutOfFuel, h) => (OutOfFuel, h)
      end
  end.

(** [if (distributor) { ... }]: the worker rings and the egress ring. *)
Definition make_rings (distributor : bool) (n_workers : Z) : prog hw (list nat * option nat) :=
  if negb distributor then pret ([], None)
  else
    do! ingress := make_ingress (Z.to_nat n_workers) 0 [] in
    fun h =>
      match Ring_new "cere_egress" kEgressRingSize RING_F_SC_DEQ h with
      | (Ret r, h) => (Ret (ingress, Some r), h)
      | (Throw e, h) => (Throw e, delete_rings ingress h)
      | (Undef, h) => (Undef, h)
      | (OutOfFuel, h) => (OutOfFuel, h)
      end.

(** The destructors of [egress] and [ingress], in this order. *)
Definition free_rings (x : list nat * option nat) (h : hw) : hw :=
  let h := match x.2 with Some r => Ring_delete r h | None => h end in
  delete_rings x.1 h.

(** [rte_eal_remote_launch] for every worker lcore; its result is ignored. *)
Fixpoint launch_all (l : list (Z * LcoreArg)) : prog hw unit :=
  match l with
  | [] => pret tt
  | (lcore_id, arg) :: l => call (fun h => rte_eal_remote_launch h arg lcore_id) >>> launch_all l
  end.

(** [rte_eal_mp_wait_lcore] blocks until every lcore at work is back, from the [i]-th turn
    on. *)
Fixpoint wait_lcores (rounds : nat) (back : nat -> bool) (i : nat) : prog hw unit :=
  match rounds with
  | O => lift OutOfFuel
  | S rounds => if back i then act rte_eal_mp_wait_lcore else wait_lcores rounds back (S i)
  end.

(** The line the launch ends with. *)
Definition launch_line (distributor : bool) (n_workers : Z) : string :=
  if distributor then "cerebellum_dataplane: IO + " ++ format_unsigned n_workers ++ " workers"
  else "cerebellum_dataplane: single-thread".

(** The body of [RunDataplane] once the port is up. [process working i] is what the main
    lcore finds at its [i]-th turn, once the lcores [working] have been launched. *)
Definition run_lcores (rounds fuel : nat) (process : list (Z * LcoreArg) -> nat -> Look) (loop : ControlLoop) (lcores : list Z)
    (distributor : bool) (n_workers : Z) (port : DpdkPort) (rings : list nat * option nat) : prog Sys unit :=
  do! args := lift (assign_loop lcores distributor (PortId port) n_workers rings.1 rings.2 0 0) in
  on_hw (launch_all (zip lcores args)) >>>
  cout (launch_line distributor n_workers) >>>
  do! working := on_hw (fun h => (Ret (h_running (hw_state h)), h)) in
  do! '(i, _) := lift (RunControlLoop rounds fuel (fun i => lk_running (process working i)) (fun i => lk_view (process working i)) 0 loop) in
  on_hw (wait_lcores rounds (fun i => lk_back (process working i)) i).

Definition RunDataplane (rounds fuel : nat) (cfg : Config) (process : list (Z * LcoreArg) -> nat -> Look) : prog Sys unit :=
  scoped (on_os (shm_create "/cerebellum_stats" sizeof_StatsView)) shm_delete (fun shm =>
  lift (As shm sizeof_StatsView) >>>
  scoped (on_os (shm_create kControlShmName sizeof_ControlView)) shm_delete (fun control_shm =>
  do! control := lift (As control_shm sizeof_ControlView) in
  do! view := on_os (fun o => (Ret (load_view o control), o)) in
  do! '(view, loop) := lift (StartControl fuel view cfg) in
  on_os (fun o => (Ret tt, store_view o control view)) >>>
  do! lcores := on_hw (fun h => (Ret (h_lcores (hw_state h)), h)) in
  do! '(distributor, n_workers) := lift (plan_lcores lcores) in
  scoped (on_hw (DpdkPort_new 0 1)) (fun p s => set_hw s (DpdkPort_delete p (s_hw s))) (fun port =>
  scoped (on_hw (make_rings distributor n_workers)) (fun r s => set_hw s (free_rings r (s_hw s))) (fun rings =>
  run_lcores rounds fuel process loop lcores distributor n_workers port rings)))).

(** [exc.what()]. *)
Definition what (e : exn) : string :=
  match e with
  | invalid_argument w | out_of_range w | length_error w | runtime_error w => w
  end.

(** [main]: the exit code. [cli_parse] gives the exit code of a failed parse with what it
    prints to the two streams, or the configuration file and the remaining arguments. *)
Definition main `{Yaml} (cli_parse : list string -> Z * string * string + string * list string) (rounds fuel : nat)
    (argv0 : string) (argv : list string) (process : list (Z * LcoreArg) -> nat -> Look) : prog Sys Z :=
  match cli_parse argv with
  | inl (code, out, err) => fun s => (Ret code, mkSys _ _ (s_os s) (s_hw s) (s_out s ++ out) (s_err s ++ err))
  | inr (config_path, remaining) =>
      try_catch
        (scoped (on_hw (Eal_new (argv0 :: remaining))) (fun x s => set_hw s (Eal_delete x (s_hw s))) (fun _ =>
           do! cfg := lift (LoadConfig config_path) in
           RunDataplane rounds fuel cfg process >>>
           pret 0))
        (fun exc => cerr ("Error: " ++ what exc) >>> pret 1)
  end.

End Launch.
