(* ===== verification/LaunchSpec.v ===== *)
(** * What [RunDataplane] and [main] set up, launch and give back *)

From S2P Require Import Prelude Raii NetTypes FlowKey BackendPool Ipc Graph Packet Nodes Dataplane DataplaneSpec Io IoSpec.
From S2P Require Import Control ControlSpec System DeviceUse SystemSpec FairRun Shm Launch.

(** ** Rings *)

Section Rings.
Context `{EalApi}.

Implicit Types (h : hw) (m : gmap nat (string * Z * Z)).

Definition ingress_entry (i : Z) : string * Z * Z :=
  (("cere_ingress_" ++ format_unsigned i)%string, kRingSize, Z.lor RING_F_SP_ENQ RING_F_SC_DEQ).

Definition egress_entry : string * Z * Z := ("cere_egress"%string, kEgressRingSize, RING_F_SC_DEQ).

Lemma Ring_new_cases name count flags h r h' :
  Ring_new name count flags h = (r, h') ->
  (exists e, r = Throw e /\ hw_state h' = hw_state h) \/
  (exists p, r = Ret p /\ h_rings (hw_state h) !! p = None /\
     hw_state h' = set_rings (hw_state h) (<[p := (name, count, flags)]> (h_rings (hw_state h)))).
Proof.
  unfold Ring_new, pbind, call. destruct (rte_ring_create h name count flags) as [[p|] h1] eqn:E; apply ring_create_law in E;
    intros [= <- <-]; [right|left]; eauto.
Qed.

(** [m] without the rings [l]. *)
Definition without (l : list nat) m : gmap nat (string * Z * Z) := foldl (fun m r => delete r m) m l.

Lemma lookup_without l m k : without l m !! k = if decide (k ∈ l) then None else m !! k.
Proof.
  unfold without. revert m. induction l as [|r l IH]; intros m; [done|]. cbn [foldl]. rewrite IH.
  destruct (decide (k = r)) as [->|Hne].
  - rewrite lookup_delete_eq, (decide_True _ _ (list_elem_of_here r l)). now case_decide.
  - rewrite lookup_delete_ne by done. apply decide_ext. rewrite elem_of_cons. tauto.
Qed.

Lemma set_rings_id (x : Hw) : set_rings x (h_rings x) = x.
Proof. now destruct x. Qed.

Lemma delete_rings_state l h : hw_state (delete_rings l h) = set_rings (hw_state h) (without l (h_rings (hw_state h))).
Proof.
  unfold delete_rings, without. revert h. induction l as [|r l IH]; intros h; cbn [foldl]; [now rewrite set_rings_id|].
  rewrite IH. unfold Ring_delete. now rewrite ring_free_law.
Qed.

(** The rings [new] have been created on top of [m], the [j]-th with entry [f j]. *)
Definition created (new : list nat) (f : nat -> string * Z * Z) m m' : Prop :=
  NoDup new /\ (forall r, r ∈ new -> m !! r = None) /\
  (forall j r, new !! j = Some r -> m' !! r = Some (f j)) /\ (forall k, k ∉ new -> m' !! k = m !! k).

Lemma created_without new f m m' : created new f m m' -> without new m' = m.
Proof.
  intros (_ & Hfr & _ & Hk). apply map_eq. intros k. rewrite lookup_without. case_decide; [symmetry; auto|auto].
Qed.

Lemma created_nil f m : created [] f m m.
Proof. split; [constructor|]. split; [intros r Hr; now apply elem_of_nil in Hr|]. split; done. Qed.

Lemma created_cons r new f g m m' :
  m !! r = None -> created new f (<[r := g 0%nat]> m) m' -> (forall j, g (S j) = f j) -> created (r :: new) g m m'.
Proof.
  intros Hr (Hnd & Hfr & Hj & Hk) Hg.
  assert (Hrn : r ∉ new) by (intros Hin; specialize (Hfr r Hin); now rewrite lookup_insert_eq in Hfr).
  split; [now constructor|]. split; [|split].
  - intros k [->|Hin]%elem_of_cons; [done|]. specialize (Hfr k Hin). now apply lookup_insert_None in Hfr as [? _].
  - intros [|j] k Hl; simpl in Hl; [injection Hl as <-|rewrite Hg; eauto]. rewrite Hk by done. apply lookup_insert_eq.
  - intros k [Hne Hnin]%not_elem_of_cons. rewrite Hk by done. now apply lookup_insert_ne.
Qed.

Lemma make_ingress_spec k i ingress h r h' :
  make_ingress k i ingress h = (r, h') ->
  (exists e m', r = Throw e /\ hw_state h' = set_rings (hw_state h) m' /\
     forall p, m' !! p = if decide (p ∈ ingress) then None else h_rings (hw_state h) !! p) \/
  (exists new m', r = Ret (ingress ++ new) /\ length new = k /\ hw_state h' = set_rings (hw_state h) m' /\
     created new (fun j => ingress_entry (i + Z.of_nat j)) (h_rings (hw_state h)) m').
Proof.
  revert i ingress h. induction k as [|k IH]; intros i ingress h; cbn [make_ingress].
  { intros [= <- <-]. right. exists [], (h_rings (hw_state h)). rewrite app_nil_r, set_rings_id.
    split; [done|]. split; [done|]. split; [done|]. apply created_nil. }
  destruct (Ring_new _ kRingSize _ h) as [r1 h1] eqn:E1. apply Ring_new_cases in E1 as [(e & -> & Hs1)|(p & -> & Hp & Hs1)].
  - intros [= <- <-]. left. exists e, (without ingress (h_rings (hw_state h))).
    rewrite delete_rings_state, Hs1. split_and!; try done. intros p. apply lookup_without.
  - intros E2. apply IH in E2. rewrite Hs1 in E2. cbn in E2.
    destruct E2 as [(e & m' & -> & Hs2 & Hm)|(new & m' & -> & Hl & Hs2 & Hc)]; [left|right].
    + exists e, m'. split_and!; try done. intros q. rewrite Hm. unfold push_back.
      destruct (decide (q = p)) as [->|Hne].
      * rewrite decide_True by (apply elem_of_app; right; apply list_elem_of_here). rewrite Hp. now case_decide.
      * rewrite lookup_insert_ne by done. apply decide_ext. rewrite elem_of_app, list_elem_of_singleton. tauto.
    + exists (p :: new), m'. unfold push_back. rewrite <- app_assoc. split; [done|]. split; [simpl; lia|].
      split; [done|]. eapply created_cons; [done| |].
      * rewrite Z.add_0_r. exact Hc.
      * intros j. simpl. f_equal. lia.
Qed.

(** What [make_rings] returns and creates. *)
Lemma make_rings_spec distributor n h r h' :
  make_rings distributor n h = (r, h') ->
  (exists e, r = Throw e /\ hw_state h' = hw_state h) \/
  (distributor = false /\ r = Ret ([], None) /\ h' = h) \/
  (distributor = true /\ exists ingress egress m', r = Ret (ingress, Some egress) /\ length ingress = Z.to_nat n /\
     hw_state h' = set_rings (hw_state h) m' /\
     created (egress :: ingress) (fun j => match j with O => egress_entry | S j => ingress_entry (Z.of_nat j) end)
       (h_rings (hw_state h)) m').
Proof.
  unfold make_rings. destruct distributor; cbn [negb]; [|intros [= <- <-]; auto].
  unfold pbind. destruct (make_ingress (Z.to_nat n) 0 [] h) as [r1 h1] eqn:E1.
  apply make_ingress_spec in E1 as [(e & m1 & -> & Hs1 & Hm)|(new & m1 & -> & Hl & Hs1 & Hc1)].
  { intros [= <- <-]. left. exists e. split; [done|]. rewrite Hs1. rewrite <- (set_rings_id (hw_state h)) at 2. f_equal.
    apply map_eq. intros p. rewrite Hm. now rewrite decide_False by apply not_elem_of_nil. }
  cbn [app]. destruct (Ring_new _ kEgressRingSize _ h1) as [r2 h2] eqn:E2.
  apply Ring_new_cases in E2 as [(e & -> & Hs2)|(p & -> & Hp & Hs2)]; intros [= <- <-]; [left|right; right].
  - exists e. split; [done|]. rewrite delete_rings_state, Hs2, Hs1. cbn. rewrite (created_without _ _ _ _ Hc1). now destruct (hw_state h).
  - split; [done|]. exists new, p. rewrite Hs1 in Hs2, Hp. cbn in Hs2, Hp. eexists. split; [done|]. split; [done|]. split; [exact Hs2|].
    destruct Hc1 as (Hnd & Hfr & Hj & Hk).
    assert (Hpn : p ∉ new) by (intros [j Hj2]%list_elem_of_lookup; apply Hj in Hj2; congruence).
    split; [now constructor|]. split; [|split].
    + intros q [->|Hin]%elem_of_cons; [rewrite <- Hk by done; done|auto].
    + intros [|j] q Hq; simpl in Hq; [injection Hq as <-; apply lookup_insert_eq|].
      rewrite lookup_insert_ne by (intros ->; apply Hpn; eapply list_elem_of_lookup_2; eauto). rewrite (Hj j q Hq). done.
    + intros q [Hne Hnin]%not_elem_of_cons. rewrite lookup_insert_ne by done. now apply Hk.
Qed.

Lemma free_rings_state ingress egress h :
  hw_state (free_rings (ingress, Some egress) h) =
    set_rings (hw_state h) (without (egress :: ingress) (h_rings (hw_state h))).
Proof. unfold free_rings. cbn [fst snd]. rewrite delete_rings_state. unfold Ring_delete. now rewrite ring_free_law. Qed.

Lemma make_rings_acquires thrown distributor n :
  acquires same_all thrown (make_rings distributor n) free_rings /\
  acquires same_rings thrown (make_rings distributor n) free_rings.
Proof.
  split; intros h r h' E;
    apply make_rings_spec in E as [(e & -> & Hs)|[(_ & -> & ->)|(_ & ingress & egress & m' & -> & _ & Hs & Hc)]].
  1, 4: intros _; unfold same_all, same_rings; rewrite Hs; done.
  1, 3: intros h2 Hsame; exact Hsame.
  - intros h2 ((Hu & Hr & Hj) & Hp & Hf & Hq). unfold same_all, same_rings. rewrite free_rings_state, Hs in *. cbn in *.
    split; [split_and!; [done| |done]|by split_and!]. rewrite Hr. exact (created_without _ _ _ _ Hc).
  - intros h2 (Hu & Hr & Hj). unfold same_rings. rewrite free_rings_state, Hs in *. cbn in *.
    split_and!; try done. rewrite Hr. exact (created_without _ _ _ _ Hc).
Qed.

End Rings.

(** ** Who uses a ring *)

(** At most one lcore has [r] among the rings [f] gives. *)
Definition at_most_one (f : LcoreArg -> list nat) (args : list LcoreArg) (r : nat) : Prop :=
  forall i j a b, args !! i = Some a -> args !! j = Some b -> r ∈ f a -> r ∈ f b -> i = j.

Lemma single_producer rings egress port n r :
  NoDup (egress :: rings) -> r ∈ rings ->
  at_most_one enqueues (io_arg port n rings egress :: imap (worker_arg port n rings egress) rings) r.
Proof.
  intros [He _]%NoDup_cons Hr.
  assert (Hw : forall i a, imap (worker_arg port n rings egress) rings !! i = Some a -> r ∉ enqueues a).
  { intros i a Hi. rewrite list_lookup_imap in Hi. destruct (rings !! i) as [q|]; [|done]. injection Hi as <-.
    cbn. intros ->%list_elem_of_singleton. done. }
  intros [|i] [|j] a b Ha Hb Ra Rb; [done|cbn in Hb|cbn in Ha|cbn in Ha]; exfalso; eapply Hw; eauto.
Qed.

Lemma single_consumer rings egress port n r :
  NoDup (egress :: rings) ->
  at_most_one dequeues (io_arg port n rings egress :: imap (worker_arg port n rings egress) rings) r.
Proof.
  intros [He Hnd]%NoDup_cons.
  assert (Hw : forall i a, imap (worker_arg port n rings egress) rings !! i = Some a -> r ∈ dequeues a -> rings !! i = Some r).
  { intros i a Hi. rewrite list_lookup_imap in Hi. destruct (rings !! i) as [q|] eqn:Eq; [|done]. injection Hi as <-.
    cbn. now intros ->%list_elem_of_singleton. }
  intros [|i] [|j] a b Ha Hb Ra Rb; [done|cbn in Ha, Hb|cbn in Ha, Hb|cbn in Ha, Hb].
  - injection Ha as <-. apply list_elem_of_singleton in Ra as ->. destruct He. eapply list_elem_of_lookup_2. eauto.
  - injection Hb as <-. apply list_elem_of_singleton in Rb as ->. destruct He. eapply list_elem_of_lookup_2. eauto.
  - f_equal. eapply NoDup_lookup; eauto.
Qed.

Lemma single_poller rings egress port n i j a b :
  let args := io_arg port n rings egress :: imap (worker_arg port n rings egress) rings in
  args !! i = Some a -> args !! j = Some b -> polls_port a = true -> polls_port b = true -> i = j.
Proof.
  assert (Hw : forall k c, imap (worker_arg port n rings egress) rings !! k = Some c -> polls_port c = false).
  { intros k c Hk. rewrite list_lookup_imap in Hk. destruct (rings !! k) as [q|]; [|done]. now injection Hk as <-. }
  destruct i as [|i], j as [|j]; cbn; intros Ha Hb Pa Pb; [done| | |]; exfalso;
    [rewrite (Hw j b Hb) in Pb|rewrite (Hw i a Ha) in Pa|rewrite (Hw i a Ha) in Pa]; done.
Qed.

(** ** Exceptions end with the launch *)

Definition no_throw {A} (m : outcome A) : Prop := forall e, m <> Throw e.

Lemma no_throw_bind {A B} (m : outcome A) (k : A -> outcome B) :
  no_throw m -> (forall x, no_throw (k x)) -> no_throw (obind m k).
Proof. intros Hm Hk e. destruct m as [x|e'| |]; simpl; [apply Hk|intros _; exact (Hm _ eq_refl)|done|done]. Qed.

Lemma no_throw_at {A} (l : list A) i : no_throw (at_ l i).
Proof. intros e. unfold at_. now destruct (l !! i). Qed.

Lemma no_throw_Ret {A} (x : A) : no_throw (Ret x).
Proof. done. Qed.

Create HintDb no_throw.
#[local] Hint Resolve no_throw_bind no_throw_at no_throw_Ret : no_throw.

Lemma copy_backends_no_throw n i src dst : no_throw (copy_backends n i src dst).
Proof.
  revert i dst. induction n as [|n IH]; intros i dst; cbn [copy_backends]; [done|].
  apply no_throw_bind; [apply no_throw_at|]. intros x. apply no_throw_bind; [|auto].
  intros e. unfold set_at. now destruct (dst !! i).
Qed.

Lemma ReadControl_no_throw fuel view out : no_throw (ReadControl fuel view out).
Proof.
  revert out. induction fuel as [|fuel IH]; intros out; cbn [ReadControl]; [done|]. destruct (negb _); [apply IH|].
  apply no_throw_bind; [apply copy_backends_no_throw|]. intros x. destruct (_ =? _); [done|apply IH].
Qed.

Lemma collect_slots_no_throw n i src slots enabled : no_throw (collect_slots n i src slots enabled).
Proof.
  revert i slots enabled. induction n as [|n IH]; intros i slots enabled; cbn [collect_slots]; [done|].
  apply no_throw_bind; [apply no_throw_at|]. auto.
Qed.

Lemma collect_active_no_throw fuel enabled n i active : no_throw (collect_active fuel enabled n i active).
Proof.
  revert i active. induction fuel as [|fuel IH]; intros i active; cbn [collect_active]; destruct (i <? n); try done.
  apply no_throw_bind; [|auto]. intros e. unfold test_enabled. destruct enabled as [l|]; [|done].
  unfold at_. now destruct (l !! _).
Qed.

Lemma BuildPool_no_throw fuel src count : no_throw (BuildPool fuel src count).
Proof.
  apply no_throw_bind; [apply collect_slots_no_throw|]. intros [slots enabled]. unfold BackendPool_enabled.
  destruct (_ =? _)%nat; [|done]. apply no_throw_bind; [apply collect_active_no_throw|done].
Qed.

Lemma RunControlLoop_no_throw rounds fuel running view i st : no_throw (RunControlLoop rounds fuel running view i st).
Proof.
  revert i st. induction rounds as [|rounds IH]; intros i st; cbn [RunControlLoop]; [done|]. destruct (negb _); [done|].
  apply no_throw_bind; [|auto].
  unfold control_poll. apply no_throw_bind; [apply ReadControl_no_throw|]. intros [[seq snap] count].
  destruct (negb _); [|done]. apply no_throw_bind; [apply BuildPool_no_throw|done].
Qed.

(** ** The whole process *)

Section Process.
Context `{SharedViews} `{EalApi}.

(** What a launch loop does: some of the lcores are at work, nothing else. *)
Lemma launch_all_spec l h r h' :
  launch_all l h = (r, h') ->
  r = Ret tt /\ exists started, started `sublist_of` l /\
    hw_state h' = set_running (hw_state h) (h_running (hw_state h) ++ started) (h_launched (hw_state h) ++ started).
Proof.
  revert h. induction l as [|[lcore arg] l IH]; intros h; cbn [launch_all].
  { intros [= <- <-]. split; [done|]. exists []. rewrite !app_nil_r. split; [done|]. now destruct (hw_state h). }
  unfold pbind, call. destruct (rte_eal_remote_launch h arg lcore) as [rc h1] eqn:E1. apply launch_law in E1.
  intros E2. apply IH in E2 as (-> & started & Hsub & Hs). split; [done|]. destruct (rc =? 0).
  - exists ((lcore, arg) :: started). split; [now apply sublist_skip|]. rewrite Hs, E1. cbn. now rewrite <- !app_assoc.
  - exists started. split; [now apply sublist_cons|]. now rewrite Hs, E1.
Qed.

Lemma wait_lcores_spec rounds back i h r h' :
  wait_lcores rounds back i h = (r, h') -> left r = true ->
  r = Ret tt /\ hw_state h' = set_running (hw_state h) [] (h_launched (hw_state h)).
Proof.
  revert i. induction rounds as [|rounds IH]; intros i; cbn [wait_lcores]; [by intros [= <- <-]|].
  destruct (back i); [|apply IH]. intros [= <- <-] _. split; [done|apply wait_law].
Qed.

(** The worker lcores run between the launch and the join, and only then. *)
Lemma run_lcores_spec rounds fuel process loop lcores distributor n port rings s r s' :
  run_lcores rounds fuel process loop lcores distributor n port rings s = (r, s') -> left r = true ->
  s_os s' = s_os s /\ s_err s' = s_err s /\
  ((exists e, r = Throw e /\ s_hw s' = s_hw s /\ s_out s' = s_out s) \/
   (r = Ret tt /\ s_out s' = (s_out s ++ line (launch_line distributor n))%string /\ exists args started,
      assign_loop lcores distributor (PortId port) n rings.1 rings.2 0 0 = Ret args /\ started `sublist_of` zip lcores args /\
      hw_state (s_hw s') = set_running (hw_state (s_hw s)) [] (h_launched (hw_state (s_hw s)) ++ started))).
Proof.
  unfold run_lcores, pbind, lift. destruct (assign_loop _ _ _ _ _ _ _ _) as [args|e| |] eqn:Ea;
    [|intros [= <- <-] _; split_and!; [done|done|left; eauto]|intros [= <- <-]; done|intros [= <- <-]; done].
  unfold on_hw, zoom. destruct (launch_all (zip lcores args) (s_hw s)) as [r1 h1] eqn:E1.
  apply launch_all_spec in E1 as (-> & started & Hsub & Hs1). cbn.
  destruct (RunControlLoop _ _ _ _ _ _) as [[i st]|e| |] eqn:El; [|by apply RunControlLoop_no_throw in El|intros [= <- <-]; done|intros [= <- <-]; done].
  destruct (wait_lcores _ _ _ _) as [r2 h2] eqn:E2. intros [= <- <-] Hl. apply wait_lcores_spec in E2 as [-> Hs2]; [|done].
  split; [done|]. split; [done|]. right. split; [done|]. split; [done|]. exists args, started. split; [done|]. split; [done|].
  cbn. rewrite Hs2. cbn. now rewrite Hs1.
Qed.

(** Descriptors and mappings, and what [same_h] says of DPDK, are as they were. *)
Definition same_sys (same_h : hw -> hw -> Prop) (s s' : Sys) : Prop :=
  same_handles (s_os s) (s_os s') /\ same_h (s_hw s) (s_hw s').

#[export] Instance same_sys_preorder same_h `{!PreOrder same_h} : PreOrder (same_sys same_h).
Proof.
  split; [intros s; split; [split; done|reflexivity]|]. intros s1 s2 s3 [] []. split; [eapply same_handles_trans; eauto|].
  now transitivity (s_hw s2).
Qed.

Section Keeps.
Context (same_h : hw -> hw -> Prop) `{!PreOrder same_h} (thrown : bool).
Context (port_acquires : acquires same_h thrown (DpdkPort_new 0 1) DpdkPort_delete).
Context (rings_acquires : forall d n, acquires same_h thrown (make_rings d n) free_rings).
Context (joined : forall h h' l, hw_state h' = set_running (hw_state h) [] l -> same_h h h').

Lemma on_hw_acquires {R} (ctor : prog hw R) dtor :
  acquires same_h thrown ctor dtor ->
  acquires (same_sys same_h) thrown (on_hw ctor) (fun x s => set_hw s (dtor x (s_hw s))).
Proof.
  intros Hc s r s' E. unfold on_hw, zoom in E. destruct (ctor (s_hw s)) as [r0 h] eqn:Ec. injection E as <- <-.
  specialize (Hc _ _ _ Ec). destruct r0 as [x|e| |]; try done.
  - intros s2 [Ho Hh]. split; [exact Ho|]. now apply Hc.
  - intros Ht. split; [split; done|]. now apply Hc.
Qed.

Lemma shm_acquires name size : acquires (same_sys same_h) thrown (on_os (shm_create name size)) shm_delete.
Proof.
  intros s r s' E. unfold on_os, zoom, shm_create in E.
  destruct (ShmProvider_new (s_os s) name size kCreate) as [[e|p] o] eqn:En; injection E as <- <-;
    apply ShmProvider_new_spec in En.
  - intros _. split; [done|reflexivity].
  - destruct En as (_ & _ & _ & _ & Hd). intros s2 [Ho Hh]. split; [now apply Hd|exact Hh].
Qed.

Lemma run_lcores_keeps rounds fuel process loop lcores d n port rings :
  keeps (same_sys same_h) thrown (run_lcores rounds fuel process loop lcores d n port rings).
Proof.
  intros s r s' E Hr. assert (Hl : left r = true) by (destruct r; done).
  destruct (run_lcores_spec _ _ _ _ _ _ _ _ _ _ _ _ E Hl) as (Ho & _ & Hc). split; [rewrite Ho; split; done|].
  destruct Hc as [(e & _ & -> & _)|(_ & _ & args & started & _ & _ & Hs)]; [reflexivity|exact (joined _ _ _ Hs)].
Qed.

Lemma RunDataplane_keeps rounds fuel cfg process : keeps (same_sys same_h) thrown (RunDataplane rounds fuel cfg process).
Proof.
  unfold RunDataplane. apply keeps_scoped; [apply shm_acquires|]. intros shm.
  apply keeps_bind; [apply _|apply keeps_lift, _|]. intros _. apply keeps_scoped; [apply shm_acquires|]. intros cshm.
  apply keeps_bind; [apply _|apply keeps_lift, _|]. intros control.
  apply keeps_bind; [apply _| |].
  { intros s r s' [= <- <-] _. split; [split; done|reflexivity]. }
  intros view. apply keeps_bind; [apply _|apply keeps_lift, _|]. intros [v loop]. apply keeps_bind; [apply _| |].
  { intros s r s' [= <- <-] _. destruct (store_view_law (s_os s) control v) as (? & ? & _). split; [split; done|reflexivity]. }
  intros _. apply keeps_bind; [apply _| |].
  { intros s r s' [= <- <-] _. split; [split; done|reflexivity]. }
  intros lcores. apply keeps_bind; [apply _|apply keeps_lift, _|]. intros [d n].
  apply keeps_scoped; [now apply on_hw_acquires|]. intros port.
  apply keeps_scoped; [now apply on_hw_acquires|]. intros rings. apply run_lcores_keeps.
Qed.

End Keeps.

Lemma RunDataplane_keeps_rings rounds fuel cfg process : keeps (same_sys same_rings) true (RunDataplane rounds fuel cfg process).
Proof.
  apply RunDataplane_keeps.
  - apply _.
  - apply DpdkPort_keeps_rings. lia.
  - intros d n. apply make_rings_acquires.
  - intros h h' l Hs. unfold same_rings. rewrite Hs. done.
Qed.

(** The state of DPDK through the shared-memory part. *)
Lemma shm_create_hw name size s r s1 : on_os (shm_create name size) s = (r, s1) -> s_hw s1 = s_hw s /\ s_out s1 = s_out s /\ s_err s1 = s_err s.
Proof. unfold on_os, zoom. destruct (shm_create name size (s_os s)) as [r0 o]. now intros [= <- <-]. Qed.

Lemma on_hw_Ret {A} (m : prog hw A) s x s1 :
  on_hw m s = (Ret x, s1) -> m (s_hw s) = (Ret x, s_hw s1) /\ s_os s1 = s_os s /\ s_out s1 = s_out s /\ s_err s1 = s_err s.
Proof. unfold on_hw, zoom. destruct (m (s_hw s)) as [r0 h]. now intros [= -> <-]. Qed.

Lemma plan_rings lcores d n rings h h' :
  plan_lcores lcores = Ret (d, n) -> make_rings d n h = (Ret rings, h') -> rings_made lcores rings.1 rings.2.
Proof.
  intros Hp E. unfold plan_lcores in Hp. destruct (Z.ltb_spec (Z.of_nat (length lcores)) 1); [done|].
  destruct (Z.ltb_spec (Z.of_nat kMaxLcores) (Z.of_nat (length lcores))); [done|]. apply Ret_inj in Hp. injection Hp as <- <-.
  unfold rings_made. apply make_rings_spec in E as [(e & ? & _)|[(Ed & [= ->] & _)|(Ed & ingress & egress & m' & [= ->] & Hl & _)]]; [done| |].
  - apply Z.leb_gt in Ed. destruct (Nat.leb_spec 2 (length lcores)); [lia|]. done.
  - pose proof Ed as Hle%Z.leb_le. destruct (Nat.leb_spec 2 (length lcores)); [|lia]. cbn [fst snd]. rewrite Ed in Hl.
    split; [rewrite Hl; lia|eauto].
Qed.

Lemma RunDataplane_Ret rounds fuel cfg process s s' :
  RunDataplane rounds fuel cfg process s = (Ret tt, s') ->
  let lcores := h_lcores (hw_state (s_hw s)) in
  (exists rings egress_ring args started,
    rings_made lcores rings egress_ring /\ AssignRoles lcores 0 rings egress_ring = Ret args /\
    started `sublist_of` zip lcores args /\
    h_launched (hw_state (s_hw s')) = h_launched (hw_state (s_hw s)) ++ started) /\
  exists d n, plan_lcores lcores = Ret (d, n) /\ s_out s' = (s_out s ++ line (launch_line d n))%string /\ s_err s' = s_err s.
Proof.
  intros E lcores. unfold RunDataplane in E.
  apply scoped_Ret in E as (shm & s1 & t1 & (E1 & O1 & X1)%shm_create_hw & E & ->). apply pbind_Ret in E as (p1 & s1' & [_ ->]%lift_Ret & E).
  apply scoped_Ret in E as (cshm & s2 & t2 & (E2 & O2 & X2)%shm_create_hw & E & ->). apply pbind_Ret in E as (control & s2' & [_ ->]%lift_Ret & E).
  apply pbind_Ret in E as (view & s3 & [= _ <-] & E). apply pbind_Ret in E as ([v loop] & s4 & [_ ->]%lift_Ret & E).
  apply pbind_Ret in E as ([] & s5 & [= <-] & E). apply pbind_Ret in E as (l & s6 & [= <- <-] & E). cbn [s_hw set_os set_hw] in E.
  rewrite E2, E1 in E. fold lcores in E.
  apply pbind_Ret in E as ([d n] & s7 & [Hplan ->]%lift_Ret & E).
  apply scoped_Ret in E as (port & s8 & t8 & (E8 & _ & O8 & X8)%on_hw_Ret & E & ->).
  apply scoped_Ret in E as (rings & s9 & t9 & (E9 & _ & O9 & X9)%on_hw_Ret & E & ->). cbn in E8, O8, X8.
  apply run_lcores_spec in E as (_ & Xl & [(e & ? & _)|(_ & Ol & args & started & Ha & Hsub & Hs)]); [done| |done].
  split; [|exists d, n; cbn; split; [done|]; by rewrite Ol, O9, O8, O2, O1, Xl, X9, X8, X2, X1].
  assert (Hport : PortId port = 0 /\ h_launched (hw_state (s_hw s8)) = h_launched (hw_state (s_hw s))).
  { apply DpdkPort_new_spec in E8 as [(e & ? & _)|(pool & off & pr & [= ->] & _ & ->)]; [done|done|lia]. }
  exists rings.1, rings.2, args, started. split; [exact (plan_rings _ _ _ _ _ _ Hplan E9)|]. split.
  { unfold AssignRoles. rewrite Hplan. cbn [obind]. destruct Hport as [Hpid _]. rewrite Hpid in Ha. exact Ha. }
  split; [done|]. cbn [shm_delete s_hw set_os set_hw].
  destruct (DpdkPort_delete_spec port (free_rings rings (s_hw t9))) as (? & ? & ? & ? & ? & ? & -> & _). cbn.
  assert (Hfree : forall h, h_launched (hw_state (free_rings rings h)) = h_launched (hw_state h)).
  { intros h. unfold free_rings. rewrite delete_rings_state. cbn. destruct rings.2; [|done]. unfold Ring_delete. now rewrite ring_free_law. }
  rewrite Hfree, Hs. cbn. destruct Hport as [_ <-].
  apply make_rings_spec in E9 as [(e & ? & _)|[(_ & _ & ->)|(_ & i & e & m' & _ & _ & -> & _)]]; done.
Qed.

(** Nothing is printed on the way to an exception. *)
Definition silent (s s' : Sys) : Prop := s_out s' = s_out s /\ s_err s' = s_err s.

#[export] Instance silent_preorder : PreOrder silent.
Proof. split; [done|]. intros s1 s2 s3 [] []. split; congruence. Qed.







(** A number of lcores that is refused: DPDK is not touched. *)
Definition untouched (e : exn) (s s' : Sys) : Prop :=
  plan_lcores (h_lcores (hw_state (s_hw s))) = Throw e -> s_hw s' = s_hw s.

#[export] Instance untouched_preorder e : PreOrder (untouched e).
Proof.
  split; [done|]. intros s1 s2 s3 H12 H23 Hp. specialize (H12 Hp). rewrite <- H12. apply H23. now rewrite H12.
Qed.

Lemma untouched_shm e name size : acquires (untouched e) true (on_os (shm_create name size)) shm_delete.
Proof.
  intros s r s1 E. pose proof (shm_create_hw _ _ _ _ _ E) as (Hs & _). destruct r; try done; [|now intros _ Hp].
  intros s2 H12 Hp. cbn [shm_delete s_hw set_os]. rewrite <- Hs. apply H12. now rewrite Hs.
Qed.

Lemma RunDataplane_untouched e rounds fuel cfg process : keeps (untouched e) true (RunDataplane rounds fuel cfg process).
Proof.
  unfold RunDataplane. apply keeps_scoped; [apply untouched_shm|]. intros shm.
  apply keeps_bind; [apply _|apply keeps_lift, _|]. intros _. apply keeps_scoped; [apply untouched_shm|]. intros cshm.
  apply keeps_bind; [apply _|apply keeps_lift, _|]. intros control.
  apply keeps_bind; [apply _|intros s r s' [= <- <-] _ _; done|].
  intros view. apply keeps_bind; [apply _|apply keeps_lift, _|]. intros [v loop].
  apply keeps_bind; [apply _|intros s r s' [= <- <-] _ _; done|]. intros _.
  intros s r s' E _ Hp. unfold pbind at 1, on_hw at 1, zoom at 1 in E. cbn beta iota in E.
  unfold pbind at 1, lift at 1 in E. rewrite Hp in E. injection E as _ <-. done.
Qed.

(** ** Every call of the process ends *)

(** A view some publish has completed. *)
Definition published_view (v : ControlView) : Prop := view_ok v /\ 0 <= cv_count v <= Z.of_nat kMaxBackends.

Lemma read_and_build fuel v out :
  published_view v -> length out = kMaxBackends -> (255 <= fuel)%nat ->
  exists out', ReadControl fuel v out = Ret (cv_seq v, out', cv_count v) /\ length out' = kMaxBackends /\
    exists pool, BuildPool fuel out' (cv_count v) = Ret pool.
Proof.
  intros [Hv Hc] Ho Hf. destruct fuel as [|fuel]; [lia|]. rewrite (ReadControl_spec fuel v out Hv Ho Hc).
  set (k := Z.to_nat (cv_count v)). destruct Hv as (Hl & _). eexists. split; [done|].
  assert (Hlen : length (take k (cv_backends v) ++ drop k out) = kMaxBackends)
    by (rewrite length_app, length_take, length_drop; lia).
  split; [exact Hlen|]. eexists. replace (cv_count v) with (Z.of_nat k) by lia. apply BuildPool_spec; lia.
Qed.

(** The control loop ends at the first turn at which it finds [g_running] cleared. *)
Lemma RunControlLoop_settles fuel running view N i st :
  (forall j, published_view (view j)) -> length (cl_snapshot st) = kMaxBackends -> (255 <= fuel)%nat ->
  running N = false -> (i <= N)%nat ->
  exists i' st', (i' <= N)%nat /\ forall rounds, (N < i + rounds)%nat -> RunControlLoop rounds fuel running view i st = Ret (i', st').
Proof.
  intros Hv Hs Hf HN Hi. remember (N - i)%nat as d eqn:Hd. revert i st Hs Hi Hd. induction d as [|d IH]; intros i st Hs Hi Hd;
    (destruct (running i) eqn:Er; [|exists i, st; split; [done|]; intros [|rounds] Hr; [lia|]; cbn [RunControlLoop]; by rewrite Er]).
  - assert (i = N) as -> by lia. congruence.
  - assert (Hst : exists st1, control_poll fuel (view i) st = Ret st1 /\ length (cl_snapshot st1) = kMaxBackends).
    { unfold control_poll. destruct (read_and_build fuel (view i) _ (Hv i) Hs Hf) as (out & -> & Ho & pool & Hp). cbn [obind].
      destruct (negb _); [rewrite Hp; cbn [obind]|]; eauto. }
    destruct Hst as (st1 & E1 & Hs1). destruct (IH (S i) st1 Hs1 ltac:(lia) ltac:(lia)) as (i' & st' & Hi' & Hall).
    exists i', st'. split; [done|]. intros [|rounds] Hr; [lia|]. cbn [RunControlLoop]. rewrite Er, E1. cbn [negb obind]. apply Hall. lia.
Qed.

(** The wait ends once the lcores are back. *)
Lemma wait_lcores_settles back N i h rounds :
  back N = true -> (i <= N)%nat -> (N < i + rounds)%nat -> wait_lcores rounds back i h = (Ret tt, rte_eal_mp_wait_lcore h).
Proof.
  intros HN. revert i. induction rounds as [|rounds IH]; intros i Hi Hr; [lia|]. cbn [wait_lcores]. destruct (back i) eqn:Eb; [done|].
  apply IH; [|lia]. destruct (decide (i = N)) as [->|]; [congruence|lia].
Qed.

Lemma StartControl_ends fuel v cfg :
  view_ok v -> Z.of_nat (length (backends cfg)) < 2 ^ 32 -> (255 <= fuel)%nat ->
  exists v' loop, StartControl fuel v cfg = Ret (v', loop) /\ length (cl_snapshot loop) = kMaxBackends.
Proof.
  intros Hv Hn Hf. unfold StartControl, SeedControl. set (entries := _ <$> backends cfg).
  destruct (PublishControl_spec v entries Hv) as (v' & -> & Hv' & _ & Hc & _); [subst entries; now rewrite length_fmap|].
  cbn [obind]. destruct (read_and_build fuel v' (replicate kMaxBackends ControlBackend_zero)) as (out & -> & Ho & pool & Hp).
  - split; [done|]. rewrite Hc. unfold published_count. lia.
  - apply length_replicate.
  - done.
  - cbn [obind]. rewrite Hp. cbn [obind]. eauto.
Qed.

Lemma shm_create_ends name size : ends (on_os (shm_create name size)) (fun p => exists ptr, As p size = Ret ptr).
Proof.
  intros s. unfold on_os, zoom, shm_create.
  destruct (ShmProvider_new (s_os s) name size kCreate) as [[e|p] o] eqn:E; [done|]. apply ShmProvider_new_spec in E. cbn.
  destruct E as (_ & _ & _ & Ha & _). eauto.
Qed.

Lemma DpdkPort_new_ends : ends (on_hw (DpdkPort_new 0 1)) (fun p => PortId p = 0).
Proof.
  intros s. unfold on_hw, zoom. destruct (DpdkPort_new 0 1 (s_hw s)) as [r h] eqn:E.
  apply DpdkPort_new_spec in E as [(e & -> & _)|(pool & off & pr & -> & _)]; [done|done|lia].
Qed.

Lemma make_rings_ends lcores d n :
  plan_lcores lcores = Ret (d, n) -> ends (on_hw (make_rings d n)) (fun r => rings_made lcores r.1 r.2).
Proof.
  intros Hp s. unfold on_hw, zoom. destruct (make_rings d n (s_hw s)) as [r h] eqn:E. cbn [fst].
  pose proof (make_rings_spec _ _ _ _ _ E) as Hc. destruct r as [rings|e| |]; [exact (plan_rings _ _ _ _ _ _ Hp E)|done| |].
  all: destruct Hc as [(? & ? & _)|[(_ & ? & _)|(_ & ? & ? & ? & ? & _)]]; done.
Qed.

Lemma assign_loop_ends lcores d n port rings :
  plan_lcores lcores = Ret (d, n) -> rings_made lcores rings.1 rings.2 ->
  exists args, assign_loop lcores d port n rings.1 rings.2 0 0 = Ret args.
Proof.
  intros Hp Hm. assert (E : assign_loop lcores d port n rings.1 rings.2 0 0 = AssignRoles lcores port rings.1 rings.2)
    by (unfold AssignRoles; now rewrite Hp). rewrite E. unfold rings_made in Hm.
  assert (Hl : (1 <= length lcores <= kMaxLcores)%nat).
  { unfold plan_lcores in Hp. destruct (Z.ltb_spec (Z.of_nat (length lcores)) 1); [done|].
    destruct (Z.ltb_spec (Z.of_nat kMaxLcores) (Z.of_nat (length lcores))); [done|lia]. }
  destruct (Nat.leb_spec 2 (length lcores)).
  - destruct Hm as [Hr [e He]]. rewrite He, AssignRoles_many by (done || lia). eauto.
  - destruct lcores as [|l [|]]; [simpl in *; lia| |simpl in *; lia]. rewrite AssignRoles_one. eauto.
Qed.

(** What the main lcore finds once it has launched [working] out of [args]: published
    views, and from some turn on a cleared [g_running] and the lcores back. *)
Definition winds_down (look : nat -> Look) : Prop :=
  (forall i, published_view (lk_view (look i))) /\
  exists N, forall i, (N <= i)%nat -> lk_running (look i) = false /\ lk_back (look i) = true.

Definition all_wind_down (process : list (Z * LcoreArg) -> nat -> Look) : Prop :=
  forall lcores rings egress_ring args working,
    rings_made lcores rings egress_ring -> AssignRoles lcores 0 rings egress_ring = Ret args ->
    working `sublist_of` zip lcores args -> winds_down (process working).

Lemma run_lcores_settles fuel process loop lcores d n port rings s :
  all_wind_down process -> length (cl_snapshot loop) = kMaxBackends -> (255 <= fuel)%nat ->
  plan_lcores lcores = Ret (d, n) -> rings_made lcores rings.1 rings.2 -> PortId port = 0 -> h_running (hw_state (s_hw s)) = [] ->
  settles (fun rounds => run_lcores rounds fuel process loop lcores d n port rings) s.
Proof.
  intros Hw Hs Hf Hp Hm Hport Hrun. destruct (assign_loop_ends lcores d n (PortId port) rings Hp Hm) as [args Ha].
  destruct (launch_all (zip lcores args) (s_hw s)) as [r1 h1] eqn:E1. pose proof E1 as (-> & started & Hsub & Hs1)%launch_all_spec.
  destruct (Hw lcores rings.1 rings.2 args started Hm) as (Hv & N & HN); [|done|].
  { unfold AssignRoles. rewrite Hp. cbn [obind]. rewrite Hport in Ha. exact Ha. }
  destruct (RunControlLoop_settles fuel (fun i => lk_running (process started i)) (fun i => lk_view (process started i)) N 0 loop Hv Hs Hf)
    as (i' & st' & Hi' & Hloop); [by apply HN|lia|].
  eexists (S N), (Ret tt), _. split; [done|]. intros rounds Hr. unfold run_lcores, pbind, lift. rewrite Ha.
  unfold on_hw, zoom. rewrite E1. cbn. rewrite Hs1, Hrun. cbn. rewrite Hloop by lia.
  rewrite (wait_lcores_settles _ N i') by (lia || by apply HN). done.
Qed.

(** What comes after the control view has been loaded. *)
Definition from_view (rounds fuel : nat) (cfg : Config) (process : list (Z * LcoreArg) -> nat -> Look) (control : Z) (view : ControlView) : prog Sys unit :=
  do! '(view, loop) := lift (StartControl fuel view cfg) in
  on_os (fun o => (Ret tt, store_view o control view)) >>>
  do! lcores := on_hw (fun h => (Ret (h_lcores (hw_state h)), h)) in
  do! '(distributor, n_workers) := lift (plan_lcores lcores) in
  scoped (on_hw (DpdkPort_new 0 1)) (fun p s => set_hw s (DpdkPort_delete p (s_hw s))) (fun port =>
  scoped (on_hw (make_rings distributor n_workers)) (fun r s => set_hw s (free_rings r (s_hw s))) (fun rings =>
  run_lcores rounds fuel process loop lcores distributor n_workers port rings)).

Lemma from_view_settles fuel cfg process control view s :
  view_ok view -> all_wind_down process -> Z.of_nat (length (backends cfg)) < 2 ^ 32 -> (255 <= fuel)%nat ->
  h_running (hw_state (s_hw s)) = [] -> settles (fun rounds => from_view rounds fuel cfg process control view) s.
Proof.
  intros Hview Hw Hn Hf Hrun. unfold from_view. destruct (StartControl_ends fuel view cfg Hview Hn Hf) as (v & loop & Es & Hs).
  apply settles_bind; [by rewrite Es|]. intros [v' loop'] s1 [= Ev <-]. rewrite Es in Ev. injection Ev as <- <-.
  apply settles_bind; [done|]. intros [] s2 [= E2]. apply settles_bind; [done|]. intros lcores s3 [= _ <-]. subst s2.
  destruct (plan_lcores lcores) as [[d n]|e| |] eqn:Ep;
    [|eexists 0%nat, (Throw e), _; split; [done|]; by intros n _| |]; [|unfold plan_lcores in Ep; repeat case_match; done..].
  apply settles_bind; [done|]. intros [d' n'] s4 [= <- <- <-].
  apply settles_scoped; [exact (ends_left _ _ _ DpdkPort_new_ends)|]. intros port s5 E5.
  assert (H5 : PortId port = 0 /\ h_running (hw_state (s_hw s5)) = []).
  { apply on_hw_Ret in E5 as (E5 & _). apply DpdkPort_new_spec in E5 as [(e & ? & _)|(pool & off & pr & [= ->] & _ & ->)]; [done|split; [done|exact Hrun]|lia]. }
  apply settles_scoped; [exact (ends_left _ _ _ (make_rings_ends _ _ _ Ep))|]. intros rings s6 E6. apply on_hw_Ret in E6 as (E6 & _).
  apply run_lcores_settles; try done; [exact (plan_rings _ _ _ _ _ _ Ep E6)|apply H5|].
  destruct H5 as [_ <-]. apply make_rings_spec in E6 as [(e & ? & _)|[(_ & _ & ->)|(_ & i & e & m' & _ & _ & -> & _)]]; done.
Qed.

(** The control segment as [RunDataplane] finds it was not left in the middle of a
    publish. *)
Definition even_segment (s : Sys) : Prop :=
  forall shm s1 control_shm s2, on_os (shm_create "/cerebellum_stats" sizeof_StatsView) s = (Ret shm, s1) ->
  on_os (shm_create kControlShmName sizeof_ControlView) s1 = (Ret control_shm, s2) ->
  Z.land (cv_seq (load_view (s_os s2) (ptr_ control_shm))) 1 = 0.

Lemma shm_create_left name size s : left (on_os (shm_create name size) s).1 = true.
Proof. exact (ends_left _ _ s (shm_create_ends name size)). Qed.

Lemma shm_create_As name size s p s1 : on_os (shm_create name size) s = (Ret p, s1) -> As p size = Ret (ptr_ p).
Proof.
  intros E. pose proof (shm_create_ends name size s) as Hp. rewrite E in Hp. destruct Hp as [ptr Hp]. unfold As in *. now destruct (_ <=? _).
Qed.

Lemma RunDataplane_settles fuel cfg process s :
  even_segment s -> all_wind_down process -> Z.of_nat (length (backends cfg)) < 2 ^ 32 -> (255 <= fuel)%nat ->
  h_running (hw_state (s_hw s)) = [] -> settles (fun rounds => RunDataplane rounds fuel cfg process) s.
Proof.
  intros He Hw Hn Hf Hrun. unfold RunDataplane. apply settles_scoped; [apply shm_create_left|]. intros shm s1 E1.
  apply settles_bind; [by rewrite (shm_create_As _ _ _ _ _ E1)|]. intros _ s1' [= _ <-].
  apply settles_scoped; [apply shm_create_left|]. intros control_shm s2 E2.
  apply settles_bind; [by rewrite (shm_create_As _ _ _ _ _ E2)|]. intros control s2' [= Hc <-].
  rewrite (shm_create_As _ _ _ _ _ E2) in Hc. injection Hc as <-.
  apply settles_bind; [done|]. intros view s3 [= <- <-].
  assert (Hok : view_ok (load_view (s_os s2) (ptr_ control_shm))).
  { destruct (load_view_typed (s_os s2) (ptr_ control_shm)). split; [done|]. split; [done|]. exact (He _ _ _ _ E1 E2). }
  apply (from_view_settles fuel cfg process (ptr_ control_shm) _ _ Hok Hw Hn Hf).
  apply shm_create_hw in E1 as (E1 & _), E2 as (E2 & _). cbn. by rewrite E2, E1.
Qed.

(** ** Properties *)

(** C33: [RunDataplane] gives back what it took, whether it returns after a signal or
    any of its calls fails: no descriptor, mapping or ring is left and no lcore is
    still at work; after a normal return no pool is left either, and no port configured
    or started, except a port whose stop or close reported an error (the destructor
    ignores both results). *)
Theorem dataplane_releases rounds fuel cfg process s r s' :
  RunDataplane rounds fuel cfg process s = (r, s') -> left r = true ->
  same_handles (s_os s) (s_os s') /\ same_rings (s_hw s) (s_hw s') /\ (r = Ret tt -> same_all (s_hw s) (s_hw s')).
Proof.
  intros E Hl.
  assert (Hr : same_sys same_rings s s').
  { eapply RunDataplane_keeps_rings; [exact E|now destruct r]. }
  split; [apply Hr|]. split; [apply Hr|]. intros ->.
  eapply (RunDataplane_keeps same_all false); [| | |exact E|done].
  - apply DpdkPort_acquires. lia.
  - intros d n. apply make_rings_acquires.
  - intros h h' l Hs. unfold same_all, same_rings. rewrite Hs. done.
Qed.

(** The launch: when [RunDataplane] has returned, it had created a ring per worker
    and one for egress (none for a single lcore), and the lcores it launched were
    given the arguments the roles assign to them, each at most once. *)
Theorem dataplane_launches rounds fuel cfg process s s' :
  RunDataplane rounds fuel cfg process s = (Ret tt, s') ->
  let lcores := h_lcores (hw_state (s_hw s)) in
  exists rings egress_ring args started,
    rings_made lcores rings egress_ring /\ AssignRoles lcores 0 rings egress_ring = Ret args /\
    started `sublist_of` zip lcores args /\
    h_launched (hw_state (s_hw s')) = h_launched (hw_state (s_hw s)) ++ started.
Proof. intros E. exact (proj1 (RunDataplane_Ret _ _ _ _ _ _ E)). Qed.

(** Too few or too many lcores are refused: with no worker lcore, or with more
    than the statistics have room for, [RunDataplane] ends with an exception and has
    not touched DPDK: no port, pool, ring or launch. *)
Theorem bad_lcore_count rounds fuel cfg process s r s' :
  let n := length (h_lcores (hw_state (s_hw s))) in
  (n = 0 \/ kMaxLcores < n)%nat -> RunDataplane rounds fuel cfg process s = (r, s') -> left r = true ->
  (exists e, r = Throw e) /\ s_hw s' = s_hw s.
Proof.
  intros n Hn E Hl.
  assert (Hp : exists e, plan_lcores (h_lcores (hw_state (s_hw s))) = Throw e).
  { unfold plan_lcores. fold n. destruct (Z.ltb_spec (Z.of_nat n) 1); [eauto|].
    destruct (Z.ltb_spec (Z.of_nat kMaxLcores) (Z.of_nat n)); [eauto|lia]. }
  destruct Hp as [e Hp]. split; [|exact (RunDataplane_untouched e rounds fuel cfg process s r s' E ltac:(now destruct r) Hp)].
  destruct r as [[]|e'| |]; try done; [|eauto]. exfalso.
  destruct (RunDataplane_Ret _ _ _ _ _ _ E) as ((rings & eg & args & started & _ & Ha & _) & _). unfold AssignRoles in Ha.
  now rewrite Hp in Ha.
Qed.


(** C35: the flags the rings are created with are true: a ring with [RING_F_SP_ENQ]
    has at most one lcore that may enqueue, one with [RING_F_SC_DEQ] at most one that may
    dequeue, and only one lcore polls the port. *)
Theorem ring_flags_sound lcores d n rings egress_ring args port h h' r name count flags :
  plan_lcores lcores = Ret (d, n) -> make_rings d n h = (Ret (rings, egress_ring), h') ->
  assign_loop lcores d port n rings egress_ring 0 0 = Ret args ->
  h_rings (hw_state h) !! r = None -> h_rings (hw_state h') !! r = Some (name, count, flags) ->
  (Z.land flags RING_F_SP_ENQ <> 0 -> at_most_one enqueues args r) /\
  (Z.land flags RING_F_SC_DEQ <> 0 -> at_most_one dequeues args r) /\
  (forall i j a b, args !! i = Some a -> args !! j = Some b -> polls_port a = true -> polls_port b = true -> i = j).
Proof.
  intros Hp Em Ea Hn Hr. pose proof (plan_rings _ _ _ _ _ _ Hp Em) as Hmade. cbn [fst snd] in Hmade.
  assert (Ha : AssignRoles lcores port rings egress_ring = Ret args) by (unfold AssignRoles; rewrite Hp; exact Ea).
  apply make_rings_spec in Em as [(e & ? & _)|[(_ & _ & ->)|(_ & ingress & eg & m' & [= <- ->] & Hl & Hs & Hnd & _ & Hj & Hk)]];
    [done|congruence|]. rewrite Hs in Hr. cbn in Hr.
  destruct (AssignRoles_cases _ _ _ _ _ Hmade Ha) as [[-> _]|(e & [= <-] & _ & _ & ->)].
  { split_and!; [intros _|intros _|]; intros i j a b Hi Hj'; apply lookup_lt_Some in Hi, Hj'; cbn in *; lia. }
  split; [|split; [intros _; now apply single_consumer|apply single_poller]]. intros Hf. apply single_producer; [done|].
  destruct (decide (r ∈ eg :: rings)) as [[->|Hin]%elem_of_cons|Hout]; [|done|rewrite Hk in Hr by done; congruence].
  rewrite (Hj O eg eq_refl) in Hr. injection Hr as _ _ <-. now destruct Hf.
Qed.

End Process.

(** ** The end of the process *)

Section Ending.
Context `{SharedViews} `{EalApi} `{BuildParams} `{Dpdk}.

(** What the main lcore finds in a state of the process. *)
Definition look_at (working : list (Z * LcoreArg)) (y : System) : Look :=
  mkLook (y_running y) (y_view y) (bool_decide (back working.*2 y)).

(** [process] shows, for every launch, a run of the process that starts with it, in which
    the signal arrives and every launched lcore goes on; the [i]-th look of the main lcore
    is at step [t i]. *)
Definition follows_runs (fuel : nat) (cfg : Config) (process : list (Z * LcoreArg) -> nat -> Look) : Prop :=
  forall lcores rings egress_ring args working,
    rings_made lcores rings egress_ring -> AssignRoles lcores 0 rings egress_ring = Ret args ->
    working `sublist_of` zip lcores args ->
    exists d f (t : nat -> nat), reachable fuel cfg lcores args d (f 0%nat) /\ fair_run fuel cfg working.*2 f /\
      (forall i, t i < t (S i))%nat /\ forall i, process working i = look_at working (f (t i)).

Lemma follows_wind_down fuel cfg process :
  65536 <= Z.of_nat fuel -> cfg_ok cfg -> follows_runs fuel cfg process -> all_wind_down process.
Proof.
  intros Hf Hc Hp lcores rings e args working Hr Ha Hw. destruct (Hp lcores rings e args working Hr Ha Hw) as (d & f & t & Hreach & Hfair & Ht & Hlook).
  pose proof (reachable_ok fuel Hf cfg Hc _ _ _ _ Hreach) as Hok. split.
  - intros i. rewrite Hlook. destruct (run_ok fuel Hf cfg Hc _ _ _ f Hfair Hok (t i)) as [_ _ _ _ (? & ? & _) _ _]. done.
  - destruct (fair_run_settles fuel Hf cfg Hc _ _ _ f Hfair Hok) as [N HN]. exists N. intros i Hi. rewrite Hlook.
    assert (Hti : forall j, (j <= t j)%nat) by (intros j; induction j as [|j IH]; [lia|specialize (Ht j); lia]).
    destruct (HN (t i)) as [Hrun Hb]; [specialize (Hti i); lia|]. split; [done|]. by apply bool_decide_eq_true.
Qed.

(** C34: [RunDataplane] comes to an end once the signal has arrived, whatever calls of
    the system and of DPDK fail: in every run of the process in which no launched lcore
    is left out for ever, the control loop sees the cleared [g_running], the wait sees
    the lcores back from [LcoreMain], and [RunDataplane] returns or throws, with nothing
    undefined on the way and the same end however many more turns its loops may take. No
    lcore is at work before, and no control segment was left in the middle of a publish. *)
Theorem dataplane_ends fuel cfg process s :
  65536 <= Z.of_nat fuel -> cfg_ok cfg -> Z.of_nat (length (backends cfg)) < 2 ^ 32 ->
  even_segment s -> h_running (hw_state (s_hw s)) = [] -> follows_runs fuel cfg process ->
  exists N r s', left r = true /\ forall rounds, (N <= rounds)%nat -> RunDataplane rounds fuel cfg process s = (r, s').
Proof.
  intros Hf Hc Hn He Hrun Hp. exact (RunDataplane_settles fuel cfg process s He (follows_wind_down fuel cfg process Hf Hc Hp) Hn ltac:(lia) Hrun).
Qed.

End Ending.
