(* ===== verification/LaunchSamples.v ===== *)
(** * The process theorems on a small machine *)

From S2P Require Import Prelude Raii NetTypes FlowKey BackendPool Ipc Graph Packet Nodes Dataplane DataplaneSpec Io IoSpec.
From S2P Require Import SampleDevice DataplaneSamples Control ControlSpec System DeviceUse SystemSpec FairRun SystemSamples Shm Launch LaunchSpec.

#[local] Existing Instance BackendPool.test_build.
#[local] Existing Instance SampleDevice.sample_dpdk.

(** ** Memory *)

(** Descriptors, mappings, a header and a view that every mapping shows. *)
Record MemOs := mkMemOs { ms_fds : list Z; ms_maps : list Z; ms_header : ShmHeader; ms_view : ControlView }.

Definition empty_view : ControlView := mkControlView (mkShmHeader 0 0) 0 0 (replicate kMaxBackends ControlBackend_zero).

#[local] Instance mem_posix : Posix.
Proof.
  refine {| os := MemOs; open_fds := ms_fds; mappings := ms_maps;
    shm_open o name m := (3, mkMemOs (3 :: ms_fds o) (ms_maps o) (ms_header o) (ms_view o));
    ftruncate o fd size := (0, o);
    fchmod o fd := (0, o);
    fstat o fd := (0, 2 ^ 20, o);
    mmap o fd size := (Some 65536, mkMemOs (ms_fds o) (65536 :: ms_maps o) (ms_header o) (ms_view o));
    munmap o p size := mkMemOs (ms_fds o) (tail (ms_maps o)) (ms_header o) (ms_view o);
    close_fd o fd := mkMemOs (tail (ms_fds o)) (ms_maps o) (ms_header o) (ms_view o);
    shm_unlink o name := o;
    load_header o p := ms_header o;
    store_header o p h := mkMemOs (ms_fds o) (ms_maps o) h (ms_view o) |}.
  - intros o name m fd o' [= <- <-]. done.
  - intros o fd size rc o' [= _ <-]. done.
  - intros o fd rc o' [= _ <-]. done.
  - intros o fd rc size o' [= _ _ <-]. done.
  - intros o fd size p o' [= <- <-]. done.
  - intros o p size l E. simpl in *. now rewrite E.
  - intros o fd l E. simpl in *. now rewrite E.
  - done.
  - done.
Defined.

#[local] Instance mem_views : SharedViews.
Proof.
  refine {| load_view o p := if decide (view_typed (ms_view o)) then ms_view o else empty_view;
    store_view o p v := mkMemOs (ms_fds o) (ms_maps o) (ms_header o) v |}.
  - intros o p. case_decide; [done|]. split; [reflexivity|simpl; lia].
  - intros o p v. split; [done|]. split; [done|]. intros Hv. cbn [ms_view]. now rewrite decide_True.
Defined.

(** ** DPDK *)

(** Every call succeeds, but the receive queues of port 1 cannot be set up and port 2 can
    be neither stopped nor closed; the EAL finds the worker lcores 1, 2 and 3 if it is
    given arguments. *)
#[local] Instance sim_eal : EalApi.
Proof.
  refine {| hw := Hw; hw_state h := h; RTE_ETH_RSS := 15;
    rte_eal_init h argv := if (length argv <=? 1)%nat then (-1, h) else (0, set_up h true [1; 2; 3]);
    rte_eal_cleanup h := set_up h false (h_lcores h);
    rte_ring_create h name n flags :=
      let p := fresh (dom (h_rings h)) in (Some p, set_rings h (<[p := (name, n, flags)]> (h_rings h)));
    rte_ring_free h p := set_rings h (delete p (h_rings h));
    rte_eth_dev_info_get h port := (0, 255, h);
    rte_eth_dev_configure h port nrx ntx conf := (0, set_ports h (<[port := (nrx, ntx, conf)]> (h_ports h)));
    rte_socket_id h := 0;
    rte_eth_dev_socket_id h port := -1;
    rte_pktmbuf_pool_create h name n cache priv :=
      let p := fresh (h_pools h) in (Some p, set_mpools h ({[p]} ∪ h_pools h));
    rte_mempool_free h p := set_mpools h (h_pools h ∖ {[p]});
    rte_eth_rx_queue_setup h port q n socket pool :=
      if port =? 1 then (-1, h) else (0, set_queues h (<[(port, q) := pool]> (h_rxq h)) (h_txq h));
    rte_eth_tx_queue_setup h port q n socket := (0, set_queues h (h_rxq h) ({[(port, q)]} ∪ h_txq h));
    rte_eth_dev_start h port := (0, set_started h ({[port]} ∪ h_started h) (h_promisc h));
    rte_eth_promiscuous_enable h port := set_started h (h_started h) ({[port]} ∪ h_promisc h);
    rte_eth_dev_stop h port :=
      if port =? 2 then (-16, set_refused h ({[port]} ∪ h_refused h)) else (0, set_started h (h_started h ∖ {[port]}) (h_promisc h));
    rte_eth_dev_close h port :=
      if port =? 2 then (-22, set_refused h ({[port]} ∪ h_refused h))
      else (0, set_queues (set_ports h (delete port (h_ports h)))
             (filter (fun x => x.1.1 <> port) (h_rxq h)) (filter (fun x => x.1 <> port) (h_txq h)));
    rte_eal_remote_launch h arg lcore := (0, set_running h (h_running h ++ [(lcore, arg)]) (h_launched h ++ [(lcore, arg)]));
    rte_eal_mp_wait_lcore h := set_running h [] (h_launched h) |}.
  - intros h argv rc h'. destruct (length argv <=? 1)%nat; intros [= <- <-]; [done|]. eexists. done.
  - done.
  - intros h name n flags r h' [= <- <-]. split; [|done]. apply not_elem_of_dom, is_fresh.
  - done.
  - intros h port rc off h' [= _ _ <-]. done.
  - intros h port nrx ntx conf rc h' [= <- <-]. done.
  - intros h name n cache priv p h' [= <- <-]. split; [apply is_fresh|done].
  - done.
  - intros h port q n socket pool rc h'. destruct (port =? 1); intros [= <- <-]; done.
  - intros h port q n socket rc h' [= <- <-]. done.
  - intros h port rc h' [= <- <-]. done.
  - intros h port. exists true. done.
  - intros h port rc h'. destruct (port =? 2); intros [= <- <-]; [|done]. cbn. eexists _, _, _, _, _. by split.
  - intros h port rc h'. destruct (port =? 2); intros [= <- <-]; [|done]. cbn. eexists _, _, _, _, _. by split.
  - intros h arg lcore rc h' [= <- <-]. done.
  - done.
Defined.

Definition cold (up : bool) (lcores : list Z) : hw := mkHw up lcores ∅ ∅ ∅ ∅ ∅ ∅ ∅ [] [] ∅.

Definition machine (up : bool) (lcores : list Z) : Sys :=
  mkSys _ _ (mkMemOs [0; 1; 2] [] (mkShmHeader 0 0) empty_view) (cold up lcores) "" "".

(** ** Ports *)

Lemma port_ready_witness :
  let r := DpdkPort_new 0 2 (cold true [1]) in
  exists p, r.1 = Ret p /\ PortId p = 0 /\ Pool p ∉ h_pools (hw_state (cold true [1])) /\
    h_pools (hw_state r.2) = {[Pool p]} ∪ h_pools (hw_state (cold true [1])) /\ 0 ∈ h_started (hw_state r.2) /\
    (exists offloads conf, h_ports (hw_state r.2) !! 0 = Some (2, 2, conf) /\
       (mq_rss conf = true <-> 1 < 2 /\ Z.land RTE_ETH_RSS offloads <> 0)) /\
    forall q, 0 <= q < 2 -> h_rxq (hw_state r.2) !! (0, q) = Some (Pool p) /\ (0, q) ∈ h_txq (hw_state r.2).
Proof.
  intros r. eexists. split; [vm_compute; reflexivity|]. apply (port_ready 0 2 (cold true [1])); [vm_compute; reflexivity|lia].
Defined.

Definition configured1 : hw := (Configure 1 1 (cold true [1])).2.

Lemma port_ctor_leaks_pool_witness :
  let r := DpdkPort_new 1 1 (cold true [1]) in
  r.1 = Throw (runtime_error "rx queue 0 setup failed") /\
  exists pool, pool ∉ h_pools (hw_state (cold true [1])) /\
    h_pools (hw_state r.2) = {[pool]} ∪ h_pools (hw_state (cold true [1])) /\ is_Some (h_ports (hw_state r.2) !! 1).
Proof.
  intros r. split; [vm_compute; reflexivity|]. exists 0.
  eapply (port_ctor_leaks_pool 1 1 (cold true [1]) configured1 0); [vm_compute; reflexivity..|lia].
Defined.

(** The destructor frees the pool of port 2 while the port is still started and its
    receive queue still fills from it. *)
Definition port2 : outcome DpdkPort * hw := DpdkPort_new 2 1 (cold true [1]).

Example refused_close_dangles :
  exists p, port2.1 = Ret p /\
    let h := hw_state (DpdkPort_delete p port2.2) in
    2 ∈ h_started h /\ h_rxq h !! (2, 0) = Some (Pool p) /\ Pool p ∉ h_pools h.
Proof.
  exists (mkDpdkPort 2 0). split; [vm_compute; reflexivity|].
  split_and!; [apply (bool_decide_unpack _)|..|apply (bool_decide_unpack _)]; vm_compute; done.
Qed.

(** ** The process *)

(** At the first look nothing has changed; at the next ones the signal has arrived and the
    lcores are back. *)
Definition process3 (working : list (Z * LcoreArg)) (i : nat) : Look :=
  match i with
  | O => mkLook true view3 (bool_decide (length working = 0%nat))
  | S _ => mkLook false view3 true
  end.

Lemma started_back args (working : list (Z * LcoreArg)) lcores :
  (length args <= kMaxLcores)%nat -> working `sublist_of` zip lcores args ->
  back working.*2 (launched dev3 (fun _ => blank_mbuf) view3 loop3 args stats3) <-> length working = 0%nat.
Proof.
  intros Hl Hw. unfold back. cbn [launched y_threads]. split.
  - intros Hb. destruct working as [|[l a] working]; [done|]. exfalso.
    assert (Ha : a ∈ args).
    { assert (Hin : (l, a) ∈ zip lcores args) by (eapply elem_of_sublist; [apply list_elem_of_here|exact Hw]).
      by apply elem_of_zip_r in Hin. }
    apply list_elem_of_lookup in Ha as [i Hi].
    destruct (lookup_lt_is_Some_2 stats3 i) as [st Hst].
    { apply lookup_lt_Some in Hi. unfold stats3. rewrite length_replicate. lia. }
    assert (Hth : zip_with (fun arg s => mkThread arg PcStart [] (no_lb s)) args stats3 !! i = Some (mkThread a PcStart [] (no_lb st))).
    { rewrite lookup_zip_with, Hi, Hst. reflexivity. }
    pose proof (Forall_lookup_1 _ _ _ _ Hb Hth (list_elem_of_here a _)) as He. discriminate He.
  - destruct working as [|w working]; [|intros E; simpl in E; lia]. intros _. apply Forall_forall. intros th _ Hin. by apply elem_of_nil in Hin.
Qed.

Lemma process3_follows : follows_runs fuel0 sample_config process3.
Proof.
  intros lcores rings e args working Hr Ha Hw. set (y := launched dev3 (fun _ => blank_mbuf) view3 loop3 args stats3).
  assert (Hy : reachable fuel0 sample_config lcores args dev3 y).
  { exists 0, rings, e, (fun _ => blank_mbuf), view3, loop3, stats3. split; [done|]. split; [done|]. split; [apply prepared3|apply rtc_refl]. }
  pose proof (reachable_ok fuel0 fuel0_enough sample_config cfg3_ok _ _ _ _ Hy) as Hok.
  pose proof (fair_run_exists fuel0 fuel0_enough sample_config cfg3_ok args _ working.*2 y Hok) as Hf.
  destruct (fair_run_settles fuel0 fuel0_enough sample_config cfg3_ok _ _ _ _ Hf Hok) as [N HN].
  exists dev3, (in_turn fuel0 sample_config y), (fun i => match i with O => O | S _ => N + i end)%nat.
  split; [exact Hy|]. split; [exact Hf|]. split; [intros [|i]; lia|]. intros [|i].
  - unfold process3, look_at. f_equal. apply bool_decide_ext. symmetry. apply (started_back args working lcores); [|exact Hw].
    exact (proj2 (assigned_ok _ _ _ _ _ Hr Ha)).
  - destruct (HN (N + S i)%nat ltac:(lia)) as [Hrun Hb]. unfold process3, look_at. rewrite Hrun, in_turn_view.
    rewrite bool_decide_eq_true_2; [reflexivity|exact Hb].
Qed.

(** An IO lcore and two workers; one poll that shows the view unchanged. *)
Definition run3 : outcome unit * Sys := RunDataplane 3 300 sample_config process3 (machine true [1; 2; 3]).

Definition launches : list (Z * LcoreArg) :=
  [(1, mkLcoreArg kIo 0 0 2 0 [0; 1]%nat None (Some 2%nat));
   (2, mkLcoreArg kWorker 0 0 2 1 [0; 1]%nat (Some 0%nat) (Some 2%nat));
   (3, mkLcoreArg kWorker 0 1 2 2 [0; 1]%nat (Some 1%nat) (Some 2%nat))].

Lemma run3_result : run3.1 = Ret tt /\ h_launched (hw_state (s_hw run3.2)) = launches.
Proof. vm_compute. done. Qed.

Lemma run3_pair : RunDataplane 3 300 sample_config process3 (machine true [1; 2; 3]) = (run3.1, run3.2).
Proof. unfold run3. now destruct (RunDataplane _ _ _ _ _). Qed.

Lemma dataplane_releases_witness :
  same_handles (s_os (machine true [1; 2; 3])) (s_os run3.2) /\ same_rings (s_hw (machine true [1; 2; 3])) (s_hw run3.2) /\
  (run3.1 = Ret tt -> same_all (s_hw (machine true [1; 2; 3])) (s_hw run3.2)).
Proof.
  apply (dataplane_releases 3 300 sample_config process3 (machine true [1; 2; 3]) run3.1 run3.2);
    [exact run3_pair|]. now rewrite (proj1 run3_result).
Defined.

Lemma dataplane_ends_witness :
  exists N r s', left r = true /\
    forall rounds, (N <= rounds)%nat -> RunDataplane rounds fuel0 sample_config process3 (machine true [1; 2; 3]) = (r, s').
Proof.
  apply (dataplane_ends fuel0 sample_config process3 (machine true [1; 2; 3])).
  - exact fuel0_enough.
  - exact cfg3_ok.
  - vm_compute. reflexivity.
  - intros shm s1 control_shm s2 E1 E2. injection E1 as <- <-. injection E2 as <- <-. vm_compute. reflexivity.
  - reflexivity.
  - exact process3_follows.
Defined.

Lemma dataplane_launches_witness :
  h_launched (hw_state (s_hw run3.2)) = launches /\
  exists rings egress_ring args started,
    rings_made [1; 2; 3] rings egress_ring /\ AssignRoles [1; 2; 3] 0 rings egress_ring = Ret args /\
    started `sublist_of` zip [1; 2; 3] args /\ h_launched (hw_state (s_hw run3.2)) = [] ++ started.
Proof.
  split; [apply run3_result|]. apply (dataplane_launches 3 300 sample_config process3 (machine true [1; 2; 3]) run3.2).
  rewrite <- (proj1 run3_result). exact run3_pair.
Defined.

(** No worker lcore at all. *)
Definition run0 : outcome unit * Sys := RunDataplane 3 300 sample_config process3 (machine true []).

Lemma run0_pair : RunDataplane 3 300 sample_config process3 (machine true []) = (run0.1, run0.2).
Proof. unfold run0. now destruct (RunDataplane _ _ _ _ _). Qed.

Lemma bad_lcore_count_witness : (exists e, run0.1 = Throw e) /\ s_hw run0.2 = s_hw (machine true []).
Proof.
  apply (bad_lcore_count 3 300 sample_config process3 (machine true []) run0.1 run0.2); [left; reflexivity|exact run0_pair|].
  vm_compute. reflexivity.
Defined.








Definition rings3 : outcome (list nat * option nat) * hw := make_rings true 2 (cold true [1; 2; 3]).

(** Ring 1, which the IO lcore fills and the second worker empties. *)
Lemma ring_flags_sound_witness :
  (Z.land 3 RING_F_SP_ENQ <> 0 -> at_most_one enqueues launches.*2 1%nat) /\
  (Z.land 3 RING_F_SC_DEQ <> 0 -> at_most_one dequeues launches.*2 1%nat) /\
  (forall i j a b, launches.*2 !! i = Some a -> launches.*2 !! j = Some b -> polls_port a = true -> polls_port b = true -> i = j).
Proof.
  apply (ring_flags_sound [1; 2; 3] true 2 [0; 1]%nat (Some 2%nat) launches.*2 0 (cold true [1; 2; 3]) rings3.2 1
    "cere_ingress_1"%string 1024 3); vm_compute; reflexivity.
Defined.
