(* ===== verification/Monitor.v ===== *)
(** * [MonitorComponent] ([controlplane/src/monitor/monitor_component.cpp])

    The object with its members, from the constructor, which attaches to the two
    segments or goes on without, over the polls of the periodic task, to the
    destructor, and the handlers that read it. The framework's part is documented
    behaviour of [PeriodicTask]: polls do not overlap, and none runs after [Stop]. *)

From S2P Require Import Prelude Raii FlowKey NetTypes BackendPool Ipc Control ControlPlane HealthThread Shm Launch.

Local Open Scope string_scope.
Local Open Scope Z_scope.

(** Contents a [StatsView] in memory can have. *)
Definition stats_typed (v : StatsView) : Prop :=
  length (lcores v) = kMaxLcores /\ Forall (fun s => length (backend_flows s) = kMaxBackends) (lcores v).

(** A mapped statistics segment is memory of type [StatsView]. *)
Class SharedStats `{Posix} := {
  load_stats : os -> Z -> StatsView;
  load_stats_typed : forall o p, stats_typed (load_stats o p);
}.

(** [StatsView()] and [AggregatedStats{}]. *)
Definition StatsView_zero : StatsView := mkStatsView (mkShmHeader 0 0) (replicate kMaxLcores LcoreStats_zero).

Definition AggregatedStats_zero : AggregatedStats := mkAggregatedStats 0 0 0 0 0 (replicate kMaxBackends 0).

Definition kShmName : string := "/cerebellum_stats".

(** [aggregator_] is its [prev_]; [view] is what its reference refers to. *)
Record MonitorComponent := mkMonitorComponent {
  config_ : Config;
  tsdb_url_ : string;
  shm_ : option ShmProvider;
  fallback_ : option StatsView;
  control_shm_ : option ShmProvider;
  control_ : option Z;
  published_enabled_ : list Z;
  prev_ : Snapshot;
  latest_ : AggregatedStats;
}.

(** The component with its health checker and the state of the process; the phase says
    how far the destructor has come. *)
Inductive Phase := m_live | m_poller_stopped | m_health_stopping | m_destroyed.

#[export] Instance Phase_eq_dec : EqDecision Phase.
Proof. solve_decision. Defined.

Section Monitor.
Context `{SharedViews} `{!SharedStats} `{Sockets}.

Definition set_published (m : MonitorComponent) (enabled : list Z) : MonitorComponent :=
  mkMonitorComponent (config_ m) (tsdb_url_ m) (shm_ m) (fallback_ m) (control_shm_ m) (control_ m) enabled (prev_ m) (latest_ m).

Definition set_latest (m : MonitorComponent) (prev : Snapshot) (agg : AggregatedStats) : MonitorComponent :=
  mkMonitorComponent (config_ m) (tsdb_url_ m) (shm_ m) (fallback_ m) (control_shm_ m) (control_ m) (published_enabled_ m) prev agg.

(** An attachment in its [try] block: the object and what [As] gives, or neither. *)
Definition attach (name : string) (sizeof_T : Z) : prog os (option ShmProvider * option Z) := fun o =>
  match attach_or_null o name sizeof_T with
  | (None, o) => (Ret (None, None), o)
  | (Some p, o) => (let! ptr := As p sizeof_T in Ret (Some p, Some ptr), o)
  end.

(** The constructor up to [health_.Start()] and [poller_.Start]. *)
Definition MonitorComponent_new `{Yaml} (app_config tsdb_url : string) : prog os MonitorComponent :=
  do! config := lift (LoadConfig app_config) in
  do! '(shm, _) := attach kShmName sizeof_StatsView in
  let fallback := if shm then None else Some StatsView_zero in
  do! '(control_shm, control) := attach kControlShmName sizeof_ControlView in
  pret (mkMonitorComponent config tsdb_url shm fallback control_shm control [] Snapshot_zero AggregatedStats_zero).

(** The accessors. *)
Definition LatestStats (m : MonitorComponent) : AggregatedStats := latest_ m.

Definition DataplaneConnected (m : MonitorComponent) : bool := if shm_ m then true else false.

(** What the aggregator's reference refers to. *)
Definition view_of (m : MonitorComponent) (o : os) : StatsView :=
  match shm_ m with
  | Some p => load_stats o (ptr_ p)
  | None => default StatsView_zero (fallback_ m)
  end.

(** [PublishControl], on the shared memory; [states] is what [health_.States()] gave. *)
Definition PublishControl (m : MonitorComponent) (states : list BackendState) : prog os MonitorComponent :=
  match control_ m with
  | None => pret m
  | Some control =>
      let enabled := enabled_flag <$> states in
      if decide (enabled = published_enabled_ m) then pret m
      else
        let entries := (fun s => control_entry (info s) (enabled_flag s)) <$> states in
        do! view := (fun o => (Ret (load_view o control), o)) in
        do! view := lift (Control.PublishControl view entries (u32 (Z.of_nat (length entries)))) in
        (fun o => (Ret (set_published m enabled), store_view o control view))
  end.

(** The lambda of the periodic task. *)
Definition poll (m : MonitorComponent) (states states2 : list BackendState) : prog os (MonitorComponent * option (string * string)) :=
  do! view := (fun o => (Ret (view_of m o), o)) in
  do! '(agg, prev) := lift (Tick view kMaxLcores (prev_ m)) in
  do! m := PublishControl (set_latest m prev agg) states in
  pret (m, WriteMetrics (tsdb_url_ m) agg states2).

(** The members' destructors, in reverse order: of those that have one here,
    [control_shm_] comes before [shm_]. *)
Definition delete_members (m : MonitorComponent) (o : os) : os :=
  let o := match control_shm_ m with Some p => ShmProvider_delete o p | None => o end in
  match shm_ m with Some p => ShmProvider_delete o p | None => o end.

(** ** The life of the component *)

Record Mon := mkMon { mon : MonitorComponent; health_ : HC; phase : Phase; m_os : os }.

(** The constructor's end: [health_.Start()], then the poller. *)
Definition mon_start (m : MonitorComponent) (n : net) (o : os) : outcome Mon :=
  let! h := Start (HC_new (config_ m) n) in
  Ret (mkMon m h m_live o).

(** The health thread and the callers of [States] move; the owner does not. *)
Inductive health_move (h : HC) : HC -> Prop :=
  | hm_checker h' : checker_step h = Some (Ret h') -> health_move h h'
  | hm_reader k h' : reader_step k h = Some h' -> health_move h h'
  | hm_call : health_move h (call_States h).

(** A poll uses two results of [States]; other processes write to the segments at any
    time; the destructor stops the poller, then the checker, and the members go. *)
Inductive mstep (s : Mon) : Mon -> Prop :=
  | ms_health h' : phase s <> m_destroyed -> health_move (health_ s) h' -> mstep s (mkMon (mon s) h' (phase s) (m_os s))
  | ms_memory o' : same_handles (m_os s) o' -> mstep s (mkMon (mon s) (health_ s) (phase s) o')
  | ms_poll k k2 since since2 states states2 m post o' :
      phase s = m_live ->
      hc_readers (health_ s) !! k = Some (r_ret since states) -> hc_readers (health_ s) !! k2 = Some (r_ret since2 states2) ->
      poll (mon s) states states2 (m_os s) = (Ret (m, post), o') ->
      mstep s (mkMon m (health_ s) m_live o')
  | ms_stop_poller : phase s = m_live -> mstep s (mkMon (mon s) (health_ s) m_poller_stopped (m_os s))
  | ms_stop_health : phase s = m_poller_stopped -> mstep s (mkMon (mon s) (stop_store (health_ s)) m_health_stopping (m_os s))
  | ms_joined h' : phase s = m_health_stopping -> stop_join (health_ s) = Some h' ->
      mstep s (mkMon (mon s) h' m_destroyed (delete_members (mon s) (m_os s))).

(** ** The handlers *)

(** What [StatsHandler] and [BackendsHandler] answer. *)
Definition HandleStats (m : MonitorComponent) : Json := StatsBody (DataplaneConnected m) (LatestStats m).

(** [NowMs] of [backends_handler.cpp]: a [duration_cast] truncates. *)
Definition NowMs_system (n : net) : Z := u64 (clock_ns n / kNsPerMs).

Definition HandleBackends (m : MonitorComponent) (n : net) (states : list BackendState) : Json :=
  BackendsBody (config_ m) (NowMs_system n) (LatestStats m) states.

End Monitor.
