(* ===== verification/MonitorSpec.v ===== *)
(** * What the monitor does between its constructor and its destructor *)

From S2P Require Import Prelude Raii FlowKey NetTypes BackendPool Ipc Control ControlPlane ControlSpec ControlPlaneSpec.
From S2P Require Import HealthThread HealthThreadSpec Shm Launch Monitor.

Section Spec.
Context `{SharedViews} `{!SharedStats} `{Sockets}.

Implicit Types (m : MonitorComponent) (s : Mon) (o : os).

(** ** One poll *)

(** The entries of a publication. *)
Definition entries_of (states : list BackendState) : list ControlBackend :=
  (fun b => control_entry (info b) (enabled_flag b)) <$> states.

(** [v'] is [v] after a publication of these states. *)
Definition published_in (states : list BackendState) (v v' : ControlView) : Prop :=
  cv_seq v' = u32 (cv_seq v + 2) /\ cv_count v' = Z.of_nat (published_count (entries_of states)) /\
  take (published_count (entries_of states)) (cv_backends v') = take (published_count (entries_of states)) (entries_of states).

Lemma PublishControl_typed v states :
  view_typed v -> Z.of_nat (length states) < 2 ^ 32 ->
  exists v', Control.PublishControl v (entries_of states) (u32 (Z.of_nat (length (entries_of states)))) = Ret v' /\
    view_typed v' /\ published_in states v v'.
Proof.
  intros [Hl Hs] Hsrc. assert (Hle : Z.of_nat (length (entries_of states)) < 2 ^ 32) by (unfold entries_of; by rewrite length_fmap).
  unfold published_in, published_count. set (src := entries_of states) in *. unfold Control.PublishControl.
  cbn [cv_count set_count cv_backends set_seq]. rewrite u32_small by lia.
  rewrite copy_backends_spec by lia. cbn [obind]. eexists. split; [done|].
  rewrite drop_0, take_0, app_nil_l. split; [split; cbn; [rewrite length_app, length_take, length_drop; lia|apply u32_range]|].
  cbn. split_and!; [done|lia|]. rewrite take_app_length' by (rewrite length_take; lia). f_equal. lia.
Qed.

(** The members a poll leaves alone. *)
Definition same_members m m' : Prop :=
  config_ m' = config_ m /\ tsdb_url_ m' = tsdb_url_ m /\ shm_ m' = shm_ m /\ fallback_ m' = fallback_ m /\
  control_shm_ m' = control_shm_ m /\ control_ m' = control_ m.

(** The monitor as the control theorems see it: with the view its pointer shows. *)
Definition seen m o : Monitor := mkMonitor (load_view o <$> control_ m) (published_enabled_ m) (prev_ m) (latest_ m).

(** What the segment at [p] shows after [states] have been offered to the monitor [m]. *)
Definition offered m states o o' (p : Z) : Prop :=
  (enabled_flag <$> states = published_enabled_ m /\ load_view o' p = load_view o p) \/
  (enabled_flag <$> states <> published_enabled_ m /\ published_in states (load_view o p) (load_view o' p)).

Lemma PublishControl_run m states o :
  Z.of_nat (length states) < 2 ^ 32 ->
  exists m' o', PublishControl m states o = (Ret m', o') /\ MonitorPublish (seen m o) states = Ret (seen m' o') /\
    same_handles o o' /\ same_members m m' /\ latest_ m' = latest_ m /\ prev_ m' = prev_ m /\
    forall p, control_ m = Some p -> published_enabled_ m' = enabled_flag <$> states /\ offered m states o o' p.
Proof.
  intros Hl. unfold PublishControl, MonitorPublish, seen, offered. cbn [mo_control mo_published mo_prev mo_latest].
  destruct (control_ m) as [control|] eqn:Ec; cbn.
  2: { exists m, o. rewrite Ec. by split_and!. }
  case_decide as Hp.
  { exists m, o. rewrite Ec. split_and!; try done. intros p [= <-]. split; [done|]. by left. }
  fold (entries_of states). unfold pbind, lift.
  destruct (PublishControl_typed (load_view o control) states) as (v & -> & Hv & Hin); [apply load_view_typed|done|].
  destruct (store_view_law o control v) as (Hf & Hm & Hld). eexists _, _. split; [done|]. cbn. rewrite Ec. cbn.
  rewrite (Hld Hv). split_and!; try done. intros p [= <-]. split; [done|]. right. by rewrite (Hld Hv).
Qed.

Lemma poll_run m states states2 o :
  Z.of_nat (length states) < 2 ^ 32 -> stats_typed (view_of m o) ->
  exists m' post o', poll m states states2 o = (Ret (m', post), o') /\
    monitor_poll (tsdb_url_ m) (view_of m o) states states2 (seen m o) = Ret (seen m' o', post) /\
    same_handles o o' /\ same_members m m' /\
    Tick (view_of m o) kMaxLcores (prev_ m) = Ret (latest_ m', prev_ m') /\
    forall p, control_ m = Some p -> published_enabled_ m' = enabled_flag <$> states /\ offered m states o o' p.
Proof.
  intros Hl Ht. destruct (Tick_spec (view_of m o) (prev_ m) Ht) as (flows & Htick & _).
  unfold poll, monitor_poll. unfold pbind at 1. cbn [seen mo_prev]. rewrite Htick. unfold pbind at 1, lift at 1. cbn [obind].
  match goal with |- context [PublishControl (set_latest m ?p ?a)] => set (prev := p); set (agg := a) end.
  destruct (PublishControl_run (set_latest m prev agg) states o Hl) as (m' & o' & E & Em & Hh & Hs & Ela & Epr & Hp).
  unfold pbind. rewrite E. change (mkMonitor _ _ prev agg) with (seen (set_latest m prev agg) o). rewrite Em. cbn [obind pret].
  destruct Hs as (? & Hurl & ?). eexists m', _, o'. split; [done|]. split; [now rewrite Hurl|]. rewrite Ela, Epr. split_and!; try done; naive_solver.
Qed.

(** ** Construction *)

Lemma attach_spec name size o r o' :
  attach name size o = (r, o') ->
  match r with
  | Ret (None, ptr) => ptr = None /\ same_handles o o'
  | Ret (Some p, ptr) => ptr = Some (ptr_ p) /\ open_fds o' = fd_ p :: open_fds o /\ mappings o' = ptr_ p :: mappings o /\
      forall o2, same_handles o' o2 -> same_handles o (ShmProvider_delete o2 p)
  | _ => False
  end.
Proof.
  unfold attach, attach_or_null. destruct (ShmProvider_new o name size kAttach) as [[e|p] o1] eqn:E; apply ShmProvider_new_spec in E.
  - now intros [= <- <-].
  - destruct E as (Hf & Hm & _ & Ha & Hd). rewrite Ha. cbn [obind]. now intros [= <- <-].
Qed.

(** What the constructor leaves: pointers into its mappings, and destructors that give
    back what was taken. *)
Definition constructed m o0 o : Prop :=
  (forall p, shm_ m = Some p -> ptr_ p ∈ mappings o) /\ (forall p, control_ m = Some p -> p ∈ mappings o) /\
  (forall o2, same_handles o o2 -> same_handles o0 (delete_members m o2)) /\
  published_enabled_ m = [] /\ prev_ m = Snapshot_zero /\ latest_ m = AggregatedStats_zero /\
  (shm_ m = None -> fallback_ m = Some StatsView_zero).

Lemma MonitorComponent_new_spec `{Yaml} path url o0 r o :
  MonitorComponent_new path url o0 = (r, o) ->
  (exists e, LoadConfig path = Throw e /\ r = Throw e /\ o = o0) \/ r = Undef \/ r = OutOfFuel \/
  exists m, LoadConfig path = Ret (config_ m) /\ r = Ret m /\ constructed m o0 o.
Proof.
  unfold MonitorComponent_new, pbind, lift. destruct (LoadConfig path) as [cfg|e| |]; [|intros [= <- <-]; eauto|intros [= <- <-]; auto|intros [= <- <-]; auto].
  destruct (attach kShmName sizeof_StatsView o0) as [r1 o1] eqn:E1. apply attach_spec in E1.
  destruct r1 as [[shm sp]|e| |]; try done.
  destruct (attach kControlShmName sizeof_ControlView o1) as [r2 o2] eqn:E2. apply attach_spec in E2.
  destruct r2 as [[cshm cp]|e| |]; try done. intros [= <- <-]. do 3 right. eexists. split; [|split; [done|]]; [done|].
  unfold constructed, delete_members. cbn.
  destruct shm as [p1|], cshm as [p2|]; cbn.
  - destruct E1 as (_ & Hf1 & Hm1 & Hd1), E2 as (-> & Hf2 & Hm2 & Hd2). rewrite Hm2, Hm1. split_and!; try done; [set_solver..|].
    intros o3 Hs. apply Hd1, Hd2, Hs.
  - destruct E1 as (_ & Hf1 & Hm1 & Hd1), E2 as (-> & Hf2 & Hm2). rewrite Hm2, Hm1. split_and!; try done; [set_solver|].
    intros o3 [Ho1 Ho2]. apply Hd1. split; congruence.
  - destruct E1 as (_ & Hf1 & Hm1), E2 as (-> & Hf2 & Hm2 & Hd2). rewrite Hm2. split_and!; try done; [set_solver|].
    intros o3 Hs. destruct (Hd2 o3 Hs). split; congruence.
  - destruct E1 as (_ & Hf1 & Hm1), E2 as (-> & Hf2 & Hm2). split_and!; try done. intros o3 [Ho1 Ho2]. split; congruence.
Qed.

(** ** Its whole life *)

Section Life.
Context (m0 : MonitorComponent) (n0 : net) (o0 o1 : os) (built : constructed m0 o0 o1).

(** Reached by some sequence of steps. *)
Definition lives s : Prop := exists s0, mon_start m0 n0 o1 = Ret s0 /\ rtc mstep s0 s.

Record MInv s : Prop := {
  mi_members : same_members m0 (mon s);
  mi_health : reachable (config_ m0) n0 (health_ s);
  mi_stopping : hc_stopping (health_ s) = true <-> phase s = m_health_stopping;
  mi_handles : if decide (phase s = m_destroyed) then same_handles o0 (m_os s) /\ hc_checker (health_ s) = c_none
               else same_handles o1 (m_os s);
  mi_latest : shm_ m0 = None -> latest_ (mon s) = AggregatedStats_zero /\ prev_ (mon s) = Snapshot_zero;
}.

Lemma health_move_stopping h h' : health_move h h' -> hmove h h' /\ hc_stopping h' = hc_stopping h.
Proof.
  intros Hm. inversion Hm as [h1 E|k h1 E|]; subst.
  - split; [exact (step_checker h _ E)|]. unfold checker_step in E.
    destruct (hc_checker h) as [| | |sn|dn [|x todo]|sn|sn| |]; simplify_eq; try done.
    + destruct (hc_mutex h); simplify_eq; done.
    + destruct (hc_states h !! _); simplify_eq; done.
    + destruct (check_backend _ _) as [[]|e| |]; cbn [obind] in E; simplify_eq; done.
    + destruct (hc_mutex h); simplify_eq; done.
  - split; [exact (step_reader h k _ E)|]. unfold reader_step in E. repeat case_match; simplify_eq; done.
  - split; [apply step_call|done].
Qed.

Lemma reach_step h h' : reachable (config_ m0) n0 h -> hmove h h' -> reachable (config_ m0) n0 h'.
Proof. intros Hr Hm. unfold reachable. eapply rtc_r; eauto. Qed.

Lemma same_members_trans m1 m2 m3 : same_members m1 m2 -> same_members m2 m3 -> same_members m1 m3.
Proof. unfold same_members. intros (?&?&?&?&?&?) (?&?&?&?&?&?). split_and!; congruence. Qed.

Lemma zero_tick : Tick StatsView_zero kMaxLcores Snapshot_zero = Ret (AggregatedStats_zero, Snapshot_zero).
Proof. vm_compute. reflexivity. Qed.

Lemma view_of_typed m o : (shm_ m = None -> fallback_ m = Some StatsView_zero) -> stats_typed (view_of m o).
Proof.
  intros Hf. unfold view_of. destruct (shm_ m); [apply load_stats_typed|]. rewrite Hf by done. split; [reflexivity|].
  apply Forall_replicate. reflexivity.
Qed.

(** The checker keeps the configured backends. *)
Lemma health_pass_info states : forall n r n', health_pass n states = Ret (r, n') -> info <$> r = info <$> states.
Proof.
  induction states as [|x states IH]; intros n r n'; cbn [health_pass]; [now intros [= <- _]|]. unfold check_backend.
  destruct (Probe n (info x)) as [[healthy n1]|e| |]; cbn [obind]; try done.
  destruct (health_pass n1 states) as [[r1 n2]|e| |] eqn:E; cbn [obind]; try done. intros [= <- _]. cbn. f_equal. eauto.
Qed.

Lemma RunLoop_info j : forall n st r n', RunLoop j n st = Ret (r, n') -> info <$> r = info <$> st.
Proof.
  induction j as [|j IH]; intros n st r n'; cbn [RunLoop]; [now intros [= <- _]|].
  destruct (health_pass n st) as [[r1 n1]|e| |] eqn:E; cbn [obind]; try done. intros E2. apply IH in E2.
  apply health_pass_info in E. congruence.
Qed.

Lemma RunLoop_backends j n r n' cfg : RunLoop j n (HealthChecker_new cfg) = Ret (r, n') -> info <$> r = backends cfg.
Proof.
  intros ->%RunLoop_info. unfold HealthChecker_new. rewrite <- list_fmap_compose. apply list_fmap_id.
Qed.

Context (few_backends : Z.of_nat (length (backends (config_ m0))) < 2 ^ 32).

Lemma returned_length h k since states :
  reachable (config_ m0) n0 h -> hc_readers h !! k = Some (r_ret since states) -> Z.of_nat (length states) < 2 ^ 32.
Proof.
  intros Hr Hk. destruct (inv_readers _ _ _ (reachable_Inv _ _ _ Hr) k _ Hk) as (j & n & _ & E). unfold after_passes in E.
  apply RunLoop_backends in E. rewrite <- (length_fmap info states). by rewrite E.
Qed.

Lemma MInv_fallback s : MInv s -> shm_ (mon s) = None -> fallback_ (mon s) = Some StatsView_zero.
Proof.
  intros Hi. destruct (mi_members s Hi) as (_ & _ & -> & -> & _). destruct built as (_ & _ & _ & _ & _ & _ & Hf). exact Hf.
Qed.

(** Steps that change the health checker and the phase only. *)
Lemma MInv_phase s h ph o' :
  MInv s -> phase s <> m_destroyed -> reachable (config_ m0) n0 h -> (hc_stopping h = true <-> ph = m_health_stopping) ->
  (if decide (ph = m_destroyed) then same_handles o0 o' /\ hc_checker h = c_none else same_handles o1 o') ->
  MInv (mkMon (mon s) h ph o').
Proof. intros [? ? ? ? ?] Hne Hh Hs Ho. now split. Qed.

Lemma MInv_poll s k k2 since since2 states states2 m post o' :
  MInv s -> phase s = m_live ->
  hc_readers (health_ s) !! k = Some (r_ret since states) -> hc_readers (health_ s) !! k2 = Some (r_ret since2 states2) ->
  poll (mon s) states states2 (m_os s) = (Ret (m, post), o') -> MInv (mkMon m (health_ s) m_live o').
Proof.
  intros Hi Hp Hk Hk2 E. pose proof (MInv_fallback s Hi) as Hfb.
  destruct (poll_run (mon s) states states2 (m_os s)) as (m' & post' & o2 & E' & _ & Hh & Hs & Ht & _);
    [exact (returned_length _ _ _ _ (mi_health s Hi) Hk)|now apply view_of_typed|].
  rewrite E' in E. injection E as <- <- <-.
  destruct Hi as [Hm Hr Hst Ho Hla]. rewrite Hp in *. split; cbn.
  - exact (same_members_trans _ _ _ Hm Hs).
  - exact Hr.
  - exact Hst.
  - exact (same_handles_trans _ _ _ Ho Hh).
  - intros Hn. destruct (Hla Hn) as [_ Hpr]. destruct Hm as (_ & _ & Hshm & _). rewrite Hn in Hshm.
    unfold view_of in Ht. rewrite Hshm, (Hfb Hshm), Hpr in Ht. cbn [default] in Ht. change (id StatsView_zero) with StatsView_zero in Ht.
    rewrite zero_tick in Ht. apply Ret_inj in Ht. injection Ht as <- <-. done.
Qed.

Lemma MInv_step s s' : MInv s -> mstep s s' -> MInv s'.
Proof.
  intros Hi Hm. pose proof (mi_health s Hi) as Hr. pose proof (mi_stopping s Hi) as Hst. pose proof (mi_handles s Hi) as Ho.
  inversion Hm as [h' Hp Hh|o' Hs|k k2 since since2 states states2 m post o' Hp Hk Hk2 E|Hp|Hp|h' Hp E]; subst.
  - destruct (health_move_stopping _ _ Hh) as [Hmv Hsame]. apply MInv_phase; [done|done|eauto using reach_step| |].
    + now rewrite Hsame.
    + now rewrite decide_False in * by done.
  - destruct Hi as [? ? ? ? ?]. split; try done. cbn. destruct (decide (phase s = m_destroyed)).
    + destruct Ho. split; [eapply same_handles_trans; eauto|done].
    + eapply same_handles_trans; eauto.
  - exact (MInv_poll s k k2 since since2 states states2 m post o' Hi Hp Hk Hk2 E).
  - rewrite Hp in *. apply MInv_phase; try done; [congruence|]. rewrite Hst. done.
  - rewrite Hp in *. apply MInv_phase; try done; [congruence|]. eapply reach_step; [exact Hr|]. apply step_stop.
    destruct (hc_stopping (health_ s)); [|done]. destruct Hst as [Hst _]. now specialize (Hst eq_refl).
  - rewrite Hp in *. assert (Hstop : hc_stopping (health_ s) = true) by now apply Hst.
    assert (Hj : hc_checker h' = c_none /\ hc_stopping h' = false).
    { unfold stop_join in E. destruct (hc_checker (health_ s)); simplify_eq; done. }
    destruct Hj as [Hj1 Hj2]. apply MInv_phase; try done; [congruence| | |].
    + eapply reach_step; [exact Hr|]. now apply step_join.
    + rewrite Hj2. done.
    + split; [|done]. destruct (mi_members s Hi) as (_ & _ & Hshm & _ & Hcs & _).
      destruct built as (_ & _ & Hd & _). specialize (Hd _ Ho). unfold delete_members in *. now rewrite Hshm, Hcs.
Qed.

Lemma lives_MInv s : lives s -> MInv s.
Proof.
  intros (s0 & E & Hr). revert Hr. apply (rtc_ind_r MInv); [|intros s1 s2 _ Hm Hi; exact (MInv_step s1 s2 Hi Hm)].
  cbn in E. injection E as <-. destruct built as (_ & _ & _ & Hp & Hpr & Hla & _). split; cbn; try done.
  - apply rtc_once. exact (step_start (HC_new (config_ m0) n0) eq_refl eq_refl).
Qed.

End Life.

(** ** Properties *)

(** The monitor's poll on shared memory is the poll of the control theorems on the
    view its pointer shows: it never ends in an undefined state, computes the same
    statistics, publishes the same view and sends the same metrics. *)
Theorem monitor_poll_refines m states states2 o :
  Z.of_nat (length states) < 2 ^ 32 -> stats_typed (view_of m o) ->
  exists m' post o', poll m states states2 o = (Ret (m', post), o') /\
    monitor_poll (tsdb_url_ m) (view_of m o) states states2 (seen m o) = Ret (seen m' o', post) /\
    same_handles o o' /\ same_members m m'.
Proof.
  intros Hl Ht. destruct (poll_run m states states2 o Hl Ht) as (m' & post & o' & ? & ? & ? & ? & _). eauto 8.
Qed.

(** C28: from its constructor to the end of its destructor the monitor only uses memory
    it has mapped: while polls can run, both pointers are into its mappings, whatever
    the health thread, the handlers and other processes do; when it is destroyed, the
    health thread has been joined and no descriptor or mapping is left. *)
Theorem monitor_lifecycle `{Yaml} path url n0 o0 m0 o1 s :
  MonitorComponent_new path url o0 = (Ret m0, o1) -> Z.of_nat (length (backends (config_ m0))) < 2 ^ 32 -> lives m0 n0 o1 s ->
  (phase s = m_live -> (forall p, shm_ (mon s) = Some p -> ptr_ p ∈ mappings (m_os s)) /\
     (forall p, control_ (mon s) = Some p -> p ∈ mappings (m_os s))) /\
  (phase s = m_destroyed -> hc_checker (health_ s) = c_none /\ same_handles o0 (m_os s)).
Proof.
  intros E Hb Hs. apply MonitorComponent_new_spec in E as [(e & _ & ? & _)|[Hl|[Hl|(m & _ & [= <-] & Hc)]]]; try done.
  pose proof (lives_MInv m0 n0 o0 o1 Hc Hb s Hs) as Hi. pose proof (mi_handles _ _ _ _ _ Hi) as Ho. split; intros Hp; rewrite Hp in Ho.
  - cbn in Ho. destruct Ho as [_ Hm]. rewrite Hm. destruct (mi_members _ _ _ _ _ Hi) as (_ & _ & -> & _ & _ & ->).
    destruct Hc as (? & ? & _). done.
  - cbn in Ho. destruct Ho as [Ho1 Ho2]. split; [exact Ho2|exact Ho1].
Qed.


(** A control plane that was started before the dataplane stays detached: it
    answers with zeros and "detached" for as long as it lives, whatever segments appear
    later. *)
Theorem detached_for_life `{Yaml} path url n0 o0 m0 o1 s :
  MonitorComponent_new path url o0 = (Ret m0, o1) -> Z.of_nat (length (backends (config_ m0))) < 2 ^ 32 -> lives m0 n0 o1 s ->
  shm_ m0 = None -> HandleStats (mon s) = StatsBody false AggregatedStats_zero.
Proof.
  intros E Hb Hs Hn. apply MonitorComponent_new_spec in E as [(e & _ & ? & _)|[Hl|[Hl|(m & _ & [= <-] & Hc)]]]; try done.
  pose proof (lives_MInv m0 n0 o0 o1 Hc Hb s Hs) as Hi. destruct (mi_latest _ _ _ _ _ Hi Hn) as [Hla _].
  destruct (mi_members _ _ _ _ _ Hi) as (_ & _ & Hshm & _). unfold HandleStats, DataplaneConnected, LatestStats. now rewrite Hshm, Hn, Hla.
Qed.

(** What the backends handler reports of the time since a check: with a clock that has
    not gone back and is in the range of the counters, the age in whole milliseconds, up
    to the truncation of the two times; never a negative number that wraps. *)
Theorem age_reported (n n' : net) stats i (b : BackendState) :
  last_check_ns b = NowNs n -> 0 <= clock_ns n <= clock_ns n' -> clock_ns n' < 2 ^ 64 ->
  exists age fields, backend_entry (NowMs_system n') stats i b = JObj fields /\ ("last_check_ms"%string, JNum age) ∈ fields /\
    kNsPerMs * (age - 1) < clock_ns n' - clock_ns n < kNsPerMs * (age + 1).
Proof.
  intros Hl Hn Hn'. unfold backend_entry. rewrite Hl. unfold NowNs, NowMs_system, u64, kNsPerMs.
  rewrite !Z.mod_small by (split; [apply Z.div_pos || lia|apply Z.div_lt_upper_bound || lia]; lia).
  pose proof (Z.div_mod (clock_ns n) 1000000 ltac:(lia)). pose proof (Z.mod_pos_bound (clock_ns n) 1000000 ltac:(lia)).
  pose proof (Z.div_mod (clock_ns n') 1000000 ltac:(lia)). pose proof (Z.mod_pos_bound (clock_ns n') 1000000 ltac:(lia)).
  pose proof (Z.div_le_mono (clock_ns n) (clock_ns n') 1000000 ltac:(lia) ltac:(lia)).
  eexists _, _. split; [reflexivity|]. split; [do 4 right; left|].
  destruct (Z.ltb_spec (clock_ns n / 1000000) (clock_ns n' / 1000000)); lia.
Qed.

End Spec.
