(* ===== verification/MonitorSamples.v ===== *)
(** * The monitor theorems on a small system *)

From S2P Require Import Prelude Raii FlowKey NetTypes BackendPool Ipc Control ControlPlane ControlSpec ControlPlaneSpec.
From S2P Require Import HealthThread HealthThreadSpec ControlSamples HealthThreadSamples Shm Launch LaunchSamples Monitor MonitorSpec.

#[local] Existing Instance LaunchSamples.mem_posix.
#[local] Existing Instance LaunchSamples.mem_views.

(** Every statistics segment shows 5 received packets on the first lcore. *)
#[local] Instance mem_stats : SharedStats.
Proof. refine {| load_stats o p := sample_view 5 |}. intros o p. split; [reflexivity|]. repeat constructor. Defined.

#[local] Instance doc_yaml : Yaml := plain_yaml sample_doc.

(** Segments of this build, and none. *)
Definition os_up : os := mkMemOs [0; 1; 2] [] (mkShmHeader kShmMagic kShmVersion) empty_view.

Definition os_down : os := mkMemOs [0; 1; 2] [] (mkShmHeader 0 0) empty_view.

Definition built_up : outcome MonitorComponent * os := MonitorComponent_new "config.yaml" "" os_up.

Definition built_down : outcome MonitorComponent * os := MonitorComponent_new "config.yaml" "" os_down.

Definition up : MonitorComponent :=
  mkMonitorComponent sample_config "" (Some (mkShmProvider kShmName sizeof_StatsView kAttach 3 65536)) None
    (Some (mkShmProvider kControlShmName sizeof_ControlView kAttach 3 65536)) (Some 65536) [] Snapshot_zero AggregatedStats_zero.

Definition down : MonitorComponent :=
  mkMonitorComponent sample_config "" None (Some StatsView_zero) None None [] Snapshot_zero AggregatedStats_zero.

Lemma built_up_eq : MonitorComponent_new "config.yaml" "" os_up = (Ret up, built_up.2).
Proof. vm_compute. reflexivity. Qed.

Lemma built_down_eq : MonitorComponent_new "config.yaml" "" os_down = (Ret down, built_down.2).
Proof. vm_compute. reflexivity. Qed.

(** ** Steps of the health checker *)

Definition health_turn (t : turn) (h : HC) : option HC :=
  match t with
  | t_checker | t_reader _ | t_call => take_turn t h
  | _ => None
  end.

Definition health_turns (l : list turn) (h : HC) : option HC := foldl (fun r t => r ≫= health_turn t) (Some h) l.

Lemma health_turn_move t h h' : health_turn t h = Some h' -> health_move h h'.
Proof.
  destruct t; cbn; try done.
  - destruct (checker_step h) as [r|] eqn:E; [|done]. intros ->%of_outcome_Some. now apply hm_checker.
  - apply hm_reader.
  - intros [= <-]. apply hm_call.
Qed.

Lemma health_turns_steps l : forall m h h' ph o,
  ph <> m_destroyed -> health_turns l h = Some h' -> rtc mstep (mkMon m h ph o) (mkMon m h' ph o).
Proof.
  induction l as [|t l IH] using rev_ind; intros m h h' ph o Hp; unfold health_turns; [intros [= <-]; reflexivity|].
  rewrite foldl_app. cbn [foldl]. intros E. apply bind_Some in E as (h1 & E1 & E2).
  eapply rtc_r; [exact (IH m h h1 ph o Hp E1)|].
  exact (ms_health (mkMon m h1 ph o) h' Hp (health_turn_move _ _ _ E2)).
Qed.

Lemma live_alive : m_live <> m_destroyed.
Proof. discriminate. Qed.

Lemma stopping_alive : m_health_stopping <> m_destroyed.
Proof. discriminate. Qed.

(** ** A life: a pass, a call of [States], a poll, the destructor *)

Definition started : HC := default (HC_new sample_config sim0) (of_outcome (Start (HC_new sample_config sim0))).

Definition turns1 : list turn := replicate 8 t_checker ++ [t_call; t_reader 0; t_reader 0; t_reader 0].

Definition health1 : HC := default started (health_turns turns1 started).

Lemma health1_eq : health_turns turns1 started = Some health1.
Proof.
  unfold health1. assert (E : is_Some (health_turns turns1 started)) by (vm_compute; eexists; reflexivity). now destruct E as [h ->].
Qed.

Definition states1 : list BackendState :=
  match hc_readers health1 with
  | [r_ret _ states] => states
  | _ => []
  end.

Lemma health1_reader : hc_readers health1 !! 0%nat = Some (r_ret 1 states1).
Proof. vm_compute. reflexivity. Qed.

Lemma poll_step m h o states m' post o' :
  hc_readers h !! 0%nat = Some (r_ret 1 states) -> poll m states states o = (Ret (m', post), o') ->
  mstep (mkMon m h m_live o) (mkMon m' h m_live o').
Proof. intros Hr E. exact (ms_poll (mkMon m h m_live o) 0 0 1 1 states states m' post o' eq_refl Hr Hr E). Qed.

Lemma destroy_steps m h h2 h3 l o :
  health_turns l (stop_store h) = Some h2 -> stop_join h2 = Some h3 ->
  rtc mstep (mkMon m h m_live o) (mkMon m h3 m_destroyed (delete_members m o)).
Proof.
  intros E2 E3. eapply rtc_l; [apply ms_stop_poller; reflexivity|]. eapply rtc_l; [apply ms_stop_health; reflexivity|].
  eapply rtc_r; [exact (health_turns_steps l _ _ _ _ _ stopping_alive E2)|].
  exact (ms_joined (mkMon m h2 m_health_stopping o) h3 eq_refl E3).
Qed.

(** The state after a poll of the monitor [m] in the state [o]. *)
Definition polled (m : MonitorComponent) (o : os) : Mon :=
  match poll m states1 states1 o with
  | (Ret (m, _), o) => mkMon m health1 m_live o
  | (_, o) => mkMon m health1 m_live o
  end.

Lemma polled_lives m o :
  config_ m = sample_config -> (exists r, (poll m states1 states1 o).1 = Ret r) -> lives m sim0 o (polled m o).
Proof.
  intros Hc [[m' post] Hr]. exists (mkMon m started m_live o). split; [unfold mon_start; rewrite Hc; reflexivity|].
  unfold polled. destruct (poll m states1 states1 o) as [r o'] eqn:E. cbn in Hr. subst r.
  eapply rtc_r; [exact (health_turns_steps turns1 m started health1 m_live o live_alive health1_eq)|].
  exact (poll_step m health1 o states1 m' post o' health1_reader E).
Qed.

Definition live_up : Mon := polled up built_up.2.

Definition live_down : Mon := polled down built_down.2.

Lemma live_up_lives : lives up sim0 built_up.2 live_up.
Proof. apply polled_lives; [reflexivity|]. eexists. vm_compute. reflexivity. Qed.

Lemma live_down_lives : lives down sim0 built_down.2 live_down.
Proof. apply polled_lives; [reflexivity|]. eexists. vm_compute. reflexivity. Qed.

(** The destructor. *)
Definition health2 : HC := default started (health_turns (replicate 2 t_checker) (stop_store health1)).

Lemma health2_eq : health_turns (replicate 2 t_checker) (stop_store health1) = Some health2.
Proof.
  unfold health2. assert (E : is_Some (health_turns (replicate 2 t_checker) (stop_store health1)))
    by (vm_compute; eexists; reflexivity). now destruct E as [h ->].
Qed.

Definition health3 : HC := default started (stop_join health2).

Lemma health3_eq : stop_join health2 = Some health3.
Proof. unfold health3. assert (E : is_Some (stop_join health2)) by (vm_compute; eexists; reflexivity). now destruct E as [h ->]. Qed.

Definition gone : Mon := mkMon (mon live_up) health3 m_destroyed (delete_members (mon live_up) (m_os live_up)).

Lemma live_up_health : live_up = mkMon (mon live_up) health1 m_live (m_os live_up).
Proof. unfold live_up, polled. now destruct (poll up states1 states1 built_up.2) as [[[]|e| |] o]. Qed.

Lemma gone_lives : lives up sim0 built_up.2 gone.
Proof.
  destruct live_up_lives as (s0 & E & Hr). exists s0. split; [exact E|]. etransitivity; [exact Hr|]. rewrite live_up_health.
  exact (destroy_steps _ _ _ _ _ _ health2_eq health3_eq).
Qed.

(** ** Witnesses *)

Lemma monitor_poll_refines_witness :
  exists m' post o', poll up states1 states1 os_up = (Ret (m', post), o') /\
    monitor_poll (tsdb_url_ up) (view_of up os_up) states1 states1 (seen up os_up) = Ret (seen m' o', post) /\
    same_handles os_up o' /\ same_members up m'.
Proof.
  apply (monitor_poll_refines up states1 states1 os_up); [vm_compute; reflexivity|]. apply load_stats_typed.
Defined.

Lemma monitor_lifecycle_witness :
  (phase gone = m_live -> (forall p, shm_ (mon gone) = Some p -> ptr_ p ∈ mappings (m_os gone)) /\
     (forall p, control_ (mon gone) = Some p -> p ∈ mappings (m_os gone))) /\
  (phase gone = m_destroyed -> hc_checker (health_ gone) = c_none /\ same_handles os_up (m_os gone)).
Proof. apply (monitor_lifecycle "config.yaml" "" sim0 os_up up built_up.2 gone); [exact built_up_eq|reflexivity|exact gone_lives]. Defined.




Lemma detached_for_life_witness : HandleStats (mon live_down) = StatsBody false AggregatedStats_zero.
Proof.
  apply (detached_for_life "config.yaml" "" sim0 os_down down built_down.2 live_down);
    [exact built_down_eq|reflexivity|exact live_down_lives|reflexivity].
Defined.
