(* ===== verification/ControlMain.v ===== *)
(** * The control plane's entry point ([controlplane/src/main.cpp])

    [main] lists the components of the process and leaves the rest to userver: it
    constructs every component of the list, in an order that follows the calls of
    [FindComponent] in the constructors (such a call waits for the component it names),
    and destroys them in the reverse order. Handlers keep a reference to the monitor, the
    monitor one to the HTTP client.

    What the framework's own components find is a parameter; that they can be built by
    themselves is its documented contract. The section of a component in the static
    configuration is a list of keys and values, refused if it has a key that the schema
    does not name. *)

From S2P Require Import Prelude Raii FlowKey NetTypes BackendPool Ipc Control ControlPlane HealthThread Shm Launch Monitor.

Local Open Scope string_scope.
Local Open Scope list_scope.

(** ** The component list *)

(** [MinimalServerComponentList()], [clients::http::ComponentList()], what their members
    find, and an order in which they can be built. *)
Class Userver := {
  minimal_components : list string;
  http_components : list string;
  framework_finds : string -> list string;
  framework_order : list string;
  framework_order_all : framework_order ≡ₚ minimal_components ++ ["dns-client"] ++ http_components;
  framework_order_ok : forall i c f, framework_order !! i = Some c -> f ∈ framework_finds c -> f ∈ take i framework_order;
  http_client_listed : "http-client" ∈ http_components;
  framework_fresh : Forall (fun c => c <> "monitor" /\ c <> "handler-stats" /\ c <> "handler-backends") framework_order;
}.

(** The [kName]s. *)
Definition kMonitor : string := "monitor".
Definition kHandlerStats : string := "handler-stats".
Definition kHandlerBackends : string := "handler-backends".

Section Daemon.
Context `{Userver}.

(** What [main] passes to [DaemonMain]. *)
Definition component_list : list string :=
  minimal_components ++ [kMonitor] ++ [kHandlerStats] ++ [kHandlerBackends] ++ ["dns-client"] ++ http_components.

(** The calls of [FindComponent] in the constructors of [StatsHandler],
    [BackendsHandler] and [MonitorComponent]. *)
Definition StatsHandler_finds : list string := [kMonitor].

Definition BackendsHandler_finds : list string := [kMonitor].

Definition MonitorComponent_finds : list string := ["http-client"].

Definition finds (c : string) : list string :=
  if decide (c = kMonitor) then MonitorComponent_finds
  else if decide (c = kHandlerStats) then StatsHandler_finds
  else if decide (c = kHandlerBackends) then BackendsHandler_finds
  else framework_finds c.

(** A component that is not built yet is built when all it finds are; [built] is in the
    order of construction. *)
Inductive construct (built : list string) : list string -> Prop :=
  | Construct c : c ∈ component_list -> c ∉ built -> (forall f, f ∈ finds c -> f ∈ built) -> construct built (built ++ [c]).

(** ** Starting and stopping *)

(** Ours come after all of the framework's. *)
Definition start_order : list string := framework_order ++ [kMonitor; kHandlerStats; kHandlerBackends].

Lemma start_order_all : start_order ≡ₚ component_list.
Proof.
  unfold start_order, component_list. rewrite framework_order_all. rewrite <- !app_assoc. apply Permutation_app_head.
  cbn [app]. rewrite (Permutation_app_comm http_components). cbn [app].
  change (kMonitor :: kHandlerStats :: kHandlerBackends :: "dns-client" :: http_components)
    with ([kMonitor; kHandlerStats; kHandlerBackends] ++ "dns-client" :: http_components).
  change ("dns-client" :: kMonitor :: kHandlerStats :: kHandlerBackends :: http_components)
    with (["dns-client"] ++ [kMonitor; kHandlerStats; kHandlerBackends] ++ http_components).
  rewrite Permutation_app_swap_app. done.
Qed.

Lemma http_in_framework : "http-client" ∈ framework_order.
Proof. rewrite framework_order_all. rewrite !elem_of_app. right; right. apply http_client_listed. Qed.

Lemma finds_framework c : c ∈ framework_order -> finds c = framework_finds c.
Proof.
  intros Hc. pose proof framework_fresh as Hf. rewrite Forall_forall in Hf. destruct (Hf c Hc) as (H1 & H2 & H3).
  unfold finds, kMonitor, kHandlerStats, kHandlerBackends. by rewrite !decide_False.
Qed.

(** Everything a component finds is earlier in [start_order]. *)
Lemma start_order_ok i c f : start_order !! i = Some c -> f ∈ finds c -> f ∈ take i start_order.
Proof.
  intros Hi Hf. unfold start_order in *. apply lookup_app_Some in Hi as [Hi|[Hge Hi]].
  - rewrite finds_framework in Hf by (by eapply list_elem_of_lookup_2).
    rewrite take_app_le by (apply lookup_lt_Some in Hi; lia). by eapply framework_order_ok.
  - rewrite take_app_ge by done. rewrite elem_of_app. destruct (i - length framework_order)%nat as [|[|[|n]]]; try done;
      injection Hi as <-; unfold finds in Hf; cbn in Hf; apply list_elem_of_singleton in Hf as ->.
    + left. apply http_in_framework.
    + right. apply list_elem_of_here.
    + right. apply list_elem_of_here.
Qed.

(** The control plane starts: whatever has been constructed so far, in whatever
    order, as long as a component of the list is missing some missing component can be
    constructed, because every call of [FindComponent] names a component of the list and
    they do not wait for each other in a circle; and no component is ever built before
    one it keeps a reference to, so that it is also destroyed before it. *)
Theorem control_plane_starts built :
  rtc construct [] built ->
  (component_list ⊆ built \/ exists built', construct built built') /\
  (forall i c f, built !! i = Some c -> f ∈ finds c -> f ∈ take i built) /\ NoDup built.
Proof.
  intros Hr.
  assert (Hinv : (forall i c f, built !! i = Some c -> f ∈ finds c -> f ∈ take i built) /\ NoDup built).
  { revert Hr. apply (rtc_ind_r (fun b => (forall i c f, b !! i = Some c -> f ∈ finds c -> f ∈ take i b) /\ NoDup b)).
    - split; [|constructor]. intros i c f E. done.
    - intros b b' _ [c Hc Hn Hf] [Ho Hd]. split.
      + intros i c' f E Hff. apply lookup_app_Some in E as [E|[Hge E]].
        * rewrite take_app_le by (apply lookup_lt_Some in E; lia). by eapply Ho.
        * destruct (i - length b)%nat; [|done]. injection E as <-. rewrite take_app_ge by done. apply elem_of_app. left. by apply Hf.
      + apply NoDup_app. split; [done|]. split; [|apply NoDup_singleton]. intros x Hx ->%list_elem_of_singleton. done. }
  split; [|done]. destruct (decide (Exists (fun c => c ∉ built) start_order)) as [Hex|Hall].
  - right. (* the first missing one *)
    assert (Hfirst : exists i c, start_order !! i = Some c /\ c ∉ built /\ Forall (fun x => x ∈ built) (take i start_order)).
    { clear -Hex. induction Hex as [c l Hc|c l Hex IH].
      - exists 0%nat, c. split; [done|]. split; [done|]. constructor.
      - destruct (decide (c ∈ built)) as [Hin|Hn].
        + destruct IH as (i & c' & E & Hn & Ht). exists (S i), c'. split; [done|]. split; [done|]. by constructor.
        + exists 0%nat, c. split; [done|]. split; [done|]. constructor. }
    destruct Hfirst as (i & c & E & Hn & Ht). exists (built ++ [c]). constructor; [|done|].
    + rewrite <- start_order_all. by eapply list_elem_of_lookup_2.
    + intros f Hf. rewrite Forall_forall in Ht. apply Ht. by eapply start_order_ok.
  - left. intros c Hc. rewrite <- start_order_all in Hc. destruct (decide (c ∈ built)); [done|]. exfalso. apply Hall.
    apply Exists_exists. by exists c.
Qed.

End Daemon.

(** ** The static configuration of the monitor *)

(** [GetStaticConfigSchema]: the properties; there are no others. *)
Definition monitor_schema : list string := ["app-config"; "tsdb-url"].

Definition Section_ : Type := list (string * string).

Definition schema_ok (properties : list string) (section : Section_) : bool :=
  forallb (fun kv => bool_decide (kv.1 ∈ properties)) section.

(** [config[key].As<std::string>()], which throws if there is no such key, and
    [As<std::string>(dflt)]. *)
Definition As_string (section : Section_) (key : string) : outcome string :=
  match (list_to_map section : gmap string string) !! key with
  | Some v => Ret v
  | None => Throw (runtime_error ("missing: " ++ key)%string)
  end.

Definition As_string_or (section : Section_) (key dflt : string) : outcome string :=
  match As_string section key with
  | Throw _ => Ret dflt
  | r => r
  end.

(** [MonitorComponent(config, context)]: the two keys, then the rest. *)
Definition MonitorComponent_ctor `{SharedViews} `{Yaml} (section : Section_) : prog os MonitorComponent :=
  do! app_config := lift (As_string section "app-config") in
  do! tsdb_url := lift (As_string_or section "tsdb-url" "") in
  MonitorComponent_new app_config tsdb_url.

Lemma As_string_key section key v : As_string section key = Ret v -> (key, v) ∈ section.
Proof.
  unfold As_string. destruct (_ !! key) as [x|] eqn:E; [|done]. intros [= ->]. by apply elem_of_list_to_map_2 in E.
Qed.

(** The constructor reads only keys that the schema allows, and fails without
    [app-config]; without [tsdb-url] the export is off. *)
Theorem monitor_section section :
  (forall v, As_string section "app-config" = Ret v -> "app-config" ∈ section.*1) /\
  (schema_ok monitor_schema section = true -> forall k v, (k, v) ∈ section -> k = "app-config" \/ k = "tsdb-url") /\
  ("tsdb-url" ∉ section.*1 -> As_string_or section "tsdb-url" "" = Ret "").
Proof.
  split; [|split].
  - intros v E%As_string_key. apply list_elem_of_fmap. by exists ("app-config", v).
  - unfold schema_ok. rewrite forallb_forall. intros Hs k v Hin. apply list_elem_of_In, Hs in Hin.
    apply bool_decide_eq_true in Hin. cbn in Hin. set_solver.
  - intros Hn. unfold As_string_or, As_string. by rewrite not_elem_of_list_to_map_1.
Qed.

(** The section of the repository's [static_config.yaml]. *)
Definition shipped_monitor : Section_ :=
  [("app-config", "/etc/cerebellum/config.yaml"); ("tsdb-url", "http://victoria:8428")].

Example shipped_monitor_accepted :
  schema_ok monitor_schema shipped_monitor = true /\
  As_string shipped_monitor "app-config" = Ret "/etc/cerebellum/config.yaml" /\
  As_string_or shipped_monitor "tsdb-url" "" = Ret "http://victoria:8428".
Proof. vm_compute. repeat split. Qed.

(** ** A framework *)

Module ControlMainSamples.

(** Lists as in the static configuration: the HTTP client finds its core, which finds
    the DNS client. *)
Definition sample_finds (c : string) : list string :=
  if decide (c = "http-client") then ["http-client-core"]
  else if decide (c = "http-client-core") then ["dns-client"; "logging"]
  else if decide (c = "server") then ["logging"] else [].

#[local] Program Instance sample_userver : Userver := {|
  minimal_components := ["logging"; "server"];
  http_components := ["http-client"; "http-client-core"];
  framework_finds := sample_finds;
  framework_order := ["logging"; "server"; "dns-client"; "http-client-core"; "http-client"];
|}.
Next Obligation. cbn. do 3 constructor. apply perm_swap. Qed.
Next Obligation.
  intros i c f Hi Hf. destruct i as [|[|[|[|[|i]]]]]; cbn in Hi; try done; injection Hi as <-; vm_compute in Hf; cbn [take]; set_solver.
Qed.
Next Obligation. set_solver. Qed.
Next Obligation. repeat constructor; discriminate. Qed.

(** The server first, then what the monitor needs, then the monitor. *)
Definition half_built : list string := ["logging"; "server"; "dns-client"; "http-client-core"; "http-client"; kMonitor].

Lemma half_built_reachable : rtc construct [] half_built.
Proof.
  assert (Hstep : forall b c, bool_decide (c ∈ component_list) && bool_decide (c ∉ b) && bool_decide (Forall (fun f => f ∈ b) (finds c)) = true ->
    construct b (b ++ [c])).
  { intros b c [[H1%bool_decide_eq_true H2%bool_decide_eq_true]%andb_prop H3%bool_decide_eq_true]%andb_prop.
    constructor; [done|done|]. by rewrite Forall_forall in H3. }
  eapply rtc_l; [apply (Hstep [] "logging"); reflexivity|].
  eapply rtc_l; [apply (Hstep ["logging"] "server"); reflexivity|].
  eapply rtc_l; [apply (Hstep ["logging"; "server"] "dns-client"); reflexivity|].
  eapply rtc_l; [apply (Hstep ["logging"; "server"; "dns-client"] "http-client-core"); reflexivity|].
  eapply rtc_l; [apply (Hstep ["logging"; "server"; "dns-client"; "http-client-core"] "http-client"); reflexivity|].
  eapply rtc_l; [apply (Hstep ["logging"; "server"; "dns-client"; "http-client-core"; "http-client"] kMonitor); reflexivity|].
  apply rtc_refl.
Qed.

Lemma control_plane_starts_witness :
  (component_list ⊆ half_built \/ exists built', construct half_built built') /\
  (forall i c f, half_built !! i = Some c -> f ∈ finds c -> f ∈ take i half_built) /\ NoDup half_built.
Proof. apply (control_plane_starts half_built half_built_reachable). Defined.

End ControlMainSamples.
