(* ===== verification/UnitTests.v ===== *)
(** * The repository's unit tests on the model ([dataplane/tests])

    Every test case of the repository, with its inputs and its [REQUIRE]s, evaluated on
    the definitions: what the authors expect of the code holds of the model. A test is a
    boolean that may also be undefined or throw; [require] is its conjunction. The tests
    of the connection table use [NatTable<1024>]; those that hash run for both builds. *)

From S2P Require Import Prelude FlowKey NetTypes PortPool BackendPool NatTable Ipc Graph Control.

Local Open Scope string_scope.
Local Open Scope Z_scope.

(** All of them. *)
Definition require (l : list bool) : outcome bool := Ret (forallb id l).

Definition is_none {A} (o : option A) : bool := match o with None => true | _ => false end.

(** [REQUIRE_THROWS_AS(e, out_of_range)] and [invalid_argument]. *)
Definition throws_range {A} (m : outcome A) : bool := match m with Throw (out_of_range _) => true | _ => false end.

Definition throws_invalid {A} (m : outcome A) : bool := match m with Throw (invalid_argument _) => true | _ => false end.

Definition build_1024 (sse : bool) : BuildParams := {|
  sse42 := sse; kNatCapacityBits := 10; kNatCapacityBits_le := ltac:(lia) |}.

(** A test for both bodies of [Hash]. *)
Definition both (t : BuildParams -> outcome bool) : outcome bool :=
  let! a := t (build_1024 true) in
  let! b := t (build_1024 false) in
  require [a; b].

(** ** test_nat_table.cpp *)

Module NatTableTests.

Definition kVip : Z := 167772161.
Definition kClient : Z := 3232235525.
Definition kBackend : Z := 167772417.

Definition key : FlowKey := flow_key kClient kVip 40000 80 6.

Definition MakeFlow (client_port snat_port : Z) : NatFlow :=
  mkNatFlow (flow_key kClient kVip client_port 80 6) MacAddr_zero kBackend MacAddr_zero 8080 snat_port 1 0 0 false false.

Definition insert_then_forward (B : BuildParams) : outcome bool :=
  let '(miss, nat) := LookupForward (NatTable_new kDefaultTimeoutMs) key 1000 in
  let '(inserted, evicted, _, nat) := Insert nat (MakeFlow 40000 50000) 1000 in
  let '(found, nat') := LookupForward nat key 1001 in
  let flow := slots_ nat' !!! default 0%nat found in
  require [is_none miss; negb (is_none inserted); evicted =? 0; Size nat =? 1; bool_decide (found = inserted);
           nf_snat_port flow =? 50000; nf_backend_idx flow =? 1].

Example insert_then_forward_passes : both insert_then_forward = Ret true.
Proof. vm_compute. reflexivity. Qed.

Definition reverse_recovers (B : BuildParams) : outcome bool :=
  let '(_, _, _, nat) := Insert (NatTable_new kDefaultTimeoutMs) (MakeFlow 40000 50000) 1000 in
  let '(found, nat) := LookupReverse nat kBackend 8080 50000 6 1002 in
  let flow := slots_ nat !!! default 0%nat found in
  let '(other, _) := LookupReverse nat kBackend 8080 50001 6 1002 in
  require [negb (is_none found); fk_src_ip (nf_fwd_key flow) =? kClient; fk_src_port (nf_fwd_key flow) =? 40000; is_none other].

Example reverse_recovers_passes : both reverse_recovers = Ret true.
Proof. vm_compute. reflexivity. Qed.

Definition expiry_recycles (B : BuildParams) : outcome bool :=
  let '(_, _, _, nat) := Insert (NatTable_new 1000) (MakeFlow 40000 50000) 1000 in
  let '(fwd, nat) := LookupForward nat key 5000 in
  let size := Size nat in
  let '(rev, nat) := LookupReverse nat kBackend 8080 50000 6 5000 in
  let '(_, evicted, evicted_idx, nat) := Insert nat (MakeFlow 40000 51000) 5000 in
  require [is_none fwd; size =? 0; is_none rev; evicted =? 50000; evicted_idx =? 1; Size nat =? 1].

Example expiry_recycles_passes : both expiry_recycles = Ret true.
Proof. vm_compute. reflexivity. Qed.

Definition close_releases (B : BuildParams) : outcome bool :=
  let '(flow, _, _, nat) := Insert (NatTable_new kDefaultTimeoutMs) (MakeFlow 40000 50000) 1000 in
  let size := Size nat in
  let s := default 0%nat flow in
  let '(nat, released, backend_idx) := Close nat s in
  let size' := Size nat in
  let '(fwd, nat) := LookupForward nat key 1001 in
  let '(rev, nat) := LookupReverse nat kBackend 8080 50000 6 1001 in
  let '(nat, released_again, _) := Close nat s in
  let '(_, evicted, _, _) := Insert nat (MakeFlow 40000 52000) 1002 in
  require [negb (is_none flow); size =? 1; released =? 50000; backend_idx =? 1; size' =? 0; is_none fwd; is_none rev;
           released_again =? 0; evicted =? 0].

Example close_releases_passes : both close_releases = Ret true.
Proof. vm_compute. reflexivity. Qed.

End NatTableTests.

(** ** test_port_pool.cpp *)

Module PortPoolTests.

(** [n] calls of [Acquire]. *)
Fixpoint acquire_n (n : nat) (pool : PortPool) : list Z * PortPool :=
  match n with
  | O => ([], pool)
  | S n => let '(port, pool) := Acquire pool in let '(l, pool) := acquire_n n pool in (port :: l, pool)
  end.

Definition distinct_in_range : outcome bool :=
  let! pool := PortPool_ctor 10 1024 1027 in
  let '(seen, pool') := acquire_n 4 pool in
  require [Available pool =? 4; forallb (fun p => (1024 <=? p) && (p <=? 1027)) seen; bool_decide (NoDup seen); Available pool' =? 0].

Example distinct_in_range_passes : distinct_in_range = Ret true.
Proof. vm_compute. reflexivity. Qed.

Definition zero_when_exhausted : outcome bool :=
  let! pool := PortPool_ctor 10 1024 1025 in
  let '(l, _) := acquire_n 3 pool in
  Ret (bool_decide ((fun p => p =? 0) <$> l = [false; false; true])).

Example zero_when_exhausted_passes : zero_when_exhausted = Ret true.
Proof. vm_compute. reflexivity. Qed.

Definition released_reusable : outcome bool :=
  let! pool := PortPool_ctor 10 1024 1024 in
  let '(port, pool) := Acquire pool in
  let '(none, pool) := Acquire pool in
  let pool := Release pool port in
  let '(again, _) := Acquire pool in
  require [port =? 1024; none =? 0; Available pool =? 1; again =? 1024].

Example released_reusable_passes : released_reusable = Ret true.
Proof. vm_compute. reflexivity. Qed.

(** The ports of worker [w] until [Acquire] gives 0. *)
Definition ports_of (w : Z) : outcome (list Z) :=
  let! pool := ForWorker 2000 w 4 1024 2047 in
  Ret (fst (acquire_n (length (free_ pool)) pool)).

Definition partitions : outcome bool :=
  let! l0 := ports_of 0 in
  let! l1 := ports_of 1 in
  let! l2 := ports_of 2 in
  let! l3 := ports_of 3 in
  require [forallb (fun p => p mod 4 =? 0) l0; forallb (fun p => p mod 4 =? 1) l1; forallb (fun p => p mod 4 =? 2) l2;
           forallb (fun p => p mod 4 =? 3) l3; forallb (fun p => negb (p =? 0)) (l0 ++ l1 ++ l2 ++ l3);
           Z.of_nat (size (list_to_set (l0 ++ l1 ++ l2 ++ l3) : gset Z)) =? 1024;
           (length (l0 ++ l1 ++ l2 ++ l3) =? 1024)%nat].

Example partitions_passes : partitions = Ret true.
Proof. vm_compute. reflexivity. Qed.

End PortPoolTests.

(** ** test_backend_pool.cpp *)

Module BackendPoolTests.

Definition MakeBackend (ip port : Z) : BackendInfo := mkBackendInfo (mkIPv4Addr ip) MacAddr_zero port 0.

Definition three : list BackendInfo := [MakeBackend 1 80; MakeBackend 2 80; MakeBackend 3 80].

Definition picks (B : BuildParams) (pool : BackendPool) : outcome (list Z) :=
  foldr (fun port l => let! l := l in let! i := Select pool (flow_key 1 2 port 80 6) in Ret (i :: l)) (Ret []) (seqZ 1000 300).

Definition deterministic (B : BuildParams) : outcome bool :=
  let! pool := BackendPool_all 300 three in
  let! a := Select pool (flow_key 42 1 9000 80 6) in
  let! b := Select pool (flow_key 42 1 9000 80 6) in
  require [a =? b; ActiveCount pool =? 3].

Example deterministic_passes : both deterministic = Ret true.
Proof. vm_compute. reflexivity. Qed.

Definition distributes (B : BuildParams) : outcome bool :=
  let! pool := BackendPool_all 300 three in
  let! l := picks B pool in
  Ret (forallb (fun i => (20 <? length (List.filter (Z.eqb i) l))%nat) [0; 1; 2]).

Example distributes_passes : both distributes = Ret true.
Proof. vm_compute. reflexivity. Qed.

Definition stable_indices (B : BuildParams) : outcome bool :=
  let! pool := BackendPool_enabled 300 three [1; 0; 1] in
  let! l := picks B pool in
  let! b1 := At pool 1 in
  let! b2 := At pool 2 in
  require [ActiveCount pool =? 2; forallb (fun i => negb (i =? 1)) l; value (be_ip b1) =? 2; value (be_ip b2) =? 3].

Example stable_indices_passes : both stable_indices = Ret true.
Proof. vm_compute. reflexivity. Qed.

Definition active_of (rcu : AtomicRcu BackendPool) : option Z := ActiveCount <$> Load rcu.

Definition rcu_swaps : outcome bool :=
  let rcu := AtomicRcu_new None in
  let! two := BackendPool_all 300 [MakeBackend 10 80; MakeBackend 11 80] in
  let! one := BackendPool_all 300 [MakeBackend 1 80] in
  require [is_none (Load rcu); bool_decide (active_of (Store rcu (Some two)) = Some 2);
           bool_decide (active_of (Store (Store rcu (Some one)) (Some two)) = Some 2)].

Example rcu_swaps_passes : rcu_swaps = Ret true.
Proof. vm_compute. reflexivity. Qed.

End BackendPoolTests.

(** ** test_flow_key.cpp and test_net_types.cpp *)

Module KeyTests.

Definition hashes (B : BuildParams) : outcome bool :=
  let a := flow_key 1 2 100 80 6 in
  let c := flow_key 1 2 101 80 6 in
  require [(length (fk_bytes a) =? 16)%nat; FlowKey_eqb a (flow_key 1 2 100 80 6); negb (FlowKey_eqb a c);
           negb (Hash a =? Hash c);
           bool_decide (drop 13 (fk_bytes (flow_key 1 0 0 0 17)) = [0; 0; 0])].

Example hashes_passes : both hashes = Ret true.
Proof. vm_compute. reflexivity. Qed.

Definition round_trips (s : string) : bool :=
  match FromString s with Ret ip => bool_decide (ToString ip = s) | _ => false end.

Definition addresses : outcome bool :=
  require [round_trips "10.0.1.255"; round_trips "0.0.0.0"; round_trips "255.255.255.255";
           throws_invalid (FromString "10.0.0"); throws_invalid (FromString "garbage");
           throws_invalid (FromString "256.0.0.0"); throws_invalid (FromString "1.2.3.999")].

Example addresses_passes : addresses = Ret true.
Proof. vm_compute. reflexivity. Qed.

End KeyTests.

(** ** test_control_view.cpp *)

Module ControlViewTests.

Definition view_zero : ControlView := mkControlView (mkShmHeader 0 0) 0 0 (replicate kMaxBackends ControlBackend_zero).

Definition buffer_zero : list ControlBackend := replicate kMaxBackends ControlBackend_zero.

Definition two : list ControlBackend :=
  [mkControlBackend 167772417 80 [170; 0; 0; 0; 0; 0] 1; mkControlBackend 167772418 8080 [0; 0; 0; 0; 0; 153] 0].

Definition publish_read : outcome bool :=
  let! view := PublishControl view_zero two 2 in
  let! '(seq, out, count) := ReadControl 1 view buffer_zero in
  let! b0 := at_ out 0 in
  let! b1 := at_ out 1 in
  require [count =? 2; Z.land seq 1 =? 0; cb_ip b0 =? 167772417; cb_port b0 =? 80; cb_enabled b0 =? 1;
           bool_decide (cb_mac b0 !! 0%nat = Some 170); cb_enabled b1 =? 0; bool_decide (cb_mac b1 !! 5%nat = Some 153)].

Example publish_read_passes : publish_read = Ret true.
Proof. vm_compute. reflexivity. Qed.

Definition seq_advances : outcome bool :=
  let! view := PublishControl view_zero [ControlBackend_zero] 1 in
  let! '(first, out, _) := ReadControl 1 view buffer_zero in
  let! view := PublishControl view [ControlBackend_zero] 1 in
  let! '(second, _, _) := ReadControl 1 view out in
  require [negb (second =? first)].

Example seq_advances_passes : seq_advances = Ret true.
Proof. vm_compute. reflexivity. Qed.

Definition count_clamped : outcome bool :=
  let! view := PublishControl view_zero (replicate kMaxBackends ControlBackend_zero) (Z.of_nat kMaxBackends + 10) in
  let! '(_, _, count) := ReadControl 1 view buffer_zero in
  require [count =? Z.of_nat kMaxBackends].

Example count_clamped_passes : count_clamped = Ret true.
Proof. vm_compute. reflexivity. Qed.

Definition headers : outcome bool :=
  let header := InitShmHeader (mkShmHeader 0 0) in
  require [negb (CheckShmHeader (mkShmHeader 0 0)); CheckShmHeader header;
           negb (CheckShmHeader (mkShmHeader (Z.lxor (magic header) 1) (version header)));
           negb (CheckShmHeader (mkShmHeader (magic header) (version header + 1)))].

Example headers_passes : headers = Ret true.
Proof. vm_compute. reflexivity. Qed.

End ControlViewTests.

(** ** test_graph.cpp *)

Module GraphTests.

(** The members of the test nodes: a counter per node, and what was recorded. *)
Record Seen := mkSeen { counters : list Z; recorded : list mbuf_ptr }.

Definition bump (k : nat) (n : Z) (w : Seen) : Seen :=
  mkSeen (<[k := counters w !!! k + n]> (counters w)) (recorded w).

(** [for (i < in.count) in.MoveTo(i, nexts[o])] for every [o] of [outs i]. *)
Fixpoint move_each (f : Frame) (moves : list (nat * nat)) (nexts : list Frame) : outcome (list Frame) :=
  match moves with
  | [] => Ret nexts
  | (i, o) :: moves =>
      let! dst := at_ nexts o in
      let! dst := MoveTo f i dst in
      move_each f moves (<[o := dst]> nexts)
  end.

Definition moves (f : Frame) (outs : nat -> list nat) : list (nat * nat) :=
  i ← seq 0 (Z.to_nat (count f)); pair i <$> outs i.

Definition CountNode (k : nat) (name : string) : Node Seen :=
  mkNode (fun w f nexts =>
    let w := bump k (count f) w in
    if negb (length nexts =? 0)%nat then
      let! nexts := move_each f (moves f (fun _ => [0%nat])) nexts in Ret (w, f, nexts)
    else Ret (w, f, nexts)) name 1.

Definition SplitNode : Node Seen :=
  mkNode (fun w f nexts => let! nexts := move_each f (moves f (fun i => [i mod 2])%nat) nexts in Ret (w, f, nexts)) "split" 2.

Definition SinkNode (k : nat) : Node Seen := mkNode (fun w f nexts => Ret (bump k (count f) w, f, nexts)) "sink" 0.

Definition ReplicateNode : Node Seen :=
  mkNode (fun w f nexts => let! nexts := move_each f (moves f (fun _ => [0; 1])%nat) nexts in Ret (w, f, nexts)) "replicate" 2.

Definition LoopNode (k : nat) : Node Seen :=
  mkNode (fun w f nexts =>
    let out := if counters w !!! k =? 0 then 0%nat else 1%nat in
    let! nexts := move_each f (moves f (fun _ => [out])) nexts in
    Ret (bump k 1 w, f, nexts)) "loop" 2.

Definition RecordNode : Node Seen :=
  mkNode (fun w f nexts => let! items := frame_items f in Ret (mkSeen (counters w) (recorded w ++ items), f, nexts)) "record" 0.

(** A graph from its nodes and wires, one burst of it, and what the nodes have seen. *)
Definition build (nodes : list (Node Seen)) (wires : list (Z * Z * Z)) : outcome (Graph Seen) :=
  foldl (fun g '(a, o, b) => let! g := g in Wire g a o b) (Ret (foldl (fun g n => (AddNode g n).2) Graph_empty nodes)) wires.

Definition test_burst (nodes : list (Node Seen)) (wires : list (Z * Z * Z)) (root : Frame) : outcome Seen :=
  let! g := build nodes wires in
  let! '(_, w) := RunOnce 100 g 0 (Dispatcher_new g) (mkSeen [0; 0; 0] []) root in
  Ret w.

Definition frame_of (n : Z) : Frame := mkFrame (bufs Frame_new) n.

Definition counted (m : outcome Seen) (l : list Z) : bool :=
  match m with Ret w => bool_decide (counters w = l) | _ => false end.

Definition chain : bool :=
  counted (test_burst [CountNode 0 "a"; CountNode 1 "b"; SinkNode 2] [(0, 0, 1); (1, 0, 2)] (frame_of 5)) [5; 5; 5].

Definition splitter : bool := counted (test_burst [SplitNode; SinkNode 1; SinkNode 2] [(0, 0, 1); (0, 1, 2)] (frame_of 6)) [0; 3; 3].

Definition unwired : bool := counted (test_burst [SplitNode; SinkNode 1] [(0, 0, 1)] (frame_of 6)) [0; 3; 0].

Definition bad_wires : bool :=
  throws_range (build [SinkNode 0] [(0, 0, 99)]) && throws_range (build [SinkNode 0] [(0, 0, 0)]).

Definition replicates : bool :=
  counted (test_burst [ReplicateNode; SinkNode 1] [(0, 0, 1); (0, 1, 1)] (frame_of kBurstSize)) [0; 2 * kBurstSize; 0].

Definition back_edge : bool := counted (test_burst [LoopNode 0; SinkNode 1] [(0, 0, 0); (0, 1, 1)] (frame_of 3)) [2; 3; 0].

Definition same_handle : bool :=
  match foldl (fun f m => let! f := f in Push f m) (Ret Frame_new) [11; 12; 13; 14] with
  | Ret root =>
      match test_burst [CountNode 0 "fwd"; RecordNode] [(0, 0, 1)] root with
      | Ret w => bool_decide (recorded w = [11; 12; 13; 14])
      | _ => false
      end
  | _ => false
  end.

Example graph_passes : require [chain; splitter; unwired; bad_wires; replicates; back_edge; same_handle] = Ret true.
Proof. vm_compute. reflexivity. Qed.

End GraphTests.
